(* ===== verification/_CoqProject ===== *)
-Q . S2P
Prelude.v
GoMem.v
BytesUtil.v
GoText.v
Json.v
RpcMessage.v
RpcArgs.v
RpcService.v
GoChan.v
RpcSubscription.v
RpcClientSub.v
RpcHandler.v
RpcHandlerProps.v
RpcFrame.v
RpcClient.v
RpcWire.v
RpcWireSub.v
RpcClientProps.v
RpcWireBatch.v
RpcDispatch.v
RpcClose.v
RpcTypes.v
RpcServer.v
RpcServerProps.v
RpcClientApi.v
EpochExtractor.v
GoPath.v
GoFs.v
Ipc.v
RouteGuide.v
RouteDistance.v
RouteData.v
RouteClient.v
FileUtil.v
Bls.v
Wallet.v
Keymanager.v
RootMain.v
Assertions.v
Orchestrator.v
Cli.v
OrchestratorMain.v
Experiments.v
