(* ===== verification/Prelude.v ===== *)
(** * A verification library for the eth-research Go repository

    The repository is a set of small programs and packages around Ethereum 2 research.
    This library translates their code into executable definitions and proves what makes
    them correct, or, where the code does something else, what it does.

    ** The parts and how they interact

    - [simple_rpc/rpc] is a JSON-RPC 2.0 client and server over connections that carry
      JSON texts in both directions.  A connection has a codec (json.go), a handler
      (handler.go) that pairs answers with requests and runs calls in goroutines, and a
      client (client.go) whose dispatch loop owns the handler.  Methods are found in a
      registry (service.go); subscriptions (subscription.go) are created by a call and
      then send notifications.  A server (server.go, endpoints.go, ipc.go) gives every
      connection that it accepts a client of its own.
    - [simple_rpc/main.go], [api] and [ipc-client] are the orchestrator: a service
      registered on such a server, and the client that calls it; [utils] has its flags.
    - [main.go] opens a wallet, signs and verifies.  [wallet] opens a directory of keys
      with [fileutil] and signs with [bls], which wraps a curve library; [bytesutil] converts integers, byte arrays and bit lists.
    - [epoch-extractor] follows the head of a beacon chain and keeps the proposers of the
      current and the next epoch.
    - [route_guide/server] is a gRPC service with streams and a chat room, and
      [route_guide/client] the program that calls it.
    - [testutil] has assertions for tests, and [golang_test] experiments with Go.

    ** Files

    The Go language and its standard library:
    - Prelude (this file): the outcomes of a piece of code, [go], which is state passing
      over outcomes, error results, arithmetic of fixed width.
    - GoMem: slices over shared backing arrays.  GoText: strings, strconv, hex.
      GoChan: buffered channels, the interface [JsonWriter] of connections.
    - GoPath: paths and environment variables in them.  GoFs: a file system.
    - Json: JSON texts as encoding/json reads and writes them.

    The components, with the file of the code each follows:
    - BytesUtil: [bytesutil/bytes.go], over GoMem.
    - RpcMessage: [errors.go], [json.go] (errors, messages, codec).  RpcArgs: the
      positional arguments of [json.go].  RpcService: [service.go].
    - RpcSubscription: IDs and the [Notifier] of [subscription.go].  RpcClientSub: the
      [ClientSubscription] there and the goroutines that use one.
    - RpcHandler: [handler.go], its state and every method, with the [quitOnce] of each
      client subscription, in which [close] may come to stand and from which it is
      resumed.  RpcHandlerProps: its invariants and theorems.  RpcFrame: what its methods leave alone.
    - RpcClient: [client.go], the dispatch loop, [send], the goroutines that unsubscribe
      and what each method makes of the answers.  RpcClientProps and RpcDispatch: its
      theorems.  RpcClose: closing a client, [Close], and the deadlock with an
      unsubscribing goroutine.  RpcWire, RpcWireSub and
      RpcWireBatch: a client and a server at the two ends of a connection, for calls,
      subscriptions and batches.  RpcClientApi: dialling, the contexts of
      callbacks, [SupportedModules].
    - RpcTypes: block numbers and hashes of [types.go].
    - RpcServer and RpcServerProps: [server.go], [endpoints.go], [ipc.go].  Ipc:
      [ipc_unix.go] and the files for other platforms.
    - Orchestrator: [simple_rpc/api] and the call of [ipc-client].  Cli: [simple_rpc/utils].
      OrchestratorMain: [main.go] of [simple_rpc], its commands, help and application.
    - EpochExtractor: [epoch-extractor/main.go].
    - RouteGuide: the handlers of [route_guide/server].  RouteDistance: [calcDistance].
      RouteData: the embedded features and their loading.  RouteClient:
      [route_guide/client].
    - FileUtil: [fileutil].  Bls: [bls], [bls/herumi], [rand].  Wallet: [wallet.go].
      Keymanager: [keymanager.go] and [types.go] of [wallet].  RootMain: [main.go].
    - Assertions: [testutil].  Experiments: [golang_test].

    Definitions have the names of the functions they translate, a trailing or leading
    word added where a name is taken; a loop of a function is a [Fixpoint] of its own,
    named after it.  Operations that can panic or block are in [outcome] or [go]; a Go
    [error] is an [Err] of [result].  A pointer that is shared is a location in a heap of
    the state.  Goroutines are threads with a program counter, or pending jobs, and a
    concurrent component is a step relation ([nstep], [cstep], [client_step],
    [server_step], [chat_step], [sys_step]) whose steps are the operations between which the
    scheduler can switch.  Third-party code is an argument of a section or a class
    ([Bls12], [EthTypes], [CodecSet], [CliContext], [JsonWriter]); what a theorem needs of
    it is a hypothesis or a class of laws ([Pairing], [InfiniteKeys], [EthLaws], [CliLaws])
    with an instance in a witness.

    ** What the theorems show

    - Messages: what the codec writes is read back at the other end ([codec_roundtrip]);
      calls, notifications and responses are told apart exclusively ([message_kinds]).
      Arguments are decoded as a reference definition says
      ([parsePositionalArguments_spec]), except that null is let through for a required
      one ([null_for_required_argument]).  The registry makes exactly the suitable
      methods reachable ([newCallback_spec], [registerName_spec]), whose counterpart for a
      started endpoint is [StartIPCEndpoint_spec].
    - Handler: in any reachable state it does not panic and blocks only when it closes,
      on calls that are running or in the [quitOnce] of a subscription that another
      goroutine is quitting ([handler_never_stuck]),
      answers conform to JSON-RPC ([job_answers], [call_dispatch]), a response reaches
      the request that waits for it once ([response_delivered_once]), cancelling fails
      every request but the one in flight and then quits the subscriptions as far as
      nobody else is quitting them ([cancelAllRequests_spec]), channels of
      subscriptions are closed once ([server_subscription_closed_once]).
    - Client: the loop does not panic and blocks in the two places of the handler only
      ([dispatch_never_stuck]), the channel that is a lock is one ([send_lock]), closing
      fails every request and releases whoever is unsubscribing ([client_close_spec]), so
      that [Close] itself can come to its end ([Close_spec]) unless the loop already
      stands at a subscription after a read error: then it may hang for ever, together
      with the goroutine that is unsubscribing and any [Close] ([unsubscribe_deadlock]);
      batches are matched by ID ([batch_responses_matched],
      [nextID_distinct]), and a request written just before a read error is lost for ever
      ([inflight_request_stranded]).
    - Subscriptions: notifications follow the answer in order without loss
      ([notifications_after_answer]), those received reach the subscriber in order up to
      20000 waiting ones ([forward_fifo]), and no channel is misused
      ([client_subscription_safe]).
    - Composition: over a connection, whose ends write and read texts, a call returns what
      the callback at the other end returns ([call_over_connection]), a batch what each of
      its callbacks returns ([batch_over_connection]), a subscription delivers what its
      callback notifies ([subscribe_over_connection]), and [SupportedModules] the names of
      the services ([SupportedModules_over_connection]).  The orchestrator's two commands
      meet at one socket and exchange the service's shard info
      ([orchestrator_end_to_end]).
    - Server: a served connection that ends is closed and removed, but [Stop] closes only
      one of those that are open ([ServeCodec_closes]) and misses one that is accepted at
      the same time ([Stop_misses_codec]); single requests end ([serveSingleRequest_spec]);
      a started endpoint serves its APIs ([StartIPCEndpoint_spec]).
    - Epochs: the schedules follow the head ([schedules_current]) unless it jumps
      ([skipped_epoch_stale]).  Chat: the goroutines implement a room with atomic posts
      ([RouteChat_refines_room]), and the client's chat gets what the room answers
      ([runRouteChat_gets_room]).  Routes: [ListFeatures_spec], [RecordRoute_spec]; walked
      backwards they are as long ([RecordRoute_backwards]).  The server of the embedded
      features answers everywhere ([newServer_serves]) and serves the client's program
      ([main_requests_served]).
    - Files: a tree is copied whole ([CopyDir_spec]) when the names of its directories are
      not changed by the expansion of variables ([CopyDir_dollar]) and the destination is
      not below the source ([CopyDir_into_itself]); [MkdirAll_spec].
    - Keys: the cache hands out isolated keys ([PublicKeyFromBytes_isolated]), aggregates
      and batches verify when the signatures are valid, and do not when one is not
      ([AggregateSignatures_verifies]; for batches up to a number drawn as zero,
      [VerifyMultipleSignatures_spec]), wallets open when the path as given leads to them
      ([OpenWallet_spec], [OpenWallet_tilde]), keymanagers sign ([NewKeymanager_signs]), though for one
      keymanager only ([Sign_after_another]) and all slots alike ([Hash_constant]); the
      program of the repository does not verify what it signs ([main_outcome]).
    - Experiments: each comes to its end for every schedule ([ContextWithCancel_terminates],
      [WaitForWorker_terminates], [Start_loses_error]) but the start of a connected service
      ([Start_connected_blocks]).

    ** Bounds and fuel

    Integers have the width of the code, with the wrap-around written out ([wrapu],
    [wraps]).  Fuel: [fuel_for] of a text is enough for the scanner of Json, which the
    last lemma of that file shows; a loop over two indices gets the length of its slice;
    [Expand] the length of its text.  [CopyDir], [walk_files], [EncodeRLP] and [DecodeRLP]
    take their fuel as an argument and answer [None] without it, since the code need not
    return: [CopyDir_spec] gives the fuel that is enough, the depth of the tree, and
    [CopyDir_into_itself] (in this file system without limits; the program ends with an
    error when a path has become too long) and [Hash_constant] say where none is.  The fuel of [g] and of
    [scan_loop] in Experiments is enough by their theorems.  The buffer of a client
    subscription is the code's constant, 20000.

    ** Not modelled

    Logging and metrics other than the gauges, where a log is not a result of the program;
    time (deadlines and timeouts are events that may happen); what the operating system
    does with sockets, pipes and signals; gRPC and its generated code; the texts of the
    help templates; the comments of [doc.go].  The scheduler may starve a goroutine:
    liveness is stated as what can happen from a state, or never can.  The file system
    has no links and one user, fails only for names and kinds, and limits neither the
    length of a path nor its own size. *)

From Stdlib Require Export ZArith Lia.
From stdpp Require Export base option list list_numbers gmap strings sets.

(** ** Outcomes of a piece of Go code

    A Go statement sequence run to its end either returns, panics, or stops
    at a channel operation that only another goroutine can complete.  Go
    [error] results are ordinary values and are not outcomes. *)

Inductive outcome (A : Type) : Type :=
| Ret (a : A)
| Panic (msg : string)
| Blocks (on : string).
Arguments Ret {A} a.
Arguments Panic {A} msg.
Arguments Blocks {A} on.

#[export] Instance outcome_ret : MRet outcome := @Ret.
#[export] Instance outcome_bind : MBind outcome := λ A B f m,
  match m with
  | Ret a => f a
  | Panic e => Panic e
  | Blocks c => Blocks c
  end.

(** Go code over a state [S]: explicit state passing over [outcome]. *)
Definition go (S A : Type) : Type := S → outcome (A * S).

#[export] Instance go_ret {S} : MRet (go S) := λ A a s, Ret (a, s).
#[export] Instance go_bind {S} : MBind (go S) := λ A B f m s,
  match m s with
  | Ret (a, s') => f a s'
  | Panic e => Panic e
  | Blocks c => Blocks c
  end.

Definition go_panic {S A} (msg : string) : go S A := λ _, Panic msg.
Definition go_block {S A} (on : string) : go S A := λ _, Blocks on.
Definition go_get {S} : go S S := λ s, Ret (s, s).
Definition go_put {S} (s' : S) : go S unit := λ _, Ret ((), s').
Definition go_modify {S} (f : S → S) : go S unit := λ s, Ret ((), f s).

(** [for _, x := range l { body }] *)
Fixpoint go_for {S A} (l : list A) (body : A → go S unit) : go S unit :=
  match l with
  | [] => mret ()
  | x :: l' => body x ;; go_for l' body
  end.

Lemma go_bind_run {S A B} (m : go S A) (f : A → go S B) s :
  (m ≫= f) s = (match m s with
                | Ret (a, s') => f a s'
                | Panic e => Panic e
                | Blocks c => Blocks c
                end).
Proof. reflexivity. Qed.

Lemma go_bind_ret_run {S A B} (m : go S A) (f : A → go S B) s a s' :
  m s = Ret (a, s') → (m ≫= f) s = f a s'.
Proof. intros H. rewrite go_bind_run, H. reflexivity. Qed.

Lemma go_bind_inv {S A B} (m : go S A) (f : A → go S B) s b s' :
  (m ≫= f) s = Ret (b, s') →
  ∃ a s1, m s = Ret (a, s1) ∧ f a s1 = Ret (b, s').
Proof.
  rewrite go_bind_run. destruct (m s) as [[a s1]| |]; try discriminate. eauto.
Qed.

(** A loop whose body never fails and keeps an invariant ends in a state with
    the invariant. *)
Lemma go_for_inv {S A} (P : S → Prop) (l : list A) (body : A → go S unit) :
  (∀ x s, x ∈ l → P s → ∃ s', body x s = Ret ((), s') ∧ P s') →
  ∀ s, P s → ∃ s', go_for l body s = Ret ((), s') ∧ P s'.
Proof.
  induction l as [|x l IH]; intros Hbody s Hs.
  { exists s. split; [reflexivity|done]. }
  destruct (Hbody x s) as (s1 & H1 & Hs1); [constructor|done|].
  destruct (IH (λ y t Hy, Hbody y t ltac:(right; exact Hy)) s1 Hs1) as (s2 & H2 & Hs2).
  exists s2. cbn. rewrite go_bind_run, H1. auto.
Qed.

Lemma go_for_app {S A} (l1 l2 : list A) (body : A → go S unit) s :
  go_for (l1 ++ l2) body s = (go_for l1 body ;; go_for l2 body) s.
Proof.
  revert s; induction l1 as [|x l1 IH]; intros s; [reflexivity|].
  cbn. rewrite !go_bind_run. by destruct (body x s) as [[[] s1]| |].
Qed.

(** ** Results of functions that return [(T, error)] *)

Inductive result (E A : Type) : Type :=
| Ok (a : A)
| Err (e : E).
Arguments Ok {E A} a.
Arguments Err {E A} e.

#[export] Instance result_ret {E} : MRet (result E) := λ A a, Ok a.
#[export] Instance result_bind {E} : MBind (result E) := λ A B f m,
  match m with Ok a => f a | Err e => Err e end.

#[export] Instance result_eq_dec {E A} `{EqDecision E, EqDecision A} : EqDecision (result E A).
Proof. solve_decision. Defined.

(** ** Machine integers

    An unsigned [w]-bit Go integer is a [Z] in [0 .. 2^w); a conversion to it
    is [wrapu w].  A signed one is a [Z] in [-2^(w-1) .. 2^(w-1)); a conversion
    is [wraps w]. *)

Definition wrapu (w z : Z) : Z := (z mod 2 ^ w)%Z.
Definition wraps (w z : Z) : Z := ((z + 2 ^ (w - 1)) mod 2 ^ w - 2 ^ (w - 1))%Z.
Definition in_u (w z : Z) : Prop := (0 ≤ z < 2 ^ w)%Z.
Definition in_s (w z : Z) : Prop := (- 2 ^ (w - 1) ≤ z < 2 ^ (w - 1))%Z.

Abbreviation byte_ok := (in_u 8).

Create HintDb go_db.

Section machine_ints.
Local Open Scope Z_scope.

Lemma wrapu_range w z : 0 ≤ w → in_u w (wrapu w z).
Proof. intros. apply Z.mod_pos_bound, Z.pow_pos_nonneg; lia. Qed.

Lemma wrapu_id w z : in_u w z → wrapu w z = z.
Proof. intros H. apply Z.mod_small, H. Qed.

Lemma wraps_range w z : 1 ≤ w → in_s w (wraps w z).
Proof.
  intros Hw. unfold in_s, wraps.
  assert (2 ^ w = 2 * 2 ^ (w - 1)) as ->.
  { replace w with (Z.succ (w - 1)) at 1 by lia. apply Z.pow_succ_r; lia. }
  assert (0 < 2 ^ (w - 1)) by (apply Z.pow_pos_nonneg; lia).
  pose proof (Z.mod_pos_bound (z + 2 ^ (w - 1)) (2 * 2 ^ (w - 1))). lia.
Qed.

Lemma wraps_add_l w a b : 0 ≤ w → wraps w (wraps w a + b) = wraps w (a + b).
Proof.
  intros Hw. unfold wraps. f_equal.
  replace ((a + 2 ^ (w - 1)) mod 2 ^ w - 2 ^ (w - 1) + b + 2 ^ (w - 1))
    with ((a + 2 ^ (w - 1)) mod 2 ^ w + b) by lia.
  rewrite Z.add_mod_idemp_l; [f_equal; lia|]. pose proof (Z.pow_pos_nonneg 2 w). lia.
Qed.

Lemma wraps_id w z : 1 ≤ w → in_s w z → wraps w z = z.
Proof.
  intros Hw. unfold in_s, wraps. intros Hz.
  assert (2 ^ w = 2 * 2 ^ (w - 1)) as ->.
  { replace w with (Z.succ (w - 1)) at 1 by lia. apply Z.pow_succ_r; lia. }
  rewrite Z.mod_small by lia. lia.
Qed.

(** A value of [w] bits has no bit at or above [w]. *)
Lemma in_u_testbit_high w z i : in_u w z → w ≤ i → Z.testbit z i = false.
Proof.
  intros [H0 H1] Hi. destruct (decide (z = 0)) as [->|Hz]; [apply Z.bits_0|].
  apply Z.bits_above_log2; [done|].
  apply Z.log2_lt_pow2; [lia|].
  eapply Z.lt_le_trans; [exact H1|]. apply Z.pow_le_mono_r; lia.
Qed.

Lemma in_u_lor w a b : 0 ≤ w → in_u w a → in_u w b → in_u w (Z.lor a b).
Proof.
  intros Hw Ha Hb. split; [apply Z.lor_nonneg; split; [apply Ha|apply Hb]|].
  destruct (decide (Z.lor a b = 0)) as [->|Hn]; [apply Z.pow_pos_nonneg; lia|].
  assert (0 ≤ Z.lor a b) by (apply Z.lor_nonneg; split; [apply Ha|apply Hb]).
  apply Z.log2_lt_pow2; [lia|]. apply Z.nle_gt. intros Hle.
  assert (Z.testbit (Z.lor a b) (Z.log2 (Z.lor a b)) = true) as Hbit
    by (apply Z.bit_log2; lia).
  rewrite Z.lor_spec, (in_u_testbit_high w a), (in_u_testbit_high w b) in Hbit by done.
  done.
Qed.

Lemma bits_subset_le a b : 0 ≤ b → (∀ i, 0 ≤ i → Z.testbit a i = true → Z.testbit b i = true) → a ≤ b.
Proof.
  intros Hb Hsub. apply (Z.ldiff_le a b Hb). apply Z.bits_inj'. intros n Hn.
  rewrite Z.ldiff_spec, Z.bits_0. specialize (Hsub n Hn).
  destruct (Z.testbit a n); [rewrite Hsub by done; done|done].
Qed.

Lemma in_u_land w a b : in_u w a → in_u w (Z.land a b).
Proof.
  intros [Ha1 Ha2]. split; [apply Z.land_nonneg; lia|].
  eapply Z.le_lt_trans; [apply (bits_subset_le _ a Ha1)|exact Ha2].
  intros i _. rewrite Z.land_spec, andb_true_iff. tauto.
Qed.

Lemma in_u_ldiff w a b : in_u w a → in_u w (Z.ldiff a b).
Proof.
  intros [Ha1 Ha2]. split; [apply Z.ldiff_nonneg; lia|].
  eapply Z.le_lt_trans; [apply (bits_subset_le _ a Ha1)|exact Ha2].
  intros i _. rewrite Z.ldiff_spec, andb_true_iff. tauto.
Qed.
End machine_ints.

#[export] Hint Resolve wrapu_range wraps_range in_u_lor in_u_land in_u_ldiff : go_db.

(** ** Generic list lemmas *)

Section lists.
Context {A : Type}.
Implicit Types l k : list A.

Lemma take_app_drop_insert l (i : nat) x :
  i < length l → <[i := x]> l = take i l ++ x :: drop (S i) l.
Proof. apply insert_take_drop. Qed.

Lemma Forall_insert (P : A → Prop) l (i : nat) x :
  Forall P l → P x → Forall P (<[i := x]> l).
Proof. intros Hl Hx. apply Forall_insert; auto. Qed.

(** Splitting a list at a known position. *)
Lemma list_split_lookup l (i : nat) x :
  l !! i = Some x → l = take i l ++ x :: drop (S i) l.
Proof. intros H. symmetry. by apply take_drop_middle. Qed.
End lists.

(** ** Tactics *)

(** Case analysis on every [if]/[match] of the goal with the scrutinee's
    equation kept, closing the contradictory branches. *)
Ltac split_cases := repeat (case_match; simplify_eq/=; try done).

(** Run one bind of a [go] computation whose first part is known. *)
Ltac go_step H := rewrite (go_bind_ret_run _ _ _ _ _ H).
