(* ===== verification/GoMem.v ===== *)
(** * Go byte slices over a shared store

    A [mem] is the list of the backing arrays allocated so far, each a list of
    byte values; a slice header names a backing array, an offset into it, a
    length and a capacity, and [nil] is [None].  [append] writes into the spare
    capacity of its argument when there is some, so two headers can share
    bytes; that is what the definitions over this store have to account for. *)

From S2P Require Import Prelude.
Local Open Scope Z_scope.

Abbreviation mem := (list (list Z)).

Record slice := Slice { sl_blk : nat; sl_off : nat; sl_len : nat; sl_cap : nat }.
Abbreviation bslice := (option slice).

#[export] Instance slice_eq_dec : EqDecision slice.
Proof. solve_decision. Defined.

Definition block (m : mem) (b : nat) : list Z := default [] (m !! b).

(** The bytes of a slice up to its capacity, and up to its length. *)
Definition backing (m : mem) (s : bslice) : list Z :=
  match s with
  | None => []
  | Some s => take (sl_cap s) (drop (sl_off s) (block m (sl_blk s)))
  end.
Definition content (m : mem) (s : bslice) : list Z :=
  match s with
  | None => []
  | Some s => take (sl_len s) (drop (sl_off s) (block m (sl_blk s)))
  end.

Definition glen (s : bslice) : Z := match s with None => 0 | Some s => Z.of_nat (sl_len s) end.
Definition gcap (s : bslice) : Z := match s with None => 0 | Some s => Z.of_nat (sl_cap s) end.

Definition slice_ok (m : mem) (s : bslice) : Prop :=
  match s with
  | None => True
  | Some s => (sl_blk s < length m)%nat ∧ (sl_len s ≤ sl_cap s)%nat ∧
              (sl_off s + sl_cap s ≤ length (block m (sl_blk s)))%nat
  end.

(** Overwrite [vs] at position [off] of a backing array. *)
Definition splice (off : nat) (vs b : list Z) : list Z :=
  take off b ++ vs ++ drop (off + length vs) b.
Definition store (m : mem) (blk off : nat) (vs : list Z) : mem :=
  alter (splice off vs) blk m.

Definition zeros (n : nat) : list Z := replicate n 0.

Definition gmake (n : Z) : go mem bslice := λ m,
  if n <? 0 then Panic "makeslice: len out of range"
  else Ret (Some (Slice (length m) 0 (Z.to_nat n) (Z.to_nat n)), m ++ [zeros (Z.to_nat n)]).

Definition greslice (s : bslice) (lo hi : Z) : go mem bslice :=
  if (0 <=? lo) && (lo <=? hi) && (hi <=? gcap s) then
    mret (match s with
          | None => None
          | Some s => Some (Slice (sl_blk s) (sl_off s + Z.to_nat lo)
                              (Z.to_nat (hi - lo)) (sl_cap s - Z.to_nat lo))
          end)
  else go_panic "slice bounds out of range".

Definition gindex (s : bslice) (i : Z) : go mem Z := λ m,
  match (if i <? 0 then None else content m s !! Z.to_nat i) with
  | Some v => Ret (v, m)
  | None => Panic "index out of range"
  end.

Definition gset (s : bslice) (i v : Z) : go mem unit := λ m,
  match s with
  | Some h => if (0 <=? i) && (i <? glen s)
              then Ret ((), store m (sl_blk h) (sl_off h + Z.to_nat i) [v])
              else Panic "index out of range"
  | None => Panic "index out of range"
  end.

(** [copy(dst, src)]: the first [min (len dst) (len src)] bytes. *)
Definition gcopy (dst src : bslice) : go mem unit := λ m,
  match dst with
  | Some h => Ret ((), store m (sl_blk h) (sl_off h) (take (sl_len h) (content m src)))
  | None => Ret ((), m)
  end.

Section append.
(** The capacity [append] picks for a new backing array is not specified; it
    is at least what is needed. *)
Context (grow : nat → nat → nat).

Definition gappend (s : bslice) (vs : list Z) : go mem bslice := λ m,
  let need := (Z.to_nat (glen s) + length vs)%nat in
  if (need <=? Z.to_nat (gcap s))%nat then
    match s with
    | None => Ret (None, m)
    | Some h => Ret (Some (Slice (sl_blk h) (sl_off h) need (sl_cap h)),
                     store m (sl_blk h) (sl_off h + sl_len h) vs)
    end
  else
    let c := Nat.max need (grow (Z.to_nat (gcap s)) need) in
    Ret (Some (Slice (length m) 0 need c),
         m ++ [content m s ++ vs ++ zeros (c - need)]).
End append.

(** ** Lemmas *)

Lemma length_splice off vs b :
  (off + length vs ≤ length b)%nat → length (splice off vs b) = length b.
Proof. intros. unfold splice. rewrite !length_app, length_take, length_drop. lia. Qed.

Lemma splice_drop off o vs b :
  (o ≤ off)%nat → (off + length vs ≤ length b)%nat →
  drop o (splice off vs b) = splice (off - o) vs (drop o b).
Proof.
  intros Ho Hl. unfold splice.
  rewrite drop_app_le by (rewrite length_take; lia).
  rewrite take_drop_commute, drop_drop.
  by replace (o + (off - o))%nat with off by lia;
    replace (o + (off - o + length vs))%nat with (off + length vs)%nat by lia.
Qed.

Lemma splice_take off n vs b :
  (off + length vs ≤ n)%nat → (off + length vs ≤ length b)%nat →
  take n (splice off vs b) = splice off vs (take n b).
Proof.
  intros Hn Hl. unfold splice.
  rewrite take_app_ge by (rewrite length_take; lia).
  rewrite take_app_ge by (rewrite length_take; lia).
  rewrite take_take, length_take. f_equal; [f_equal; lia|]. f_equal.
  rewrite take_drop_commute. do 2 f_equal. lia.
Qed.

Lemma splice_take_before off n vs b :
  (n ≤ off)%nat → (off ≤ length b)%nat → take n (splice off vs b) = take n b.
Proof.
  intros Hn Hl. unfold splice.
  rewrite take_app_le by (rewrite length_take; lia). by rewrite take_take, Nat.min_l by lia.
Qed.

Lemma splice_singleton off v b :
  (off < length b)%nat → splice off [v] b = <[off := v]> b.
Proof. intros. unfold splice. rewrite insert_take_drop by done. cbn. by rewrite Nat.add_1_r. Qed.

Lemma splice_full vs b : length vs = length b → splice 0 vs b = vs.
Proof. intros H. unfold splice. cbn. rewrite H, drop_all. apply app_nil_r. Qed.

Lemma block_store_eq m blk off vs :
  (blk < length m)%nat → block (store m blk off vs) blk = splice off vs (block m blk).
Proof.
  intros H. unfold block, store. rewrite list_lookup_alter_eq.
  destruct (lookup_lt_is_Some_2 m blk H) as [b ->]. done.
Qed.

Lemma block_store_ne m blk blk' off vs :
  blk ≠ blk' → block (store m blk off vs) blk' = block m blk'.
Proof. intros H. unfold block, store. by rewrite list_lookup_alter_ne. Qed.

Lemma length_store m blk off vs : length (store m blk off vs) = length m.
Proof. apply length_alter. Qed.

Lemma block_app_new (m : mem) b : block (m ++ [b]) (length m) = b.
Proof. unfold block. by rewrite lookup_app_r, Nat.sub_diag by lia. Qed.

Lemma block_app_old (m : mem) b i : (i < length m)%nat → block (m ++ [b]) i = block m i.
Proof. intros. unfold block. by rewrite lookup_app_l. Qed.

Lemma length_content m s : slice_ok m s → Z.of_nat (length (content m s)) = glen s.
Proof.
  destruct s as [h|]; [|done]. intros (_ & H1 & H2). cbn.
  rewrite length_take, length_drop. lia.
Qed.

Lemma length_backing m s : slice_ok m s → Z.of_nat (length (backing m s)) = gcap s.
Proof.
  destruct s as [h|]; [|done]. intros (_ & H1 & H2). cbn.
  rewrite length_take, length_drop. lia.
Qed.

Lemma content_backing m s :
  slice_ok m s → content m s = take (Z.to_nat (glen s)) (backing m s).
Proof.
  destruct s as [h|]; [|done]. intros (_ & H1 & H2). cbn.
  by rewrite take_take, Nat.min_l, Nat2Z.id by lia.
Qed.

Lemma slice_ok_store m s blk off vs :
  (off + length vs ≤ length (block m blk))%nat →
  slice_ok m s → slice_ok (store m blk off vs) s.
Proof.
  destruct s as [h|]; [|done]. intros Hl (H0 & H1 & H2). split_and!.
  - by rewrite length_store.
  - done.
  - destruct (decide (blk = sl_blk h)) as [->|Hne].
    + by rewrite block_store_eq, length_splice.
    + by rewrite block_store_ne.
Qed.

Lemma slice_ok_alloc m s b : slice_ok m s → slice_ok (m ++ [b]) s.
Proof.
  destruct s as [h|]; [|done]. intros (H0 & H1 & H2). split_and!.
  - rewrite length_app. cbn. lia.
  - done.
  - by rewrite block_app_old.
Qed.

Lemma content_alloc m s b : slice_ok m s → content (m ++ [b]) s = content m s.
Proof. destruct s as [h|]; [|done]. intros (H0 & _). cbn. by rewrite block_app_old. Qed.

Lemma backing_alloc m s b : slice_ok m s → backing (m ++ [b]) s = backing m s.
Proof. destruct s as [h|]; [|done]. intros (H0 & _). cbn. by rewrite block_app_old. Qed.

(** A store through a header, seen through that header. *)
Lemma backing_store m h i vs :
  slice_ok m (Some h) → (i + length vs ≤ sl_cap h)%nat →
  backing (store m (sl_blk h) (sl_off h + i) vs) (Some h) = splice i vs (backing m (Some h)).
Proof.
  intros (H0 & H1 & H2) Hi. cbn. rewrite block_store_eq by done.
  rewrite splice_drop by lia.
  rewrite splice_take by (rewrite ?length_drop; lia). do 2 f_equal. lia.
Qed.

Lemma content_store m h i vs :
  slice_ok m (Some h) → (i + length vs ≤ sl_len h)%nat →
  content (store m (sl_blk h) (sl_off h + i) vs) (Some h) = splice i vs (content m (Some h)).
Proof.
  intros (H0 & H1 & H2) Hi. cbn. rewrite block_store_eq by done.
  rewrite splice_drop by lia.
  rewrite splice_take by (rewrite ?length_drop; lia). do 2 f_equal. lia.
Qed.

(** A store into one array is invisible through a header of another array. *)
Lemma content_store_ne m s blk off vs :
  (∀ h, s = Some h → sl_blk h ≠ blk) → content (store m blk off vs) s = content m s.
Proof.
  destruct s as [h|]; [|done]. intros H. cbn. rewrite block_store_ne; [done|].
  intros ->. by eapply H.
Qed.

Lemma gmake_run m n :
  0 ≤ n → gmake n m = Ret (Some (Slice (length m) 0 (Z.to_nat n) (Z.to_nat n)),
                           m ++ [zeros (Z.to_nat n)]).
Proof. intros H. unfold gmake. destruct (Z.ltb_spec n 0); [lia|done]. Qed.

Lemma gmake_neg m n : n < 0 → gmake n m = Panic "makeslice: len out of range".
Proof. intros H. unfold gmake. destruct (Z.ltb_spec n 0); [done|lia]. Qed.

(** A header on the array allocated last. *)
Lemma slice_ok_new (m : mem) b n c :
  (n ≤ c)%nat → (c ≤ length b)%nat → slice_ok (m ++ [b]) (Some (Slice (length m) 0 n c)).
Proof.
  intros Hn Hc. unfold slice_ok; cbn [sl_blk sl_len sl_cap sl_off].
  rewrite length_app, block_app_new. cbn. lia.
Qed.

Lemma content_new (m : mem) b n c :
  content (m ++ [b]) (Some (Slice (length m) 0 n c)) = take n b.
Proof. cbn. by rewrite block_app_new, drop_0. Qed.

Lemma gmake_ok m n : slice_ok (m ++ [zeros n]) (Some (Slice (length m) 0 n n)).
Proof. apply slice_ok_new; [done|]. unfold zeros. by rewrite length_replicate. Qed.

Lemma greslice_run m h lo hi :
  0 ≤ lo ≤ hi → hi ≤ Z.of_nat (sl_cap h) →
  greslice (Some h) lo hi m =
    Ret (Some (Slice (sl_blk h) (sl_off h + Z.to_nat lo) (Z.to_nat (hi - lo))
                 (sl_cap h - Z.to_nat lo)), m).
Proof.
  intros H1 H2. unfold greslice. cbn [gcap].
  by rewrite !(proj2 (Z.leb_le _ _)) by lia.
Qed.

Lemma greslice_ok m h lo hi :
  slice_ok m (Some h) → 0 ≤ lo ≤ hi → hi ≤ Z.of_nat (sl_cap h) →
  slice_ok m (Some (Slice (sl_blk h) (sl_off h + Z.to_nat lo) (Z.to_nat (hi - lo))
                      (sl_cap h - Z.to_nat lo))).
Proof. intros (H0 & H1 & H2) Hl Hh. split_and!; cbn; lia || done. Qed.

Lemma gindex_run m s i v :
  0 ≤ i → content m s !! Z.to_nat i = Some v → gindex s i m = Ret (v, m).
Proof. intros Hi Hv. unfold gindex. destruct (Z.ltb_spec i 0); [lia|]. by rewrite Hv. Qed.

Lemma gindex_oob m s i :
  slice_ok m s → (i < 0 ∨ glen s ≤ i) → gindex s i m = Panic "index out of range".
Proof.
  intros Hs Hi. unfold gindex. destruct (Z.ltb_spec i 0); [done|].
  rewrite lookup_ge_None_2; [done|]. pose proof (length_content m s Hs). lia.
Qed.

Lemma gset_run m h i v :
  0 ≤ i < Z.of_nat (sl_len h) →
  gset (Some h) i v m = Ret ((), store m (sl_blk h) (sl_off h + Z.to_nat i) [v]).
Proof.
  intros Hi. unfold gset. cbn [glen].
  destruct (Z.leb_spec 0 i); [|lia]. destruct (Z.ltb_spec i (Z.of_nat (sl_len h))); [done|lia].
Qed.

Section append_lemmas.
Context (grow : nat → nat → nat).

Lemma gappend_in_place m h vs :
  (sl_len h + length vs ≤ sl_cap h)%nat →
  gappend grow (Some h) vs m =
    Ret (Some (Slice (sl_blk h) (sl_off h) (sl_len h + length vs) (sl_cap h)),
         store m (sl_blk h) (sl_off h + sl_len h) vs).
Proof.
  intros H. unfold gappend. cbn [glen gcap]. rewrite !Nat2Z.id.
  by rewrite (proj2 (Nat.leb_le _ _)) by lia.
Qed.

Lemma gappend_grow m s vs :
  gcap s < glen s + Z.of_nat (length vs) →
  ∃ c, (Z.to_nat (glen s) + length vs ≤ c)%nat ∧
  gappend grow s vs m =
    Ret (Some (Slice (length m) 0 (Z.to_nat (glen s) + length vs) c),
         m ++ [content m s ++ vs ++ zeros (c - (Z.to_nat (glen s) + length vs))]).
Proof.
  intros H. unfold gappend. rewrite (proj2 (Nat.leb_gt _ _)).
  - eexists. split; [|reflexivity]. lia.
  - destruct s; cbn in *; lia.
Qed.

(** Whatever the capacity, the result holds the old content and the new
    bytes after it. *)
Lemma gappend_content m s vs :
  slice_ok m s →
  ∃ s' m', gappend grow s vs m = Ret (s', m') ∧ slice_ok m' s' ∧
           content m' s' = content m s ++ vs ∧ (length m ≤ length m')%nat.
Proof.
  intros Hs. destruct (decide (glen s + Z.of_nat (length vs) ≤ gcap s)) as [Hle|Hgt].
  - destruct s as [h|].
    + cbn in Hle. assert (sl_len h + length vs ≤ sl_cap h)%nat by lia.
      rewrite gappend_in_place by done. do 2 eexists. split; [reflexivity|].
      pose proof Hs as (H0 & H1 & H2). unfold slice_ok; cbn [sl_blk sl_len sl_cap sl_off].
      rewrite !length_store. split_and!; [done|lia| | |done].
      * rewrite block_store_eq, length_splice by (done || lia). done.
      * cbn. rewrite block_store_eq, splice_drop by (done || lia).
        replace (sl_off h + sl_len h - sl_off h)%nat with (sl_len h) by lia.
        unfold splice. rewrite app_assoc, take_app_le;
          [apply take_ge|]; rewrite length_app, length_take, length_drop; lia.
    + cbn in Hle. assert (vs = []) as -> by (destruct vs; [done|cbn in Hle; lia]).
      exists None, m. done.
  - destruct (gappend_grow m s vs) as (c & Hc & ->); [lia|].
    pose proof (length_content m s Hs) as Hl.
    do 2 eexists. split; [reflexivity|].
    rewrite content_new. split_and!.
    + apply slice_ok_new; [lia|]. rewrite !length_app. unfold zeros.
      rewrite length_replicate. lia.
    + rewrite app_assoc, take_app_le; [|rewrite length_app; lia].
      apply take_ge. rewrite length_app. lia.
    + rewrite length_app. lia.
Qed.
End append_lemmas.

#[export] Hint Resolve slice_ok_store slice_ok_alloc gmake_ok greslice_ok : go_db.
