(* ===== verification/BytesUtil.v ===== *)
(** * bytesutil: integers, byte slices and bitlists (src/bytesutil/bytes.go)

    Every function of the package, over the slice store of GoMem.  Bitlists
    are specified through [le_val]: a byte slice read as a little-endian
    number, so that bit [i] of the list is bit [i] of the number. *)

From S2P Require Import Prelude GoMem.
Local Open Scope Z_scope.

(** ** encoding/binary and math/bits, as far as the package uses them *)

Fixpoint le_bytes (n : nat) (v : Z) : list Z :=
  match n with O => [] | S n => Z.land v 255 :: le_bytes n (Z.shiftr v 8) end.
Fixpoint le_val (l : list Z) : Z :=
  match l with [] => 0 | b :: l => Z.lor b (Z.shiftl (le_val l) 8) end.
Definition be_bytes (n : nat) (v : Z) : list Z := reverse (le_bytes n v).
Definition be_val (l : list Z) : Z := le_val (reverse l).

(** [LittleEndian.PutUint64], [BigEndian.PutUint64]: panic below 8 bytes. *)
Definition put64 (bs : list Z) (s : bslice) : go mem unit :=
  gindex s 7 ;;
  match s with
  | Some h => go_modify (λ m, store m (sl_blk h) (sl_off h) bs)
  | None => go_panic "index out of range"
  end.
Definition PutUint64 (s : bslice) (v : Z) : go mem unit := put64 (le_bytes 8 v) s.
Definition PutUint64BE (s : bslice) (v : Z) : go mem unit := put64 (be_bytes 8 v) s.

(** A slice operand of [append] or of a copy, read to the values it holds. *)
Definition gread (s : bslice) : go mem (list Z) := λ m, Ret (content m s, m).

(** The first [n] bytes as a number; reading the last of them first is the
    bounds check of the library. *)
Definition getN (n : nat) (val : list Z → Z) (s : bslice) : go mem Z :=
  gindex s (Z.of_nat n - 1) ;; c ← gread s; mret (val (take n c)).
Definition Uint64 : bslice → go mem Z := getN 8 le_val.
Definition Uint16 : bslice → go mem Z := getN 2 le_val.
Definition Uint64BE : bslice → go mem Z := getN 8 be_val.

(** [bits.Len8]: the number of bits needed for [x]; 0 for 0. *)
Definition Len8 (x : Z) : Z := if x =? 0 then 0 else Z.log2 x + 1.

(** ** Conversions *)

Definition ToBytes (x length : Z) : go mem bslice :=
  let makeLength := if length <? 8 then 8 else length in
  bytes ← gmake makeLength;
  PutUint64 bytes x ;;
  greslice bytes 0 length.

Definition bytesN (n x : Z) : go mem bslice :=
  bytes ← gmake 8; PutUint64 bytes x ;; greslice bytes 0 n.
Definition Bytes1 (x : Z) : go mem bslice := bytesN 1 x.
Definition Bytes2 (x : Z) : go mem bslice := bytesN 2 x.
Definition Bytes3 (x : Z) : go mem bslice := bytesN 3 x.
Definition Bytes4 (x : Z) : go mem bslice := bytesN 4 x.
Definition Bytes8 (x : Z) : go mem bslice :=
  bytes ← gmake 8; PutUint64 bytes x ;; mret bytes.
Definition Bytes32 (x : Z) : go mem bslice :=
  bytes ← gmake 32; PutUint64 bytes x ;; mret bytes.

Definition FromBytes4 (grow : nat → nat → nat) (x : bslice) : go mem Z :=
  empty4bytes ← gmake 4;
  x4 ← greslice x 0 4;
  z ← gread empty4bytes;
  x8 ← gappend grow x4 z;
  Uint64 x8.

Definition FromBytes8 (x : bslice) : go mem Z := Uint64 x.
Definition FromBytes2 (x : bslice) : go mem Z := x2 ← greslice x 0 2; Uint16 x2.

(** [var y [n]byte; copy(y[:], x)]; the array is a value. *)
Definition to_array (n : nat) (x : bslice) : go mem (list Z) := λ m,
  Ret (splice 0 (take n (content m x)) (zeros n), m).
Definition ToBytes4 : bslice → go mem (list Z) := to_array 4.
Definition ToBytes32 : bslice → go mem (list Z) := to_array 32.
Definition ToBytes48 : bslice → go mem (list Z) := to_array 48.
Definition ToBytes64 : bslice → go mem (list Z) := to_array 64.

Definition ToBool (x : Z) : bool := Z.land x 1 =? 1.
Definition FromBool (x : bool) : Z := if x then 1 else 0.

(** The array parameter is a copy that escapes into the returned slice. *)
Definition FromBytes48 (x : list Z) : go mem bslice := λ m,
  Ret (Some (Slice (length m) 0 48 48), m ++ [x]).

(** A [[][48]byte] is a run of 48-byte cells in one backing array; [x[i][:]]
    is a header into it. *)
Record slice48 := Slice48 { s48_blk : nat; s48_off : nat; s48_len : nat }.
Definition FromBytes48Array (x : slice48) : list bslice :=
  map (λ i, Some (Slice (s48_blk x) (s48_off x + 48 * i) 48 48)) (seq 0 (s48_len x)).

Definition Trunc (x : bslice) : go mem bslice :=
  if 6 <? glen x then greslice x 0 6 else mret x.

Definition ToLowInt64 (x : bslice) : go mem Z :=
  x ← (if 8 <? glen x then greslice x 0 8 else mret x);
  v ← Uint64 x;
  mret (wraps 64 v).

Definition SafeCopyBytes (cp : bslice) : go mem bslice :=
  match cp with
  | Some _ => copied ← gmake (glen cp); gcopy copied cp ;; mret copied
  | None => mret None
  end.

Fixpoint copy_rows (ary : list bslice) : go mem (list bslice) :=
  match ary with
  | [] => mret []
  | a :: ary => c ← SafeCopyBytes a; cs ← copy_rows ary; mret (c :: cs)
  end.
(** The outer slice is freshly made, so only its rows are kept. *)
Definition Copy2dBytes (ary : option (list bslice)) : go mem (option (list bslice)) :=
  match ary with
  | Some ary => copied ← copy_rows ary; mret (Some copied)
  | None => mret None
  end.

(** [for i, j := 0, len(arr)-1; i < j; i, j = i+1, j-1 { swap }], on the
    elements of the array the slice names; the slice itself is returned. *)
Fixpoint reverse_loop {A} (fuel : nat) (i j : Z) (arr : list A) : list A :=
  match fuel with
  | O => arr
  | S fuel =>
      if i <? j then
        match arr !! Z.to_nat i, arr !! Z.to_nat j with
        | Some a, Some b =>
            reverse_loop fuel (i + 1) (j - 1) (<[Z.to_nat j := a]> (<[Z.to_nat i := b]> arr))
        | _, _ => arr
        end
      else arr
  end.
Definition ReverseBytes32Slice (arr : list (list Z)) : list (list Z) :=
  reverse_loop (length arr) 0 (Z.of_nat (length arr) - 1) arr.

Definition PadTo (grow : nat → nat → nat) (b : bslice) (size : Z) : go mem bslice :=
  if size <? glen b then mret b
  else
    pad ← gmake (size - glen b);
    z ← gread pad;
    gappend grow b z.

(** ** Bitlists *)

(** [uint8(1 << s)]; a negative shift count panics. *)
Definition shl1 (s : Z) : go mem Z :=
  if s <? 0 then go_panic "negative shift amount" else mret (wrapu 8 (Z.shiftl 1 s)).

Definition SetBit (grow : nat → nat → nat) (b : bslice) (i : Z) : go mem bslice :=
  b ← (if glen b * 8 <=? i then
         let h := Z.quot (i + (8 - Z.rem i 8)) 8 in
         pad ← gmake (h - glen b);
         z ← gread pad;
         gappend grow b z
       else mret b);
  bit ← shl1 (Z.rem i 8);
  old ← gindex b (Z.quot i 8);
  gset b (Z.quot i 8) (Z.lor old bit) ;;
  mret b.

Definition ClearBit (b : bslice) (i : Z) : go mem bslice :=
  if glen b * 8 <=? i then mret b
  else
    bit ← shl1 (Z.rem i 8);
    old ← gindex b (Z.quot i 8);
    gset b (Z.quot i 8) (Z.ldiff old bit) ;;
    mret b.

Definition MakeEmptyBitlists (i : Z) : go mem bslice :=
  gmake (Z.quot (i + (8 - Z.rem i 8)) 8).

(** [for i := n-1; i >= 0; i--], [n] the number of bytes left to look at. *)
Fixpoint highest_loop (b : bslice) (n : nat) : go mem Z :=
  match n with
  | O => mret 0
  | S i =>
      x ← gindex b (Z.of_nat i);
      if x =? 0 then highest_loop b i else mret (Len8 x + Z.of_nat i * 8)
  end.
Definition ErrEmptyList : string := "input list can't be empty or nil".
Definition HighestBitIndex (b : bslice) : go mem (Z * option string) :=
  if glen b =? 0 then mret (0, Some ErrEmptyList)
  else r ← highest_loop b (Z.to_nat (glen b)); mret (r, None).

Fixpoint highest_at_loop (b : bslice) (index mask : Z) (n : nat) : go mem Z :=
  match n with
  | O => mret 0
  | S i =>
      let mask := if Z.of_nat i <? Z.quot index 8 then 255 else mask in
      x ← gindex b (Z.of_nat i);
      let masked := Z.land x mask in
      let minBitsMasked := Len8 masked in
      if (x =? 0) || ((minBitsMasked =? 0) && (Z.quot index 8 <=? Z.of_nat i))
      then highest_at_loop b index mask i
      else mret (minBitsMasked + Z.of_nat i * 8)
  end.
Definition HighestBitIndexAt (b : bslice) (index : Z) : go mem (Z * option string) :=
  let bLength := glen b in
  if bLength =? 0 then mret (0, Some ErrEmptyList)
  else
    let start := Z.quot index 8 in
    let start := if bLength <=? start then bLength - 1 else start in
    one ← shl1 (Z.rem index 8);
    let mask := wrapu 8 (one - 1) in
    r ← highest_at_loop b index mask (Z.to_nat (start + 1));
    mret (r, None).

(** ** uint64 in both byte orders *)

Definition Uint64ToBytesLittleEndian (i : Z) : go mem bslice :=
  buf ← gmake 8; PutUint64 buf i ;; mret buf.
Definition Uint64ToBytesBigEndian (i : Z) : go mem bslice :=
  buf ← gmake 8; PutUint64BE buf i ;; mret buf.
Definition BytesToUint64BigEndian (b : bslice) : go mem Z :=
  if glen b <? 8 then mret 0 else Uint64BE b.

(** ** Little-endian numbers: lemmas *)

Lemma lor_shiftl_add a b k : 0 ≤ k → in_u k a → Z.lor a (Z.shiftl b k) = a + 2 ^ k * b.
Proof.
  intros Hk Ha. rewrite <-(Z.mul_comm b), <-Z.shiftl_mul_pow2 by done.
  rewrite <-Z.add_lor_land. assert (Z.land a (Z.shiftl b k) = 0) as ->; [|lia].
  apply Z.bits_inj'. intros n Hn. rewrite Z.land_spec, Z.bits_0, Z.shiftl_spec by done.
  destruct (decide (n < k)).
  - by rewrite (Z.testbit_neg_r b) by lia; rewrite andb_false_r.
  - by rewrite (in_u_testbit_high k a n) by (done || lia).
Qed.

Lemma land_255 v : Z.land v 255 = v mod 2 ^ 8.
Proof. by rewrite <-(Z.land_ones v 8) by lia. Qed.

Lemma le_bytes_ok n v : Forall byte_ok (le_bytes n v).
Proof.
  revert v; induction n as [|n IH]; intros v; [constructor|]. cbn.
  constructor; [|apply IH]. rewrite land_255. by apply wrapu_range.
Qed.

Lemma length_le_bytes n v : length (le_bytes n v) = n.
Proof. revert v; induction n as [|n IH]; intros v; cbn; [done|]. by rewrite IH. Qed.

Lemma le_val_cons b l : byte_ok b → le_val (b :: l) = b + 2 ^ 8 * le_val l.
Proof. intros. cbn [le_val]. by rewrite lor_shiftl_add by (done || lia). Qed.

Lemma le_val_range l : Forall byte_ok l → in_u (8 * Z.of_nat (length l)) (le_val l).
Proof.
  unfold in_u. induction 1 as [|b l Hb Hl IH]; [cbn; lia|].
  rewrite le_val_cons by done. cbn [length].
  replace (8 * Z.of_nat (S (length l))) with (8 + 8 * Z.of_nat (length l)) by lia.
  rewrite Z.pow_add_r by lia. destruct Hb. nia.
Qed.

Lemma le_val_le_bytes n v : le_val (le_bytes n v) = v mod 2 ^ (8 * Z.of_nat n).
Proof.
  revert v; induction n as [|n IH]; intros v.
  { cbn. by rewrite Z.mod_1_r. }
  cbn [le_bytes]. rewrite le_val_cons by (rewrite land_255; by apply wrapu_range).
  rewrite IH, land_255, Z.shiftr_div_pow2 by lia.
  replace (8 * Z.of_nat (S n)) with (8 + 8 * Z.of_nat n) by lia.
  rewrite Z.pow_add_r by lia. symmetry. apply Z.rem_mul_r; [lia|].
  apply Z.pow_pos_nonneg; lia.
Qed.

Lemma le_bytes_le_val l : Forall byte_ok l → le_bytes (length l) (le_val l) = l.
Proof.
  induction 1 as [|b l Hb Hl IH]; [done|]. rewrite le_val_cons by done.
  cbn [length le_bytes]. rewrite land_255, Z.shiftr_div_pow2 by lia.
  replace (b + 2 ^ 8 * le_val l) with (b + le_val l * 2 ^ 8) by lia.
  rewrite Z.mod_add, Z.div_add by lia. destruct Hb.
  rewrite Z.mod_small, Z.div_small, Z.add_0_l by lia. by f_equal.
Qed.

Lemma le_val_app l k :
  Forall byte_ok l → Forall byte_ok k →
  le_val (l ++ k) = le_val l + 2 ^ (8 * Z.of_nat (length l)) * le_val k.
Proof.
  induction 1 as [|b l Hb Hl IH]; intros Hk.
  { change (2 ^ (8 * Z.of_nat (length []))) with 1.
    change (le_val []) with 0. rewrite app_nil_l. lia. }
  cbn [app]. rewrite !le_val_cons, IH by done. cbn [length].
  replace (8 * Z.of_nat (S (length l))) with (8 + 8 * Z.of_nat (length l)) by lia.
  rewrite Z.pow_add_r by lia. ring.
Qed.

Lemma zeros_ok n : Forall byte_ok (zeros n).
Proof. apply Forall_replicate. unfold in_u. lia. Qed.

Lemma le_val_zeros n : le_val (zeros n) = 0.
Proof.
  induction n as [|n IH]; [done|]. change (zeros (S n)) with (0 :: zeros n).
  rewrite le_val_cons by (unfold in_u; lia). lia.
Qed.

Lemma le_val_app_zeros l n : le_val (l ++ zeros n) = le_val l.
Proof. induction l as [|b l IH]; [apply le_val_zeros|]. cbn. by rewrite IH. Qed.

(** Bit [i] of the number is bit [i mod 8] of byte [i / 8]. *)
Lemma le_val_testbit l i :
  Forall byte_ok l → 0 ≤ i →
  Z.testbit (le_val l) i = Z.testbit (default 0 (l !! Z.to_nat (i / 8))) (i mod 8).
Proof.
  intros Hl. revert i. induction Hl as [|b l Hb Hl IH]; intros i Hi.
  { by rewrite lookup_nil, !Z.bits_0. }
  cbn [le_val]. rewrite Z.lor_spec, Z.shiftl_spec by done.
  destruct (decide (i < 8)).
  - rewrite (Z.testbit_neg_r (le_val l)), orb_false_r by lia.
    by rewrite Z.div_small, Z.mod_small by lia.
  - rewrite (in_u_testbit_high 8 b i), orb_false_l, IH by (done || lia).
    replace i with (i - 8 + 1 * 8) at 3 4 by lia. rewrite Z.div_add, Z.mod_add by lia.
    replace (Z.to_nat ((i - 8) / 8 + 1)) with (S (Z.to_nat ((i - 8) / 8))); [done|].
    pose proof (Z.div_pos (i - 8) 8). lia.
Qed.

(** Two byte lists with the same number and length are the same. *)
Lemma le_val_inj l k :
  Forall byte_ok l → Forall byte_ok k → length l = length k → le_val l = le_val k → l = k.
Proof.
  intros Hl Hk Hlen Hv. rewrite <-(le_bytes_le_val l), <-(le_bytes_le_val k) by done.
  by rewrite Hlen, Hv.
Qed.

Lemma be_val_be_bytes n v : be_val (be_bytes n v) = v mod 2 ^ (8 * Z.of_nat n).
Proof. unfold be_val, be_bytes. by rewrite reverse_involutive, le_val_le_bytes. Qed.

Lemma be_bytes_be_val l : Forall byte_ok l → be_bytes (length l) (be_val l) = l.
Proof.
  intros Hl. unfold be_val, be_bytes. rewrite <-length_reverse, le_bytes_le_val.
  - apply reverse_involutive.
  - by apply Forall_reverse.
Qed.

#[export] Hint Resolve le_bytes_ok zeros_ok : go_db.

(** The number of bits of a natural number: the index, counted from one, of
    its highest bit. *)
Definition nbits (x : Z) : Z := if x =? 0 then 0 else Z.log2 x + 1.

Lemma nbits_top a x k : 0 ≤ k → in_u k a → 0 < x → nbits (a + 2 ^ k * x) = k + nbits x.
Proof.
  intros Hk [Ha1 Ha2] Hx. unfold nbits.
  assert (0 < 2 ^ k) by lia.
  destruct (Z.eqb_spec (a + 2 ^ k * x) 0); [nia|]. destruct (Z.eqb_spec x 0); [lia|].
  assert (Z.log2 (a + 2 ^ k * x) = k + Z.log2 x); [|lia].
  pose proof (Z.log2_spec x Hx) as [Hx1 Hx2].
  pose proof (Z.log2_nonneg x).
  apply Z.log2_unique; [lia|].
  rewrite Z.pow_add_r, <-Z.add_succ_r, Z.pow_add_r by lia. nia.
Qed.

(** ** Running the store operations *)

Lemma gread_run m s : gread s m = Ret (content m s, m).
Proof. done. Qed.

Lemma gindex_in m s i :
  slice_ok m s → 0 ≤ i < glen s →
  gindex s i m = Ret (default 0 (content m s !! Z.to_nat i), m).
Proof.
  intros Hs Hi. pose proof (length_content m s Hs).
  destruct (lookup_lt_is_Some_2 (content m s) (Z.to_nat i)) as [v Hv]; [lia|].
  rewrite (gindex_run _ _ _ v) by (done || lia). by rewrite Hv.
Qed.

Lemma put64_run bs m h :
  slice_ok m (Some h) → (8 ≤ sl_len h)%nat →
  put64 bs (Some h) m = Ret ((), store m (sl_blk h) (sl_off h) bs).
Proof.
  intros Hs Hl. unfold put64. rewrite (go_bind_ret_run _ _ _ _ _ (gindex_in m (Some h) 7 Hs ltac:(cbn; lia))).
  done.
Qed.

Lemma put64_short bs m s : slice_ok m s → glen s < 8 → put64 bs s m = Panic "index out of range".
Proof.
  intros Hs Hl. unfold put64. rewrite go_bind_run, gindex_oob by (done || lia). done.
Qed.

Lemma getN_run n val m s :
  slice_ok m s → (0 < n)%nat → Z.of_nat n ≤ glen s →
  getN n val s m = Ret (val (take n (content m s)), m).
Proof.
  intros Hs Hn Hl. unfold getN.
  rewrite (go_bind_ret_run _ _ _ _ _ (gindex_in m s (Z.of_nat n - 1) Hs ltac:(lia))). done.
Qed.

Lemma getN_short n val m s :
  slice_ok m s → glen s < Z.of_nat n → getN n val s m = Panic "index out of range".
Proof.
  intros Hs Hl. unfold getN. rewrite go_bind_run, gindex_oob by (done || lia). done.
Qed.

(** A fresh 8-byte-or-longer buffer with [bs] written at its start. *)
Lemma make_put64 bs n m :
  length bs = 8%nat → 8 ≤ n →
  (buf ← gmake n; put64 bs buf ;; mret buf) m =
    Ret (Some (Slice (length m) 0 (Z.to_nat n) (Z.to_nat n)),
         m ++ [bs ++ zeros (Z.to_nat n - 8)]).
Proof.
  intros Hb Hn. go_step (gmake_run m n ltac:(lia)).
  rewrite (go_bind_ret_run _ _ _ _ _
    (put64_run bs _ (Slice (length m) 0 (Z.to_nat n) (Z.to_nat n)) (gmake_ok m _) ltac:(cbn; lia))).
  cbn. unfold mret, go_ret. do 2 f_equal. unfold store.
  rewrite alter_app_r_alt, Nat.sub_diag by (cbn; lia). cbn. do 2 f_equal.
  unfold splice, zeros. cbn. rewrite Hb, drop_replicate. done.
Qed.

Lemma take_zeros n k : take n (zeros k) = zeros (Nat.min n k).
Proof. apply take_replicate. Qed.

Lemma take_le_bytes n k x : (n ≤ k)%nat → take n (le_bytes k x) = le_bytes n x.
Proof.
  revert k x; induction n as [|n IH]; intros [|k] x Hk; try done; [lia|].
  cbn. f_equal. apply IH. lia.
Qed.

Lemma take_le_bytes_pad n k x :
  in_u 64 x → take n (le_bytes 8 x ++ zeros (n - 8 + k)) = le_bytes n x.
Proof.
  intros Hx. apply le_val_inj.
  - apply Forall_take, Forall_app. auto with go_db.
  - auto with go_db.
  - rewrite length_take, length_app, !length_le_bytes. unfold zeros.
    rewrite length_replicate. lia.
  - rewrite le_val_le_bytes. destruct (decide (n ≤ 8)%nat) as [Hn|Hn].
    + rewrite take_app_le by (rewrite length_le_bytes; lia).
      by rewrite take_le_bytes, le_val_le_bytes.
    + rewrite take_app_ge by (rewrite length_le_bytes; lia).
      rewrite length_le_bytes, take_zeros, le_val_app_zeros, le_val_le_bytes.
      unfold in_u in Hx. assert (2 ^ 64 ≤ 2 ^ (8 * Z.of_nat n)) by (apply Z.pow_le_mono_r; lia).
      change (8 * Z.of_nat 8) with 64. rewrite !Z.mod_small; lia.
Qed.

(** ** Properties of the conversions *)

(** [ToBytes x length] is the little-endian encoding of [x] cut or padded
    to [length] bytes in a fresh array, nothing else in memory changes, and
    [FromBytes8] reads [x] back when at least 8 bytes were kept; a negative
    length panics. *)
Theorem ToBytes_spec x n m :
  in_u 64 x →
  (n < 0 → ToBytes x n m = Panic "slice bounds out of range") ∧
  (0 ≤ n → ∃ s b, ToBytes x n m = Ret (s, m ++ [b]) ∧ slice_ok (m ++ [b]) s ∧
     content (m ++ [b]) s = le_bytes (Z.to_nat n) x ∧
     (8 ≤ n → FromBytes8 s (m ++ [b]) = Ret (x, m ++ [b]))).
Proof.
  intros Hx. set (k := if n <? 8 then 8 else n).
  assert (8 ≤ k ∧ n ≤ k) as [Hk Hnk] by (subst k; destruct (Z.ltb_spec n 8); lia).
  assert (ToBytes x n m = greslice (Some (Slice (length m) 0 (Z.to_nat k) (Z.to_nat k))) 0 n
            (m ++ [le_bytes 8 x ++ zeros (Z.to_nat k - 8)])) as ->.
  { pose proof (make_put64 (le_bytes 8 x) k m (length_le_bytes _ _) Hk) as Hmk.
    unfold ToBytes. fold k. apply go_bind_inv in Hmk as (buf & m1 & H1 & H2).
    go_step H1. apply go_bind_inv in H2 as ([] & m2 & H2 & H3).
    go_step H2. by injection H3 as -> ->. }
  split; intros Hn.
  - unfold greslice. destruct (Z.leb_spec 0 n); [lia|]. by rewrite andb_false_r.
  - rewrite greslice_run by (cbn; lia). do 2 eexists. split; [reflexivity|].
    assert (slice_ok (m ++ [le_bytes 8 x ++ zeros (Z.to_nat k - 8)])
              (Some (Slice (length m) 0 (Z.to_nat (n - 0)) (Z.to_nat k - 0)))) as Hok.
    { rewrite Z.sub_0_r, Nat.sub_0_r. apply slice_ok_new; [lia|].
      rewrite length_app, length_le_bytes. unfold zeros. rewrite length_replicate. lia. }
    assert (content (m ++ [le_bytes 8 x ++ zeros (Z.to_nat k - 8)])
              (Some (Slice (length m) 0 (Z.to_nat (n - 0)) (Z.to_nat k - 0)))
            = le_bytes (Z.to_nat n) x) as Hc.
    { rewrite content_new, Z.sub_0_r.
      replace (Z.to_nat k - 8)%nat with (Z.to_nat n - 8 + (Z.to_nat k - Nat.max 8 (Z.to_nat n)))%nat by lia.
      by apply take_le_bytes_pad. }
    split_and!; [exact Hok|exact Hc|].
    intros H8. unfold FromBytes8, Uint64. rewrite getN_run by (exact Hok || cbn; lia).
    do 2 f_equal. refine (eq_trans (f_equal (λ l, le_val (take 8 l)) Hc) _).
    rewrite <-(take_le_bytes_pad (Z.to_nat n) 0 x Hx), take_take, Nat.min_l by lia.
    rewrite take_app_le by (rewrite length_le_bytes; lia).
    rewrite take_ge by (by rewrite length_le_bytes).
    rewrite le_val_le_bytes. by apply Z.mod_small.
Qed.

Lemma ToBytes_spec_witness :
  ToBytes 258 3 [] = Ret (Some (Slice 0 0 3 8), [[2; 1; 0; 0; 0; 0; 0; 0]]) ∧
  (0 ≤ 9 → ∃ s b, ToBytes 258 9 [] = Ret (s, [] ++ [b]) ∧ slice_ok ([] ++ [b]) s ∧
     content ([] ++ [b]) s = le_bytes (Z.to_nat 9) 258 ∧
     (8 ≤ 9 → FromBytes8 s ([] ++ [b]) = Ret (258, [] ++ [b]))).
Proof. split; [reflexivity|]. apply (ToBytes_spec 258 9 []). unfold in_u. lia. Defined.

(** writing a [uint64] in either byte order and reading it back gives the
    same value, and the big-endian reader returns 0, without panicking, on
    fewer than 8 bytes. *)
Theorem uint64_roundtrip x m :
  in_u 64 x →
  (∃ s m', Uint64ToBytesBigEndian x m = Ret (s, m') ∧ slice_ok m' s ∧
     content m' s = be_bytes 8 x ∧ BytesToUint64BigEndian s m' = Ret (x, m')) ∧
  (∃ s m', Uint64ToBytesLittleEndian x m = Ret (s, m') ∧ slice_ok m' s ∧
     content m' s = le_bytes 8 x ∧ FromBytes8 s m' = Ret (x, m')) ∧
  (∀ s, glen s < 8 → BytesToUint64BigEndian s m = Ret (0, m)).
Proof.
  intros Hx. assert (length (be_bytes 8 x) = 8%nat) as Hbe
    by (unfold be_bytes; by rewrite length_reverse, length_le_bytes).
  split_and!.
  - do 2 eexists. split; [apply (make_put64 (be_bytes 8 x) 8 m Hbe); lia|].
    rewrite content_new, app_nil_r, take_ge by lia.
    split_and!; [apply slice_ok_new; rewrite ?Hbe; lia|done|].
    unfold BytesToUint64BigEndian, Uint64BE. cbn [glen sl_len].
    destruct (Z.ltb_spec (Z.of_nat (Z.to_nat 8)) 8); [lia|].
    rewrite getN_run by (first [apply slice_ok_new; rewrite ?length_app, ?Hbe; lia | cbn; lia]).
    rewrite content_new, take_take, take_ge by (rewrite Hbe; lia).
    rewrite be_val_be_bytes. by rewrite Z.mod_small.
  - do 2 eexists. split; [apply (make_put64 (le_bytes 8 x) 8 m (length_le_bytes _ _)); lia|].
    rewrite content_new, app_nil_r, take_ge by (rewrite length_le_bytes; lia).
    split_and!; [apply slice_ok_new; rewrite ?length_le_bytes; lia|done|].
    unfold FromBytes8, Uint64.
    rewrite getN_run by (first [apply slice_ok_new; cbn; lia | cbn; lia]).
    rewrite content_new, take_take, take_ge by (rewrite length_le_bytes; lia).
    rewrite le_val_le_bytes. by rewrite Z.mod_small.
  - intros s Hs. unfold BytesToUint64BigEndian.
    by destruct (Z.ltb_spec (glen s) 8); [|lia].
Qed.

Lemma uint64_roundtrip_witness :
  in_u 64 72623859790382856 ∧
  ∃ s m', Uint64ToBytesBigEndian 72623859790382856 [] = Ret (s, m') ∧ slice_ok m' s ∧
    content m' s = be_bytes 8 72623859790382856 ∧
    BytesToUint64BigEndian s m' = Ret (72623859790382856, m').
Proof.
  assert (in_u 64 72623859790382856) as H by (unfold in_u; lia).
  split; [exact H|exact (proj1 (uint64_roundtrip 72623859790382856 [] H))].
Defined.

(** [FromBytes4] reads the first four bytes as a little-endian number
    whatever follows them, but when the slice has capacity for eight bytes its
    [append] writes zeros over bytes 4 to 7 of the caller's array; with less
    capacity the caller's memory is unchanged. *)
Theorem FromBytes4_clobbers grow h m :
  slice_ok m (Some h) → (4 ≤ sl_cap h)%nat →
  ∃ m', FromBytes4 grow (Some h) m =
          Ret (le_val (take 4 (backing m (Some h))), m') ∧
        backing m' (Some h) =
          (if decide (8 ≤ sl_cap h)%nat
           then splice 4 (zeros 4) (backing m (Some h)) else backing m (Some h)).
Proof.
  intros Hs Hc. set (m1 := m ++ [zeros 4]).
  assert (slice_ok m1 (Some h)) as Hs1 by (by apply slice_ok_alloc).
  set (h4 := Slice (sl_blk h) (sl_off h + 0) (Z.to_nat (4 - 0)) (sl_cap h - 0)).
  assert (slice_ok m1 (Some h4)) as Hs4 by (apply greslice_ok; cbn; lia || done).
  assert (content m1 (Some h4) = take 4 (backing m (Some h))) as Hc4.
  { rewrite <-(backing_alloc m (Some h) (zeros 4) Hs). cbn.
    rewrite take_take, Nat.min_l, Nat.add_0_r by lia. done. }
  assert (∀ c, FromBytes4 grow (Some h) m = c ↔
               (x8 ← gappend grow (Some h4) (zeros 4); Uint64 x8) m1 = c) as Hrun.
  { intros c. unfold FromBytes4. go_step (gmake_run m 4 ltac:(lia)).
    rewrite (go_bind_ret_run _ _ _ _ _ (greslice_run _ h 0 4 ltac:(lia) ltac:(lia))).
    go_step (gread_run m1 (Some (Slice (length m) 0 (Z.to_nat 4) (Z.to_nat 4)))).
    subst m1. rewrite content_new. change (take (Z.to_nat 4) (zeros (Z.to_nat 4))) with (zeros 4). done. }
  destruct (gappend_content grow m1 (Some h4) (zeros 4) Hs4) as (s8 & m2 & Happ & Hs8 & Hc8 & _).
  assert (glen s8 = 8) as Hl8.
  { rewrite <-(length_content _ _ Hs8), Hc8, length_app.
    pose proof (length_content _ _ Hs4) as H4. cbn in H4 |- *. lia. }
  exists m2. split.
  - apply Hrun. go_step Happ. unfold Uint64.
    rewrite getN_run by (done || lia). rewrite Hc8, take_ge.
    + rewrite Hc4, le_val_app_zeros. done.
    + rewrite <-Hc8. pose proof (length_content _ _ Hs8). lia.
  - case_decide as H8.
    + rewrite gappend_in_place in Happ by (cbn; lia). injection Happ as _ <-.
      cbn [h4 sl_blk sl_off sl_len]. rewrite Nat.add_0_r.
      change (Z.to_nat (4 - 0)) with 4%nat.
      rewrite backing_store by (done || cbn; lia). subst m1. by rewrite backing_alloc.
    + destruct (gappend_grow grow m1 (Some h4) (zeros 4)) as (c & _ & Hg); [cbn; lia|].
      rewrite Hg in Happ. injection Happ as _ <-.
      rewrite backing_alloc by done. by apply backing_alloc.
Qed.

Lemma FromBytes4_clobbers_witness :
  let s := Slice 0 0 8 8 in
  slice_ok [[1; 2; 3; 4; 5; 6; 7; 8]] (Some s) ∧
  ∃ m', FromBytes4 (λ _ n, n) (Some s) [[1; 2; 3; 4; 5; 6; 7; 8]] = Ret (67305985, m') ∧
        backing m' (Some s) = [1; 2; 3; 4; 0; 0; 0; 0].
Proof.
  assert (slice_ok [[1; 2; 3; 4; 5; 6; 7; 8]] (Some (Slice 0 0 8 8))) as H
    by (split_and!; cbn; lia).
  split; [exact H|].
  exact (FromBytes4_clobbers (λ _ n, n) (Slice 0 0 8 8) [[1; 2; 3; 4; 5; 6; 7; 8]] H ltac:(cbn; lia)).
Defined.

(** ** Bitlists: lemmas *)

Lemma pow2_byte_ok s : 0 ≤ s < 8 → byte_ok (2 ^ s).
Proof. split; [apply Z.pow_nonneg; lia|]. apply Z.pow_lt_mono_r; lia. Qed.

Lemma shl1_run s m : 0 ≤ s < 8 → shl1 s m = Ret (2 ^ s, m).
Proof.
  intros Hs. unfold shl1. destruct (Z.ltb_spec s 0); [lia|].
  by rewrite Z.shiftl_mul_pow2, Z.mul_1_l, wrapu_id by (lia || by apply pow2_byte_ok).
Qed.

Lemma quot_rem_pos i : 0 ≤ i → Z.quot i 8 = i / 8 ∧ Z.rem i 8 = i mod 8.
Proof. intros. by rewrite Z.quot_div_nonneg, Z.rem_mod_nonneg by lia. Qed.

Lemma div_byte_lt i n : 0 ≤ i → i < 8 * n → 0 ≤ i / 8 < n.
Proof. intros. split; [apply Z.div_pos; lia|]. apply Z.div_lt_upper_bound; lia. Qed.

(** Replacing one byte changes exactly the bits of that byte. *)
Lemma le_val_insert_testbit l q y i :
  Forall byte_ok l → byte_ok y → (q < length l)%nat → 0 ≤ i →
  Z.testbit (le_val (<[q := y]> l)) i =
    if decide (Z.to_nat (i / 8) = q) then Z.testbit y (i mod 8) else Z.testbit (le_val l) i.
Proof.
  intros Hl Hy Hq Hi. rewrite le_val_testbit by (done || by apply Prelude.Forall_insert).
  case_decide as Hd.
  - subst q. by rewrite list_lookup_insert_eq.
  - rewrite list_lookup_insert_ne by done. by rewrite <-le_val_testbit.
Qed.

Lemma same_bit i n : 0 ≤ i → 0 ≤ n → (n =? i) = bool_decide (Z.to_nat (i / 8) = Z.to_nat (n / 8)) && (n mod 8 =? i mod 8).
Proof.
  intros Hi Hn. pose proof (Z.div_pos i 8). pose proof (Z.div_pos n 8).
  pose proof (Z.div_mod i 8). pose proof (Z.div_mod n 8).
  case_bool_decide; destruct (Z.eqb_spec n i), (Z.eqb_spec (n mod 8) (i mod 8)); subst; done || lia.
Qed.

Lemma le_val_set l n :
  Forall byte_ok l → 0 ≤ n → (Z.to_nat (n / 8) < length l)%nat →
  le_val (<[Z.to_nat (n / 8) := Z.lor (default 0 (l !! Z.to_nat (n / 8))) (2 ^ (n mod 8))]> l)
    = Z.setbit (le_val l) n.
Proof.
  intros Hl Hn Hq. pose proof (Z.mod_pos_bound n 8).
  assert (byte_ok (default 0 (l !! Z.to_nat (n / 8)))) as Hx.
  { destruct (lookup_lt_is_Some_2 _ _ Hq) as [x Hx]. rewrite Hx. by eapply Forall_lookup_1. }
  apply Z.bits_inj'. intros i Hi.
  rewrite le_val_insert_testbit by (done || auto using pow2_byte_ok with go_db lia).
  rewrite Z.setbit_eqb, (same_bit i n), Z.lor_spec, Z.pow2_bits_eqb by lia.
  case_decide as Hd.
  - rewrite bool_decide_true, andb_true_l by done. rewrite le_val_testbit by done.
    rewrite <-Hd. apply orb_comm.
  - by rewrite bool_decide_false.
Qed.

Lemma le_val_clear l n :
  Forall byte_ok l → 0 ≤ n → (Z.to_nat (n / 8) < length l)%nat →
  le_val (<[Z.to_nat (n / 8) := Z.ldiff (default 0 (l !! Z.to_nat (n / 8))) (2 ^ (n mod 8))]> l)
    = Z.clearbit (le_val l) n.
Proof.
  intros Hl Hn Hq. pose proof (Z.mod_pos_bound n 8).
  assert (byte_ok (default 0 (l !! Z.to_nat (n / 8)))) as Hx.
  { destruct (lookup_lt_is_Some_2 _ _ Hq) as [x Hx]. rewrite Hx. by eapply Forall_lookup_1. }
  apply Z.bits_inj'. intros i Hi.
  rewrite le_val_insert_testbit by (done || auto with go_db).
  rewrite Z.clearbit_eqb, (same_bit i n), Z.ldiff_spec, Z.pow2_bits_eqb by lia.
  case_decide as Hd.
  - rewrite bool_decide_true, andb_true_l by done. rewrite le_val_testbit by done. by rewrite <-Hd.
  - rewrite bool_decide_false by done. by rewrite andb_true_r.
Qed.

(** The update of one byte in memory: what [SetBit] and [ClearBit] share. *)
Lemma bit_update_run m h i (f : Z → Z → Z) :
  slice_ok m (Some h) → 0 ≤ i < 8 * Z.of_nat (sl_len h) →
  (bit ← shl1 (Z.rem i 8);
   old ← gindex (Some h) (Z.quot i 8);
   gset (Some h) (Z.quot i 8) (f old bit) ;;
   mret (Some h)) m =
  let q := Z.to_nat (i / 8) in
  let y := f (default 0 (content m (Some h) !! q)) (2 ^ (i mod 8)) in
  Ret (Some h, store m (sl_blk h) (sl_off h + q) [y]).
Proof.
  intros Hs Hi. destruct (quot_rem_pos i) as [-> ->]; [lia|].
  pose proof (Z.mod_pos_bound i 8). pose proof (div_byte_lt i (Z.of_nat (sl_len h))).
  go_step (shl1_run (i mod 8) m ltac:(lia)).
  go_step (gindex_in m (Some h) (i / 8) Hs ltac:(cbn; lia)).
  by go_step (gset_run m h (i / 8) (f (default 0 (content m (Some h) !! Z.to_nat (i / 8))) (2 ^ (i mod 8))) ltac:(lia)).
Qed.

Lemma content_update m h q y :
  slice_ok m (Some h) → (q < sl_len h)%nat →
  content (store m (sl_blk h) (sl_off h + q) [y]) (Some h) = <[q := y]> (content m (Some h)) ∧
  slice_ok (store m (sl_blk h) (sl_off h + q) [y]) (Some h).
Proof.
  intros Hs Hq. pose proof (length_content m (Some h) Hs) as Hl. cbn [glen] in Hl. split.
  - rewrite content_store by (done || cbn; lia). apply splice_singleton. lia.
  - apply slice_ok_store; [|done]. pose proof Hs as (? & ? & ?). cbn. lia.
Qed.

(** A negative bit index panics, in the shift or in the indexing. *)
Lemma bit_update_neg m b i (k : Z → Z → go mem bslice) :
  slice_ok m b → i < 0 →
  ∃ e, (bit ← shl1 (Z.rem i 8); old ← gindex b (Z.quot i 8); k old bit) m = Panic e.
Proof.
  intros Hs Hi. rewrite go_bind_run. unfold shl1. destruct (Z.ltb_spec (Z.rem i 8) 0); [by eexists|].
  unfold mret, go_ret. rewrite go_bind_run, gindex_oob; [by eexists|done|]. left.
  pose proof (Z.quot_rem' i 8). lia.
Qed.

(** The slice that [SetBit] updates: [b], or [b] grown by zero bytes. *)
Lemma SetBit_grown grow b i m :
  slice_ok m b → Forall byte_ok (content m b) → 0 ≤ i →
  ∃ h m1, SetBit grow b i m =
      (bit ← shl1 (Z.rem i 8); old ← gindex (Some h) (Z.quot i 8);
       gset (Some h) (Z.quot i 8) (Z.lor old bit) ;; mret (Some h)) m1 ∧
    slice_ok m1 (Some h) ∧ Forall byte_ok (content m1 (Some h)) ∧
    Z.of_nat (sl_len h) = Z.max (glen b) (i / 8 + 1) ∧
    le_val (content m1 (Some h)) = le_val (content m b) ∧ (i < 8 * glen b → Some h = b).
Proof.
  intros Hs Hb Hi. pose proof (div_byte_lt i) as Hdiv.
  unfold SetBit. destruct (Z.leb_spec (glen b * 8) i) as [Hle|Hgt].
  - destruct (quot_rem_pos i) as [_ Hrem]; [done|].
    assert (Z.quot (i + (8 - Z.rem i 8)) 8 = i / 8 + 1) as ->.
    { rewrite Hrem. pose proof (Z.mod_pos_bound i 8). rewrite Z.quot_div_nonneg by lia.
      replace (i + (8 - i mod 8)) with ((i / 8 + 1) * 8) by (pose proof (Z.div_mod i 8); lia).
      by apply Z.div_mul. }
    assert (glen b ≤ i / 8) by (apply Z.div_le_lower_bound; lia).
    set (n := i / 8 + 1 - glen b). set (m0 := m ++ [zeros (Z.to_nat n)]).
    destruct (gappend_content grow m0 b (zeros (Z.to_nat n))) as (b1 & m1 & Happ & Hs1 & Hc1 & _).
    { by apply slice_ok_alloc. }
    unfold m0 in Hc1. rewrite content_alloc in Hc1 by done.
    assert (glen b1 = i / 8 + 1) as Hl1.
    { rewrite <-(length_content _ _ Hs1), Hc1, length_app. unfold zeros.
      rewrite length_replicate. pose proof (length_content m b Hs). subst n. lia. }
    destruct b1 as [h|]; [|cbn in Hl1; pose proof (Z.div_pos i 8); lia].
    exists h, m1. split_and!.
    + assert ((pad ← gmake n; z ← gread pad; gappend grow b z) m = Ret (Some h, m1)) as Hgrow;
        [|by go_step Hgrow].
      go_step (gmake_run m n ltac:(lia)).
      go_step (gread_run m0 (Some (Slice (length m) 0 (Z.to_nat n) (Z.to_nat n)))).
      subst m0. rewrite content_new, take_ge by (unfold zeros; by rewrite length_replicate).
      exact Happ.
    + done.
    + rewrite Hc1. apply Forall_app. auto with go_db.
    + cbn in Hl1. lia.
    + rewrite Hc1. apply le_val_app_zeros.
    + lia.
  - destruct b as [h|]; [|cbn in Hgt; lia]. exists h, m. cbn [glen] in *.
    split_and!; try done. specialize (Hdiv (Z.of_nat (sl_len h)) Hi). lia.
Qed.

(** [SetBit b i] sets bit [i] of the bitlist and no other bit; the result
    has the bytes of [b], extended with zero bytes up to byte [i/8] when it was
    too short, and is [b] itself, updated in place, when it was not; a negative
    index panics. *)
Theorem SetBit_spec grow b i m :
  slice_ok m b → Forall byte_ok (content m b) →
  (0 ≤ i → ∃ b' m', SetBit grow b i m = Ret (b', m') ∧ slice_ok m' b' ∧
     Forall byte_ok (content m' b') ∧ glen b' = Z.max (glen b) (i / 8 + 1) ∧
     le_val (content m' b') = Z.setbit (le_val (content m b)) i ∧
     (i < 8 * glen b → b' = b)) ∧
  (i < 0 → ∃ e, SetBit grow b i m = Panic e).
Proof.
  intros Hs Hb. split.
  2:{ intros Hi. unfold SetBit. destruct (Z.leb_spec (glen b * 8) i); [destruct b; cbn in *; lia|].
      by apply (bit_update_neg m b i (λ old bit, gset b (Z.quot i 8) (Z.lor old bit) ;; mret b)). }
  intros Hi.
  destruct (SetBit_grown grow b i m Hs Hb Hi) as (h & m1 & -> & Hs1 & Hb1 & Hl1 & Hv1 & Hsame).
  assert (0 ≤ i / 8) by (apply Z.div_pos; lia).
  assert (i < 8 * Z.of_nat (sl_len h))
    by (pose proof (Z.mod_pos_bound i 8); pose proof (Z.div_mod i 8); lia).
  destruct (content_update m1 h (Z.to_nat (i / 8))
    (Z.lor (default 0 (content m1 (Some h) !! Z.to_nat (i / 8))) (2 ^ (i mod 8)))) as [Hc2 Hs2];
    [done|lia|].
  rewrite (bit_update_run m1 h i Z.lor) by (done || lia).
  do 2 eexists. split; [reflexivity|]. rewrite Hc2. split_and!.
  - done.
  - apply Prelude.Forall_insert; [done|]. apply in_u_lor; [lia| |apply pow2_byte_ok, Z.mod_pos_bound; lia].
    destruct (content m1 (Some h) !! Z.to_nat (i / 8)) as [x|] eqn:Hx; [by eapply Forall_lookup_1|].
    unfold in_u; cbn; lia.
  - cbn. lia.
  - rewrite le_val_set by (done || pose proof (length_content m1 _ Hs1) as Hl; cbn [glen] in Hl; lia).
    by rewrite Hv1.
  - done.
Qed.

Lemma SetBit_spec_witness :
  slice_ok [[1]] (Some (Slice 0 0 1 1)) ∧ Forall byte_ok (content [[1]] (Some (Slice 0 0 1 1))) ∧
  ∃ b' m', SetBit (λ _ n, n) (Some (Slice 0 0 1 1)) 10 [[1]] = Ret (b', m') ∧ slice_ok m' b' ∧
    Forall byte_ok (content m' b') ∧ glen b' = 2 ∧ le_val (content m' b') = Z.setbit 1 10 ∧
    (10 < 8 → b' = Some (Slice 0 0 1 1)).
Proof.
  assert (slice_ok [[1]] (Some (Slice 0 0 1 1))) as Hs by (split_and!; cbn; lia).
  assert (Forall byte_ok (content [[1]] (Some (Slice 0 0 1 1)))) as Hb
    by (repeat constructor; unfold in_u; cbn; lia).
  split; [exact Hs|]. split; [exact Hb|].
  exact (proj1 (SetBit_spec (λ _ n, n) (Some (Slice 0 0 1 1)) 10 [[1]] Hs Hb) ltac:(lia)).
Defined.

(** [ClearBit b i] clears bit [i] in place and no other bit, for an index
    in range, and returns [b] with memory unchanged for an index beyond it; a
    negative index panics. *)
Theorem ClearBit_spec b i m :
  slice_ok m b → Forall byte_ok (content m b) →
  (0 ≤ i → ∃ m', ClearBit b i m = Ret (b, m') ∧ slice_ok m' b ∧
     le_val (content m' b) = Z.clearbit (le_val (content m b)) i ∧
     (8 * glen b ≤ i → m' = m)) ∧
  (i < 0 → ∃ e, ClearBit b i m = Panic e).
Proof.
  intros Hs Hb. split.
  2:{ intros Hi. unfold ClearBit. destruct (Z.leb_spec (glen b * 8) i); [destruct b; cbn in *; lia|].
      by apply (bit_update_neg m b i (λ old bit, gset b (Z.quot i 8) (Z.ldiff old bit) ;; mret b)). }
  intros Hi. unfold ClearBit. destruct (Z.leb_spec (glen b * 8) i) as [Hle|Hgt].
  - exists m. split_and!; [done|done| |done]. apply Z.bits_inj'. intros n Hn.
    rewrite Z.clearbit_eqb. destruct (Z.eqb_spec i n) as [<-|]; [|by rewrite andb_true_r].
    rewrite andb_false_r. eapply in_u_testbit_high; [by apply le_val_range|].
    pose proof (length_content m b Hs). lia.
  - destruct b as [h|]; [|cbn in Hgt; lia]. cbn [glen] in *.
    pose proof (div_byte_lt i (Z.of_nat (sl_len h)) Hi ltac:(lia)).
    destruct (content_update m h (Z.to_nat (i / 8))
      (Z.ldiff (default 0 (content m (Some h) !! Z.to_nat (i / 8))) (2 ^ (i mod 8)))) as [Hc2 Hs2];
      [done|lia|].
    rewrite (bit_update_run m h i Z.ldiff) by (done || lia).
    eexists. split; [reflexivity|]. rewrite Hc2. split_and!; [done| |lia].
    apply le_val_clear; [done|done|]. pose proof (length_content m _ Hs) as Hl. cbn [glen] in Hl. lia.
Qed.

Lemma ClearBit_spec_witness :
  let b := Some (Slice 0 0 2 2) in
  slice_ok [[5; 3]] b ∧
  ∃ m', ClearBit b 8 [[5; 3]] = Ret (b, m') ∧ slice_ok m' b ∧
    le_val (content m' b) = Z.clearbit 773 8 ∧ (16 ≤ 8 → m' = [[5; 3]]).
Proof.
  assert (slice_ok [[5; 3]] (Some (Slice 0 0 2 2))) as Hs by (split_and!; cbn; lia).
  assert (Forall byte_ok (content [[5; 3]] (Some (Slice 0 0 2 2)))) as Hb
    by (repeat constructor; unfold in_u; cbn; lia).
  split; [exact Hs|].
  exact (proj1 (ClearBit_spec (Some (Slice 0 0 2 2)) 8 [[5; 3]] Hs Hb) ltac:(lia)).
Defined.

(** ** Highest bit: lemmas *)

Lemma content_lookup_Z m b (n : nat) :
  slice_ok m b → (n < length (content m b))%nat → 0 ≤ Z.of_nat n < glen b.
Proof. intros Hs Hn. pose proof (length_content m b Hs). lia. Qed.

Lemma le_val_snoc l x :
  Forall byte_ok l → byte_ok x → le_val (l ++ [x]) = le_val l + 2 ^ (8 * Z.of_nat (length l)) * x.
Proof.
  intros Hl Hx. rewrite le_val_app by auto. f_equal. cbn. f_equal. apply Z.lor_0_r.
Qed.

Lemma nbits_le_val_snoc l x :
  Forall byte_ok l → byte_ok x → x ≠ 0 →
  nbits (le_val (l ++ [x])) = Len8 x + Z.of_nat (length l) * 8.
Proof.
  intros Hl Hx Hx0. rewrite le_val_snoc by done.
  rewrite nbits_top; [unfold nbits, Len8; lia|lia|by apply le_val_range|].
  destruct Hx. lia.
Qed.

Lemma highest_loop_run m b n :
  slice_ok m b → Forall byte_ok (content m b) → (n ≤ length (content m b))%nat →
  highest_loop b n m = Ret (nbits (le_val (take n (content m b))), m).
Proof.
  intros Hs Hb. induction n as [|n IH]; intros Hn; [done|]. cbn [highest_loop].
  go_step (gindex_in m b (Z.of_nat n) Hs (content_lookup_Z m b n Hs ltac:(lia))).
  rewrite Nat2Z.id. destruct (lookup_lt_is_Some_2 (content m b) n) as [x Hx]; [lia|].
  rewrite Hx. change (default 0 (Some x)) with x. rewrite (take_S_r _ _ x Hx).
  assert (byte_ok x) by (by eapply Forall_lookup_1).
  destruct (Z.eqb_spec x 0) as [->|Hx0].
  - cbv beta iota. rewrite IH by lia.
    rewrite le_val_snoc by (auto using Forall_take). by rewrite Z.mul_0_r, Z.add_0_r.
  - rewrite nbits_le_val_snoc by (auto using Forall_take).
    by rewrite length_take, Nat.min_l by lia.
Qed.

(** [HighestBitIndex] is the number of bits of the bitlist read as a
    number, i.e. the index counted from one of its highest set bit and 0 when
    no bit is set; the error is returned exactly for an empty or nil list, and
    nothing is written. *)
Theorem HighestBitIndex_spec m b :
  slice_ok m b → Forall byte_ok (content m b) →
  HighestBitIndex b m =
    Ret ((if glen b =? 0 then (0, Some ErrEmptyList) else (nbits (le_val (content m b)), None)), m).
Proof.
  intros Hs Hb. unfold HighestBitIndex. destruct (Z.eqb_spec (glen b) 0); [done|].
  pose proof (length_content m b Hs).
  go_step (highest_loop_run m b (Z.to_nat (glen b)) Hs Hb ltac:(lia)).
  by rewrite take_ge by lia.
Qed.

Lemma HighestBitIndex_spec_witness :
  let b := Some (Slice 0 0 2 2) in
  slice_ok [[255; 160]] b ∧ HighestBitIndex b [[255; 160]] = Ret ((16, None), [[255; 160]]).
Proof.
  assert (slice_ok [[255; 160]] (Some (Slice 0 0 2 2))) as Hs by (split_and!; cbn; lia).
  assert (Forall byte_ok (content [[255; 160]] (Some (Slice 0 0 2 2)))) as Hb
    by (repeat constructor; unfold in_u; cbn; lia).
  split; [exact Hs|]. exact (HighestBitIndex_spec [[255; 160]] (Some (Slice 0 0 2 2)) Hs Hb).
Defined.

(** The prefix of [n+1] bytes below bit [8 n + r] is the prefix of [n] bytes
    and the low [r] bits of the next. *)
Lemma le_val_snoc_mod l x r :
  Forall byte_ok l → byte_ok x → 0 ≤ r →
  le_val (l ++ [x]) mod 2 ^ (8 * Z.of_nat (length l) + r) =
    le_val l + 2 ^ (8 * Z.of_nat (length l)) * (x mod 2 ^ r).
Proof.
  intros Hl Hx Hr. rewrite le_val_snoc, Z.pow_add_r by (done || lia).
  pose proof (le_val_range l Hl) as Hrange. destruct Hx as [Hx _].
  rewrite (Z.add_comm (le_val l)), Z.add_mul_mod_distr_l; [lia|done| |done].
  apply Z.pow_pos_nonneg; lia.
Qed.

Lemma le_val_mod_ge l k :
  Forall byte_ok l → 8 * Z.of_nat (length l) ≤ k → le_val l mod 2 ^ k = le_val l.
Proof.
  intros Hl Hk. apply Z.mod_small. destruct (le_val_range l Hl) as [H1 H2]. split; [done|].
  eapply Z.lt_le_trans; [exact H2|]. apply Z.pow_le_mono_r; lia.
Qed.

Lemma Len8_zero x : 0 ≤ x → (Len8 x =? 0) = (x =? 0).
Proof.
  intros Hx. unfold Len8. destruct (Z.eqb_spec x 0); [done|].
  pose proof (Z.log2_nonneg x). destruct (Z.eqb_spec (Z.log2 x + 1) 0); [lia|done].
Qed.

Lemma highest_at_loop_run m b index mask n :
  slice_ok m b → Forall byte_ok (content m b) → 0 ≤ index →
  (n ≤ length (content m b))%nat → Z.of_nat n ≤ index / 8 + 1 →
  mask = 2 ^ (index mod 8) - 1 ∨ Z.of_nat n ≤ index / 8 →
  highest_at_loop b index mask n m =
    Ret (nbits (le_val (take n (content m b)) mod 2 ^ index), m).
Proof.
  intros Hs Hb Hi. revert mask. destruct (quot_rem_pos index Hi) as [Hq _].
  induction n as [|n IH]; intros mask Hn Hni Hmask; [by rewrite Z.mod_0_l by (apply Z.pow_nonzero; lia)|].
  cbn [highest_at_loop]. rewrite !Hq.
  go_step (gindex_in m b (Z.of_nat n) Hs (content_lookup_Z m b n Hs ltac:(lia))).
  rewrite Nat2Z.id. destruct (lookup_lt_is_Some_2 (content m b) n) as [x Hx]; [lia|].
  rewrite Hx. change (default 0 (Some x)) with x. rewrite (take_S_r _ _ x Hx).
  assert (byte_ok x) as Hxb by (by eapply Forall_lookup_1).
  assert (Forall byte_ok (take n (content m b))) as Hbn by (by apply Forall_take).
  pose proof (Z.mod_pos_bound index 8) as Hr. pose proof (Z.div_mod index 8) as Hdm.
  assert (length (take n (content m b)) = n) as Hlen by (rewrite length_take; lia).
  destruct (Z.ltb_spec (Z.of_nat n) (index / 8)) as [Hlt|Hge].
  - (* a byte wholly below the index *)
    rewrite land_255, (Z.mod_small x) by (destruct Hxb; lia).
    destruct (Z.leb_spec (index / 8) (Z.of_nat n)); [lia|]. rewrite andb_false_r, orb_false_r.
    rewrite le_val_mod_ge; [|by apply Forall_app; auto|rewrite length_app, Hlen; cbn; lia].
    destruct (Z.eqb_spec x 0) as [->|Hx0].
    + cbv beta iota. rewrite IH by lia. rewrite le_val_snoc, le_val_mod_ge by (auto || lia).
      by rewrite Z.mul_0_r, Z.add_0_r.
    + by rewrite nbits_le_val_snoc, Hlen by auto.
  - (* the byte the index falls in *)
    assert (Z.of_nat n = index / 8) as Hn' by lia. destruct Hmask as [->|]; [|lia].
    destruct (Z.leb_spec (index / 8) (Z.of_nat n)); [|lia]. rewrite andb_true_r.
    replace (2 ^ (index mod 8) - 1) with (Z.ones (index mod 8)) by (rewrite Z.ones_equiv; lia).
    rewrite Z.land_ones by lia. set (y := x mod 2 ^ (index mod 8)).
    assert (0 ≤ y) as Hy by (apply Z.mod_pos_bound, Z.pow_pos_nonneg; lia).
    assert (le_val (take n (content m b) ++ [x]) mod 2 ^ index
            = le_val (take n (content m b)) + 2 ^ (8 * Z.of_nat n) * y) as ->.
    { rewrite <-Hlen at 3. subst y. rewrite <-le_val_snoc_mod by (auto || lia).
      rewrite Hlen. do 2 f_equal. lia. }
    rewrite Len8_zero by done.
    destruct (Z.eqb_spec y 0) as [Hy0|Hy0].
    + rewrite orb_true_r. cbv beta iota. rewrite IH by lia. rewrite le_val_mod_ge by (auto || lia).
      by rewrite Hy0, Z.mul_0_r, Z.add_0_r.
    + destruct (Z.eqb_spec x 0) as [->|_]; [by subst y; rewrite Z.mod_0_l in Hy0 by (apply Z.pow_nonzero; lia)|].
      cbn [orb]. rewrite nbits_top; [|lia|pose proof (le_val_range _ Hbn) as Hrg; by rewrite Hlen in Hrg|lia].
      change (nbits y) with (Len8 y). by rewrite Z.add_comm, Z.mul_comm.
Qed.

(** [HighestBitIndexAt b index] is the index, counted from one, of the
    highest bit set among the first [index] bits of the list, 0 when there is
    none, whatever the length of the list; an index that is negative and not a
    multiple of 8 panics. *)
Theorem HighestBitIndexAt_spec m b index :
  slice_ok m b → Forall byte_ok (content m b) → 0 < glen b →
  (0 ≤ index → HighestBitIndexAt b index m =
     Ret ((nbits (le_val (content m b) mod 2 ^ index), None), m)) ∧
  (index < 0 → Z.rem index 8 ≠ 0 → HighestBitIndexAt b index m = Panic "negative shift amount").
Proof.
  intros Hs Hb Hl. unfold HighestBitIndexAt. destruct (Z.eqb_spec (glen b) 0) as [|_]; [lia|].
  pose proof (length_content m b Hs) as Hlen. split.
  - intros Hi. destruct (quot_rem_pos index Hi) as [Hq Hr]. rewrite Hr.
    pose proof (Z.mod_pos_bound index 8) as Hmod. pose proof (Z.div_mod index 8) as Hdm.
    assert (0 ≤ index / 8) by (apply Z.div_pos; lia).
    go_step (shl1_run (index mod 8) m ltac:(lia)).
    rewrite (wrapu_id 8) by (unfold in_u; pose proof (pow2_byte_ok (index mod 8)) as [? ?]; [lia|];
      assert (0 < 2 ^ (index mod 8)) by (apply Z.pow_pos_nonneg; lia); lia).
    rewrite Hq. destruct (Z.leb_spec (glen b) (index / 8)) as [Hge|Hlt].
    + go_step (highest_at_loop_run m b index (2 ^ (index mod 8) - 1) (Z.to_nat (glen b - 1 + 1))
        Hs Hb Hi ltac:(lia) ltac:(lia) ltac:(left; done)).
      by rewrite take_ge by lia.
    + go_step (highest_at_loop_run m b index (2 ^ (index mod 8) - 1) (Z.to_nat (index / 8 + 1))
        Hs Hb Hi ltac:(lia) ltac:(lia) ltac:(left; done)).
      set (n := Z.to_nat (index / 8 + 1)).
      rewrite <-(take_drop n (content m b)) at 2.
      rewrite le_val_app by (auto using Forall_take, Forall_drop).
      rewrite length_take, Nat.min_l by lia.
      assert (2 ^ (8 * Z.of_nat n) = 2 ^ (8 * Z.of_nat n - index) * 2 ^ index) as ->.
      { rewrite <-Z.pow_add_r by lia. f_equal. lia. }
      rewrite <-Z.mul_assoc, (Z.mul_comm (2 ^ index)), Z.mul_assoc, Z.mod_add; [done|].
      apply Z.pow_nonzero; lia.
  - intros Hi Hr. rewrite go_bind_run. unfold shl1.
    destruct (Z.ltb_spec (Z.rem index 8) 0); [done|].
    pose proof (Z.rem_nonpos index 8). lia.
Qed.

Lemma HighestBitIndexAt_spec_witness :
  let b := Some (Slice 0 0 2 2) in
  slice_ok [[17; 34]] b ∧
  HighestBitIndexAt b 11 [[17; 34]] = Ret ((10, None), [[17; 34]]).
Proof.
  assert (slice_ok [[17; 34]] (Some (Slice 0 0 2 2))) as Hs by (split_and!; cbn; lia).
  assert (Forall byte_ok (content [[17; 34]] (Some (Slice 0 0 2 2)))) as Hb
    by (repeat constructor; unfold in_u; cbn; lia).
  split; [exact Hs|].
  exact (proj1 (HighestBitIndexAt_spec [[17; 34]] (Some (Slice 0 0 2 2)) 11 Hs Hb ltac:(cbn; lia)) ltac:(lia)).
Defined.

(** ** Reversal and copies *)

Lemma length_reverse_loop {A} fuel i j (l : list A) : length (reverse_loop fuel i j l) = length l.
Proof.
  revert i j l; induction fuel as [|fuel IH]; intros i j l; [done|]. cbn.
  repeat case_match; try done. by rewrite IH, !length_insert.
Qed.

Lemma reverse_loop_lookup {A} fuel (i : nat) (l : list A) (k : nat) :
  (length l ≤ 2 * i + 2 * fuel)%nat → (2 * i ≤ length l)%nat → (k < length l)%nat →
  reverse_loop fuel (Z.of_nat i) (Z.of_nat (length l) - 1 - Z.of_nat i) l !! k =
    if decide (i ≤ k ∧ k + i < length l)%nat then l !! (length l - 1 - k)%nat else l !! k.
Proof.
  revert i l; induction fuel as [|fuel IH]; intros i l Hf Hi Hk; cbn [reverse_loop].
  - case_decide; [|done]. f_equal. lia.
  - set (j := (length l - 1 - i)%nat).
    destruct (Z.ltb_spec (Z.of_nat i) (Z.of_nat (length l) - 1 - Z.of_nat i)) as [Hlt|Hge].
    2:{ case_decide; [|done]. f_equal. lia. }
    replace (Z.to_nat (Z.of_nat (length l) - 1 - Z.of_nat i)) with j by (subst j; lia).
    rewrite Nat2Z.id.
    destruct (lookup_lt_is_Some_2 l i) as [a Ha]; [lia|].
    destruct (lookup_lt_is_Some_2 l j) as [b Hb]; [subst j; lia|]. rewrite Ha, Hb.
    set (l' := <[j:=a]> (<[i:=b]> l)).
    assert (length l' = length l) as Hl' by (subst l'; by rewrite !length_insert).
    replace (Z.of_nat i + 1) with (Z.of_nat (S i)) by lia.
    replace (Z.of_nat (length l) - 1 - Z.of_nat i - 1) with (Z.of_nat (length l') - 1 - Z.of_nat (S i)) by lia.
    rewrite IH by lia. rewrite Hl'.
    assert (∀ q, (q < length l)%nat → l' !! q = if decide (q = j) then Some a else if decide (q = i) then Some b else l !! q) as Hq.
    { intros q Hq. subst l'. repeat case_decide; subst.
      - apply list_lookup_insert_eq. by rewrite length_insert.
      - rewrite list_lookup_insert_ne by done. by apply list_lookup_insert_eq.
      - by rewrite !list_lookup_insert_ne by done. }
    assert (∀ p, p = i → l !! p = Some a) by (by intros p ->).
    assert (∀ p, p = j → l !! p = Some b) by (by intros p ->).
    subst j. repeat case_decide; rewrite ?Hq by lia; repeat case_decide; try lia; try done;
      symmetry; auto with lia.
Qed.

(** the swapping loop of [ReverseBytes32Slice] ends with the elements of
    the slice in reverse order. *)
Theorem ReverseBytes32Slice_spec arr : ReverseBytes32Slice arr = reverse arr.
Proof.
  apply list_eq_same_length with (n := length arr);
    [by rewrite length_reverse|by apply length_reverse_loop|].
  intros k x y Hk Hx Hy. rewrite reverse_lookup in Hy by done.
  unfold ReverseBytes32Slice in Hx.
  replace (Z.of_nat (length arr) - 1) with (Z.of_nat (length arr) - 1 - Z.of_nat 0) in Hx by lia.
  rewrite (reverse_loop_lookup _ 0) in Hx by lia.
  rewrite decide_True in Hx by lia.
  replace (length arr - 1 - k)%nat with (length arr - S k)%nat in Hx by lia. congruence.
Qed.

(** A copied row: nil stays nil, and a copy is a fresh array with the bytes of
    the original. *)
Definition copy_of (m0 m : mem) (s c : bslice) : Prop :=
  match s, c with
  | None, None => True
  | Some _, Some hc => (length m0 ≤ sl_blk hc)%nat ∧ slice_ok m c ∧ content m c = content m0 s
  | _, _ => False
  end.

Lemma copy_of_extend m0 m m' s c :
  copy_of m0 m s c → copy_of m0 (m ++ m') s c.
Proof.
  destruct s, c as [hc|]; try done. intros (Hb & (H0 & H1 & H2) & Hc).
  assert (block (m ++ m') (sl_blk hc) = block m (sl_blk hc)) as Hblk
    by (unfold block; by rewrite lookup_app_l).
  unfold copy_of, slice_ok. cbn [content] in *. rewrite Hblk, length_app. split_and!; done || lia.
Qed.

Lemma SafeCopyBytes_run m0 m s :
  slice_ok m0 s →
  ∃ c m', SafeCopyBytes s (m0 ++ m) = Ret (c, m0 ++ m ++ m') ∧
          copy_of m0 (m0 ++ m ++ m') s c.
Proof.
  intros Hs. destruct s as [h|].
  2:{ exists None, []. by rewrite app_nil_r. }
  set (n := sl_len h). exists (Some (Slice (length (m0 ++ m)) 0 n n)), [content m0 (Some h)].
  assert (content (m0 ++ m) (Some h) = content m0 (Some h)) as Hc.
  { cbn. unfold block. by rewrite lookup_app_l by apply Hs. }
  pose proof (length_content m0 (Some h) Hs) as Hl. cbn [glen] in Hl.
  fold n in Hl. split.
  - unfold SafeCopyBytes. go_step (gmake_run (m0 ++ m) (glen (Some h)) ltac:(cbn; lia)).
    cbn [glen]. rewrite Nat2Z.id. fold n.
    assert (gcopy (Some (Slice (length (m0 ++ m)) 0 n n)) (Some h) ((m0 ++ m) ++ [zeros n])
            = Ret ((), (m0 ++ m) ++ [content m0 (Some h)])) as Hcp.
    { unfold gcopy. cbn [sl_blk sl_off sl_len]. unfold store.
      rewrite alter_app_r_alt, Nat.sub_diag by lia. rewrite content_alloc.
      - rewrite Hc, (take_ge (content m0 (Some h))) by lia.
        cbn [alter list_alter]. rewrite splice_full; [done|].
        unfold zeros. rewrite length_replicate. lia.
      - destruct Hs as (H0 & H1 & H2). unfold slice_ok, block in *.
        rewrite length_app, lookup_app_l by done. split_and!; done || lia. }
    go_step Hcp. by rewrite app_assoc.
  - rewrite app_assoc. split_and!.
    + cbn. rewrite length_app. lia.
    + apply slice_ok_new; lia.
    + rewrite content_new. apply take_ge. lia.
Qed.

(** [Copy2dBytes] (and [SafeCopyBytes], its row function) returns nil for
    nil and otherwise a deep copy: every row is nil where the original is, has
    the bytes of the original otherwise, and lives in an array allocated by the
    call, so that no write through the original can be seen in it; the caller's
    arrays are unchanged. *)
Theorem Copy2dBytes_deep ary m :
  Forall (slice_ok m) ary →
  Copy2dBytes None m = Ret (None, m) ∧
  ∃ cs m', Copy2dBytes (Some ary) m = Ret (Some cs, m ++ m') ∧
           Forall2 (copy_of m (m ++ m')) ary cs.
Proof.
  intros Hary. split; [done|].
  assert (∀ m1, ∃ cs m', copy_rows ary (m ++ m1) = Ret (cs, m ++ m1 ++ m') ∧
            Forall2 (copy_of m (m ++ m1 ++ m')) ary cs) as Hrows.
  { induction Hary as [|a ary Ha Hary IH]; intros m1.
    { exists [], []. rewrite app_nil_r. split; [done|constructor]. }
    destruct (SafeCopyBytes_run m m1 a Ha) as (c & m2 & Hc & Hcopy).
    destruct (IH (m1 ++ m2)) as (cs & m3 & Hcs & Hcopies).
    exists (c :: cs), (m2 ++ m3). split.
    - cbn [copy_rows]. go_step Hc. rewrite <-app_assoc in Hcs. by go_step Hcs.
    - rewrite <-app_assoc in Hcopies. constructor; [|exact Hcopies].
      rewrite (app_assoc m1), (app_assoc m). by apply copy_of_extend. }
  destruct (Hrows []) as (cs & m' & Hcs & Hf). rewrite app_nil_r in Hcs.
  exists cs, m'. split; [|done]. cbn. by go_step Hcs.
Qed.

Lemma Copy2dBytes_deep_witness :
  Forall (slice_ok [[7; 8]]) [None; Some (Slice 0 1 1 1)] ∧
  ∃ cs m', Copy2dBytes (Some [None; Some (Slice 0 1 1 1)]) [[7; 8]] = Ret (Some cs, [[7; 8]] ++ m') ∧
    Forall2 (copy_of [[7; 8]] ([[7; 8]] ++ m')) [None; Some (Slice 0 1 1 1)] cs.
Proof.
  assert (Forall (slice_ok [[7; 8]]) [None; Some (Slice 0 1 1 1)]) as H
    by (repeat constructor; cbn; lia).
  split; [exact H|]. exact (proj2 (Copy2dBytes_deep [None; Some (Slice 0 1 1 1)] [[7; 8]] H)).
Defined.
