(* ===== verification/GoText.v ===== *)
(** * Strings as Go uses them

    A Go string is a sequence of bytes, here a [string].  The functions of the
    packages strings, strconv and encoding/hex that the code calls, with the
    lemmas the components share. *)

From S2P Require Import Prelude.
From Stdlib Require Export Ascii.
From stdpp Require Export pretty.


Abbreviation slen := String.length.

(** The value of a byte. *)
Definition byte_of (c : ascii) : N := N_of_ascii c.

Definition in_range (lo hi : N) (c : ascii) : bool :=
  (lo <=? byte_of c)%N && (byte_of c <=? hi)%N.

Fixpoint str_forall (f : ascii → bool) (s : string) : bool :=
  match s with
  | EmptyString => true
  | String c s => f c && str_forall f s
  end.

(** All bytes below 0x80. *)
Definition is_ascii (s : string) : bool := str_forall (in_range 0 127) s.

(** [s[n:]]; the callers keep [n] within the string. *)
Fixpoint str_drop (n : nat) (s : string) : string :=
  match n, s with
  | S n, String _ s => str_drop n s
  | _, _ => s
  end.
Fixpoint str_take (n : nat) (s : string) : string :=
  match n, s with
  | S n, String c s => String c (str_take n s)
  | _, _ => EmptyString
  end.

Definition HasPrefix (s pre : string) : bool := String.prefix pre s.
Definition HasSuffix (s suf : string) : bool :=
  (slen suf <=? slen s)%nat && String.eqb (str_drop (slen s - slen suf) s) suf.

Fixpoint Contains (s sub : string) : bool :=
  HasPrefix s sub || match s with EmptyString => false | String _ s => Contains s sub end.

(** Cut at the first byte [c]: [strings.SplitN(s, c, 2)], whose result has one
    element when [c] does not occur and two when it does. *)
Fixpoint cut (c : ascii) (s : string) : option (string * string) :=
  match s with
  | EmptyString => None
  | String d s =>
      if decide (d = c) then Some (EmptyString, s)
      else match cut c s with Some (a, b) => Some (String d a, b) | None => None end
  end.
Definition SplitN2 (s : string) (c : ascii) : list string :=
  match cut c s with Some (a, b) => [a; b] | None => [s] end.

(** [strings.TrimLeft(s, cutset)] for a cutset of one byte. *)
Fixpoint TrimLeft (s : string) (c : ascii) : string :=
  match s with
  | String d s' => if decide (d = c) then TrimLeft s' c else s
  | EmptyString => EmptyString
  end.

Fixpoint Join (sep : string) (l : list string) : string :=
  match l with
  | [] => EmptyString
  | [s] => s
  | s :: l => s +:+ sep +:+ Join sep l
  end.

(** ** Decimal and hexadecimal *)

Definition digit_char (n : N) : ascii := ascii_of_N (48 + n).
Definition hex_char (n : N) : ascii :=
  if (n <? 10)%N then ascii_of_N (48 + n) else ascii_of_N (87 + n).

(** [strconv.AppendUint(nil, n, 10)] and [%d]. *)
Definition FormatUint (n : N) : string := pretty n.
Definition FormatInt (z : Z) : string := pretty z.

(** [hex.EncodeToString]. *)
Fixpoint HexEncode (b : list Z) : string :=
  match b with
  | [] => EmptyString
  | x :: b => String (hex_char (Z.to_N (x / 16))) (String (hex_char (Z.to_N (x mod 16))) (HexEncode b))
  end.

Definition hex_digit (c : ascii) : option Z :=
  if in_range 48 57 c then Some (Z.of_N (byte_of c) - 48)%Z
  else if in_range 97 102 c then Some (Z.of_N (byte_of c) - 87)%Z
  else if in_range 65 70 c then Some (Z.of_N (byte_of c) - 55)%Z
  else None.

(** [hex.DecodeString]; an error for an odd length or a byte that is no digit. *)
Fixpoint HexDecode (s : string) : option (list Z) :=
  match s with
  | EmptyString => Some []
  | String a (String b s) =>
      x ← hex_digit a; y ← hex_digit b; l ← HexDecode s; Some ((16 * x + y)%Z :: l)
  | String _ EmptyString => None
  end.

(** ** UTF-8 *)

(** The length of the UTF-8 sequence at the head of a string that starts with
    a byte of 0x80 or more; [None] when it is not valid. *)
Definition utf8_len (s : string) : option nat :=
  let cont := in_range 128 191 in
  match s with
  | String a (String b s) =>
      if in_range 194 223 a && cont b then Some 2%nat
      else match s with
      | String c s =>
          if cont c &&
             ((in_range 224 224 a && in_range 160 191 b) ||
              (in_range 225 236 a && cont b) ||
              (in_range 237 237 a && in_range 128 159 b) ||
              (in_range 238 239 a && cont b)) then Some 3%nat
          else match s with
          | String d s =>
              if cont c && cont d &&
                 ((in_range 240 240 a && in_range 144 191 b) ||
                  (in_range 241 243 a && cont b) ||
                  (in_range 244 244 a && in_range 128 143 b)) then Some 4%nat
              else None
          | EmptyString => None
          end
      | EmptyString => None
      end
  | _ => None
  end.

Definition char_of_Z (z : Z) : ascii := ascii_of_N (Z.to_N z).

(** [utf8.EncodeRune] on a valid code point or 0xFFFD. *)
Definition encode_rune (r : Z) : string :=
  (if r <? 128 then String (char_of_Z r) ""
   else if r <? 2048 then
     String (char_of_Z (192 + r / 64)) (String (char_of_Z (128 + r mod 64)) "")
   else if r <? 65536 then
     String (char_of_Z (224 + r / 4096))
       (String (char_of_Z (128 + r / 64 mod 64)) (String (char_of_Z (128 + r mod 64)) ""))
   else
     String (char_of_Z (240 + r / 262144)) (String (char_of_Z (128 + r / 4096 mod 64))
       (String (char_of_Z (128 + r / 64 mod 64)) (String (char_of_Z (128 + r mod 64)) ""))))%Z.

Definition replacement_char : string := encode_rune 65533.

(** ** Lemmas *)

Lemma str_app_cons c a b : String c a +:+ b = String c (a +:+ b).
Proof. done. Qed.
Lemma str_app_nil a : "" +:+ a = a.
Proof. done. Qed.

Ltac str_simpl := repeat (progress (cbn; rewrite ?str_app_cons, ?str_app_nil)).

Lemma str_app_assoc (a b c : string) : (a +:+ b) +:+ c = a +:+ (b +:+ c).
Proof. induction a as [|x a IH]; str_simpl; [done|]. by rewrite IH. Qed.

Lemma str_app_nil_r (a : string) : a +:+ "" = a.
Proof. induction a as [|x a IH]; str_simpl; [done|]. by rewrite IH. Qed.

Lemma slen_app a b : slen (a +:+ b) = (slen a + slen b)%nat.
Proof. induction a as [|x a IH]; str_simpl; [done|]. by rewrite IH. Qed.

Lemma str_forall_app f a b : str_forall f (a +:+ b) = str_forall f a && str_forall f b.
Proof. induction a as [|x a IH]; str_simpl; [done|]. by rewrite IH, andb_assoc. Qed.

Lemma str_drop_app a b : str_drop (slen a) (a +:+ b) = b.
Proof. by induction a as [|x a IH]. Qed.

Lemma str_take_app a b : str_take (slen a) (a +:+ b) = a.
Proof. induction a as [|x a IH]; str_simpl; [by destruct b|]. by rewrite IH. Qed.

Lemma str_take_app_le n a b : (n ≤ slen a)%nat → str_take n (a +:+ b) = str_take n a.
Proof.
  revert n; induction a as [|c a IH]; intros n Hn; cbn in Hn.
  - replace n with 0%nat by lia. by destruct b.
  - destruct n as [|n]; [done|]. str_simpl. rewrite IH by lia. done.
Qed.

Lemma str_take_all a : str_take (slen a) a = a.
Proof. induction a as [|c a IH]; cbn; [done|]. by rewrite IH. Qed.

Lemma HasSuffix_app a b : HasSuffix (a +:+ b) b = true.
Proof.
  unfold HasSuffix. rewrite slen_app. rewrite (proj2 (Nat.leb_le _ _)) by lia.
  replace (slen a + slen b - slen b)%nat with (slen a) by lia.
  rewrite str_drop_app. by apply String.eqb_eq.
Qed.

Lemma HasSuffix_iff s b : HasSuffix s b = true ↔ ∃ a, s = a +:+ b.
Proof.
  split; [|intros [a ->]; apply HasSuffix_app].
  unfold HasSuffix. rewrite andb_true_iff, Nat.leb_le, String.eqb_eq. intros [Hl Hd].
  exists (str_take (slen s - slen b) s). rewrite <-Hd at 2.
  generalize (slen s - slen b)%nat as n. intros n. clear Hl Hd b.
  revert n. induction s as [|c s IH]; intros [|n]; str_simpl; try done. by rewrite <-IH.
Qed.

Lemma cut_Some c s a b : cut c s = Some (a, b) → s = a +:+ String c b.
Proof.
  revert a b; induction s as [|d s IH]; intros a b; cbn; [done|].
  case_decide; [intros [= <- <-]; by subst|].
  destruct (cut c s) as [[a' b']|]; [|done]. intros [= <- <-]. rewrite str_app_cons. by rewrite <-IH.
Qed.

(** A separator inside the first part is where the cut happens. *)
Lemma cut_app c a b :
  str_forall (λ d, negb (bool_decide (d = c))) a = true → cut c (a +:+ String c b) = Some (a, b).
Proof.
  induction a as [|d a IH]; str_simpl; [by rewrite decide_True|].
  intros [Hd Ha]%andb_true_iff. rewrite decide_False.
  - by rewrite IH.
  - by apply negb_true_iff, bool_decide_eq_false_1 in Hd.
Qed.

Lemma cut_Some_free c s a b :
  cut c s = Some (a, b) → str_forall (λ d, negb (bool_decide (d = c))) a = true.
Proof.
  revert a b; induction s as [|d s IH]; intros a b; cbn; [done|].
  case_decide as Hd; [by intros [= <- <-]|].
  destruct (cut c s) as [[a' b']|]; [|done]. intros [= <- <-]. cbn.
  rewrite bool_decide_eq_false_2 by done. cbn. by eapply IH.
Qed.

Lemma slen_HexEncode b : slen (HexEncode b) = (2 * length b)%nat.
Proof. induction b as [|x b IH]; cbn; [done|]. rewrite IH. lia. Qed.

Lemma hex_digit_char n : (n < 16)%N → hex_digit (hex_char n) = Some (Z.of_N n).
Proof.
  intros Hn.
  assert (∀ k : nat, (k < 16)%nat → hex_digit (hex_char (N.of_nat k)) = Some (Z.of_nat k)) as H.
  { intros k Hk. do 16 (destruct k as [|k]; [reflexivity|]). lia. }
  specialize (H (N.to_nat n)). rewrite N2Nat.id in H. rewrite H by lia. f_equal. lia.
Qed.

(** Decoding an encoded byte string gives it back. *)
Lemma HexDecode_encode b : Forall byte_ok b → HexDecode (HexEncode b) = Some b.
Proof.
  induction 1 as [|x b Hx Hb IH]; [done|]. cbn [HexEncode HexDecode].
  destruct Hx as [Hx1 Hx2].
  pose proof (Z.mod_pos_bound x 16). pose proof (Z.div_mod x 16).
  assert (0 ≤ x / 16 < 16)%Z by (split; [apply Z.div_pos|apply Z.div_lt_upper_bound]; lia).
  rewrite !hex_digit_char by lia. cbn. rewrite IH. cbn. do 2 f_equal. lia.
Qed.

Lemma HexEncode_inj b c : Forall byte_ok b → Forall byte_ok c → HexEncode b = HexEncode c → b = c.
Proof.
  intros Hb Hc Heq. apply (f_equal HexDecode) in Heq.
  rewrite !HexDecode_encode in Heq by done. congruence.
Qed.

Lemma str_app_inj_r a b a' b' : slen b = slen b' → a +:+ b = a' +:+ b' → a = a' ∧ b = b'.
Proof.
  intros Hb E. assert (slen a = slen a') as Ha.
  { apply (f_equal slen) in E. rewrite !slen_app in E. lia. }
  split.
  - apply (f_equal (str_take (slen a))) in E. rewrite str_take_app, Ha, str_take_app in E. done.
  - apply (f_equal (str_drop (slen a))) in E. rewrite str_drop_app, Ha, str_drop_app in E. done.
Qed.

Lemma str_app_inj_l a b c : a +:+ b = a +:+ c → b = c.
Proof. induction a as [|x a IH]; str_simpl; [done|]. intros E. injection E as E. auto. Qed.
