(* ===== verification/Json.v ===== *)
(** * JSON texts as encoding/json reads and writes them

    A [json.RawMessage] is the text of a JSON value.  [scan_value] is the
    syntax check of the decoder and finds where a value ends; arrays and
    objects are opened one level at a time into the raw texts of their parts,
    which is how the code decodes them.  [quote], [unquote] and [compact] are
    what the encoder and decoder do with strings and raw values.  The decoder's
    limit on nesting depth (10000) is not modelled. *)

From S2P Require Import Prelude GoText.

Definition dquote : ascii := "034".
Definition backslash : ascii := "092".

Definition is_ws (c : ascii) : bool :=
  in_range 32 32 c || in_range 9 10 c || in_range 13 13 c.
Fixpoint skip_ws (s : string) : string :=
  match s with
  | String c s' => if is_ws c then skip_ws s' else s
  | EmptyString => EmptyString
  end.

Definition is_digit (c : ascii) : bool := in_range 48 57 c.
Definition is_hex (c : ascii) : bool :=
  in_range 48 57 c || in_range 97 102 c || in_range 65 70 c.

(** ** Scanning *)

Definition push (p : string) (o : option (string * string)) : option (string * string) :=
  match o with Some (a, r) => Some (p +:+ a, r) | None => None end.

(** The characters allowed after a backslash, [u] aside. *)
Definition is_simple_escape (c : ascii) : bool :=
  in_range 34 34 c || in_range 92 92 c || in_range 47 47 c || in_range 98 98 c ||
  in_range 102 102 c || in_range 110 110 c || in_range 114 114 c || in_range 116 116 c.

(** The contents of a string literal, opening quote already read, as it is
    written, and the text after the closing quote. *)
Fixpoint scan_str (s : string) : option (string * string) :=
  match s with
  | EmptyString => None
  | String c s1 =>
      if decide (c = dquote) then Some (EmptyString, s1)
      else if decide (c = backslash) then
        match s1 with
        | String e s2 =>
            if is_simple_escape e then push (String c (String e "")) (scan_str s2)
            else if decide (e = "u"%char) then
              match s2 with
              | String h1 (String h2 (String h3 (String h4 s3))) =>
                  if is_hex h1 && is_hex h2 && is_hex h3 && is_hex h4
                  then push (String c (String e (String h1 (String h2 (String h3 (String h4 ""))))))
                         (scan_str s3)
                  else None
              | _ => None
              end
            else None
        | EmptyString => None
        end
      else if in_range 0 31 c then None
      else push (String c "") (scan_str s1)
  end.

Fixpoint skip_digits (s : string) : string :=
  match s with
  | String c s' => if is_digit c then skip_digits s' else s
  | EmptyString => EmptyString
  end.
Definition digits1 (s : string) : option string :=
  match s with
  | String c s' => if is_digit c then Some (skip_digits s') else None
  | EmptyString => None
  end.
Definition scan_exp (s : string) : option string :=
  match s with
  | String c s1 =>
      if in_range 101 101 c || in_range 69 69 c then
        match s1 with
        | String d s2 => if in_range 43 43 d || in_range 45 45 d then digits1 s2 else digits1 s1
        | EmptyString => None
        end
      else Some s
  | EmptyString => Some EmptyString
  end.
Definition scan_frac (s : string) : option string :=
  match s with
  | String c s1 => if in_range 46 46 c then digits1 s1 else Some s
  | EmptyString => Some EmptyString
  end.
Definition scan_uint (s : string) : option string :=
  match s with
  | String c s1 =>
      if in_range 48 48 c then Some s1
      else if in_range 49 57 c then Some (skip_digits s1) else None
  | EmptyString => None
  end.
Definition scan_num (s : string) : option string :=
  s1 ← scan_uint (match s with
                  | String c s' => if in_range 45 45 c then s' else s
                  | EmptyString => EmptyString
                  end);
  s2 ← scan_frac s1;
  scan_exp s2.

Fixpoint strip (lit s : string) : option string :=
  match lit, s with
  | EmptyString, _ => Some s
  | String c lit, String d s => if decide (c = d) then strip lit s else None
  | String _ _, EmptyString => None
  end.

(** The part of [s] before [rest]. *)
Definition raw_of (s rest : string) : string := str_take (slen s - slen rest) s.

Fixpoint scan_value (n : nat) (s : string) {struct n} : option string :=
  match n with
  | O => None
  | S n =>
      match s with
      | EmptyString => None
      | String c s1 =>
          if decide (c = "{"%char) then
            match skip_ws s1 with
            | String d r =>
                if decide (d = "}"%char) then Some r else snd <$> scan_members n (String d r)
            | EmptyString => None
            end
          else if decide (c = "["%char) then
            match skip_ws s1 with
            | String d r =>
                if decide (d = "]"%char) then Some r else snd <$> scan_elems n (String d r)
            | EmptyString => None
            end
          else if decide (c = dquote) then snd <$> scan_str s1
          else if decide (c = "t"%char) then strip "rue" s1
          else if decide (c = "f"%char) then strip "alse" s1
          else if decide (c = "n"%char) then strip "ull" s1
          else scan_num s
      end
  end
with scan_elems (n : nat) (s : string) {struct n} : option (list string * string) :=
  match n with
  | O => None
  | S n =>
      r ← scan_value n s;
      match skip_ws r with
      | String d r' =>
          if decide (d = "]"%char) then Some ([raw_of s r], r')
          else if decide (d = ","%char) then
            '(l, r'') ← scan_elems n (skip_ws r');
            Some (raw_of s r :: l, r'')
          else None
      | EmptyString => None
      end
  end
with scan_members (n : nat) (s : string) {struct n} : option (list (string * string) * string) :=
  match n with
  | O => None
  | S n =>
      match s with
      | String q s1 =>
          if decide (q = dquote) then
            '(k, r) ← scan_str s1;
            match skip_ws r with
            | String co r1 =>
                if decide (co = ":"%char) then
                  let v := skip_ws r1 in
                  r2 ← scan_value n v;
                  match skip_ws r2 with
                  | String d r' =>
                      if decide (d = "}"%char) then Some ([(k, raw_of v r2)], r')
                      else if decide (d = ","%char) then
                        '(l, r'') ← scan_members n (skip_ws r');
                        Some ((k, raw_of v r2) :: l, r'')
                      else None
                  | EmptyString => None
                  end
                else None
            | EmptyString => None
            end
          else None
      | EmptyString => None
      end
  end.

(** Every recursive call reads at least one character or moves from a list to
    its first element, so twice the length of the text is enough. *)
Definition fuel_for (s : string) : nat := 2 * slen s + 2.

Definition scan (s : string) : option string := scan_value (fuel_for s) s.

(** [json.Valid], and the check [json.Unmarshal] makes first. *)
Definition valid_json (s : string) : bool :=
  match scan (skip_ws s) with
  | Some r => match skip_ws r with EmptyString => true | _ => false end
  | None => false
  end.

(** ** One level of a value *)

Inductive shape :=
| JNull | JBool (b : bool) | JNum (raw : string) | JStr (lit : string)
| JArr (elems : list string) | JObj (members : list (string * string)).

(** The shape of a value text that starts at its first character. *)
Definition shape_of (s : string) : option shape :=
  match s with
  | EmptyString => None
  | String c s1 =>
      if decide (c = "{"%char) then
        match skip_ws s1 with
        | String d r =>
            if decide (d = "}"%char) then Some (JObj [])
            else JObj ∘ fst <$> scan_members (fuel_for s) (String d r)
        | EmptyString => None
        end
      else if decide (c = "["%char) then
        match skip_ws s1 with
        | String d r =>
            if decide (d = "]"%char) then Some (JArr [])
            else JArr ∘ fst <$> scan_elems (fuel_for s) (String d r)
        | EmptyString => None
        end
      else if decide (c = dquote) then JStr ∘ fst <$> scan_str s1
      else if decide (c = "t"%char) then (λ _, JBool true) <$> strip "rue" s1
      else if decide (c = "f"%char) then (λ _, JBool false) <$> strip "alse" s1
      else if decide (c = "n"%char) then (λ _, JNull) <$> strip "ull" s1
      else (λ r, JNum (raw_of s r)) <$> scan_num s
  end.

(** ** String literals *)

Definition getu4 (s : string) : option (Z * string) :=
  match s with
  | String h1 (String h2 (String h3 (String h4 r))) =>
      a ← hex_digit h1; b ← hex_digit h2; c ← hex_digit h3; d ← hex_digit h4;
      Some ((((a * 16 + b) * 16 + c) * 16 + d)%Z, r)
  | _ => None
  end.

Definition is_surrogate (r : Z) : bool := (55296 <=? r)%Z && (r <? 57344)%Z.

Definition escape_char (c : ascii) : string :=
  if in_range 98 98 c then String "008" ""
  else if in_range 102 102 c then String "012" ""
  else if in_range 110 110 c then String "010" ""
  else if in_range 114 114 c then String "013" ""
  else if in_range 116 116 c then String "009" ""
  else String c "".

(** The value of a string literal from its contents: escapes are replaced, a
    lone surrogate and invalid UTF-8 become U+FFFD. *)
Fixpoint unquote_n (n : nat) (s : string) : string :=
  match n with
  | O => EmptyString
  | S n =>
      match s with
      | EmptyString => EmptyString
      | String c s1 =>
          if decide (c = backslash) then
            match s1 with
            | String e s2 =>
                if decide (e = "u"%char) then
                  match getu4 s2 with
                  | Some (r, s3) =>
                      if is_surrogate r then
                        let second :=
                          match s3 with
                          | String b (String u s4) =>
                              if bool_decide (b = backslash) && bool_decide (u = "u"%char)
                              then getu4 s4 else None
                          | _ => None
                          end in
                        match second with
                        | Some (r2, s5) =>
                            if (r <? 56320)%Z && (56320 <=? r2)%Z && (r2 <? 57344)%Z
                            then encode_rune ((r - 55296) * 1024 + (r2 - 56320) + 65536)%Z
                                   +:+ unquote_n n s5
                            else replacement_char +:+ unquote_n n s3
                        | None => replacement_char +:+ unquote_n n s3
                        end
                      else encode_rune r +:+ unquote_n n s3
                  | None => EmptyString
                  end
                else escape_char e +:+ unquote_n n s2
            | EmptyString => EmptyString
            end
          else if in_range 0 127 c then String c (unquote_n n s1)
          else
            match utf8_len s with
            | Some k => str_take k s +:+ unquote_n n (str_drop k s)
            | None => replacement_char +:+ unquote_n n s1
            end
      end
  end.
Definition unquote (s : string) : string := unquote_n (slen s) s.

Definition u00 (c : ascii) : string :=
  String backslash ("u00" +:+ String (hex_char (byte_of c / 16)) (String (hex_char (byte_of c mod 16)) "")).

(** One byte below 0x80 as the encoder writes it, with its HTML escapes. *)
Definition quote_char (c : ascii) : string :=
  if bool_decide (c = dquote) || bool_decide (c = backslash) then String backslash (String c "")
  else if in_range 10 10 c then String backslash "n"
  else if in_range 13 13 c then String backslash "r"
  else if in_range 9 9 c then String backslash "t"
  else if in_range 0 31 c || in_range 60 60 c || in_range 62 62 c || in_range 38 38 c then u00 c
  else String c "".

Fixpoint quote_n (n : nat) (s : string) : string :=
  match n with
  | O => EmptyString
  | S n =>
      match s with
      | EmptyString => EmptyString
      | String c s1 =>
          if in_range 0 127 c then quote_char c +:+ quote_n n s1
          else
            match utf8_len s with
            | Some k =>
                let r := str_take k s in
                (if decide (r = encode_rune 8232) then String backslash "u2028"
                 else if decide (r = encode_rune 8233) then String backslash "u2029"
                 else r) +:+ quote_n n (str_drop k s)
            | None => String backslash "ufffd" +:+ quote_n n s1
            end
      end
  end.
(** The literal the encoder writes for a string. *)
Definition quote (s : string) : string := String dquote (quote_n (slen s) s +:+ String dquote "").

(** ** Raw values in the encoder *)

(** [compact] with HTML escaping: white space outside literals is dropped, and
    [<], [>], [&], U+2028 and U+2029 are escaped. *)
Fixpoint compact_go (instr esc : bool) (s : string) : string :=
  match s with
  | EmptyString => EmptyString
  | String c s1 =>
      if in_range 60 60 c || in_range 62 62 c || in_range 38 38 c
      then u00 c +:+ compact_go instr false s1
      else
        let ls := match s1 with
                  | String b (String d s3) =>
                      if in_range 226 226 c && in_range 128 128 b && in_range 168 169 d
                      then Some (d, s3) else None
                  | _ => None
                  end in
        match s1, ls with
        | String _ (String d s3), Some _ =>
            (String backslash ("u202" +:+ String (hex_char (byte_of d mod 16)) ""))
              +:+ compact_go instr false s3
        | _, _ =>
            if instr then
              if esc then String c (compact_go true false s1)
              else if decide (c = backslash) then String c (compact_go true true s1)
              else if decide (c = dquote) then String c (compact_go false false s1)
              else String c (compact_go true false s1)
            else if decide (c = dquote) then String c (compact_go true false s1)
            else if is_ws c then compact_go false false s1
            else String c (compact_go false false s1)
        end
  end.
Definition compact (s : string) : string := compact_go false false s.

(** What the encoder writes for a raw value; an error when it is not JSON. *)
Definition marshal_raw (s : string) : option string :=
  if valid_json s then Some (compact s) else None.

(** An object from its encoded members. *)
Definition print_member (kv : string * string) : string :=
  String dquote (kv.1 +:+ String dquote (":" +:+ kv.2)).
Definition print_object (members : list (string * string)) : string :=
  "{" +:+ Join "," (map print_member members) +:+ "}".
Definition print_array (elems : list string) : string :=
  "[" +:+ Join "," elems +:+ "]".

(** ** Numbers *)

Fixpoint parse_digits (acc : Z) (s : string) : option Z :=
  match s with
  | EmptyString => Some acc
  | String c s => if is_digit c then parse_digits (acc * 10 + (Z.of_N (byte_of c) - 48)) s else None
  end.
(** [strconv.ParseInt(lit, 10, 64)] on a JSON number literal. *)
Definition parse_int64 (lit : string) : option Z :=
  z ← (match lit with
       | String c (String d s as rest) =>
           if in_range 45 45 c then Z.opp <$> parse_digits 0 rest else parse_digits 0 lit
       | String c EmptyString => parse_digits 0 lit
       | EmptyString => None
       end);
  if bool_decide (- 2 ^ 63 ≤ z < 2 ^ 63)%Z then Some z else None.

(** ** Object keys *)

(** Case folding of a key, as the decoder matches field names: ASCII case, and
    the two non-ASCII runes (U+017F and U+212A) that fold to ASCII letters. *)
Fixpoint fold_key (s : string) : string :=
  match s with
  | EmptyString => EmptyString
  | String a s1 =>
      if in_range 65 90 a then String (ascii_of_N (byte_of a + 32)) (fold_key s1)
      else match s1 with
      | String b s2 =>
          if in_range 197 197 a && in_range 191 191 b then String "s" (fold_key s2)
          else match s2 with
          | String c s3 =>
              if in_range 226 226 a && in_range 132 132 b && in_range 170 170 c
              then String "k" (fold_key s3)
              else String a (fold_key s1)
          | EmptyString => String a (fold_key s1)
          end
      | EmptyString => String a (fold_key s1)
      end
  end.

(** ** Lemmas: scanning a value that something follows *)

(** What may follow a value in a JSON text. *)
Definition delim (t : string) : bool :=
  match t with
  | EmptyString => true
  | String c _ => is_ws c || in_range 44 44 c || in_range 93 93 c || in_range 125 125 c
  end.

Lemma delim_cons c t :
  delim (String c t) = true →
  is_digit c = false ∧ in_range 46 46 c = false ∧ in_range 101 101 c || in_range 69 69 c = false.
Proof. by destruct c as [[] [] [] [] [] [] [] []]. Qed.

Lemma delim_not_digit c t : delim (String c t) = true → is_digit c = false.
Proof. by intros (? & _)%delim_cons. Qed.

Lemma raw_of_app s r t : (slen r ≤ slen s)%nat → raw_of (s +:+ t) (r +:+ t) = raw_of s r.
Proof.
  intros H. unfold raw_of. rewrite !slen_app.
  replace (slen s + slen t - (slen r + slen t))%nat with (slen s - slen r)%nat by lia.
  apply str_take_app_le. lia.
Qed.

Lemma skip_ws_app s t : skip_ws s ≠ "" → skip_ws (s +:+ t) = skip_ws s +:+ t.
Proof. induction s as [|c s IH]; str_simpl; [done|]. destruct (is_ws c); auto. Qed.

Lemma skip_ws_len s : (slen (skip_ws s) ≤ slen s)%nat.
Proof. induction s as [|c s IH]; cbn; [done|]. destruct (is_ws c); cbn; lia. Qed.

Lemma push_Some p o a r : push p o = Some (a, r) → ∃ b, o = Some (b, r) ∧ a = p +:+ b.
Proof. destruct o as [[b r']|]; cbn; [|done]. intros [= <- <-]. eauto. Qed.

Lemma scan_str_spec n s a r :
  (slen s ≤ n)%nat → scan_str s = Some (a, r) →
  (slen r < slen s)%nat ∧ ∀ t, scan_str (s +:+ t) = Some (a, r +:+ t).
Proof.
  revert s a r; induction n as [|n IH]; intros [|c s] a r Hn; cbn in Hn; try lia; try done.
  cbn [scan_str]. intros H.
  repeat match goal with
  | H : (if decide ?P then _ else _) = Some _ |- _ => destruct (decide P) eqn:?
  | H : (if ?b then _ else _) = Some _ |- _ => destruct b eqn:?
  | H : match ?s with EmptyString => _ | String _ _ => _ end = Some _ |- _ =>
      destruct s as [|? ?]; [discriminate H|]
  | H : None = Some _ |- _ => discriminate H
  end.
  1: { injection H as <- <-. split; [cbn; lia|]. intros t. str_simpl. by rewrite decide_True. }
  all: apply push_Some in H as (b & H & ->); cbn in Hn; apply IH in H as [Hl Ht]; [|lia].
  all: split; [cbn; lia|]; intros t; str_simpl; specialize (Ht t).
  all: repeat match goal with
       | H : decide _ = _ |- _ => rewrite H
       | H : _ = true |- _ => rewrite H
       | H : _ = false |- _ => rewrite H
       end; cbn; rewrite Ht; done.
Qed.

Lemma skip_digits_spec s t :
  (slen (skip_digits s) ≤ slen s)%nat ∧
  (delim t = true → skip_digits (s +:+ t) = skip_digits s +:+ t).
Proof.
  induction s as [|c s [IH1 IH2]]; str_simpl.
  - split; [lia|]. destruct t as [|d t]; [done|]. intros H%delim_not_digit. cbn. by rewrite H.
  - destruct (is_digit c); cbn; split; auto.
Qed.

Lemma digits1_spec s r t :
  digits1 s = Some r →
  (slen r < slen s)%nat ∧ (delim t = true → digits1 (s +:+ t) = Some (r +:+ t)).
Proof.
  destruct s as [|c s]; [done|]. str_simpl. destruct (is_digit c); [|done]. intros [= <-].
  pose proof (skip_digits_spec s t) as [H1 H2]. split; [lia|]. intros Ht. by rewrite H2.
Qed.

#[local] Arguments digits1 : simpl never.

Lemma scan_exp_spec s r t :
  scan_exp s = Some r →
  (slen r ≤ slen s)%nat ∧ (delim t = true → scan_exp (s +:+ t) = Some (r +:+ t)).
Proof.
  destruct s as [|c s]; str_simpl.
  - intros [= <-]. split; [done|]. destruct t as [|d t]; [done|].
    intros (H1 & H2 & H3)%delim_cons; cbn; by rewrite ?H2, ?H3.
  - destruct (_ || _).
    + destruct s as [|d s]; [done|]. str_simpl. destruct (_ || _); intros H.
      * apply (digits1_spec _ _ t) in H as [H1 H2]. split; [lia|done].
      * apply (digits1_spec _ _ t) in H as [H1 H2]. cbn in H1. split; [lia|done].
    + intros [= <-]. split; [done|]. by str_simpl.
Qed.

Lemma scan_frac_spec s r t :
  scan_frac s = Some r →
  (slen r ≤ slen s)%nat ∧ (delim t = true → scan_frac (s +:+ t) = Some (r +:+ t)).
Proof.
  destruct s as [|c s]; str_simpl.
  - intros [= <-]. split; [done|]. destruct t as [|d t]; [done|].
    intros (H1 & H2 & H3)%delim_cons; cbn; by rewrite ?H2, ?H3.
  - destruct (in_range 46 46 c).
    + intros H. apply (digits1_spec _ _ t) in H as [H1 H2]. split; [lia|done].
    + intros [= <-]. split; [done|]. by str_simpl.
Qed.

Lemma scan_num_spec s r t :
  scan_num s = Some r →
  (slen r < slen s)%nat ∧ (delim t = true → scan_num (s +:+ t) = Some (r +:+ t)).
Proof.
  unfold scan_num. intros H. apply bind_Some in H as (s1 & H1 & H).
  apply bind_Some in H as (s2 & H2 & H3).
  apply (scan_exp_spec _ _ t) in H3 as [L3 H3]. apply (scan_frac_spec _ _ t) in H2 as [L2 H2].
  assert (∀ u, scan_uint u = Some s1 → (slen s1 < slen u)%nat ∧
            (delim t = true → scan_uint (u +:+ t) = Some (s1 +:+ t))) as Hu.
  { intros [|c u]; [done|]. str_simpl. destruct (in_range 48 48 c).
    { intros [= <-]. split; [lia|done]. }
    destruct (in_range 49 57 c); [|done]. intros [= <-].
    pose proof (skip_digits_spec u t) as [K1 K2]. split; [lia|]. intros Ht. by rewrite K2. }
  destruct s as [|c s]; [done|]. str_simpl. destruct (in_range 45 45 c).
  - apply Hu in H1 as [L1 H1]. split; [lia|]. intros Ht. rewrite H1 by done. cbn.
    rewrite H2 by done. cbn. by rewrite H3.
  - apply Hu in H1 as [L1 H1]. cbn in L1. split; [lia|]. intros Ht.
    specialize (H1 Ht). rewrite str_app_cons in H1. rewrite H1. cbn.
    rewrite H2 by done. cbn. by rewrite H3.
Qed.

Lemma strip_spec lit s r t :
  strip lit s = Some r → (slen r ≤ slen s)%nat ∧ strip lit (s +:+ t) = Some (r +:+ t).
Proof.
  revert s; induction lit as [|c lit IH]; intros s.
  { intros [= <-]. split; [done|]. by destruct s. }
  destruct s as [|d s]; [done|]. str_simpl. case_decide; [|done]. intros H'.
  apply IH in H' as [H1 H2]. split; [lia|done].
Qed.

Lemma skip_ws_cons_app r d r' t :
  skip_ws r = String d r' → skip_ws (r +:+ t) = String d (r' +:+ t).
Proof. intros H. rewrite skip_ws_app; [by rewrite H|by rewrite H]. Qed.

Lemma skip_ws_cons_len r d r' : skip_ws r = String d r' → (slen r' < slen r)%nat.
Proof. intros H. pose proof (skip_ws_len r) as Hl. rewrite H in Hl. cbn in Hl. lia. Qed.

(** A successful scan consumes input and does not depend on what follows the
    value, nor on the fuel once there is as much as was used or as the length of
    the value asks for. *)
Definition enough (off n k : nat) (s : string) : Prop :=
  (n ≤ k)%nat ∨ (2 * slen s + off ≤ k)%nat.
Definition scan_stable {A} (off : nat) (f : nat → string → option (A * string)) (n : nat) : Prop :=
  ∀ s a r, f n s = Some (a, r) →
    (slen r < slen s)%nat ∧
    ∀ k t, enough off n k s → delim t = true → f k (s +:+ t) = Some (a, r +:+ t).

Definition scan_value' (n : nat) (s : string) : option (unit * string) :=
  r ← scan_value n s; Some ((), r).

Lemma scan_value'_Some n s r : scan_value' n s = Some ((), r) ↔ scan_value n s = Some r.
Proof. unfold scan_value'. destruct (scan_value n s); cbn; naive_solver. Qed.

(** Linear arithmetic over string lengths. *)
Ltac slia := unfold enough in *; cbn [String.length] in *; lia.

(** Resolve the character tests of the scanner from the left. *)
Ltac dec_simpl :=
  repeat (first [rewrite decide_True by done | rewrite decide_False by done]).

Lemma scan_step_value n :
  scan_stable 2 scan_elems n → scan_stable 2 scan_members n → scan_stable 1 scan_value' (S n).
Proof.
  unfold scan_stable, enough.
  intros He Hm s [] r H%scan_value'_Some. destruct s as [|c s]; [done|].
  assert ((slen r < slen (String c s))%nat ∧
          ∀ k t, enough 1 (S n) k (String c s) → delim t = true →
            scan_value k (String c s +:+ t) = Some (r +:+ t)) as [H1 H2].
  2:{ split; [done|]. intros k t Hk Ht. apply scan_value'_Some. auto. }
  cbn [scan_value] in H. repeat case_decide.
  1,2: destruct (skip_ws s) as [|d s'] eqn:Hws; [done|];
    pose proof (skip_ws_cons_len _ _ _ Hws);
    (case_decide;
     [ injection H as <-; split; [cbn; slia|]; intros [|k] t Hk Ht; [slia|];
       rewrite str_app_cons; cbn [scan_value]; subst; dec_simpl;
       rewrite (skip_ws_cons_app _ _ _ t Hws); by dec_simpl
     | apply fmap_Some in H as ([l r0] & H & ->);
       first [apply He in H as [L H] | apply Hm in H as [L H]]; cbn [snd] in *;
       split; [cbn in L |- *; slia|]; intros [|k] t Hk Ht; [slia|];
       rewrite str_app_cons; cbn [scan_value]; subst; dec_simpl;
       rewrite (skip_ws_cons_app _ _ _ t Hws); dec_simpl;
       rewrite <-str_app_cons, H by (done || slia); done ]).
  1: { apply fmap_Some in H as ([l r0] & H & ->).
       apply (scan_str_spec (slen s)) in H as [L H]; [|done]. cbn [snd] in *.
       split; [cbn; slia|]. intros [|k] t Hk Ht; [slia|]. rewrite str_app_cons. cbn [scan_value].
       subst. dec_simpl. by rewrite H. }
  1,2,3: pose proof (λ t, strip_spec _ _ _ t H) as Hs;
    split; [destruct (Hs ""); cbn; slia|];
    intros [|k] t Hk Ht; [slia|]; rewrite str_app_cons; cbn [scan_value]; subst; dec_simpl; apply Hs.
  pose proof (λ t, scan_num_spec _ _ t H) as Hs.
  split; [destruct (Hs ""); cbn in *; slia|].
  intros [|k] t Hk Ht; [slia|]. rewrite str_app_cons. cbn [scan_value].
  dec_simpl. rewrite <-str_app_cons. by apply Hs.
Qed.

Lemma scan_step_elems n :
  scan_stable 1 scan_value' n → scan_stable 2 scan_elems n → scan_stable 2 scan_elems (S n).
Proof.
  unfold scan_stable, enough.
  intros Hv He s l r H. cbn [scan_elems] in H.
  apply bind_Some in H as (r0 & H0 & H). apply scan_value'_Some, Hv in H0 as [L0 H0].
  assert (∀ k t, enough 1 n k s → delim t = true → scan_value k (s +:+ t) = Some (r0 +:+ t)) as H0'
    by (intros; apply scan_value'_Some; auto).
  destruct (skip_ws r0) as [|d r1] eqn:Hws; [done|]. pose proof (skip_ws_cons_len _ _ _ Hws).
  repeat case_decide; [| |done].
  - injection H as <- <-. split; [slia|]. intros [|k] t Hk Ht; [slia|]. cbn [scan_elems].
    rewrite H0' by (done || slia). cbn. rewrite (skip_ws_cons_app _ _ _ t Hws), decide_True by done.
    by rewrite raw_of_app by slia.
  - apply bind_Some in H as ([l' r2] & Hr2 & [= <- <-]). apply He in Hr2 as [L2 Hr2].
    pose proof (skip_ws_len r1). split; [slia|]. intros [|k] t Hk Ht; [slia|]. cbn [scan_elems].
    rewrite H0' by (done || slia). cbn. rewrite (skip_ws_cons_app _ _ _ t Hws), decide_False by done.
    rewrite decide_True by done. rewrite skip_ws_app by (intros E; rewrite E in L2; cbn in L2; slia).
    rewrite Hr2 by (done || slia). cbn. by rewrite raw_of_app by slia.
Qed.

Lemma scan_step_members n :
  scan_stable 1 scan_value' n → scan_stable 2 scan_members n → scan_stable 2 scan_members (S n).
Proof.
  unfold scan_stable, enough.
  intros Hv He s l r H. cbn [scan_members] in H. destruct s as [|q s]; [done|].
  case_decide; [|done]. subst q.
  apply bind_Some in H as ([key rk] & Hk & H).
  apply (scan_str_spec (slen s)) in Hk as [Lk Hk]; [|done].
  destruct (skip_ws rk) as [|co rc] eqn:Hwk; [done|]. pose proof (skip_ws_cons_len _ _ _ Hwk).
  case_decide; [|done].
  apply bind_Some in H as (r0 & Hr0 & H). apply scan_value'_Some, Hv in Hr0 as [L0 Hr0].
  assert (∀ k t, enough 1 n k (skip_ws rc) → delim t = true →
    scan_value k (skip_ws rc +:+ t) = Some (r0 +:+ t)) as H0'
    by (intros; apply scan_value'_Some; auto).
  pose proof (skip_ws_len rc).
  destruct (skip_ws r0) as [|d r1] eqn:Hws; [done|]. pose proof (skip_ws_cons_len _ _ _ Hws).
  assert (skip_ws rc ≠ "") as Hne by (intros E; rewrite E in L0; cbn in L0; slia).
  repeat case_decide; [| |done].
  - injection H as <- <-. split; [cbn; slia|]. intros [|k] t Hkn Ht; [slia|].
    rewrite str_app_cons. cbn [scan_members]. rewrite decide_True by done.
    rewrite Hk. cbn. rewrite (skip_ws_cons_app _ _ _ t Hwk), decide_True by done.
    rewrite skip_ws_app by done. rewrite H0' by (done || slia). cbn.
    rewrite (skip_ws_cons_app _ _ _ t Hws), decide_True by done. by rewrite raw_of_app by slia.
  - apply bind_Some in H as ([l' r2] & Hr2 & [= <- <-]). apply He in Hr2 as [L2 Hr2].
    pose proof (skip_ws_len r1). split; [cbn; slia|]. intros [|k] t Hkn Ht; [slia|].
    rewrite str_app_cons. cbn [scan_members]. rewrite decide_True by done.
    rewrite Hk. cbn. rewrite (skip_ws_cons_app _ _ _ t Hwk), decide_True by done.
    rewrite skip_ws_app by done. rewrite H0' by (done || slia). cbn.
    rewrite (skip_ws_cons_app _ _ _ t Hws), decide_False, decide_True by done.
    rewrite skip_ws_app by (intros E; rewrite E in L2; cbn in L2; slia).
    rewrite Hr2 by (done || slia). cbn. by rewrite raw_of_app by slia.
Qed.

Lemma scan_stable_all n :
  scan_stable 1 scan_value' n ∧ scan_stable 2 scan_elems n ∧ scan_stable 2 scan_members n.
Proof.
  induction n as [|n (Hv & He & Hm)].
  { split_and!; intros s a r; done. }
  auto using scan_step_value, scan_step_elems, scan_step_members.
Qed.

Lemma scan_value_stable n s r k t :
  scan_value n s = Some r → enough 1 n k s → delim t = true →
  scan_value k (s +:+ t) = Some (r +:+ t).
Proof.
  intros H%scan_value'_Some Hk Ht. apply scan_value'_Some.
  by apply (proj1 (scan_stable_all n)).
Qed.

(** ** Values, and the texts the encoder builds from them *)

(** A text that is exactly one value. *)
Definition is_value (v : string) : Prop := scan v = Some "".

#[export] Instance is_value_dec v : Decision (is_value v).
Proof. unfold is_value. apply _. Defined.

Lemma is_value_scan v t n :
  is_value v → (2 * slen v + 1 ≤ n)%nat → delim t = true → scan_value n (v +:+ t) = Some t.
Proof.
  intros H Hn Ht. apply (scan_value_stable (fuel_for v) v "" n t H); [|done].
  unfold enough. right. lia.
Qed.

Lemma is_ws_cases c : is_ws c = true →
  c = " "%char ∨ c = "009"%char ∨ c = "010"%char ∨ c = "013"%char.
Proof. destruct c as [[] [] [] [] [] [] [] []]; vm_compute; intros; try discriminate; auto. Qed.

Lemma is_value_head v : is_value v → ∃ c s, v = String c s ∧ is_ws c = false.
Proof.
  unfold is_value, scan, fuel_for. destruct v as [|c s]; [done|]. intros H. exists c, s. split; [done|].
  destruct (is_ws c) eqn:E; [|done].
  apply is_ws_cases in E as [->|[->|[->| ->]]]; done.
Qed.

Lemma is_value_skip_ws v t : is_value v → skip_ws (v +:+ t) = v +:+ t.
Proof. intros (c & s & -> & Hc)%is_value_head. str_simpl. by rewrite Hc. Qed.

Lemma is_value_valid v : is_value v → valid_json v = true.
Proof.
  intros H. unfold valid_json. pose proof (is_value_skip_ws v "" H) as E.
  rewrite !str_app_nil_r in E. rewrite E. unfold is_value in H. by rewrite H.
Qed.

Ltac str_norm := repeat (progress (rewrite ?str_app_assoc, ?str_app_cons, ?str_app_nil)).

(** Bytes that stand for themselves between quotes. *)
Definition plain_char (c : ascii) : bool :=
  in_range 32 127 c && negb (bool_decide (c = dquote)) && negb (bool_decide (c = backslash)).
Definition plain (s : string) : bool := str_forall plain_char s.

Lemma plain_char_not c : plain_char c = true → c ≠ dquote ∧ c ≠ backslash ∧ in_range 0 31 c = false.
Proof. by destruct c as [[] [] [] [] [] [] [] []]. Qed.

Lemma scan_str_plain k t : plain k = true → scan_str (k +:+ String dquote t) = Some (k, t).
Proof.
  induction k as [|c k IH]; str_simpl.
  { intros _. by rewrite decide_True. }
  intros [Hc Hk]%andb_true_iff. apply plain_char_not in Hc as (H1 & H2 & H3).
  rewrite !decide_False by done. rewrite H3, IH by done. done.
Qed.

Definition member_ok (kv : string * string) : Prop := plain kv.1 = true ∧ is_value kv.2.

Lemma slen_print_member kv : slen (print_member kv) = (slen kv.1 + slen kv.2 + 3)%nat.
Proof.
  unfold print_member. destruct kv as [k v]. cbn [fst snd].
  str_norm. repeat (rewrite slen_app || cbn [String.length]). lia.
Qed.

Lemma print_member_app kv t :
  print_member kv +:+ t = String dquote (kv.1 +:+ String dquote (String ":" (kv.2 +:+ t))).
Proof. unfold print_member. by str_norm. Qed.

Lemma raw_of_tail v t : raw_of (v +:+ t) t = v.
Proof.
  unfold raw_of. rewrite slen_app. replace (slen v + slen t - slen t)%nat with (slen v) by lia.
  apply str_take_app.
Qed.

Lemma Join_cons2 sep a b l : Join sep (a :: b :: l) = a +:+ sep +:+ Join sep (b :: l).
Proof. done. Qed.

Lemma skip_ws_comma s : skip_ws (String "," s) = String "," s.
Proof. done. Qed.
Lemma skip_ws_colon s : skip_ws (String ":" s) = String ":" s.
Proof. done. Qed.

Lemma scan_members_print l t n :
  l ≠ [] → Forall member_ok l → (2 * slen (Join "," (map print_member l)) + 2 ≤ n)%nat →
  scan_members n (Join "," (map print_member l) +:+ String "}" t) = Some (l, t).
Proof.
  intros Hne Hl. revert n. induction Hl as [|[k v] l [Hk Hv] Hl IH]; [done|]. intros n Hn.
  cbn [fst snd] in Hk, Hv. clear Hne.
  destruct n as [|n]; [lia|].
  destruct l as [|kv l].
  - cbn [map Join] in *. rewrite slen_print_member in Hn. cbn [fst snd] in Hn.
    rewrite print_member_app. cbn [fst snd]. cbn [scan_members]. rewrite decide_True by done.
    rewrite scan_str_plain by done. cbn [mbind option_bind]. rewrite skip_ws_colon, decide_True by done.
    rewrite is_value_skip_ws by done.
    rewrite is_value_scan by (done || lia). cbn. by rewrite raw_of_tail.
  - specialize (IH ltac:(done)). cbn [map] in *. rewrite Join_cons2 in *.
    rewrite !slen_app, slen_print_member in Hn. cbn [fst snd String.length] in Hn.
    rewrite str_app_assoc, print_member_app. cbn [fst snd]. cbn [scan_members].
    rewrite decide_True by done. rewrite scan_str_plain by done. cbn [mbind option_bind].
    rewrite skip_ws_colon, decide_True by done. rewrite is_value_skip_ws by done.
    str_norm.
    rewrite is_value_scan by (done || lia). cbn [mbind option_bind].
    rewrite skip_ws_comma, decide_False, decide_True by done.
    assert (∀ u, skip_ws (Join "," (print_member kv :: map print_member l) +:+ u) =
                 Join "," (print_member kv :: map print_member l) +:+ u) as ->.
    { intros u. destruct l; cbn [map Join]; rewrite ?str_app_assoc, print_member_app; done. }
    rewrite IH by lia. cbn. by rewrite raw_of_tail.
Qed.

Lemma scan_elems_print l t n :
  l ≠ [] → Forall is_value l → (2 * slen (Join "," l) + 2 ≤ n)%nat →
  scan_elems n (Join "," l +:+ String "]" t) = Some (l, t).
Proof.
  intros Hne Hl. revert n. induction Hl as [|v l Hv Hl IH]; [done|]. intros n Hn. clear Hne.
  destruct n as [|n]; [lia|].
  destruct l as [|w l].
  - cbn [Join] in *. cbn [scan_elems].
    rewrite is_value_scan by (done || lia). cbn. by rewrite raw_of_tail.
  - specialize (IH ltac:(done)). rewrite Join_cons2 in *. rewrite !slen_app in Hn.
    cbn [String.length] in Hn. cbn [scan_elems].
    str_norm.
    rewrite is_value_scan by (done || lia). cbn [mbind option_bind].
    rewrite skip_ws_comma, decide_False, decide_True by done.
    inversion_clear Hl as [|? ? Hw Hl'].
    assert (∀ u, skip_ws (Join "," (w :: l) +:+ u) = Join "," (w :: l) +:+ u) as ->.
    { intros u. destruct l; [by apply is_value_skip_ws|]. rewrite Join_cons2, !str_app_assoc.
      by apply is_value_skip_ws. }
    rewrite IH by lia. cbn. by rewrite raw_of_tail.
Qed.

(** The decoder reads a printed object and array back member by member. *)
Lemma print_object_cons l : print_object l = String "{" (Join "," (map print_member l) +:+ String "}" "").
Proof. done. Qed.
Lemma print_array_cons l : print_array l = String "[" (Join "," l +:+ String "]" "").
Proof. done. Qed.

Lemma skip_ws_members l u : l ≠ [] → Forall member_ok l →
  ∃ d r, skip_ws (Join "," (map print_member l) +:+ u) = String d r ∧ d ≠ "}"%char ∧
         String d r = Join "," (map print_member l) +:+ u.
Proof.
  intros Hne _. destruct l as [|kv l]; [done|].
  assert (∃ w, Join "," (map print_member (kv :: l)) +:+ u = String dquote w) as [w Hw].
  { destruct l as [|kv' l]; cbn [map]; [cbn [Join]|rewrite Join_cons2, !str_app_assoc];
      rewrite print_member_app; eauto. }
  rewrite Hw. exists dquote, w. done.
Qed.

Lemma shape_of_print_object l : Forall member_ok l → shape_of (print_object l) = Some (JObj l).
Proof.
  intros Hl. rewrite print_object_cons. destruct (decide (l = [])) as [->|Hne]; [done|].
  cbn [shape_of]. rewrite decide_True by done.
  destruct (skip_ws_members l (String "}" "") Hne Hl) as (d & r & -> & Hd & Hr).
  rewrite decide_False by done. rewrite Hr.
  rewrite scan_members_print; [done|done|done|]. unfold fuel_for.
  cbn [String.length]. rewrite slen_app. lia.
Qed.

Lemma is_value_print_object l : Forall member_ok l → is_value (print_object l).
Proof.
  intros Hl. unfold is_value, scan. rewrite print_object_cons.
  destruct (decide (l = [])) as [->|Hne]; [done|].
  unfold fuel_for. rewrite Nat.add_comm. cbn [Nat.add scan_value]. rewrite decide_True by done.
  destruct (skip_ws_members l (String "}" "") Hne Hl) as (d & r & -> & Hd & Hr).
  rewrite decide_False by done. rewrite Hr.
  rewrite scan_members_print; [done|done|done|].
  cbn [String.length]. rewrite slen_app. cbn [String.length]. lia.
Qed.

Lemma skip_ws_elems l u : l ≠ [] → Forall is_value l →
  skip_ws (Join "," l +:+ u) = Join "," l +:+ u.
Proof.
  intros Hne Hl. destruct Hl as [|v l Hv Hl]; [done|].
  destruct l; [by apply is_value_skip_ws|]. rewrite Join_cons2, !str_app_assoc.
  by apply is_value_skip_ws.
Qed.

Lemma shape_of_print_array l : Forall is_value l → shape_of (print_array l) = Some (JArr l).
Proof.
  intros Hl. rewrite print_array_cons. destruct (decide (l = [])) as [->|Hne]; [done|].
  cbn [shape_of]. rewrite decide_False, decide_True by done.
  rewrite skip_ws_elems by done.
  pose proof (scan_elems_print l "" (fuel_for (String "[" (Join "," l +:+ String "]" "")))
    Hne Hl) as H.
  destruct (Join "," l +:+ String "]" "") as [|d r] eqn:E.
  { by destruct (Join "," l). }
  rewrite decide_False.
  - rewrite H; [done|]. unfold fuel_for. rewrite <-E. cbn [String.length]. rewrite slen_app. lia.
  - intros ->. destruct Hl as [|v l Hv Hl]; [done|].
    assert (∃ u, String "]" r = v +:+ u) as [u Hu].
    { rewrite <-E. destruct l; [eauto|]. rewrite Join_cons2, !str_app_assoc. eauto. }
    destruct v as [|c v]; [done|]. rewrite str_app_cons in Hu. injection Hu as <- _.
    unfold is_value, scan, fuel_for in Hv. rewrite Nat.add_comm in Hv. cbn in Hv. done.
Qed.

Lemma is_value_shape v : is_value v → ∃ sh, shape_of v = Some sh.
Proof.
  unfold is_value, scan. set (n := fuel_for v). destruct v as [|c s]; [done|].
  cbn [shape_of]. fold n. assert (n = S (2 * slen (String c s) + 1)) as -> by (unfold n, fuel_for; lia).
  set (k := (2 * slen (String c s) + 1)%nat). cbn [scan_value]. intros H.
  repeat case_decide.
  1,2: destruct (skip_ws s) as [|d r]; [done|]; case_decide; [eauto|];
    apply fmap_Some in H as ([l r0] & H & E0); cbn in E0; subst r0.
  - pose proof (proj2 (proj2 (scan_stable_all k)) _ _ _ H) as [_ H'].
    specialize (H' (S k) "" ltac:(left; lia) eq_refl). rewrite str_app_nil_r in H'. rewrite H'.
    cbn. eauto.
  - pose proof (proj1 (proj2 (scan_stable_all k)) _ _ _ H) as [_ H'].
    specialize (H' (S k) "" ltac:(left; lia) eq_refl). rewrite str_app_nil_r in H'. rewrite H'.
    cbn. eauto.
  - apply fmap_Some in H as ([l r0] & -> & _). cbn. eauto.
  - rewrite H. cbn; eauto.
  - rewrite H. cbn; eauto.
  - rewrite H. cbn; eauto.
  - rewrite H. cbn; eauto.
Qed.

Lemma is_value_literal k : plain k = true → is_value (String dquote (k +:+ String dquote "")).
Proof.
  intros Hk. unfold is_value, scan, fuel_for. rewrite Nat.add_comm. cbn [Nat.add scan_value].
  rewrite !decide_False by done. rewrite decide_True by done. by rewrite scan_str_plain.
Qed.

(** ** Decimal numbers *)

Definition dec_digit (x : N) : ascii := pretty_N_char x.

Lemma pretty_N_char_digit x : (x < 10)%N →
  is_digit (pretty_N_char x) = true ∧ byte_of (pretty_N_char x) = (48 + x)%N.
Proof.
  intros H.
  assert (∀ k : nat, (k < 10)%nat → is_digit (pretty_N_char (N.of_nat k)) = true ∧
            byte_of (pretty_N_char (N.of_nat k)) = (48 + N.of_nat k)%N) as Hk.
  { intros k Hk. do 10 (destruct k as [|k]; [done|]). lia. }
  specialize (Hk (N.to_nat x)). rewrite N2Nat.id in Hk. apply Hk. lia.
Qed.

(** The digits of a positive number: no leading zero, and read back as it. *)
Lemma pretty_N_go_digits x : (0 < x)%N →
  ∃ c d, (∀ s, pretty_N_go x s = String c (d +:+ s)) ∧ in_range 49 57 c = true ∧
         str_forall is_digit d = true ∧
         ∀ acc s, parse_digits acc (String c (d +:+ s)) =
                  parse_digits (acc * 10 ^ Z.of_nat (S (slen d)) + Z.of_N x) s.
Proof.
  induction (N.lt_wf_0 x) as [x _ IH]; intros Hx.
  pose proof (N.mod_lt x 10 ltac:(lia)) as Hm. pose proof (N.div_mod x 10 ltac:(lia)) as Hd.
  destruct (pretty_N_char_digit (x mod 10) Hm) as [Hdig Hval].
  set (ch := pretty_N_char (x mod 10)) in *.
  assert (∀ acc s, parse_digits acc (String ch s) = parse_digits (acc * 10 + Z.of_N (x mod 10)) s) as Hp.
  { intros acc s. cbn [parse_digits]. rewrite Hdig, Hval. f_equal. lia. }
  destruct (decide (x / 10 = 0)%N) as [H0|H0].
  - exists ch, "". split_and!; [|unfold in_range; rewrite Hval; apply andb_true_iff; rewrite !N.leb_le; lia|done|].
    + intros s. rewrite pretty_N_go_step by done. rewrite H0, pretty_N_go_0. done.
    + intros acc s. rewrite str_app_nil, Hp. f_equal. cbn [String.length]. lia.
  - destruct (IH (x / 10)%N) as (c & d & Hg & Hc & Hdd & Hv); [apply N.div_lt; lia|lia|].
    exists c, (d +:+ String ch ""). split_and!; [|done| |].
    + intros s. rewrite pretty_N_go_step by done. rewrite Hg, str_app_assoc. done.
    + rewrite str_forall_app, Hdd. cbn. by rewrite Hdig.
    + intros acc s. rewrite str_app_assoc, str_app_cons, str_app_nil, Hv, Hp. f_equal.
      rewrite slen_app. cbn [String.length]. rewrite Nat.add_1_r.
      rewrite (Nat2Z.inj_succ (S (slen d))), Z.pow_succ_r by lia. lia.
Qed.

Lemma skip_digits_all d t : str_forall is_digit d = true → delim t = true → skip_digits (d +:+ t) = t.
Proof.
  intros Hd Ht. induction d as [|c d IH]; str_simpl.
  - destruct t as [|c t]; [done|]. cbn. by rewrite (delim_not_digit c t).
  - cbn in Hd. apply andb_true_iff in Hd as [-> Hd]. auto.
Qed.

Lemma in_range_19 c : in_range 49 57 c = true →
  is_digit c = true ∧ in_range 48 48 c = false ∧ in_range 45 45 c = false ∧ c ≠ "{"%char ∧ c ≠ "["%char ∧
  c ≠ dquote ∧ c ≠ "t"%char ∧ c ≠ "f"%char ∧ c ≠ "n"%char.
Proof. by destruct c as [[] [] [] [] [] [] [] []]. Qed.

Lemma scan_num_pos c d : in_range 49 57 c = true → str_forall is_digit d = true →
  scan_num (String c d) = Some "" ∧ scan_num (String "-" (String c d)) = Some "".
Proof.
  intros Hc Hd. destruct (in_range_19 c Hc) as (H1 & H2 & H3 & _).
  assert (scan_uint (String c d) = Some "") as Hu.
  { cbn. rewrite H2, Hc. rewrite <-(str_app_nil_r d). by rewrite skip_digits_all. }
  unfold scan_num. rewrite H3. change (in_range 45 45 "-") with true. cbv beta iota.
  rewrite Hu. done.
Qed.

Definition num_text (t : string) : Prop := is_value t ∧ shape_of t = Some (JNum t).

Lemma num_text_intro c t :
  scan_num (String c t) = Some "" → c ≠ "{"%char → c ≠ "["%char → c ≠ dquote → c ≠ "t"%char →
  c ≠ "f"%char → c ≠ "n"%char → num_text (String c t).
Proof.
  intros H ??????. split.
  - unfold is_value, scan, fuel_for. rewrite Nat.add_comm. cbn [Nat.add scan_value].
    by rewrite !decide_False by done.
  - unfold shape_of. rewrite !decide_False by done. rewrite H. pose proof (raw_of_tail (String c t) "") as E.
    rewrite str_app_nil_r in E. cbn [fmap option_fmap option_map]. by rewrite E.
Qed.

Lemma FormatUint_num n : num_text (FormatUint n) ∧ parse_digits 0 (FormatUint n) = Some (Z.of_N n).
Proof.
  unfold FormatUint, pretty, pretty_N. case_decide as H.
  { subst. repeat split. }
  destruct (pretty_N_go_digits n ltac:(lia)) as (c & d & Hg & Hc & Hd & Hv).
  rewrite Hg, str_app_nil_r. destruct (in_range_19 c Hc) as (?&?&?&?&?&?&?&?&?). split.
  - apply num_text_intro; try done. by apply scan_num_pos.
  - specialize (Hv 0%Z ""). rewrite str_app_nil_r in Hv. rewrite Hv. done.
Qed.

(** A printed 64-bit integer is a number literal and reads back as itself. *)
Lemma FormatInt_num z : (- 2 ^ 63 ≤ z < 2 ^ 63)%Z →
  num_text (FormatInt z) ∧ parse_int64 (FormatInt z) = Some z.
Proof.
  intros Hz.
  assert (∀ n, (Z.of_N n < 2 ^ 63)%Z → parse_int64 (FormatUint n) = Some (Z.of_N n)) as Hpos.
  { intros n Hn. pose proof (FormatUint_num n) as [_ Hp]. unfold parse_int64.
    assert (∃ c t, FormatUint n = String c t ∧ in_range 45 45 c = false) as (c & t & E & Hc).
    { unfold FormatUint, pretty, pretty_N. case_decide as H; [by eexists _, _|].
      destruct (pretty_N_go_digits n ltac:(lia)) as (c & d & Hg & Hc & _). rewrite Hg.
      eexists _, _. split; [done|]. by apply in_range_19. }
    rewrite E in *. rewrite Hc. destruct t; rewrite Hp; cbn [mbind option_bind];
      rewrite bool_decide_eq_true_2 by lia; done. }
  destruct z as [|p|p].
  - repeat split.
  - change (FormatInt (Z.pos p)) with (FormatUint (N.pos p)).
    split; [apply FormatUint_num|]. rewrite Hpos by lia. done.
  - change (FormatInt (Z.neg p)) with (String "-" (FormatUint (N.pos p))).
    pose proof (FormatUint_num (N.pos p)) as [_ Hp].
    destruct (pretty_N_go_digits (N.pos p) ltac:(lia)) as (c & d & Hg & Hc & Hd & _).
    assert (FormatUint (N.pos p) = String c d) as E.
    { change (FormatUint (N.pos p)) with (pretty_N_go (N.pos p) ""). by rewrite Hg, str_app_nil_r. }
    rewrite E in *. split.
    + apply num_text_intro; try done. by apply scan_num_pos.
    + unfold parse_int64. cbn [in_range]. change (in_range 45 45 "-") with true. cbv iota.
      rewrite Hp. cbn [fmap option_fmap option_map mbind option_bind].
      rewrite bool_decide_eq_true_2 by lia. done.
Qed.

(** ** Strings of bytes below 0x80 *)

Lemma quote_char_scan c : in_range 0 127 c = true →
  ∀ t, scan_str (quote_char c +:+ t) = push (quote_char c) (scan_str t).
Proof.
  destruct c as [[] [] [] [] [] [] [] []]; intros H; try discriminate H; intros t; reflexivity.
Qed.

Lemma quote_char_unquote c : in_range 0 127 c = true →
  ∀ n t, unquote_n (S n) (quote_char c +:+ t) = String c (unquote_n n t).
Proof.
  destruct c as [[] [] [] [] [] [] [] []]; intros H; try discriminate H; intros n t; reflexivity.
Qed.

Lemma quote_n_ascii n c s : in_range 0 127 c = true →
  quote_n (S n) (String c s) = quote_char c +:+ quote_n n s.
Proof. intros H. cbn. by rewrite H. Qed.

Lemma scan_str_quote n s t : (slen s ≤ n)%nat → is_ascii s = true →
  scan_str (quote_n n s +:+ String dquote t) = Some (quote_n n s, t).
Proof.
  unfold is_ascii. revert n; induction s as [|c s IH]; intros n Hn Hs.
  { by destruct n; str_simpl; rewrite decide_True. }
  destruct n as [|n]; [cbn in Hn; lia|]. cbn in Hs, Hn. apply andb_true_iff in Hs as [Hc Hs].
  rewrite quote_n_ascii by done. rewrite str_app_assoc, quote_char_scan by done.
  rewrite IH by (done || lia). done.
Qed.

Lemma slen_quote_char c : (1 ≤ slen (quote_char c))%nat.
Proof. unfold quote_char, u00. repeat case_match; cbn; lia. Qed.

Lemma unquote_quote_n n k s : (slen s ≤ n)%nat → (slen s ≤ k)%nat → is_ascii s = true →
  unquote_n k (quote_n n s) = s.
Proof.
  unfold is_ascii. revert n k; induction s as [|c s IH]; intros n k Hn Hk Hs.
  { by destruct n, k. }
  destruct n as [|n]; [cbn in Hn; lia|]. destruct k as [|k]; [cbn in Hk; lia|].
  cbn in Hs, Hn, Hk. apply andb_true_iff in Hs as [Hc Hs].
  rewrite quote_n_ascii, quote_char_unquote by done. by rewrite IH by (done || lia).
Qed.

Lemma slen_quote_n n s : (slen s ≤ n)%nat → is_ascii s = true → (slen s ≤ slen (quote_n n s))%nat.
Proof.
  unfold is_ascii. revert n; induction s as [|c s IH]; intros n Hn Hs; [cbn; lia|].
  destruct n as [|n]; [cbn in Hn; lia|]. cbn in Hs, Hn. apply andb_true_iff in Hs as [Hc Hs].
  rewrite quote_n_ascii by done. rewrite slen_app. pose proof (slen_quote_char c).
  specialize (IH n ltac:(lia) Hs). cbn. lia.
Qed.

(** The literal of an ASCII string is a value, and decodes to the string. *)
Lemma is_value_quote s : is_ascii s = true → is_value (quote s).
Proof.
  intros Hs. unfold is_value, scan, fuel_for, quote. rewrite Nat.add_comm. cbn [Nat.add scan_value].
  rewrite !decide_False by done. rewrite decide_True by done. by rewrite scan_str_quote.
Qed.

Lemma shape_of_quote s : is_ascii s = true →
  ∃ lit, shape_of (quote s) = Some (JStr lit) ∧ unquote lit = s.
Proof.
  intros Hs. exists (quote_n (slen s) s). unfold quote, shape_of.
  rewrite !decide_False by done. rewrite decide_True by done. rewrite scan_str_quote by done.
  split; [done|]. unfold unquote. apply unquote_quote_n; [done| |done]. by apply slen_quote_n.
Qed.

Lemma is_value_print_array l : Forall is_value l → is_value (print_array l).
Proof.
  intros Hl. unfold is_value, scan. rewrite print_array_cons.
  destruct (decide (l = [])) as [->|Hne]; [done|].
  unfold fuel_for. rewrite Nat.add_comm. cbn [Nat.add scan_value].
  rewrite decide_False, decide_True by done. rewrite skip_ws_elems by done.
  pose proof (shape_of_print_array l Hl) as Hsh. rewrite print_array_cons in Hsh.
  cbn [shape_of] in Hsh. rewrite decide_False, decide_True in Hsh by done.
  rewrite skip_ws_elems in Hsh by done.
  destruct (Join "," l +:+ String "]" "") as [|d r] eqn:E; [done|].
  case_decide; [by injection Hsh as <-|].
  rewrite <-E, scan_elems_print; [done|done|done|].
  cbn [String.length]. rewrite slen_app. cbn [String.length]. lia.
Qed.

(** [scan] has enough fuel: it finds every value that some fuel finds. *)
Lemma scan_value_scan n s r : scan_value n s = Some r → scan s = Some r.
Proof.
  intros H. pose proof (scan_value_stable n s r (fuel_for s) "" H) as H'.
  rewrite !str_app_nil_r in H'. apply H'; [|done]. unfold enough, fuel_for. right. lia.
Qed.

Lemma scan_value_head n s r : scan_value n s = Some r →
  ∃ c s', s = String c s' ∧ is_ws c = false ∧ c ≠ "]"%char ∧ c ≠ "}"%char.
Proof.
  intros H. destruct n as [|n]; [done|]. destruct s as [|c s']; [done|]. exists c, s'.
  split; [done|]. cbn [scan_value] in H.
  destruct c as [[] [] [] [] [] [] [] []]; try done; cbn in H; try done; repeat split; done.
Qed.

(** ** Texts that compact leaves as they are *)

(** Characters that are not escaped, and those that stand for themselves in a string
    and outside of one. *)
Definition unescaped (c : ascii) : bool :=
  in_range 0 127 c && negb (in_range 60 60 c || in_range 62 62 c || in_range 38 38 c).
Definition bare_char (c : ascii) : bool := plain_char c && unescaped c.
Definition bare (s : string) : bool := str_forall bare_char s.
Definition outer_char (c : ascii) : bool := unescaped c && negb (is_ws c || bool_decide (c = dquote)).

(** Unchanged wherever it stands between values. *)
Definition tight (s : string) : Prop :=
  ∀ rest, compact_go false false (s +:+ rest) = s +:+ compact_go false false rest.

Lemma compact_char instr esc c s : unescaped c = true →
  compact_go instr esc (String c s) =
    if instr then
      if esc then String c (compact_go true false s)
      else if decide (c = backslash) then String c (compact_go true true s)
      else if decide (c = dquote) then String c (compact_go false false s)
      else String c (compact_go true false s)
    else if decide (c = dquote) then String c (compact_go true false s)
    else if is_ws c then compact_go false false s
    else String c (compact_go false false s).
Proof.
  unfold unescaped. intros [H1 H2%negb_true_iff]%andb_true_iff. cbn [compact_go]. rewrite H2.
  assert (in_range 226 226 c = false) as ->.
  { unfold in_range in *. apply andb_true_iff in H1 as [_ H1%N.leb_le]. apply andb_false_iff. left.
    apply N.leb_gt. lia. }
  by destruct s as [|b [|d s]].
Qed.

Lemma tight_compact s : tight s → compact s = s.
Proof. intros H. specialize (H ""). by rewrite !str_app_nil_r in H. Qed.
Lemma tight_nil : tight "".
Proof. by intros rest. Qed.
Lemma tight_app s t : tight s → tight t → tight (s +:+ t).
Proof. intros Hs Ht rest. by rewrite !str_app_assoc, Hs, Ht. Qed.

Lemma tight_outer s : str_forall outer_char s = true → tight s.
Proof.
  intros H rest. induction s as [|c s IH]; [done|]. rewrite !str_app_cons. cbn in H.
  apply andb_true_iff in H as [[Hc [Hw Hq]%negb_true_iff%orb_false_iff]%andb_true_iff H].
  rewrite compact_char by done. rewrite decide_False by (by apply bool_decide_eq_false in Hq). by rewrite Hw, IH.
Qed.
Lemma tight_cons c s : outer_char c = true → tight s → tight (String c s).
Proof.
  intros Hc Hs. apply (tight_app (String c "")); [|done]. apply tight_outer. cbn. by rewrite Hc.
Qed.

Lemma compact_bare k rest : bare k = true → compact_go true false (k +:+ rest) = k +:+ compact_go true false rest.
Proof.
  induction k as [|c k IH]; [done|]. rewrite !str_app_cons. unfold bare. cbn [str_forall].
  intros [[(Hq & Hb & _)%plain_char_not Hu]%andb_true_iff H]%andb_true_iff.
  rewrite compact_char by done. by rewrite !decide_False, IH by done.
Qed.
Lemma tight_literal k : bare k = true → tight (String dquote (k +:+ String dquote "")).
Proof.
  intros Hk rest. rewrite str_app_cons, str_app_assoc, str_app_cons, str_app_nil.
  rewrite compact_char, decide_True by done. rewrite compact_bare by done.
  rewrite compact_char by done. rewrite decide_False, decide_True by done. rewrite !str_app_cons.
  by rewrite str_app_assoc, str_app_cons, str_app_nil.
Qed.

Lemma bare_ascii k : bare k = true → is_ascii k = true.
Proof.
  unfold bare, is_ascii. induction k as [|c k IH]; [done|]. cbn. intros [Hc Hk]%andb_true_iff. rewrite (IH Hk), andb_true_r.
  unfold bare_char, unescaped in Hc. by apply andb_true_iff in Hc as [_ [Hc _]%andb_true_iff].
Qed.
Lemma quote_bare_char c : bare_char c = true → quote_char c = String c "".
Proof. by destruct c as [[] [] [] [] [] [] [] []]. Qed.
(** A bare string is its own literal. *)
Lemma quote_bare k : bare k = true → quote k = String dquote (k +:+ String dquote "").
Proof.
  intros Hk. unfold quote. f_equal. f_equal. induction k as [|c k IH]; [done|].
  pose proof (bare_ascii _ Hk) as Ha. unfold bare, is_ascii in *. cbn in Hk, Ha.
  apply andb_true_iff in Hk as [Hc Hk]. apply andb_true_iff in Ha as [Ha _]. cbn [String.length].
  by rewrite quote_n_ascii, quote_bare_char, (IH Hk) by done.
Qed.

Lemma tight_Join l : Forall tight l → tight (Join "," l).
Proof.
  induction 1 as [|x l Hx Hl IH]; [apply tight_nil|]. destruct l as [|y l]; [done|].
  rewrite Join_cons2. apply tight_app; [done|]. by apply (tight_app ","); [apply tight_outer|].
Qed.
Lemma tight_print_array l : Forall tight l → tight (print_array l).
Proof.
  intros H. unfold print_array. apply (tight_app "["); [by apply tight_outer|]. apply tight_app; [by apply tight_Join|].
  by apply tight_outer.
Qed.
Lemma tight_print_object l : Forall (λ kv, bare kv.1 = true ∧ tight kv.2) l → tight (print_object l).
Proof.
  intros H. unfold print_object. apply (tight_app "{"); [by apply tight_outer|]. apply tight_app; [|by apply tight_outer].
  apply tight_Join, Forall_map. eapply Forall_impl; [done|]. intros [k v] [Hk Hv]. unfold print_member, compose. cbn [fst snd] in *.
  replace (String dquote (k +:+ String dquote (":" +:+ v))) with (String dquote (k +:+ String dquote "") +:+ (":" +:+ v)).
  - apply tight_app; [by apply tight_literal|]. by apply (tight_app ":"); [apply tight_outer|].
  - by rewrite str_app_cons, str_app_assoc, str_app_cons, str_app_nil.
Qed.

Lemma FormatUint_digits n : str_forall is_digit (FormatUint n) = true.
Proof.
  unfold FormatUint, pretty, pretty_N. case_decide as H; [done|].
  destruct (pretty_N_go_digits n ltac:(lia)) as (c & d & Hg & Hc & Hd & _).
  rewrite Hg, str_app_nil_r. cbn. rewrite Hd, andb_true_r.
  unfold is_digit, in_range in *. apply andb_true_iff in Hc as [Hc%N.leb_le ->]. rewrite andb_true_r. apply N.leb_le. lia.
Qed.
Lemma str_forall_impl (f g : ascii → bool) s :
  (∀ c, f c = true → g c = true) → str_forall f s = true → str_forall g s = true.
Proof. intros H. induction s as [|c s IH]; [done|]. cbn. intros [Hc Hs]%andb_true_iff. by rewrite H, IH. Qed.
Lemma tight_FormatUint n : tight (FormatUint n).
Proof.
  apply tight_outer. eapply str_forall_impl; [|apply FormatUint_digits]. intros [[] [] [] [] [] [] [] []]; done.
Qed.
