(* ===== verification/RpcMessage.v ===== *)
(** * JSON-RPC messages, errors and the codec (simple_rpc/rpc/errors.go, json.go)

    Errors and messages are the code's types; a [json.RawMessage] is
    [option string], [None] for the nil slice.  Parsing goes through the texts
    of {!Json}, with the field rules of encoding/json (case-folded names,
    mistyped fields skipped, [null] per field type).  A Go value that the code
    only hands to [json.Marshal] is a [gval]: what Marshal gives for it. *)

From S2P Require Import Prelude GoText Json.

(** ** Values, errors and messages *)

(** What [json.Marshal] returns for a Go value: its text or an error's text. *)
Abbreviation gval := (result string string).

(** An [interface{}] the code stores: a Go value handed in by other code, or
    the value [json.Unmarshal] builds from a text. *)
Inductive iface := IGo (v : gval) | IJson (raw : string).

Record jsonError := mkJsonError { je_Code : Z; je_Message : string; je_Data : option iface }.

(** The error variables of the package, which are compared by identity. *)
Inductive errvar :=
| ErrClientQuit | ErrNoResult | ErrSubscriptionQueueOverflow
| errClientReconnected | errDead
| ErrNotificationsUnsupported | ErrSubscriptionNotFound.

Definition errvar_text (v : errvar) : string :=
  match v with
  | ErrClientQuit => "client is closed"
  | ErrNoResult => "no result in JSON-RPC response"
  | ErrSubscriptionQueueOverflow => "subscription queue overflow"
  | errClientReconnected => "client reconnected"
  | errDead => "connection lost"
  | ErrNotificationsUnsupported => "notifications not supported"
  | ErrSubscriptionNotFound => "subscription not found"
  end.

(** Go [error] values.  [ENew] stands for [errors.New] and [fmt.Errorf];
    [EUser] for an error a callback returns, with its [ErrorCode] and
    [ErrorData] methods when it has them. *)
Inductive gerror :=
| EMethodNotFound (method : string)
| ESubscriptionNotFound (namespace subscription : string)
| EParse (message : string)
| EInvalidRequest (message : string)
| EInvalidMessage (message : string)
| EInvalidParams (message : string)
| EJson (e : jsonError)
| EVar (v : errvar)
| ENew (message : string)
| EUser (message : string) (code : option Z) (data : option (option iface)).

#[export] Instance iface_eq_dec : EqDecision iface.
Proof. solve_decision. Defined.
#[export] Instance jsonError_eq_dec : EqDecision jsonError.
Proof. solve_decision. Defined.
#[export] Instance errvar_eq_dec : EqDecision errvar.
Proof. solve_decision. Defined.
#[export] Instance gerror_eq_dec : EqDecision gerror.
Proof. solve_decision. Defined.

(** [%q] of a string; runes at or above 0x80 are taken to be printable. *)
Fixpoint quote_go_n (n : nat) (s : string) : string :=
  match n, s with
  | S n, String c s1 =>
      let hex2 := String backslash (String "x" (String (hex_char (byte_of c / 16))
                    (String (hex_char (byte_of c mod 16)) ""))) in
      if bool_decide (c = dquote) || bool_decide (c = backslash)
      then String backslash (String c (quote_go_n n s1))
      else if in_range 32 126 c then String c (quote_go_n n s1)
      else if in_range 0 127 c then
        (if in_range 7 7 c then String backslash "a"
         else if in_range 8 8 c then String backslash "b"
         else if in_range 9 9 c then String backslash "t"
         else if in_range 10 10 c then String backslash "n"
         else if in_range 11 11 c then String backslash "v"
         else if in_range 12 12 c then String backslash "f"
         else if in_range 13 13 c then String backslash "r"
         else hex2) +:+ quote_go_n n s1
      else match utf8_len s with
           | Some k => str_take k s +:+ quote_go_n n (str_drop k s)
           | None => hex2 +:+ quote_go_n n s1
           end
  | _, _ => EmptyString
  end.
Definition quote_go (s : string) : string :=
  String dquote (quote_go_n (slen s) s +:+ String dquote "").

Definition defaultErrorCode : Z := -32000.

Definition jsonError_Error (e : jsonError) : string :=
  if decide (je_Message e = "") then "json-rpc error " +:+ FormatInt (je_Code e) else je_Message e.

(** The [Error()] method of every error. *)
Definition error_text (e : gerror) : string :=
  match e with
  | EMethodNotFound m => "the method " +:+ m +:+ " does not exist/is not available"
  | ESubscriptionNotFound ns sub =>
      "no " +:+ quote_go sub +:+ " subscription in " +:+ ns +:+ " namespace"
  | EParse m | EInvalidRequest m | EInvalidMessage m | EInvalidParams m => m
  | EJson e => jsonError_Error e
  | EVar v => errvar_text v
  | ENew m | EUser m _ _ => m
  end.

(** [err.(Error)]: the [ErrorCode()] of the errors that have one. *)
Definition ErrorCode (e : gerror) : option Z :=
  match e with
  | EMethodNotFound _ | ESubscriptionNotFound _ _ => Some (-32601)%Z
  | EParse _ | EInvalidMessage _ => Some (-32700)%Z
  | EInvalidRequest _ => Some (-32600)%Z
  | EInvalidParams _ => Some (-32602)%Z
  | EJson e => Some (je_Code e)
  | EVar _ | ENew _ => None
  | EUser _ c _ => c
  end.

(** [err.(DataError)]: the [ErrorData()] of the errors that have one. *)
Definition ErrorData (e : gerror) : option (option iface) :=
  match e with
  | EJson e => Some (je_Data e)
  | EUser _ _ d => d
  | _ => None
  end.

Abbreviation RawMessage := (option string).
Definition null : RawMessage := Some "null".
Definition vsn : string := "2.0".

Record jsonrpcMessage := mkMsg {
  Version : string; ID : RawMessage; Method : string; Params : RawMessage;
  Error : option jsonError; Result : RawMessage }.

#[export] Instance jsonrpcMessage_eq_dec : EqDecision jsonrpcMessage.
Proof. solve_decision. Defined.

Definition zero_msg : jsonrpcMessage := mkMsg "" None "" None None None.
Definition zero_jsonError : jsonError := mkJsonError 0 "" None.

(** ** Kinds of message *)

Definition serviceMethodSeparator : ascii := "_".
Definition subscribeMethodSuffix : string := "_subscribe".
Definition unsubscribeMethodSuffix : string := "_unsubscribe".
Definition notificationMethodSuffix : string := "_subscription".

Definition is_nil {A} (o : option A) : bool := match o with None => true | _ => false end.

Definition isNotification (msg : jsonrpcMessage) : bool :=
  is_nil (ID msg) && negb (bool_decide (Method msg = "")).
Definition hasValidID (msg : jsonrpcMessage) : bool :=
  match ID msg with
  | Some (String c _) => negb (bool_decide (c = "{"%char)) && negb (bool_decide (c = "["%char))
  | _ => false
  end.
Definition isCall (msg : jsonrpcMessage) : bool :=
  hasValidID msg && negb (bool_decide (Method msg = "")).
Definition isResponse (msg : jsonrpcMessage) : bool :=
  hasValidID msg && bool_decide (Method msg = "") && is_nil (Params msg) &&
  (negb (is_nil (Result msg)) || negb (is_nil (Error msg))).
Definition isSubscribe (msg : jsonrpcMessage) : bool := HasSuffix (Method msg) subscribeMethodSuffix.
Definition isUnsubscribe (msg : jsonrpcMessage) : bool :=
  HasSuffix (Method msg) unsubscribeMethodSuffix.
Definition namespace (msg : jsonrpcMessage) : string :=
  default "" (head (SplitN2 (Method msg) serviceMethodSeparator)).

(** ** Responses *)

Definition errorMessage (err : gerror) : jsonrpcMessage :=
  let e0 := mkJsonError defaultErrorCode (error_text err) None in
  let e1 := match ErrorCode err with
            | Some c => mkJsonError c (je_Message e0) (je_Data e0)
            | None => e0
            end in
  let e2 := match ErrorData err with
            | Some d => mkJsonError (je_Code e1) (je_Message e1) d
            | None => e1
            end in
  mkMsg vsn null "" None (Some e2) None.

Definition set_ID (msg : jsonrpcMessage) (id : RawMessage) : jsonrpcMessage :=
  mkMsg (Version msg) id (Method msg) (Params msg) (Error msg) (Result msg).

Definition errorResponse (msg : jsonrpcMessage) (err : gerror) : jsonrpcMessage :=
  set_ID (errorMessage err) (ID msg).

Definition response (msg : jsonrpcMessage) (result : gval) : jsonrpcMessage :=
  match result with
  | Err e => errorResponse msg (ENew e)
  | Ok enc => mkMsg vsn (ID msg) "" None None (Some enc)
  end.

Record subscriptionResult := mkSubResult { sr_ID : string; sr_Result : RawMessage }.

(** ** Decoding *)

Definition decode_string (raw old : string) : string :=
  match shape_of raw with Some (JStr lit) => unquote lit | _ => old end.
Definition decode_int (raw : string) (old : Z) : Z :=
  match shape_of raw with Some (JNum n) => default old (parse_int64 n) | _ => old end.
Definition decode_iface (raw : string) : option iface :=
  match shape_of raw with Some JNull => None | _ => Some (IJson raw) end.

Definition set_error_field (e : jsonError) (kv : string * string) : jsonError :=
  let key := fold_key (unquote kv.1) in
  if decide (key = "code") then mkJsonError (decode_int kv.2 (je_Code e)) (je_Message e) (je_Data e)
  else if decide (key = "message") then
    mkJsonError (je_Code e) (decode_string kv.2 (je_Message e)) (je_Data e)
  else if decide (key = "data") then mkJsonError (je_Code e) (je_Message e) (decode_iface kv.2)
  else e.

(** A [*jsonError] field: [null] is nil, an object is decoded into the value
    there is or a new one; for any other value a new one is left behind. *)
Definition decode_error (raw : string) (old : option jsonError) : option jsonError :=
  match shape_of raw with
  | Some JNull => None
  | Some (JObj l) => Some (foldl set_error_field (default zero_jsonError old) l)
  | _ => Some (default zero_jsonError old)
  end.

Definition set_field (m : jsonrpcMessage) (kv : string * string) : jsonrpcMessage :=
  let key := fold_key (unquote kv.1) in
  if decide (key = "jsonrpc") then
    mkMsg (decode_string kv.2 (Version m)) (ID m) (Method m) (Params m) (Error m) (Result m)
  else if decide (key = "id") then
    mkMsg (Version m) (Some kv.2) (Method m) (Params m) (Error m) (Result m)
  else if decide (key = "method") then
    mkMsg (Version m) (ID m) (decode_string kv.2 (Method m)) (Params m) (Error m) (Result m)
  else if decide (key = "params") then
    mkMsg (Version m) (ID m) (Method m) (Some kv.2) (Error m) (Result m)
  else if decide (key = "error") then
    mkMsg (Version m) (ID m) (Method m) (Params m) (decode_error kv.2 (Error m)) (Result m)
  else if decide (key = "result") then
    mkMsg (Version m) (ID m) (Method m) (Params m) (Error m) (Some kv.2)
  else m.

(** [json.Unmarshal(raw, &p)] for [p] a [*jsonrpcMessage] to a zero message: nil
    for [null]; a value that is not an object leaves the zero message. *)
Definition decode_msg (raw : string) : option jsonrpcMessage :=
  match shape_of raw with
  | Some JNull => None
  | Some (JObj l) => Some (foldl set_field zero_msg l)
  | _ => Some zero_msg
  end.

Definition isBatch (raw : string) : bool :=
  match skip_ws raw with String c _ => bool_decide (c = "["%char) | EmptyString => false end.

(** The elements the decoder finds in a syntax-checked array. *)
Definition array_elems (raw : string) : list string :=
  match shape_of (skip_ws raw) with Some (JArr l) => l | _ => [] end.

Definition parseMessage (raw : string) : list (option jsonrpcMessage) * bool :=
  if negb (isBatch raw) then ([decode_msg (skip_ws raw)], false)
  else (map decode_msg (array_elems raw), true).

(** What [readBatch] makes of the raw message it has read: a [null] becomes the
    zero message. *)
Definition readBatch_messages (raw : string) : list jsonrpcMessage * bool :=
  let '(l, batch) := parseMessage raw in (map (default zero_msg) l, batch).

(** ** Encoding *)

Section encoding.
(** What [json.Marshal] writes for the [interface{}] value that
    [json.Unmarshal] builds from a text: the text with object keys sorted and
    numbers printed as float64. *)
Variable reencode : string → string.

Definition encode_iface (d : iface) : option string :=
  match d with
  | IGo (Ok t) => Some t
  | IGo (Err _) => None
  | IJson raw => Some (reencode raw)
  end.

(** The members of a struct with [omitempty] fields: [None] is omitted. *)
Definition omit_empty (l : list (string * option string)) : list (string * string) :=
  omap (λ kv, match kv.2 with Some t => Some (kv.1, t) | None => None end) l.

Definition str_field (s : string) : option string :=
  if decide (s = "") then None else Some (quote s).
(** A raw field: omitted when empty, an error when it is not JSON. *)
Definition raw_field (r : RawMessage) : option (option string) :=
  match r with
  | None | Some EmptyString => Some None
  | Some s => Some <$> marshal_raw s
  end.

Definition encode_jsonError (e : jsonError) : option string :=
  d ← match je_Data e with None => Some None | Some d => Some <$> encode_iface d end;
  Some (print_object (omit_empty
    [("code", Some (FormatInt (je_Code e)));
     ("message", Some (quote (je_Message e)));
     ("data", d)])).

(** [json.Marshal] of a message; [None] when it fails. *)
Definition encode_msg (m : jsonrpcMessage) : option string :=
  id ← raw_field (ID m);
  params ← raw_field (Params m);
  err ← match Error m with None => Some None | Some e => Some <$> encode_jsonError e end;
  res ← raw_field (Result m);
  Some (print_object (omit_empty
    [("jsonrpc", str_field (Version m)); ("id", id); ("method", str_field (Method m));
     ("params", params); ("error", err); ("result", res)])).

(** What the code passes to [writeJSON]. *)
Inductive wireval := WMsg (m : jsonrpcMessage) | WBatch (l : list jsonrpcMessage).

Definition encode_wire (v : wireval) : option string :=
  match v with
  | WMsg m => encode_msg m
  | WBatch l => print_array <$> mapM encode_msg l
  end.

(** [json.Marshal] of a [subscriptionResult]. *)
Definition encode_subscriptionResult (r : subscriptionResult) : option string :=
  res ← raw_field (sr_Result r);
  Some (print_object (omit_empty [("subscription", Some (quote (sr_ID r))); ("result", res)])).

(** ** The codec *)

Section codec.
(** The connection and the functions the codec is built with. *)
Context {C : Type}.
Record codecFuncs := mkCodecFuncs {
  cf_remote : C → option string;
  cf_encode : wireval → C → option gerror * C;
  cf_decode : C → result gerror string * C;
  cf_SetWriteDeadline : Z → C → C;
  cf_Close : C → C }.
Variable F : codecFuncs.

Record jsonCodec := mkCodec {
  c_remote : string;
  c_closer : bool;      (* the sync.Once has run *)
  c_closeCh : bool;     (* closeCh is closed *)
  c_conn : C }.

Definition NewFuncCodec (conn : C) : jsonCodec :=
  mkCodec (default "" (cf_remote F conn)) false false conn.

Definition remoteAddr (c : jsonCodec) : string := c_remote c.

Definition readBatch : go jsonCodec (result gerror (list jsonrpcMessage * bool)) := λ c,
  let '(r, conn) := cf_decode F (c_conn c) in
  let c := mkCodec (c_remote c) (c_closer c) (c_closeCh c) conn in
  match r with
  | Err e => Ret (Err e, c)
  | Ok raw => Ret (Ok (readBatch_messages raw), c)
  end.

(** [defaultWriteTimeout], in nanoseconds; [now] is [time.Now()]. *)
Definition defaultWriteTimeout : Z := 10 * 1000000000.
Definition writeJSON (deadline : option Z) (now : Z) (v : wireval) :
    go jsonCodec (option gerror) := λ c,
  let conn := cf_SetWriteDeadline F (default (now + defaultWriteTimeout)%Z deadline) (c_conn c) in
  let '(err, conn) := cf_encode F v conn in
  Ret (err, mkCodec (c_remote c) (c_closer c) (c_closeCh c) conn).

Definition close : go jsonCodec unit := λ c,
  if c_closer c then Ret ((), c)
  else if c_closeCh c then Panic "close of closed channel"
  else Ret ((), mkCodec (c_remote c) true true (cf_Close F (c_conn c))).

(** Whether a receive from [closed()] is ready. *)
Definition closed (c : jsonCodec) : bool := c_closeCh c.
End codec.

(** A byte stream in each direction, for [NewCodec]: the texts not yet read
    and written so far. *)
Record streamConn := mkStream {
  s_in : string; s_out : string; s_deadline : Z; s_closed : nat; s_dec_err : option gerror }.

(** The text of the error the decoder gives for a stream that does not start
    with a JSON value. *)
Variable syntax_text : string → string.

Definition enc_Encode (v : wireval) (s : streamConn) : option gerror * streamConn :=
  match encode_wire v with
  | None => (Some (ENew "json: error calling MarshalJSON"), s)
  | Some t => (None, mkStream (s_in s) (s_out s +:+ t +:+ String "010" "") (s_deadline s)
                              (s_closed s) (s_dec_err s))
  end.

Definition EOF : gerror := ENew "EOF".

(** An error of the decoder other than a failed conversion sticks. *)
Definition dec_Decode (s : streamConn) : result gerror string * streamConn :=
  match s_dec_err s with
  | Some e => (Err e, s)
  | None =>
      let text := skip_ws (s_in s) in
      match scan text with
      | Some rest =>
          (Ok (raw_of text rest), mkStream rest (s_out s) (s_deadline s) (s_closed s) None)
      | None =>
          let e := if decide (text = "") then EOF else ENew (syntax_text text) in
          (Err e, mkStream (s_in s) (s_out s) (s_deadline s) (s_closed s) (Some e))
      end
  end.

Definition stream_funcs (remote : option string) : codecFuncs :=
  mkCodecFuncs (λ _, remote) enc_Encode dec_Decode
    (λ d s, mkStream (s_in s) (s_out s) d (s_closed s) (s_dec_err s))
    (λ s, mkStream (s_in s) (s_out s) (s_deadline s) (S (s_closed s)) (s_dec_err s)).

Definition NewCodec (remote : option string) (conn : streamConn) : jsonCodec :=
  NewFuncCodec (stream_funcs remote) conn.
End encoding.

(** ** Lemmas: encoding and decoding *)

(** A raw message the encoder writes unchanged: one value without white space. *)
Definition canonical (s : string) : Prop := is_value s ∧ compact s = s.
Definition raw_ok (r : RawMessage) : Prop := match r with None => True | Some s => canonical s end.
Definition data_ok (reencode : string → string) (d : option iface) : Prop :=
  match d with
  | None => True
  | Some d => ∃ t, encode_iface reencode d = Some t ∧ is_value t ∧ shape_of t ≠ Some JNull
  end.
Definition error_ok (reencode : string → string) (e : jsonError) : Prop :=
  (- 2 ^ 63 ≤ je_Code e < 2 ^ 63)%Z ∧ is_ascii (je_Message e) = true ∧ data_ok reencode (je_Data e).
Definition msg_ok (reencode : string → string) (m : jsonrpcMessage) : Prop :=
  is_ascii (Version m) = true ∧ is_ascii (Method m) = true ∧
  raw_ok (ID m) ∧ raw_ok (Params m) ∧ raw_ok (Result m) ∧
  match Error m with None => True | Some e => error_ok reencode e end.

(** The message as the peer decodes it: error data becomes decoded data. *)
Definition received_data (reencode : string → string) (d : option iface) : option iface :=
  match d with
  | None => None
  | Some d => IJson <$> encode_iface reencode d
  end.
Definition received_error (reencode : string → string) (e : jsonError) : jsonError :=
  mkJsonError (je_Code e) (je_Message e) (received_data reencode (je_Data e)).
Definition received (reencode : string → string) (m : jsonrpcMessage) : jsonrpcMessage :=
  mkMsg (Version m) (ID m) (Method m) (Params m) (received_error reencode <$> Error m) (Result m).

Lemma raw_field_ok s : canonical s → raw_field (Some s) = Some (Some s).
Proof.
  intros [Hv Hc]. unfold raw_field, marshal_raw. rewrite is_value_valid, Hc by done.
  by destruct s.
Qed.

Lemma raw_field_raw_ok r : raw_ok r → raw_field r = Some r.
Proof. destruct r as [s|]; [apply raw_field_ok|done]. Qed.

Lemma decode_string_quote s old : is_ascii s = true → decode_string (quote s) old = s.
Proof.
  intros Hs. unfold decode_string. by destruct (shape_of_quote s Hs) as (lit & -> & ->).
Qed.

Lemma decode_int_Format z old : (- 2 ^ 63 ≤ z < 2 ^ 63)%Z → decode_int (FormatInt z) old = z.
Proof.
  intros Hz. unfold decode_int. destruct (FormatInt_num z Hz) as [[_ ->] Hp]. by rewrite Hp.
Qed.

Lemma decode_iface_value t : is_value t → shape_of t ≠ Some JNull → decode_iface t = Some (IJson t).
Proof. intros _ Hn. unfold decode_iface. by destruct (shape_of t) as [[]|]. Qed.

Lemma set_error_code e v :
  set_error_field e ("code", v) = mkJsonError (decode_int v (je_Code e)) (je_Message e) (je_Data e).
Proof. done. Qed.
Lemma set_error_message e v :
  set_error_field e ("message", v) = mkJsonError (je_Code e) (decode_string v (je_Message e)) (je_Data e).
Proof. done. Qed.
Lemma set_error_data e v :
  set_error_field e ("data", v) = mkJsonError (je_Code e) (je_Message e) (decode_iface v).
Proof. done. Qed.

Lemma encode_jsonError_ok re e :
  error_ok re e →
  ∃ l, encode_jsonError re e = Some (print_object l) ∧ Forall member_ok l ∧
       foldl set_error_field zero_jsonError l = received_error re e.
Proof.
  destruct e as [code msg data]. intros (Hc & Hm & Hd). unfold encode_jsonError, received_error.
  cbn [je_Code je_Message je_Data] in *.
  assert (member_ok ("code", FormatInt code)) as M1 by (split; [done|apply FormatInt_num, Hc]).
  assert (member_ok ("message", quote msg)) as M2 by (split; [done|by apply is_value_quote]).
  destruct data as [d|].
  - destruct Hd as (t & Ht & Hv & Hn). cbn [received_data]. rewrite Ht.
    exists [("code", FormatInt code); ("message", quote msg); ("data", t)].
    split; [done|]. split; [by rewrite !Forall_cons, Forall_nil|].
    cbn [foldl]. rewrite set_error_code, set_error_message, set_error_data.
    cbn. rewrite decode_int_Format, decode_string_quote, decode_iface_value by done. done.
  - exists [("code", FormatInt code); ("message", quote msg)].
    split; [done|]. split; [by rewrite !Forall_cons, Forall_nil|].
    cbn [foldl]. rewrite set_error_code, set_error_message.
    cbn. rewrite decode_int_Format, decode_string_quote by done. done.
Qed.

Lemma foldl_omit_empty m k o l :
  foldl set_field m (omit_empty ((k, o) :: l)) =
  foldl set_field (match o with Some t => set_field m (k, t) | None => m end) (omit_empty l).
Proof. by destruct o. Qed.

(** Decoding each field into a message where it is unset. *)
Lemma set_jsonrpc s m : is_ascii s = true → Version m = "" →
  match str_field s with Some t => set_field m ("jsonrpc", t) | None => m end =
  mkMsg s (ID m) (Method m) (Params m) (Error m) (Result m).
Proof.
  intros Hs Hm. unfold str_field. case_decide; [subst; by destruct m; cbn in *; subst|].
  change (set_field m ("jsonrpc", quote s))
    with (mkMsg (decode_string (quote s) (Version m)) (ID m) (Method m) (Params m) (Error m) (Result m)).
  by rewrite decode_string_quote.
Qed.
Lemma set_method s m : is_ascii s = true → Method m = "" →
  match str_field s with Some t => set_field m ("method", t) | None => m end =
  mkMsg (Version m) (ID m) s (Params m) (Error m) (Result m).
Proof.
  intros Hs Hm. unfold str_field. case_decide; [subst; by destruct m; cbn in *; subst|].
  change (set_field m ("method", quote s))
    with (mkMsg (Version m) (ID m) (decode_string (quote s) (Method m)) (Params m) (Error m) (Result m)).
  by rewrite decode_string_quote.
Qed.
Lemma set_id r m : ID m = None →
  match r with Some t => set_field m ("id", t) | None => m end =
  mkMsg (Version m) r (Method m) (Params m) (Error m) (Result m).
Proof. intros H. destruct r; [done|]. by destruct m; cbn in *; subst. Qed.
Lemma set_params r m : Params m = None →
  match r with Some t => set_field m ("params", t) | None => m end =
  mkMsg (Version m) (ID m) (Method m) r (Error m) (Result m).
Proof. intros H. destruct r; [done|]. by destruct m; cbn in *; subst. Qed.
Lemma set_result r m : Result m = None →
  match r with Some t => set_field m ("result", t) | None => m end =
  mkMsg (Version m) (ID m) (Method m) (Params m) (Error m) r.
Proof. intros H. destruct r; [done|]. by destruct m; cbn in *; subst. Qed.
Lemma set_error r m : Error m = None →
  match r with Some t => set_field m ("error", t) | None => m end =
  mkMsg (Version m) (ID m) (Method m) (Params m)
        (match r with Some t => decode_error t None | None => None end) (Result m).
Proof.
  intros H. destruct r as [t|]; [|by destruct m; cbn in *; subst].
  change (set_field m ("error", t))
    with (mkMsg (Version m) (ID m) (Method m) (Params m) (decode_error t (Error m)) (Result m)).
  by rewrite H.
Qed.

Lemma encode_error_field re err :
  match err with None => True | Some e => error_ok re e end →
  ∃ o, match err with None => Some None | Some e => Some <$> encode_jsonError re e end = Some o ∧
     match o with Some t => is_value t | None => True end ∧
     match o with Some t => decode_error t None | None => None end = received_error re <$> err.
Proof.
  intros H. destruct err as [e|]; [|by exists None].
  destruct (encode_jsonError_ok re e H) as (l & -> & Hl & Hf).
  exists (Some (print_object l)). split; [done|]. split; [by apply is_value_print_object|].
  unfold decode_error. rewrite shape_of_print_object by done. cbn. by rewrite Hf.
Qed.

Lemma omit_empty_ok l :
  Forall (λ kv, plain kv.1 = true ∧ match kv.2 with Some t => is_value t | None => True end) l →
  Forall member_ok (omit_empty l).
Proof.
  induction 1 as [|[k [t|]] l [Hk Ht] Hl IH]; [constructor|constructor|]; [by split|done|done].
Qed.

Lemma str_field_value s : is_ascii s = true →
  match str_field s with Some t => is_value t | None => True end.
Proof. intros H. unfold str_field. case_decide; [done|]. by apply is_value_quote. Qed.

Lemma raw_ok_value r : raw_ok r → match r with Some t => is_value t | None => True end.
Proof. destruct r; [|done]. by intros []. Qed.

Lemma encode_msg_ok re m :
  msg_ok re m →
  ∃ l, encode_msg re m = Some (print_object l) ∧ Forall member_ok l ∧
       foldl set_field zero_msg l = received re m.
Proof.
  destruct m as [ver id meth params err res]. intros (H1 & H2 & H3 & H4 & H5 & H6).
  unfold encode_msg, received. cbn [Version ID Method Params Error Result] in *.
  rewrite !raw_field_raw_ok by done. cbn [mbind option_bind].
  destruct (encode_error_field re err H6) as (e & -> & Hv & He).
  cbn [mbind option_bind]. eexists. split; [reflexivity|]. split.
  - apply omit_empty_ok. rewrite !Forall_cons, Forall_nil. cbn [fst snd].
    split_and!; try done; by (apply str_field_value || apply raw_ok_value).
  - rewrite !foldl_omit_empty.
    rewrite set_jsonrpc, set_id, set_method, set_params, set_error, set_result, He by done. done.
Qed.

Lemma decode_encode_msg re m t :
  msg_ok re m → encode_msg re m = Some t →
  is_value t ∧ isBatch t = false ∧ decode_msg t = Some (received re m).
Proof.
  intros Hm Ht. destruct (encode_msg_ok re m Hm) as (l & E & Hl & Hf).
  rewrite E in Ht. injection Ht as <-. split_and!.
  - by apply is_value_print_object.
  - done.
  - unfold decode_msg. rewrite shape_of_print_object by done. by rewrite Hf.
Qed.

Definition wire_msgs (v : wireval) : list jsonrpcMessage * bool :=
  match v with WMsg m => ([m], false) | WBatch l => (l, true) end.

Lemma mapM_encode re l ts :
  Forall (msg_ok re) l → mapM (encode_msg re) l = Some ts →
  Forall is_value ts ∧ map decode_msg ts = Some <$> (received re <$> l).
Proof.
  intros Hl. revert ts. induction Hl as [|m l Hm Hl IH]; intros ts; cbn.
  { intros [= <-]. done. }
  intros H. apply bind_Some in H as (t & Ht & H). apply bind_Some in H as (ts' & Hts & [= <-]).
  destruct (decode_encode_msg re m t Hm Ht) as (Hv & _ & Hd).
  destruct (IH ts' Hts) as [IH1 IH2]. split; [by constructor|]. cbn. by rewrite Hd, IH2.
Qed.

Lemma mapM_encode_Some re l : Forall (msg_ok re) l → ∃ ts, mapM (encode_msg re) l = Some ts.
Proof.
  induction 1 as [|m l Hm Hl [ts IH]]; [by exists []|]. cbn.
  destruct (encode_msg_ok re m Hm) as (t & -> & _). cbn. rewrite IH. cbn. eauto.
Qed.

(** The text of a well-formed value is one JSON value, which [readBatch] turns
    into the messages the peer receives. *)
Lemma encode_wire_ok re v :
  Forall (msg_ok re) (wire_msgs v).1 →
  ∃ t, encode_wire re v = Some t ∧ is_value t ∧
       readBatch_messages t = (received re <$> (wire_msgs v).1, (wire_msgs v).2).
Proof.
  destruct v as [m|l]; cbn [wire_msgs fst snd]; intros H.
  - apply Forall_inv in H. destruct (encode_msg_ok re m H) as (l & E & _).
    destruct (decode_encode_msg re m _ H E) as (Hv & Hb & Hd).
    exists (print_object l). split; [done|]. split; [done|].
    unfold readBatch_messages, parseMessage. rewrite Hb. cbn [negb].
    pose proof (is_value_skip_ws _ "" Hv) as Hs. rewrite !str_app_nil_r in Hs.
    rewrite Hs, Hd. done.
  - destruct (mapM_encode_Some re l H) as [ts Hts]. exists (print_array ts). cbn [encode_wire].
    rewrite Hts. split; [done|]. destruct (mapM_encode re l ts H Hts) as [Hv Hd].
    assert (is_value (print_array ts)) as Hva by (by apply is_value_print_array).
    split; [done|]. unfold readBatch_messages, parseMessage, array_elems.
    pose proof (is_value_skip_ws _ "" Hva) as Hs. rewrite !str_app_nil_r in Hs. rewrite Hs.
    change (isBatch (print_array ts)) with true. cbn [negb].
    rewrite shape_of_print_array by done. rewrite Hd. f_equal.
    rewrite <-list_fmap_compose. clear. induction l; cbn; f_equal; done.
Qed.

(** ** Properties *)

(** Writing a value that has a text, and reading a value at the head of the stream. *)
Lemma writeJSON_run re syn remote deadline now v c t :
  encode_wire re v = Some t →
  writeJSON (stream_funcs re syn remote) deadline now v c =
    Ret (None, mkCodec (c_remote c) (c_closer c) (c_closeCh c)
           (mkStream (s_in (c_conn c)) (s_out (c_conn c) +:+ t +:+ String "010" "")
              (default (now + defaultWriteTimeout)%Z deadline) (s_closed (c_conn c)) (s_dec_err (c_conn c)))).
Proof. intros Ht. unfold writeJSON. cbn. unfold enc_Encode. by rewrite Ht. Qed.

Lemma readBatch_run re syn remote c t rest :
  is_value t → s_dec_err (c_conn c) = None → skip_ws (s_in (c_conn c)) = skip_ws (t +:+ String "010" rest) →
  readBatch (stream_funcs re syn remote) c =
    Ret (Ok (readBatch_messages t), mkCodec (c_remote c) (c_closer c) (c_closeCh c)
           (mkStream (String "010" rest) (s_out (c_conn c)) (s_deadline (c_conn c)) (s_closed (c_conn c)) None)).
Proof.
  intros Ht He Hin. unfold readBatch. cbn [cf_decode stream_funcs]. unfold dec_Decode. rewrite He, Hin.
  rewrite is_value_skip_ws by done. unfold scan. rewrite is_value_scan; [|done| |done].
  2:{ unfold fuel_for. rewrite slen_app. lia. }
  by rewrite raw_of_tail.
Qed.

(** C39: what one side of a stream writes, the other side reads: writing a
    message or a batch with [writeJSON] succeeds, and a [readBatch] at the other
    end, whatever follows in the stream, returns exactly the messages written
    (error data as decoded data), says whether it was a batch, and leaves what
    follows unread. *)
Theorem codec_roundtrip re syn remote v deadline now c rest c' :
  Forall (msg_ok re) (wire_msgs v).1 →
  s_dec_err (c_conn c') = None →
  ∃ t, writeJSON (stream_funcs re syn remote) deadline now v c =
         Ret (None, mkCodec (c_remote c) (c_closer c) (c_closeCh c)
                (mkStream (s_in (c_conn c)) (s_out (c_conn c) +:+ t)
                   (default (now + defaultWriteTimeout)%Z deadline)
                   (s_closed (c_conn c)) (s_dec_err (c_conn c)))) ∧
       (s_in (c_conn c') = t +:+ rest →
        ∃ c'', readBatch (stream_funcs re syn remote) c' =
                 Ret (Ok (received re <$> (wire_msgs v).1, (wire_msgs v).2), c'') ∧
               skip_ws (s_in (c_conn c'')) = skip_ws rest).
Proof.
  intros Hv He. destruct (encode_wire_ok re v Hv) as (t & Ht & Hval & Hread).
  exists (t +:+ String "010" ""). split; [by apply writeJSON_run|].
  rewrite str_app_assoc, str_app_cons, str_app_nil. intros Hin.
  rewrite (readBatch_run re syn remote c' t rest) by (done || by rewrite Hin).
  rewrite Hread. eexists. split; [reflexivity|]. done.
Qed.

Definition ex_call : jsonrpcMessage :=
  mkMsg vsn (Some "1") "eth_sum" (Some "[1,2]") None None.
Definition ex_failure : jsonrpcMessage := set_ID (errorMessage (EMethodNotFound "eth_x")) (Some "2").
Definition ex_codec (inp : string) : jsonCodec := NewCodec (λ s, s) (λ s, s) None (mkStream inp "" 0 0 None).

Lemma codec_roundtrip_witness :
  ∃ t, writeJSON (stream_funcs (λ s, s) (λ s, s) None) None 5 (WBatch [ex_call; ex_failure]) (ex_codec "") =
         Ret (None, mkCodec "" false false
                (mkStream "" ("" +:+ t) (default (5 + defaultWriteTimeout)%Z None) 0 None)) ∧
       (s_in (c_conn (ex_codec (t +:+ "null"))) = t +:+ "null" →
        ∃ c'', readBatch (stream_funcs (λ s, s) (λ s, s) None) (ex_codec (t +:+ "null")) =
                 Ret (Ok (received (λ s, s) <$> [ex_call; ex_failure], true), c'') ∧
               skip_ws (s_in (c_conn c'')) = skip_ws "null").
Proof.
  assert (Forall (msg_ok (λ s, s)) [ex_call; ex_failure]) as H.
  { rewrite !Forall_cons, Forall_nil. repeat split; done. }
  edestruct (codec_roundtrip (λ s, s) (λ s, s) None (WBatch [ex_call; ex_failure]) None 5 (ex_codec "") "null"
    (ex_codec "") H eq_refl) as (t & H1 & _).
  exists t. split; [exact H1|]. intros Hin.
  destruct (codec_roundtrip (λ s, s) (λ s, s) None (WBatch [ex_call; ex_failure]) None 5 (ex_codec "") "null"
    (ex_codec (t +:+ "null")) H eq_refl) as (t' & H2 & H3).
  rewrite H1 in H2. assert (t = t') as <- by (injection H2; auto). apply H3, Hin.
Defined.

(** No method name ends in both suffixes. *)
Lemma isSubscribe_not_isUnsubscribe m : isSubscribe m = true → isUnsubscribe m = false.
Proof.
  unfold isSubscribe, isUnsubscribe. intros [a Ha]%HasSuffix_iff.
  destruct (HasSuffix _ unsubscribeMethodSuffix) eqn:E; [|done].
  apply HasSuffix_iff in E as [b Hb]. rewrite Ha in Hb.
  change unsubscribeMethodSuffix with ("_u" +:+ "nsubscribe") in Hb. rewrite <-str_app_assoc in Hb.
  by apply str_app_inj_r in Hb as [_ Hb].
Qed.

Definition is_object_or_array (r : string) : bool :=
  match r with
  | String c _ => bool_decide (c = "{"%char) || bool_decide (c = "["%char)
  | EmptyString => false
  end.

(** the kinds of message are exclusive, and a message is a call, a
    notification or a response exactly in the cases of the JSON-RPC
    specification; what is left over is invalid: no id and no method, an id that
    is an object or array, or an id alone with parameters or without result and
    error. *)
Theorem message_kinds m :
  ID m ≠ Some "" →
  (isCall m = true ↔ (∃ id, ID m = Some id ∧ is_object_or_array id = false) ∧ Method m ≠ "") ∧
  (isNotification m = true ↔ ID m = None ∧ Method m ≠ "") ∧
  (isResponse m = true ↔ (∃ id, ID m = Some id ∧ is_object_or_array id = false) ∧ Method m = "" ∧
                          Params m = None ∧ (Result m ≠ None ∨ Error m ≠ None)) ∧
  (isCall m && isNotification m || isCall m && isResponse m || isNotification m && isResponse m = false) ∧
  (isSubscribe m && isUnsubscribe m = false).
Proof.
  intros Hid.
  assert (hasValidID m = true ↔ ∃ id, ID m = Some id ∧ is_object_or_array id = false) as Hv.
  { unfold hasValidID. destruct (ID m) as [[|c s]|] eqn:E; [done| |naive_solver].
    rewrite <-negb_orb, negb_true_iff. naive_solver. }
  assert (∀ A (o : option A), is_nil o = true ↔ o = None) as Hnil by (by intros A []).
  assert (∀ A (o : option A), negb (is_nil o) = true ↔ o ≠ None) as Hnil' by (by intros A []).
  assert (∀ s, negb (bool_decide (s = "")) = true ↔ s ≠ "") as Hm.
  { intros s. rewrite negb_true_iff. apply bool_decide_eq_false. }
  split_and!.
  - unfold isCall. rewrite andb_true_iff, Hv, Hm. done.
  - unfold isNotification. rewrite andb_true_iff, Hnil, Hm. done.
  - unfold isResponse. rewrite !andb_true_iff, orb_true_iff, Hv, bool_decide_eq_true, Hnil, !Hnil'.
    tauto.
  - unfold isCall, isNotification, isResponse, hasValidID.
    destruct (ID m) as [[|c s]|]; cbn [is_nil andb orb]; rewrite ?andb_false_r; [done| |done].
    destruct (bool_decide (Method m = "")); cbn; rewrite ?andb_false_r; done.
  - destruct (isSubscribe m) eqn:E; [|done]. cbn. by apply isSubscribe_not_isUnsubscribe.
Qed.

Lemma message_kinds_witness :
  isCall ex_call = true ∧ isResponse ex_failure = true ∧
  isCall ex_call && isNotification ex_call || isCall ex_call && isResponse ex_call
    || isNotification ex_call && isResponse ex_call = false.
Proof.
  split_and!; [|done|].
  - apply (message_kinds ex_call ltac:(done)). split; [by eexists|done].
  - by apply (message_kinds ex_call).
Defined.
