(* ===== verification/RpcArgs.v ===== *)
(** * Call parameters (simple_rpc/rpc/json.go)

    The token reader of encoding/json as far as the code drives it, and the
    functions that read positional arguments and subscription names with it.
    The argument types of a callback belong to whoever registered it: decoding
    into a type is a parameter. *)

From S2P Require Import Prelude GoText Json RpcMessage.

(** ** The token reader *)

Inductive token :=
| TDelim (c : ascii) | TString (s : string) | TBool (b : bool) | TNumber (raw : string) | TNil.

(** [tokenTopValue], [tokenArrayStart], [tokenArrayValue], [tokenArrayComma], and
    the state after an opening brace, which the code never reads on from. *)
Inductive tokenState := TopValue | ArrayStart | ArrayValue | ArrayComma | ObjectStart.

Record decoder := mkDecoder { d_rest : string; d_state : tokenState }.
Definition NewDecoder (raw : RawMessage) : decoder := mkDecoder (default "" raw) TopValue.

(** The errors of a decoder: the end of the input, or a syntax error at a text. *)
Inductive decError := DecEOF | DecSyntax (at_text : string).

Definition tokenValueAllowed (st : tokenState) : bool :=
  match st with TopValue | ArrayStart | ArrayValue => true | _ => false end.
Definition tokenValueEnd (st : tokenState) : tokenState :=
  match st with ArrayStart | ArrayValue => ArrayComma | st => st end.

(** [dec.More()]. *)
Definition More (d : decoder) : bool :=
  match skip_ws (d_rest d) with
  | EmptyString => false
  | String c _ => negb (bool_decide (c = "]"%char)) && negb (bool_decide (c = "}"%char))
  end.

(** Read one whole value: its text and the decoder after it. *)
Definition read_value (st : tokenState) (rest : string) : result decError string * decoder :=
  let s := skip_ws rest in
  match scan s with
  | Some r => (Ok (raw_of s r), mkDecoder r (tokenValueEnd st))
  | None => (Err (if decide (s = "") then DecEOF else DecSyntax s), mkDecoder rest st)
  end.

(** [dec.Decode(&v)] up to the conversion into [v]: the text of the next value. *)
Definition Decode (d : decoder) : result decError string * decoder :=
  match d_state d with
  | ArrayComma =>
      match skip_ws (d_rest d) with
      | EmptyString => (Err DecEOF, d)
      | String c r =>
          if decide (c = ","%char) then read_value ArrayValue r
          else (Err (DecSyntax (d_rest d)), d)
      end
  | ObjectStart => (Err (DecSyntax (d_rest d)), d)
  | st => read_value st (d_rest d)
  end.

Definition value_token (raw : string) : token :=
  match shape_of raw with
  | Some (JBool b) => TBool b
  | Some (JNum n) => TNumber n
  | Some (JStr lit) => TString (unquote lit)
  | _ => TNil
  end.

(** One token in state [st], at a text that does not start with a comma. *)
Definition Token_at (st : tokenState) (rest : string) : result decError token * decoder :=
  match skip_ws rest with
  | EmptyString => (Err DecEOF, mkDecoder rest st)
  | String c r =>
      if decide (c = "["%char) then
        if tokenValueAllowed st then (Ok (TDelim c), mkDecoder r ArrayStart)
        else (Err (DecSyntax rest), mkDecoder rest st)
      else if decide (c = "]"%char) then
        match st with
        | ArrayStart | ArrayComma => (Ok (TDelim c), mkDecoder r TopValue)
        | _ => (Err (DecSyntax rest), mkDecoder rest st)
        end
      else if decide (c = "{"%char) then
        if tokenValueAllowed st then (Ok (TDelim c), mkDecoder r ObjectStart)
        else (Err (DecSyntax rest), mkDecoder rest st)
      else if tokenValueAllowed st then
        match read_value st rest with
        | (Ok raw, d) => (Ok (value_token raw), d)
        | (Err e, d) => (Err e, d)
        end
      else (Err (DecSyntax rest), mkDecoder rest st)
  end.

(** [dec.Token()]: in an array a comma is read over. *)
Definition Token (d : decoder) : result decError token * decoder :=
  match d_state d, skip_ws (d_rest d) with
  | ArrayComma, String c r =>
      if decide (c = ","%char) then Token_at ArrayValue r else Token_at ArrayComma (d_rest d)
  | st, _ => Token_at st (d_rest d)
  end.

(** ** Positional arguments *)

Section arguments.
Context {ty V : Type}.
(** [t.Kind() == reflect.Ptr], decoding a text into a new [t], and its zero. *)
Variable is_ptr : ty → bool.
Variable decode_as : ty → string → result string V.
Variable Zero : ty → V.
(** The texts of the decoder's errors. *)
Variable decError_text : decError → string.

Definition ferr (e : decError) : gerror := ENew (decError_text e).

Definition missing_error (i : nat) : gerror :=
  ENew ("missing value for required argument " +:+ FormatUint (N.of_nat i)).
Definition too_many_error (n : nat) : gerror :=
  ENew ("too many arguments, want at most " +:+ FormatUint (N.of_nat n)).
Definition invalid_error (i : nat) (text : string) : gerror :=
  ENew ("invalid argument " +:+ FormatUint (N.of_nat i) +:+ ": " +:+ text).

(** The loop of [parseArgumentArray] at index [i], over the types left; [n] is
    their number at the start.  [argval] is the pointer that [reflect.New]
    returned, so [argval.IsNil()] is false. *)
Fixpoint parse_argument_loop (n i : nat) (types : list ty) (d : decoder) : result gerror (list V) :=
  if More d then
    match types with
    | [] => Err (too_many_error n)
    | t :: types =>
        let '(r, d) := Decode d in
        match r with
        | Err e => Err (invalid_error i (decError_text e))
        | Ok raw =>
            match decode_as t raw with
            | Err e => Err (invalid_error i e)
            | Ok v =>
                let argval_IsNil := false in
                if argval_IsNil && negb (is_ptr t) then Err (missing_error i)
                else vs ← parse_argument_loop n (S i) types d; Ok (v :: vs)
            end
        end
    end
  else
    match (Token d).1 with Err e => Err (ferr e) | Ok _ => Ok [] end.

Definition parseArgumentArray (d : decoder) (types : list ty) : result gerror (list V) :=
  parse_argument_loop (length types) 0 types d.

(** The loop that sets the missing arguments, from index [i] on. *)
Fixpoint set_missing (i : nat) (types : list ty) : result gerror (list V) :=
  match types with
  | [] => Ok []
  | t :: types =>
      if negb (is_ptr t) then Err (missing_error i)
      else vs ← set_missing (S i) types; Ok (Zero t :: vs)
  end.

Definition parsePositionalArguments (rawArgs : RawMessage) (types : list ty) :
    result gerror (list V) :=
  let '(tok, d) := Token (NewDecoder rawArgs) in
  args ← (match tok with
          | Err DecEOF | Ok TNil => Ok []
          | Err e => Err (ferr e)
          | Ok (TDelim c) =>
              if decide (c = "["%char) then parseArgumentArray d types else Err (ENew "non-array args")
          | Ok _ => Err (ENew "non-array args")
          end);
  rest ← set_missing (length args) (drop (length args) types);
  Ok (args ++ rest).

End arguments.

Definition parseSubscriptionName (rawArgs : RawMessage) : result gerror string :=
  let '(tok, d) := Token (NewDecoder rawArgs) in
  match tok with
  | Ok (TDelim c) =>
      if decide (c = "["%char) then
        match (Token d).1 with
        | Ok (TString method) => Ok method
        | _ => Err (ENew "expected subscription name as first argument")
        end
      else Err (ENew "non-array args")
  | _ => Err (ENew "non-array args")
  end.

(** ** Specification *)

Section arguments_spec.
Context {ty V : Type}.
Variable is_ptr : ty → bool.
Variable decode_as : ty → string → result string V.
Variable Zero : ty → V.

(** What positional arguments mean for the elements of the params array: each
    is decoded as its type, in order, there may not be more than types, and the
    parameters left over must be optional. *)
Fixpoint positional_spec (n i : nat) (types : list ty) (l : list string) : result gerror (list V) :=
  match l, types with
  | [], _ => set_missing is_ptr Zero i types
  | _ :: _, [] => Err (too_many_error n)
  | raw :: l, t :: types =>
      match decode_as t raw with
      | Err e => Err (invalid_error i e)
      | Ok v => vs ← positional_spec n (S i) types l; Ok (v :: vs)
      end
  end.
End arguments_spec.

(** ** Lemmas *)

(** The decoder stands before the elements scanned from [s]. *)
Definition at_elems (d : decoder) (s : string) : Prop :=
  (d_state d = ArrayStart ∧ skip_ws (d_rest d) = s) ∨
  (d_state d = ArrayComma ∧ ∃ r, skip_ws (d_rest d) = String "," r ∧ skip_ws r = s).

Lemma skip_ws_head c s : is_ws c = false → skip_ws (String c s) = String c s.
Proof. intros H. cbn. by rewrite H. Qed.

Lemma at_elems_Decode d s n r :
  at_elems d s → scan_value n s = Some r →
  More d = true ∧ Decode d = (Ok (raw_of s r), mkDecoder r ArrayComma).
Proof.
  intros Hd H. pose proof (scan_value_scan n s r H) as Hs.
  destruct (scan_value_head n s r H) as (c & s' & -> & Hws & H1 & H2).
  destruct d as [rest st]. unfold at_elems in Hd. cbn in Hd.
  destruct Hd as [[-> Hr]|[-> (u & Hu & Hr)]]; unfold More, Decode, read_value; cbn [d_state d_rest].
  - rewrite Hr, !bool_decide_eq_false_2, Hs by done. done.
  - rewrite Hu. rewrite decide_True by done. rewrite Hr, Hs. done.
Qed.

Section arguments_lemmas.
Context {ty V : Type} (is_ptr : ty → bool) (decode_as : ty → string → result string V)
  (Zero : ty → V) (text : decError → string).

(** The loop, followed by the missing arguments, is the specification. *)
Lemma parse_argument_loop_spec m s l r' n i types d :
  scan_elems m s = Some (l, r') → at_elems d s →
  (args ← parse_argument_loop is_ptr decode_as text n i types d;
   rest ← set_missing is_ptr Zero (i + length args) (drop (length args) types);
   Ok (args ++ rest)) = positional_spec is_ptr decode_as Zero n i types l.
Proof.
  revert s l i types d. induction m as [|m IH]; intros s l i types d Hs Hd; [done|].
  cbn [scan_elems] in Hs. apply bind_Some in Hs as (r & Hr & Hs).
  destruct (at_elems_Decode d s m r Hd Hr) as [HM HD].
  destruct (skip_ws r) as [|c u] eqn:Hc; [done|].
  assert (∃ l', l = raw_of s r :: l' ∧
    ∀ j types', (args ← parse_argument_loop is_ptr decode_as text n j types' (mkDecoder r ArrayComma);
      rest ← set_missing is_ptr Zero (j + length args) (drop (length args) types');
      Ok (args ++ rest)) = positional_spec is_ptr decode_as Zero n j types' l') as (l' & -> & Hl).
  { repeat case_decide; subst.
    - injection Hs as <- <-. exists []. split; [done|]. intros j types'.
      assert (More (mkDecoder r ArrayComma) = false ∧
              ∃ t, (Token (mkDecoder r ArrayComma)).1 = Ok t) as [E1 [t E2]].
      { unfold More, Token, Token_at. cbn [d_rest d_state]. rewrite Hc. split; [done|].
        by eexists. }
      destruct types'; cbn [parse_argument_loop]; rewrite E1, E2; cbn [mbind result_bind];
        cbn [length drop]; rewrite Nat.add_0_r; cbn [positional_spec];
        generalize (set_missing is_ptr Zero); intros f; by destruct f.
    - apply bind_Some in Hs as ([l' r''] & Hl' & [= <- <-]). exists l'. split; [done|].
      intros j types'. apply (IH _ _ _ _ _ Hl'). right. cbn. eauto.
    - done. }
  destruct types as [|t types]; cbn [parse_argument_loop positional_spec]; rewrite HM; [done|].
  rewrite HD. destruct (decode_as t _) as [v|e]; [|done]. cbn [andb].
  rewrite <-Hl. destruct parse_argument_loop as [vs|e]; [|done]. cbn.
  rewrite Nat.add_succ_r. by destruct set_missing.
Qed.

Lemma Token_NewDecoder_array raw r :
  skip_ws raw = String "[" r → Token (NewDecoder (Some raw)) = (Ok (TDelim "["), mkDecoder r ArrayStart).
Proof. intros H. unfold Token, Token_at. cbn [NewDecoder d_state d_rest default]. cbn. by rewrite H. Qed.

Lemma shape_of_array' s sh : shape_of (String "[" s) = Some sh → ∃ l, sh = JArr l.
Proof.
  cbn [shape_of]. rewrite decide_False, decide_True by done.
  destruct (skip_ws s) as [|d u]; [done|]. case_decide; [intros [= <-]; eauto|].
  intros ([? ?] & _ & ->)%fmap_Some. eexists. done.
Qed.

(** The text of an array that has the elements [l]. *)
Lemma shape_of_array s l :
  shape_of s = Some (JArr l) →
  ∃ r, s = String "[" r ∧
       ((l = [] ∧ ∃ u, skip_ws r = String "]" u) ∨
        (∃ n s' r', skip_ws r = s' ∧ scan_elems n s' = Some (l, r'))).
Proof.
  unfold shape_of. destruct s as [|c s]; [done|]. intros H. repeat case_decide; subst.
  - destruct (skip_ws s) as [|d u]; [done|]. case_decide; [done|].
    by apply fmap_Some in H as ([? ?] & _ & ?).
  - exists s. split; [done|]. destruct (skip_ws s) as [|d u] eqn:E; [done|]. case_decide.
    + subst. injection H as <-. eauto.
    + apply fmap_Some in H as ([l' r'] & H & Hl). injection Hl as ->. right. eauto.
  - by apply fmap_Some in H as ([? ?] & _ & ?).
  - by apply fmap_Some in H as (? & _ & ?).
  - by apply fmap_Some in H as (? & _ & ?).
  - by apply fmap_Some in H as (? & _ & ?).
  - by apply fmap_Some in H as (? & _ & ?).
Qed.

(** The first token of a value that is no array. *)
Lemma Token_value raw sh :
  is_value (skip_ws raw) → shape_of (skip_ws raw) = Some sh → (¬ ∃ l, sh = JArr l) →
  ∃ tok d, Token (NewDecoder (Some raw)) = (Ok tok, d) ∧
    tok = match sh with
          | JNull | JArr _ => TNil
          | JBool b => TBool b
          | JNum n => TNumber n
          | JStr lit => TString (unquote lit)
          | JObj _ => TDelim "{"
          end.
Proof.
  intros Hv Hsh Hna. destruct (scan_value_head _ _ _ Hv) as (c & s & Hr & Hws & H1 & H2).
  unfold Token, Token_at. cbn [NewDecoder d_state d_rest default id].
  assert (skip_ws (skip_ws raw) = skip_ws raw) as Hss by (rewrite Hr; by apply skip_ws_head).
  unfold read_value. rewrite Hv, Hr in *. pose proof (raw_of_tail (String c s) "") as Hraw.
  rewrite str_app_nil_r in Hraw. rewrite Hraw. unfold value_token. rewrite Hsh.
  destruct (decide (c = "["%char)) as [->|Hc1].
  { apply shape_of_array' in Hsh. by destruct Hna. }
  rewrite decide_False by done. destruct (decide (c = "{"%char)) as [->|Hc2].
  - eexists _, _. split; [done|]. cbn [shape_of] in Hsh. rewrite decide_True in Hsh by done.
    destruct (skip_ws s) as [|d u]; [done|]. case_decide; [by injection Hsh as <-|].
    by apply fmap_Some in Hsh as (? & _ & ->).
  - eexists _, _. split; [done|]. destruct sh; try done.
    exfalso. clear -Hsh Hc1 Hc2. unfold shape_of in Hsh. rewrite !decide_False in Hsh by done.
    repeat case_decide; by apply fmap_Some in Hsh as (? & _ & ?).
Qed.
End arguments_lemmas.

Lemma parsePositionalArguments_value {ty V} (is_ptr : ty → bool)
    (decode_as : ty → string → result string V) Zero text rawArgs types :
  match rawArgs with
  | None => parsePositionalArguments is_ptr decode_as Zero text rawArgs types =
              set_missing is_ptr Zero 0 types
  | Some raw =>
      ∀ sh, is_value (skip_ws raw) → shape_of (skip_ws raw) = Some sh →
      parsePositionalArguments is_ptr decode_as Zero text rawArgs types =
      match sh with
      | JNull => set_missing is_ptr Zero 0 types
      | JArr l => positional_spec is_ptr decode_as Zero (length types) 0 types l
      | _ => Err (ENew "non-array args")
      end
  end.
Proof.
  assert (∀ r : result gerror (list V), (rest ← r; Ok ([] ++ rest)) = r) as Hid by (by intros []).
  destruct rawArgs as [raw|]; [|apply Hid]. intros sh Hv Hsh.
  assert ((∃ l, sh = JArr l) ∨ ¬ ∃ l, sh = JArr l) as [[l ->]|Hna].
  { destruct sh; [right; by intros [? ?]..|left; eauto|right; by intros [? ?]]. }
  - apply shape_of_array in Hsh as (r & Hr & Hl). unfold parsePositionalArguments.
    rewrite (Token_NewDecoder_array raw r Hr). rewrite decide_True by done. unfold parseArgumentArray.
    destruct Hl as [[-> [u Hu]]|(n & s' & r' & Hs & Hl)].
    + assert (More (mkDecoder r ArrayStart) = false ∧
              ∃ t, (Token (mkDecoder r ArrayStart)).1 = Ok t) as [E1 [t E2]].
      { unfold More, Token, Token_at. cbn [d_rest d_state]. rewrite Hu. split; [done|]. by eexists. }
      destruct types as [|ty0 types]; cbn [length parse_argument_loop]; rewrite E1, E2; apply Hid.
    + rewrite <-(parse_argument_loop_spec is_ptr decode_as Zero text n s' l r' (length types) 0
        types (mkDecoder r ArrayStart) Hl); [done|]. by left.
  - destruct (Token_value raw sh Hv Hsh Hna) as (tok & d & HT & Htok).
    unfold parsePositionalArguments. rewrite HT.
    destruct sh; subst tok; try done; [apply Hid|by destruct Hna; eexists].
Qed.

(** ** Properties *)

(** C40: [parsePositionalArguments] on a params array decodes the elements in
    order, each as its type, refuses more elements than types and elements
    that do not decode, fills optional parameters that are missing with their
    zero value and refuses a missing required one, naming the index; [null] and
    absent params count as an empty array, and other values are refused. *)
Theorem parsePositionalArguments_spec {ty V} (is_ptr : ty → bool)
    (decode_as : ty → string → result string V) Zero text rawArgs types :
  match rawArgs with
  | None => parsePositionalArguments is_ptr decode_as Zero text rawArgs types =
              set_missing is_ptr Zero 0 types
  | Some raw =>
      ∀ sh, is_value (skip_ws raw) → shape_of (skip_ws raw) = Some sh →
      parsePositionalArguments is_ptr decode_as Zero text rawArgs types =
      match sh with
      | JNull => set_missing is_ptr Zero 0 types
      | JArr l => positional_spec is_ptr decode_as Zero (length types) 0 types l
      | _ => Err (ENew "non-array args")
      end
  end.
Proof. apply parsePositionalArguments_value. Qed.

(** Types with a decoder, for the examples: an integer and a pointer to one. *)
Inductive ex_type := ExInt | ExIntPtr.
Definition ex_is_ptr (t : ex_type) : bool := match t with ExInt => false | ExIntPtr => true end.
Definition ex_decode (t : ex_type) (raw : string) : result string (option Z) :=
  match shape_of raw with
  | Some JNull => Ok (match t with ExInt => Some 0%Z | ExIntPtr => None end)
  | Some (JNum n) => Ok (parse_int64 n)
  | _ => Err "json: cannot unmarshal"
  end.
Definition ex_zero (t : ex_type) : option Z := match t with ExInt => Some 0%Z | ExIntPtr => None end.

Lemma parsePositionalArguments_spec_witness :
  parsePositionalArguments ex_is_ptr ex_decode ex_zero (λ _, "") (Some " [7 , 8]")
    [ExInt; ExIntPtr; ExIntPtr] = Ok [Some 7%Z; Some 8%Z; None].
Proof.
  rewrite (parsePositionalArguments_spec ex_is_ptr ex_decode ex_zero (λ _, "") (Some " [7 , 8]")
    [ExInt; ExIntPtr; ExIntPtr] (JArr ["7"; "8"])); reflexivity.
Defined.

(** the check of [parseArgumentArray] for a missing value never fires:
    [null] for a required argument, one whose type is no pointer, is passed to the
    callback as whatever the type decodes [null] to, while leaving the argument
    out is refused. *)
Theorem null_for_required_argument {ty V} (is_ptr : ty → bool)
    (decode_as : ty → string → result string V) Zero text t v :
  is_ptr t = false → decode_as t "null" = Ok v →
  parsePositionalArguments is_ptr decode_as Zero text (Some "[null]") [t] = Ok [v] ∧
  parsePositionalArguments is_ptr decode_as Zero text (Some "[]") [t] = Err (missing_error 0).
Proof.
  intros Hp Hd. split.
  - rewrite (parsePositionalArguments_value is_ptr decode_as Zero text (Some "[null]") [t] (JArr ["null"]))
      by done. cbn. by rewrite Hd.
  - rewrite (parsePositionalArguments_value is_ptr decode_as Zero text (Some "[]") [t] (JArr []))
      by done. cbn. by rewrite Hp.
Qed.

Lemma null_for_required_argument_witness :
  parsePositionalArguments ex_is_ptr ex_decode ex_zero (λ _, "") (Some "[null]") [ExInt] = Ok [Some 0%Z].
Proof. by apply (null_for_required_argument ex_is_ptr ex_decode ex_zero (λ _, "") ExInt (Some 0%Z)). Defined.
