(* ===== verification/RpcService.v ===== *)
(** * The service registry (simple_rpc/rpc/service.go)

    Go types are reduced to what the code asks of them through reflection: their
    identity, whether they are pointers and whether the pointed-to type
    implements [error].  The body of a function is of a type [B] that the
    handler chooses. *)

From S2P Require Import Prelude GoText Json RpcMessage.

(** ** Types and functions *)

(** A type that is no pointer carries whether it implements [error]. *)
Inductive gotype := TNamed (name : string) (is_error : bool) | TPtr (elem : gotype).

#[export] Instance gotype_eq_dec : EqDecision gotype.
Proof. solve_decision. Defined.

Definition contextType : gotype := TNamed "context.Context" false.
Definition errorType : gotype := TNamed "error" true.
Definition subscriptionType : gotype := TNamed "rpc.Subscription" false.
Definition stringType : gotype := TNamed "string" false.

Definition isPtr (t : gotype) : bool := match t with TPtr _ => true | TNamed _ _ => false end.

(** The loop that follows pointers. *)
Fixpoint strip_ptr (t : gotype) : gotype :=
  match t with TPtr t => strip_ptr t | TNamed _ _ => t end.

Definition isContextType (t : gotype) : bool := bool_decide (strip_ptr t = contextType).
Definition isErrorType (t : gotype) : bool :=
  match strip_ptr t with TNamed _ e => e | TPtr _ => false end.
Definition isSubscriptionType (t : gotype) : bool := bool_decide (strip_ptr t = subscriptionType).

(** A result of a call: what Marshal gives for it and, where its type is an
    error type, which error it is.  [IsNil] panics on a type that has no nil. *)
Inductive errval := VNilErr | VErr (e : gerror) | VNoNilType.
Record goresult := mkResult { r_Interface : gval; r_error : errval }.
Definition RVal (v : gval) : goresult := mkResult v VNoNilType.
Definition RErr (e : option gerror) : goresult :=
  match e with None => mkResult (Ok "null") VNilErr | Some e => mkResult (Ok "{}") (VErr e) end.

Section service.
Context {B : Type}.

(** A function value: its parameter types (the receiver first, for a method),
    its result types and its body. *)
Record gofunc := mkFunc { fn_In : list gotype; fn_Out : list gotype; fn_body : B }.

(** A method of a receiver's type. *)
Record method := mkMethod { m_Name : string; m_PkgPath : string; m_Func : gofunc }.

(** A receiver: the name of its type and its methods, in reflection's order. *)
Record receiver := mkReceiver { rc_Type : string; rc_Methods : list method }.

Record callback := mkCallback {
  cb_fn : gofunc;
  cb_rcvr : bool;             (* the receiver is valid *)
  argTypes : list gotype;
  hasCtx : bool;
  errPos : Z;
  isSubscribe : bool }.

Definition isPubSub (f : gofunc) : bool :=
  match fn_In f, fn_Out f with
  | _ :: in1 :: _, [out0; out1] =>
      isContextType in1 && isSubscriptionType out0 && isErrorType out1
  | _, _ => false
  end.

(** [makeArgTypes] sets [hasCtx] and [argTypes] of a callback. *)
Definition makeArgTypes (f : gofunc) (rcvr_valid : bool) : bool * list gotype :=
  let firstArg := if rcvr_valid then 1%nat else 0%nat in
  match fn_In f !! firstArg with
  | Some t => if decide (t = contextType) then (true, drop (S firstArg) (fn_In f))
              else (false, drop firstArg (fn_In f))
  | None => (false, drop firstArg (fn_In f))
  end.

Definition newCallback (rcvr_valid : bool) (f : gofunc) : option callback :=
  let '(ctx, args) := makeArgTypes f rcvr_valid in
  let c pos := mkCallback f rcvr_valid args ctx pos (isPubSub f) in
  match fn_Out f with
  | [] => Some (c (-1)%Z)
  | [out0] => if isErrorType out0 then Some (c 0%Z) else Some (c (-1)%Z)
  | [out0; out1] =>
      if isErrorType out0 || negb (isErrorType out1) then None else Some (c 1%Z)
  | _ => None
  end.

(** [unicode.ToLower] on a first rune outside ASCII, on its encoding. *)
Variable ToLower : string → string.

Definition formatName (name : string) : string :=
  match name with
  | EmptyString => EmptyString
  | String c rest =>
      if in_range 65 90 c then String (ascii_of_N (byte_of c + 32)) rest
      else if in_range 0 127 c then name
      else match utf8_len name with
           | Some k => ToLower (str_take k name) +:+ str_drop k name
           | None => replacement_char +:+ rest
           end
  end.

(** One turn of the loop of [suitableCallbacks]. *)
Definition add_method (callbacks : gmap string callback) (m : method) : gmap string callback :=
  if decide (m_PkgPath m ≠ "") then callbacks
  else match newCallback true (m_Func m) with
       | None => callbacks
       | Some cb => <[formatName (m_Name m) := cb]> callbacks
       end.

Definition suitableCallbacks (r : receiver) : gmap string callback :=
  foldl add_method ∅ (rc_Methods r).

Record service := mkService {
  svc_name : string;
  callbacks : gmap string callback;
  subscriptions : gmap string callback }.

(** The nil map is empty; the mutex is held over each operation. *)
Record serviceRegistry := mkRegistry { services : gmap string service }.

Definition registerName (name : string) (rcvr : receiver) (r : serviceRegistry) :
    result gerror serviceRegistry :=
  if decide (name = "") then Err (ENew ("no service name for type " +:+ rc_Type rcvr))
  else
    let cbs := suitableCallbacks rcvr in
    if decide (cbs = ∅) then
      Err (ENew ("service " +:+ rc_Type rcvr +:+
                 " doesn't have any suitable methods/subscriptions to expose"))
    else
      let svc := default (mkService name ∅ ∅) (services r !! name) in
      Ok (mkRegistry (<[name := mkService (svc_name svc)
              (filter (λ kv, isSubscribe kv.2 = false) cbs ∪ callbacks svc)
              (filter (λ kv, isSubscribe kv.2 = true) cbs ∪ subscriptions svc)]> (services r))).

(** [serviceRegistry.callback]. *)
Definition reg_callback (r : serviceRegistry) (method : string) : option callback :=
  match SplitN2 method serviceMethodSeparator with
  | [svc; name] => s ← services r !! svc; callbacks s !! name
  | _ => None
  end.

(** [serviceRegistry.subscription]. *)
Definition reg_subscription (r : serviceRegistry) (svc name : string) : option callback :=
  s ← services r !! svc; subscriptions s !! name.

Definition ECrashed : gerror := ENew "method handler crashed".

(** What [callback.call] makes of the results of the function, [None] when it
    panicked. *)
Definition call_results (c : callback) (results : option (list goresult)) : result gerror gval :=
  match results with
  | None => Err ECrashed
  | Some [] => Ok (Ok "null")
  | Some (r0 :: rs) =>
      if decide (0 ≤ errPos c)%Z then
        match r_error <$> (r0 :: rs) !! Z.to_nat (errPos c) with
        | Some (VErr e) => Err e
        | Some VNilErr => Ok (r_Interface r0)
        | _ => Err ECrashed
        end
      else Ok (r_Interface r0)
  end.

End service.

Arguments gofunc : clear implicits.
Arguments method : clear implicits.
Arguments receiver : clear implicits.
Arguments callback : clear implicits.
Arguments service : clear implicits.
Arguments serviceRegistry : clear implicits.

(** ** Properties *)

(** The documented criteria for a callback: no result, one result, or a value
    and an error in this order. *)
Definition suitable_outs (outs : list gotype) : Prop :=
  match outs with
  | [] | [_] => True
  | [out0; out1] => isErrorType out0 = false ∧ isErrorType out1 = true
  | _ => False
  end.

(** [newCallback] accepts a method exactly when its results meet the
    documented criteria; the arguments of the callback are the parameters after
    the receiver and after a leading context, [errPos] is the index of the error
    result and [-1] when there is none, and the callback is a subscription
    exactly when the method takes a context first and returns a subscription and
    an error. *)
Theorem newCallback_spec {B} (rcvr : gotype) (params : list gotype) (outs : list gotype) (body : B) :
  let f := mkFunc (rcvr :: params) outs body in
  match newCallback true f with
  | None => ¬ suitable_outs outs
  | Some cb =>
      suitable_outs outs ∧ cb_fn cb = f ∧
      params = (if hasCtx cb then [contextType] else []) ++ argTypes cb ∧
      (hasCtx cb = false → head params ≠ Some contextType) ∧
      (∀ i, errPos cb = Z.of_nat i ↔ ∃ t, outs !! i = Some t ∧ isErrorType t = true) ∧
      (isSubscribe cb = true ↔
        ∃ t s e, head params = Some t ∧ isContextType t = true ∧
                 outs = [s; e] ∧ isSubscriptionType s = true ∧ isErrorType e = true)
  end.
Proof.
  cbn zeta. unfold newCallback.
  assert (isPubSub (mkFunc (rcvr :: params) outs body) = true ↔
    ∃ t s e, head params = Some t ∧ isContextType t = true ∧
             outs = [s; e] ∧ isSubscriptionType s = true ∧ isErrorType e = true) as Hps.
  { unfold isPubSub. cbn. destruct params as [|p ps]; [naive_solver|].
    destruct outs as [|o0 [|o1 [|]]]; [naive_solver..| |naive_solver].
    rewrite !andb_true_iff. cbn. naive_solver. }
  destruct (makeArgTypes _ true) as [ctx args] eqn:Ha.
  assert (params = (if ctx then [contextType] else []) ++ args ∧
          (ctx = false → head params ≠ Some contextType)) as [Hp Hc].
  { unfold makeArgTypes in Ha. cbn in Ha. destruct params as [|p ps]; cbn in Ha.
    - injection Ha as <- <-. done.
    - case_decide; injection Ha as <- <-; cbn; [by subst|naive_solver]. }
  destruct outs as [|o0 [|o1 [|o2 outs]]]; cbn [fn_Out].
  - cbn. split_and!; [done|done|exact Hp|exact Hc| |exact Hps].
    intros i. split; [lia|intros (? & ? & _); done].
  - destruct (isErrorType o0) eqn:E; cbn; (split_and!; [done|done|exact Hp|exact Hc| |exact Hps]); intros i.
    + split; [intros E0; assert (i = 0%nat) as -> by lia; by eexists|].
      intros (t & Ht & _). by destruct i as [|[]].
    + split; [lia|]. intros (t & Ht & Hte). destruct i as [|[]]; [|done|done].
      injection Ht as <-. congruence.
  - destruct (isErrorType o0) eqn:E0, (isErrorType o1) eqn:E1; cbn; try (intros [? ?]; congruence).
    refine (conj (conj _ _) (conj _ (conj Hp (conj Hc (conj _ Hps))))); try done. intros i. split.
    + intros E. assert (i = 1%nat) as -> by lia. by eexists.
    + intros (t & Ht & Hte). destruct i as [|[|[]]]; cbn in Ht; [|done|done|done].
      injection Ht as <-. congruence.
  - cbn. tauto.
Qed.

Lemma SplitN2_cons_spec a b :
  str_forall (λ d, negb (bool_decide (d = serviceMethodSeparator))) a = true →
  SplitN2 (a +:+ "_" +:+ b) serviceMethodSeparator = [a; b].
Proof.
  intros H. unfold SplitN2. change ("_" +:+ b) with (String serviceMethodSeparator b).
  by rewrite cut_app.
Qed.

Lemma SplitN2_cases s :
  SplitN2 s serviceMethodSeparator = [s] ∨
  ∃ a b, SplitN2 s serviceMethodSeparator = [a; b] ∧
         str_forall (λ d, negb (bool_decide (d = serviceMethodSeparator))) a = true.
Proof.
  unfold SplitN2. destruct (cut _ _) as [[a b]|] eqn:E; [|by left]. right.
  exists a, b. split; [done|]. by eapply cut_Some_free.
Qed.

(** A service name that method names can reach: it has no separator. *)
Definition reachable_name (name : string) : Prop :=
  str_forall (λ d, negb (bool_decide (d = serviceMethodSeparator))) name = true.

(** The registered function for a method name of a receiver: the last method,
    in reflection's order, that is exported, suitable and formats to the name. *)
Definition method_callback {B} (low : string → string) (rcvr : receiver B) (name : string) : option (callback B) :=
  suitableCallbacks low rcvr !! name.

Lemma registerName_callback {B} (low : string → string) name rcvr (r r' : serviceRegistry B) m cb :
  registerName low name rcvr r = Ok r' → reachable_name name →
  suitableCallbacks low rcvr !! m = Some cb → isSubscribe cb = false →
  reg_callback r' (name +:+ "_" +:+ m) = Some cb.
Proof.
  unfold registerName. case_decide; [done|]. case_decide; [done|]. intros [= <-] Hr Hm Hs.
  unfold reg_callback. cbn [services]. rewrite SplitN2_cons_spec by done. rewrite lookup_insert_eq.
  cbn [mbind option_bind callbacks]. apply lookup_union_Some_l. by apply map_lookup_filter_Some.
Qed.

(** after a successful [registerName name rcvr], a method
    ["name_m"] resolves to the callback of [rcvr] that is formatted as [m] if that
    is a method and not a subscription, and to what it resolved to before
    otherwise; likewise subscriptions; nothing changes under other service
    names.  It fails exactly for the empty name and for a receiver without
    suitable methods.  A service whose name contains the separator cannot be
    reached by any method name. *)
Theorem registerName_spec {B} (low : string → string) name rcvr (r : serviceRegistry B) :
  match registerName low name rcvr r with
  | Err _ => name = "" ∨ suitableCallbacks low rcvr = ∅
  | Ok r' =>
      (∀ m, reachable_name name →
        reg_callback r' (name +:+ "_" +:+ m) =
        match suitableCallbacks low rcvr !! m with
        | Some cb => if isSubscribe cb then reg_callback r (name +:+ "_" +:+ m) else Some cb
        | None => reg_callback r (name +:+ "_" +:+ m)
        end) ∧
      (∀ m, reg_subscription r' name m =
        match suitableCallbacks low rcvr !! m with
        | Some cb => if isSubscribe cb then Some cb else reg_subscription r name m
        | None => reg_subscription r name m
        end) ∧
      (∀ other m, other ≠ name → reg_subscription r' other m = reg_subscription r other m) ∧
      (∀ other m, other ≠ name → reachable_name other →
        reg_callback r' (other +:+ "_" +:+ m) = reg_callback r (other +:+ "_" +:+ m)) ∧
      (¬ reachable_name name → ∀ meth, reg_callback r' meth = reg_callback r meth)
  end.
Proof.
  unfold registerName. case_decide; [by left|]. case_decide as Hne; [by right|].
  set (cbs := suitableCallbacks low rcvr).
  set (svc := default (mkService name ∅ ∅) (services r !! name)).
  assert (∀ m, callbacks svc !! m = (s ← services r !! name; callbacks s !! m)) as Hcb.
  { intros m. unfold svc. destruct (services r !! name); cbn; [done|]. apply lookup_empty. }
  assert (∀ m, subscriptions svc !! m = (s ← services r !! name; subscriptions s !! m)) as Hsub.
  { intros m. unfold svc. destruct (services r !! name); cbn; [done|]. apply lookup_empty. }
  assert (∀ b m, filter (λ kv : string * callback B, isSubscribe kv.2 = b) cbs !! m =
            cb ← cbs !! m; if decide (isSubscribe cb = b) then Some cb else None) as Hf.
  { intros b m. rewrite map_lookup_filter. destruct (cbs !! m); cbn; [|done].
    by repeat case_guard; repeat case_decide. }
  unfold reg_callback, reg_subscription. cbn [services]. split_and!.
  - intros m Hr. rewrite SplitN2_cons_spec by done. rewrite lookup_insert_eq. cbn [mbind option_bind callbacks].
    rewrite lookup_union, Hf, Hcb. destruct (cbs !! m) as [cb|]; cbn [mbind option_bind].
    + destruct (isSubscribe cb); cbn; [by destruct (services r !! name ≫= _)|].
      by destruct (services r !! name ≫= _).
    + by destruct (services r !! name ≫= _).
  - intros m. rewrite lookup_insert_eq. cbn [mbind option_bind subscriptions].
    rewrite lookup_union, Hf, Hsub. destruct (cbs !! m) as [cb|]; cbn [mbind option_bind].
    + destruct (isSubscribe cb); cbn; by destruct (services r !! name ≫= _).
    + by destruct (services r !! name ≫= _).
  - intros other m Ho. by rewrite lookup_insert_ne.
  - intros other m Ho Hr. rewrite SplitN2_cons_spec by done. by rewrite lookup_insert_ne.
  - intros Hr meth. destruct (SplitN2_cases meth) as [->|(a & b & -> & Ha)]; [done|].
    rewrite lookup_insert_ne; [done|]. intros ->. done.
Qed.
