(* ===== verification/GoChan.v ===== *)
(** * Go channels and connections

    A buffered channel as a value: its capacity, its contents and whether it is
    closed.  An operation that has to wait for another goroutine [Blocks].  The
    interface of the connections that messages are written to. *)

From S2P Require Import Prelude GoText RpcMessage.

Section chan.
Context {A : Type}.

Record chan := mkChan { ch_cap : nat; ch_buf : list A; ch_closed : bool }.

Definition make_chan (cap : nat) : chan := mkChan cap [] false.

Definition chan_send (x : A) : go chan unit := λ c,
  if ch_closed c then Panic "send on closed channel"
  else if (length (ch_buf c) <? ch_cap c)%nat
       then Ret ((), mkChan (ch_cap c) (ch_buf c ++ [x]) false)
       else Blocks "chan send".

Definition chan_close : go chan unit := λ c,
  if ch_closed c then Panic "close of closed channel"
  else Ret ((), mkChan (ch_cap c) (ch_buf c) true).

(** A receive gives the oldest value, or [None] (the zero value) once the channel
    is closed and empty. *)
Definition chan_recv : go chan (option A) := λ c,
  match ch_buf c with
  | x :: l => Ret (Some x, mkChan (ch_cap c) l (ch_closed c))
  | [] => if ch_closed c then Ret (None, c) else Blocks "chan receive"
  end.

(** A channel that is open and has room does not block or panic. *)
Lemma chan_send_room x c :
  ch_closed c = false → (length (ch_buf c) < ch_cap c)%nat →
  chan_send x c = Ret ((), mkChan (ch_cap c) (ch_buf c ++ [x]) false).
Proof. intros H1 H2. unfold chan_send. rewrite H1. by rewrite (proj2 (Nat.ltb_lt _ _) H2). Qed.

Lemma chan_close_open c :
  ch_closed c = false → chan_close c = Ret ((), mkChan (ch_cap c) (ch_buf c) true).
Proof. intros H. unfold chan_close. by rewrite H. Qed.
End chan.
Arguments chan : clear implicits.

(** [jsonWriter]: what a handler needs of the connection it writes to.  The
    deadline is the context's.  [jw_sent w l] says that the values written so
    far are [l]. *)
Class JsonWriter (W : Type) := {
  jw_writeJSON : option Z → wireval → W → option gerror * W;
  jw_closed : W → bool;
  jw_remoteAddr : W → string;
  jw_sent : W → list wireval → Prop;
  jw_sent_ok d v w w' l : jw_writeJSON d v w = (None, w') → jw_sent w l → jw_sent w' (l ++ [v]);
  jw_sent_err d v w w' l e : jw_writeJSON d v w = (Some e, w') → jw_sent w l → jw_sent w' l;
}.

(** The codec of [NewCodec] is a [jsonWriter]: it writes each value's text and a
    newline. *)
Section codec_writer.
Variable reencode syntax_text : string → string.
Variable remote : option string.
Variable now : Z.

Definition wire_text (l : list wireval) : option string :=
  foldr (λ v acc, t ← encode_wire reencode v; rest ← acc; Some (t +:+ String "010" "" +:+ rest)) (Some "") l.

Definition codec_write (d : option Z) (v : wireval) (c : jsonCodec) : option gerror * jsonCodec :=
  match writeJSON (stream_funcs reencode syntax_text remote) d now v c with
  | Ret r => r
  | _ => (None, c)
  end.

Lemma wire_text_snoc l v t : wire_text l = Some t →
  wire_text (l ++ [v]) = (u ← encode_wire reencode v; Some (t +:+ u +:+ String "010" "")).
Proof.
  unfold wire_text. revert t. induction l as [|x l IH]; intros t; cbn.
  - intros [= <-]. destruct (encode_wire reencode v); cbn; [|done]. done.
  - intros H. apply bind_Some in H as (u & Hu & H). apply bind_Some in H as (r & Hr & [= <-]).
    rewrite Hu. cbn. rewrite (IH _ Hr).
    destruct (encode_wire reencode v); cbn; [|done]. by rewrite !str_app_assoc.
Qed.

#[refine, global] Instance codec_JsonWriter : JsonWriter jsonCodec := {
  jw_writeJSON := codec_write;
  jw_closed := closed;
  jw_remoteAddr := remoteAddr;
  jw_sent c l := wire_text l = Some (s_out (c_conn c))
}.
Proof.
  - intros d v w w' l H Hl. rewrite (wire_text_snoc _ _ _ Hl).
    unfold codec_write, writeJSON in H. cbn in H. unfold enc_Encode in H.
    destruct (encode_wire reencode v) as [t|]; [|done]. injection H as <-. done.
  - intros d v w w' l e H Hl. unfold codec_write, writeJSON in H. cbn in H. unfold enc_Encode in H.
    destruct (encode_wire reencode v) as [t|]; [done|]. injection H as <- <-. done.
Defined.
End codec_writer.

(** A connection that keeps everything written, for examples. *)
#[refine] Instance log_writer : JsonWriter (list wireval) := {
  jw_writeJSON _ v w := (None, w ++ [v]);
  jw_closed _ := false;
  jw_remoteAddr _ := "";
  jw_sent w l := w = l
}.
Proof.
- by intros _ v w w' l [= <-] ->.
- done.
Defined.
