(* ===== verification/RpcSubscription.v ===== *)
(** * Subscriptions (simple_rpc/rpc/subscription.go)

    Subscription IDs and the server side's [Notifier].  Each method of it runs under
    the notifier's mutex and is one step; the goroutines that notify interleave with
    the one that answers the subscribe call.  The client side is in {!RpcClientSub}. *)

From S2P Require Import Prelude GoText Json RpcMessage GoChan BytesUtil.

(** ** Subscription IDs *)

Definition encodeID (b : list Z) : string :=
  let id := TrimLeft (HexEncode b) "0" in
  let id := if decide (id = "") then "0" else id in
  "0x" +:+ id.

Section idgen.
(** [rng.Read] of 16 bytes, the [n]-th call on the source with a seed. *)
Variable rng_Read : Z → nat → list Z.

(** The seed: eight bytes of [crypto/rand] as an [int64], or the clock. *)
Definition id_seed (crand : option (list Z)) (nanosecond : Z) : Z :=
  match crand with
  | Some buf => wraps 64 (be_val buf)
  | None => wraps 64 nanosecond
  end.

(** The generator as the sequence of the IDs it returns. *)
Definition randomIDGenerator (crand : option (list Z)) (nanosecond : Z) : nat → string :=
  let seed := id_seed crand nanosecond in λ n, encodeID (rng_Read seed n).
End idgen.

(** ** The notifier *)

(** A [Subscription]; its channel is [sub_err] in the heap of the handler. *)
Record Subscription := mkSubscription { sub_ID : string; sub_namespace : string; sub_err : nat }.

#[export] Instance Subscription_eq_dec : EqDecision Subscription.
Proof. solve_decision. Defined.

(** [MarshalJSON]: a subscription is marshaled as its ID. *)
Definition Subscription_MarshalJSON (s : Subscription) : gval := Ok (quote (sub_ID s)).

Record Notifier := mkNotifier {
  n_namespace : string;
  n_sub : option Subscription;
  n_buffer : list string;
  n_callReturned : bool;
  n_activated : bool }.

Definition new_Notifier (namespace : string) : Notifier := mkNotifier namespace None [] false false.

(** [id] is [n.h.idgen()] and [err] the channel that is made. *)
Definition CreateSubscription (id : string) (err : nat) : go Notifier Subscription := λ n,
  match n_sub n with
  | Some _ => Panic "can't create multiple subscriptions with Notifier"
  | None =>
      if n_callReturned n then Panic "can't create subscription after subscribe call has returned"
      else
        let sub := mkSubscription id (n_namespace n) err in
        Ret (sub, mkNotifier (n_namespace n) (Some sub) (n_buffer n) (n_callReturned n) (n_activated n))
  end.

Definition takeSubscription : go Notifier (option Subscription) := λ n,
  Ret (n_sub n, mkNotifier (n_namespace n) (n_sub n) (n_buffer n) true (n_activated n)).

(** The notification message for a subscription. *)
Definition notification (namespace : string) (sub : Subscription) (data : string) : jsonrpcMessage :=
  mkMsg vsn None (namespace +:+ notificationMethodSuffix)
    (encode_subscriptionResult (mkSubResult (sub_ID sub) (Some data))) None None.

Section notifier.
Context {W : Type} `{JsonWriter W}.

(** The message is written with the background context, without a deadline. *)
Definition send (n : Notifier) (sub : Subscription) (data : string) (w : W) : option gerror * W :=
  jw_writeJSON None (WMsg (notification (n_namespace n) sub data)) w.

Definition Notify (id : string) (data : gval) : go (Notifier * W) (option gerror) := λ '(n, w),
  match data with
  | Err e => Ret (Some (ENew e), (n, w))
  | Ok enc =>
      match n_sub n with
      | None => Panic "can't Notify before subscription is created"
      | Some sub =>
          if decide (sub_ID sub ≠ id) then Panic "Notify with wrong ID"
          else if n_activated n then
            let '(err, w) := send n sub enc w in Ret (err, (n, w))
          else Ret (None, (mkNotifier (n_namespace n) (n_sub n) (n_buffer n ++ [enc])
                             (n_callReturned n) (n_activated n), w))
      end
  end.

(** The loop of [activate]: it stops at the first error. *)
Fixpoint send_all (n : Notifier) (sub : Subscription) (buffer : list string) (w : W) :
    option gerror * W :=
  match buffer with
  | [] => (None, w)
  | data :: buffer =>
      let '(err, w) := send n sub data w in
      match err with
      | Some e => (Some e, w)
      | None => send_all n sub buffer w
      end
  end.

(** Without a subscription there is nothing to send: a non-empty buffer would
    dereference the nil [n.sub]. *)
Definition activate : go (Notifier * W) (option gerror) := λ '(n, w),
  match n_sub n, n_buffer n with
  | None, _ :: _ => Panic "invalid memory address or nil pointer dereference"
  | sub, buffer =>
      let '(err, w) := match sub with
                       | Some sub => send_all n sub buffer w
                       | None => (None, w)
                       end in
      match err with
      | Some e => Ret (Some e, (n, w))
      | None => Ret (None, (mkNotifier (n_namespace n) (n_sub n) (n_buffer n) (n_callReturned n) true, w))
      end
  end.

Definition Closed (w : W) : bool := jw_closed w.

(** *** A subscribe call and the goroutines that notify

    The goroutine of the call runs the callback, takes the subscription, writes
    the answer and activates the notifier, in this order; the callback and any
    other goroutine may notify at every point. *)
Inductive phase := PCall | PTaken | PResponded | PActivated.

Record nsys := mkNsys {
  y_phase : phase;
  y_n : Notifier;
  y_w : W;
  y_notified : list string;   (* the data accepted by Notify so far, in order *)
  y_failed : bool }.          (* whether some write failed *)

Definition failed_by (e : option gerror) (b : bool) : bool :=
  match e with Some _ => true | None => b end.

Inductive nstep (answer : wireval) : nsys → nsys → Prop :=
| step_create y id err sub n' :
    y_phase y = PCall → CreateSubscription id err (y_n y) = Ret (sub, n') →
    nstep answer y (mkNsys PCall n' (y_w y) (y_notified y) (y_failed y))
| step_notify y id enc e n' w' :
    Notify id (Ok enc) (y_n y, y_w y) = Ret (e, (n', w')) →
    nstep answer y (mkNsys (y_phase y) n' w' (y_notified y ++ [enc]) (failed_by e (y_failed y)))
| step_take y s n' :
    y_phase y = PCall → takeSubscription (y_n y) = Ret (s, n') →
    nstep answer y (mkNsys PTaken n' (y_w y) (y_notified y) (y_failed y))
| step_respond y e w' :
    y_phase y = PTaken → jw_writeJSON None answer (y_w y) = (e, w') →
    nstep answer y (mkNsys PResponded (y_n y) w' (y_notified y) (failed_by e (y_failed y)))
| step_activate y e n' w' :
    y_phase y = PResponded → activate (y_n y, y_w y) = Ret (e, (n', w')) →
    nstep answer y (mkNsys PActivated n' w' (y_notified y) (failed_by e (y_failed y))).

Definition nsys_init (namespace : string) (w : W) : nsys :=
  mkNsys PCall (new_Notifier namespace) w [] false.
End notifier.
Arguments nsys : clear implicits.

(** ** Lemmas and properties of IDs *)

Lemma TrimLeft_len s c : (slen (TrimLeft s c) ≤ slen s)%nat.
Proof. induction s as [|d s IH]; cbn; [done|]. case_decide; cbn; lia. Qed.

Lemma TrimLeft_head s c d u : TrimLeft s c = String d u → d ≠ c.
Proof. induction s as [|x s IH]; cbn; [done|]. case_decide; [done|]. by intros [= -> ->]. Qed.

Lemma TrimLeft_inj s t c : slen s = slen t → TrimLeft s c = TrimLeft t c → s = t.
Proof.
  revert t; induction s as [|d s IH]; intros [|e t] Hl; cbn in Hl; try lia; [done|]. cbn.
  pose proof (TrimLeft_len s c). pose proof (TrimLeft_len t c).
  case_decide; case_decide; intros E; subst.
  - by rewrite (IH t) by (done || lia).
  - rewrite E in *. cbn in *. lia.
  - rewrite <-E in *. cbn in *. lia.
  - done.
Qed.

(** The value of a string of hexadecimal digits. *)
Fixpoint hex_value (acc : Z) (s : string) : option Z :=
  match s with
  | EmptyString => Some acc
  | String c s => d ← hex_digit c; hex_value (16 * acc + d) s
  end.

Lemma hex_value_TrimLeft s : hex_value 0 (TrimLeft s "0") = hex_value 0 s.
Proof. induction s as [|c s IH]; cbn [TrimLeft]; [done|]. case_decide; [|done]. subst. by rewrite IH. Qed.

Lemma be_val_cons x b : Forall byte_ok (x :: b) →
  be_val (x :: b) = (x * 2 ^ (8 * Z.of_nat (length b)) + be_val b)%Z.
Proof.
  intros Hb. unfold be_val. rewrite reverse_cons, le_val_app.
  2:{ apply Forall_reverse. by apply Forall_inv_tail in Hb. }
  2:{ apply Forall_inv in Hb. by apply Forall_singleton. }
  rewrite length_reverse. cbn [le_val]. rewrite Z.shiftl_0_l, Z.lor_0_r. lia.
Qed.

Lemma hex_value_HexEncode acc b : Forall byte_ok b →
  hex_value acc (HexEncode b) = Some (acc * 2 ^ (8 * Z.of_nat (length b)) + be_val b)%Z.
Proof.
  intros Hb. revert acc. induction Hb as [|x b Hx Hb IH]; intros acc.
  { cbn. f_equal. lia. }
  rewrite be_val_cons by (by constructor). cbn [HexEncode hex_value]. destruct Hx as [Hx1 Hx2].
  pose proof (Z.mod_pos_bound x 16). pose proof (Z.div_mod x 16).
  assert (0 ≤ x / 16 < 16)%Z by (split; [apply Z.div_pos|apply Z.div_lt_upper_bound]; lia).
  rewrite !hex_digit_char by lia. cbn [mbind option_bind hex_value]. rewrite IH. f_equal.
  cbn [length]. rewrite Nat2Z.inj_succ.
  replace (8 * Z.succ (Z.of_nat (length b)))%Z with (8 + 8 * Z.of_nat (length b))%Z by lia.
  rewrite Z.pow_add_r by lia. rewrite !Z2N.id by lia. nia.
Qed.

(** an ID is a JSON-RPC quantity: ["0x"] and the random number in
    hexadecimal without leading zeros, ["0"] for zero; two random numbers of the
    same length have the same ID only if they are equal. *)
Theorem encodeID_spec b :
  Forall byte_ok b →
  (∃ d, encodeID b = "0x" +:+ d ∧ hex_value 0 d = Some (be_val b) ∧
        (d = "0" ∨ ∃ c u, d = String c u ∧ c ≠ "0"%char)) ∧
  ∀ b', Forall byte_ok b' → length b' = length b → encodeID b' = encodeID b → b' = b.
Proof.
  intros Hb. split.
  - eexists. split; [done|]. pose proof (hex_value_HexEncode 0 b Hb) as Hv.
    rewrite <-hex_value_TrimLeft in Hv. rewrite Z.mul_0_l, Z.add_0_l in Hv.
    case_decide as Ht.
    + split; [|by left]. rewrite Ht in Hv. injection Hv as <-. done.
    + split; [done|]. right. destruct (TrimLeft _ _) as [|c u] eqn:E; [done|].
      eexists _, _. split; [done|]. by eapply TrimLeft_head.
  - intros b' Hb' Hl E. apply HexEncode_inj; [done..|].
    apply (TrimLeft_inj _ _ "0"); [rewrite !slen_HexEncode; lia|].
    unfold encodeID in E. apply str_app_inj_l in E.
    assert (∀ s, TrimLeft s "0" ≠ "0") as Hz by (intros s Hs; by apply TrimLeft_head in Hs).
    repeat case_decide; try done; try congruence; exfalso; by eapply Hz.
Qed.

Lemma encodeID_spec_witness :
  encodeID [0; 10; 255]%Z = "0xaff" ∧
  ∀ b', Forall byte_ok b' → length b' = 3%nat → encodeID b' = "0xaff" → b' = [0; 10; 255]%Z.
Proof.
  split; [reflexivity|]. apply (encodeID_spec [0; 10; 255]%Z).
  repeat constructor; done.
Defined.

(** ** Lemmas and properties of the notifier *)

Section notifier_props.
Context {W : Type} `{JsonWriter W}.
Variable answer : wireval.

Abbreviation notes ns sub ds := (map (λ d, WMsg (notification ns sub d)) ds).

Lemma send_all_sent n sub buf w e w' l :
  jw_sent w l → send_all n sub buf w = (e, w') →
  ∃ k, jw_sent w' (l ++ notes (n_namespace n) sub (take k buf)) ∧ (e = None → take k buf = buf).
Proof.
  revert w l; induction buf as [|d buf IH]; intros w l Hl; cbn.
  { intros [= <- <-]. exists 0%nat. cbn. by rewrite app_nil_r. }
  destruct (send n sub d w) as [[e1|] w1] eqn:E.
  - intros [= <- <-]. exists 0%nat. cbn. rewrite app_nil_r. split; [|done].
    by eapply jw_sent_err.
  - intros E2. destruct (IH w1 (l ++ [WMsg (notification (n_namespace n) sub d)])) as (k & Hk & Hall); [|done|].
    { by eapply jw_sent_ok. }
    exists (S k). rewrite <-app_assoc in Hk. split; [done|]. intros He. cbn. by rewrite Hall.
Qed.

(** What holds at every point of a subscribe call and its notifying goroutines. *)
Record notify_inv (ns : string) (y : nsys W) (resp : list wireval) (ds : list string) (sub : Subscription) : Prop := {
  ni_ns : n_namespace (y_n y) = ns;
  ni_sent : jw_sent (y_w y) (resp ++ notes ns sub ds);
  ni_sub : y_notified y ≠ [] → n_sub (y_n y) = Some sub;
  ni_resp : resp = [] ∨ resp = [answer];
  ni_early : y_phase y = PCall ∨ y_phase y = PTaken → resp = [];
  ni_inactive : y_phase y ≠ PActivated → ds = [] ∧ n_activated (y_n y) = false;
  ni_sub_ds : ds `sublist_of` y_notified y;
  ni_buffer : n_activated (y_n y) = false → n_buffer (y_n y) = y_notified y;
  ni_answered : y_failed y = false → y_phase y = PResponded ∨ y_phase y = PActivated → resp = [answer];
  ni_all : y_failed y = false → y_phase y = PActivated → n_activated (y_n y) = true ∧ ds = y_notified y
}.

Lemma notify_inv_init ns w sub : jw_sent w [] → notify_inv ns (nsys_init ns w) [] [] sub.
Proof. intros Hw. split; cbn; try done; auto; naive_solver. Qed.

Lemma notify_inv_notify ns y resp ds sub id enc e n' w' :
  notify_inv ns y resp ds sub →
  Notify id (Ok enc) (y_n y, y_w y) = Ret (e, (n', w')) →
  ∃ ds' sub', notify_inv ns (mkNsys (y_phase y) n' w' (y_notified y ++ [enc]) (failed_by e (y_failed y)))
                resp ds' sub'.
Proof.
  intros [I1 I2 I3 I4 I5 I6 I7 I8 I9 I10]. cbn. destruct (n_sub (y_n y)) as [sub'|] eqn:Es; [|done].
  case_decide; [done|].
  assert (notes ns sub ds = notes ns sub' ds) as Hn.
  { destruct ds as [|d ds]; [done|]. assert (y_notified y ≠ []) as Hne.
    { intros E. rewrite E in I7. by apply sublist_nil_r in I7. }
    specialize (I3 Hne). by simplify_eq. }
  rewrite Hn in I2.
  destruct (n_activated (y_n y)) eqn:Ea.
  - destruct (y_phase y) eqn:Ep; try (destruct I6 as [_ I6]; done).
    destruct (send (y_n y) sub' enc (y_w y)) as [e' w1] eqn:E. intros [= <- <- <-].
    destruct e' as [e'|]; cbn [failed_by].
    + exists ds, sub'. split; cbn; try done; try congruence.
      * eapply jw_sent_err; [exact E|done].
      * apply sublist_inserts_r. done.
    + exists (ds ++ [enc]), sub'. split; cbn; try done; try congruence.
      * rewrite map_app, app_assoc. eapply jw_sent_ok; [|exact I2]. unfold send in E. by rewrite I1 in E.
      * by apply sublist_app.
      * intros Hf _. destruct I10 as [_ ->]; done.
  - intros [= <- <- <-]. cbn [failed_by]. exists ds, sub'. split; cbn; try done.
    + apply sublist_inserts_r. done.
    + intros _. by rewrite I8.
    + intros Hf Hp. destruct I10; [done..|]. congruence.
Qed.

Lemma notify_inv_activate ns y resp ds sub e n' w' :
  notify_inv ns y resp ds sub → y_phase y = PResponded →
  activate (y_n y, y_w y) = Ret (e, (n', w')) →
  ∃ ds', notify_inv ns (mkNsys PActivated n' w' (y_notified y) (failed_by e (y_failed y))) resp ds' sub.
Proof.
  intros [I1 I2 I3 I4 I5 I6 I7 I8 I9 I10] Hp. destruct I6 as [-> Ia]; [by rewrite Hp|].
  specialize (I8 Ia). rewrite app_nil_r in I2.
  unfold activate. rewrite I8. intros Hact.
  assert (∃ k, jw_sent w' (resp ++ notes ns sub (take k (y_notified y))) ∧
     (e = None → take k (y_notified y) = y_notified y) ∧
     n_namespace n' = ns ∧ n_sub n' = n_sub (y_n y) ∧ n_buffer n' = y_notified y ∧
     n_activated n' = (match e with None => true | Some _ => false end)) as (k & Hs & Hk & H1 & H2 & H3 & H4).
  { destruct (n_sub (y_n y)) as [sub'|] eqn:Es.
    - destruct (send_all _ _ _ _) as [e1 w1] eqn:E.
      destruct (send_all_sent _ _ _ _ _ _ _ I2 E) as (k & Hk1 & Hk2). rewrite I1 in Hk1.
      assert (notes ns sub' (take k (y_notified y)) = notes ns sub (take k (y_notified y))) as Hn.
      { destruct (y_notified y) eqn:Ey; [by rewrite take_nil|]. specialize (I3 ltac:(done)). by simplify_eq. }
      rewrite Hn in Hk1.
      destruct e1; injection Hact as <- <- <-; exists k; rewrite ?Es; by split_and!.
    - destruct (y_notified y) eqn:Ey; [|done]. injection Hact as <- <- <-. exists 0%nat.
      cbn. rewrite app_nil_r. by split_and!. }
  exists (take k (y_notified y)). split; cbn; try done.
  - by rewrite H2.
  - by intros [].
  - apply sublist_take.
  - intros Hf _. apply I9; [by destruct e|auto].
  - intros Hf _. rewrite H4. destruct e; [done|]. auto.
Qed.

Lemma notify_inv_step ns y y' resp ds sub :
  notify_inv ns y resp ds sub → nstep answer y y' → ∃ resp' ds' sub', notify_inv ns y' resp' ds' sub'.
Proof.
  intros I Hstep. destruct Hstep as [y id err sub' n' Hp Hc|y id enc e n' w' Hn|y s n' Hp Ht|y e w' Hp Hw|y e n' w' Hp Ha].
  - unfold CreateSubscription in Hc. destruct (n_sub (y_n y)) eqn:Es; [done|].
    destruct (n_callReturned _); [done|]. injection Hc as <- <-. destruct I as [I1 I2 I3 I4 I5 I6 I7 I8 I9 I10].
    rewrite Hp in *. destruct I6 as [-> Ia]; [done|].
    assert (y_notified y = []) as Hnn.
    { destruct (y_notified y) eqn:E; [done|]. specialize (I3 ltac:(done)). congruence. }
    exists resp, [], sub. by split.
  - destruct (notify_inv_notify ns y resp ds sub id enc e n' w' I Hn) as (ds' & sub' & I'). eauto.
  - injection Ht as <- <-. destruct I as [I1 I2 I3 I4 I5 I6 I7 I8 I9 I10]. rewrite Hp in *.
    exists resp, ds, sub. split; cbn; try done; auto. by intros _ [].
  - destruct I as [I1 I2 I3 I4 I5 I6 I7 I8 I9 I10]. rewrite Hp in *.
    destruct I6 as [-> Ia]; [done|]. rewrite I5 in I2 by auto. cbn in I2.
    destruct e as [e|].
    + exists [], [], sub. split; cbn; try done; auto. eapply jw_sent_err; done.
    + exists [answer], [], sub. split; cbn; try done; auto; [|by intros []].
      by eapply (jw_sent_ok _ _ _ _ []).
  - destruct (notify_inv_activate ns y resp ds sub e n' w' I Hp Ha) as (ds' & I'). eauto.
Qed.
End notifier_props.

(** C16: the notifications of a subscription, however the goroutines that
    notify interleave with the subscribe call, are written after the call's
    answer and never before it, in the order in which [Notify] accepted them;
    and as long as no write fails, every accepted notification has been written
    once the notifier is activated. *)
Theorem notifications_after_answer {W} `{JsonWriter W} answer ns w y :
  jw_sent w [] → rtc (nstep answer) (nsys_init ns w) y →
  ∃ resp ds sub,
    jw_sent (y_w y) (resp ++ map (λ d, WMsg (notification ns sub d)) ds) ∧
    (resp = [] ∨ resp = [answer]) ∧
    (y_phase y = PCall ∨ y_phase y = PTaken → resp = [] ∧ ds = []) ∧
    (y_phase y = PResponded → ds = []) ∧
    ds `sublist_of` y_notified y ∧
    (y_failed y = false → y_phase y = PResponded ∨ y_phase y = PActivated → resp = [answer]) ∧
    (y_failed y = false → y_phase y = PActivated → ds = y_notified y).
Proof.
  intros Hw Hr.
  assert (∃ resp ds sub, notify_inv answer ns y resp ds sub) as (resp & ds & sub & I).
  { eapply (rtc_ind_r (λ y, ∃ resp ds sub, notify_inv answer ns y resp ds sub)); [|intros ?? _ Hs (?&?&?&I)|exact Hr].
    - exists [], [], (mkSubscription "" "" 0). by apply notify_inv_init.
    - by eapply notify_inv_step. }
  destruct I as [I1 I2 I3 I4 I5 I6 I7 I8 I9 I10]. exists resp, ds, sub. split_and!; try done.
  - intros Hp. split; [auto|]. destruct I6; [|done]. by destruct Hp as [-> | ->].
  - intros Hp. destruct I6; [|done]. by rewrite Hp.
  - intros Hf Hp. by apply I10.
Qed.

(** A run: the callback creates the subscription and notifies, the answer is
    written, the notifier activated, and another goroutine notifies. *)
Definition ex_sub : Subscription := mkSubscription "0x1" "eth" 0.
Definition ex_ans : wireval := WMsg zero_msg.
Definition ex_final : nsys (list wireval) :=
  mkNsys PActivated (mkNotifier "eth" (Some ex_sub) ["1"] true true)
    [ex_ans; WMsg (notification "eth" ex_sub "1"); WMsg (notification "eth" ex_sub "2")] ["1"; "2"] false.

Lemma ex_notify_run : rtc (nstep ex_ans) (nsys_init "eth" []) ex_final.
Proof.
  eapply rtc_l; [eapply (step_create _ _ "0x1" 0); reflexivity|]; cbn.
  eapply rtc_l; [eapply (step_notify _ _ "0x1" "1"); reflexivity|]; cbn.
  eapply rtc_l; [eapply step_take; reflexivity|]; cbn.
  eapply rtc_l; [eapply step_respond; reflexivity|]; cbn.
  eapply rtc_l; [eapply step_activate; reflexivity|]; cbn.
  eapply rtc_l; [eapply (step_notify _ _ "0x1" "2"); reflexivity|]; cbn.
  apply rtc_refl.
Qed.

Lemma notifications_after_answer_witness :
  ∃ resp ds, resp = [ex_ans] ∧ ds = ["1"; "2"] ∧ ds `sublist_of` y_notified ex_final.
Proof.
  assert (jw_sent (W:=list wireval) [] []) as Hw by reflexivity.
  destruct (notifications_after_answer ex_ans "eth" [] ex_final Hw ex_notify_run)
    as (resp & ds & sub & _ & _ & _ & _ & Hs & Ha & Hd).
  exists resp, ds. split; [apply Ha; [reflexivity|right; reflexivity]|].
  split; [apply Hd; reflexivity|exact Hs].
Defined.
