(* ===== verification/RpcClientSub.v ===== *)
(** * Client subscriptions (simple_rpc/rpc/subscription.go)

    A [ClientSubscription] is used by three kinds of goroutines: the forwarding
    loop [start], the dispatch loop, which delivers results and quits it when the
    connection goes down, and users that call [Unsubscribe].  A call of
    [quitWithError] is a thread with a program counter; threads interleave step
    by step, and [sync.Once] blocks every caller while its function runs. *)

From S2P Require Import Prelude GoText Json RpcMessage GoChan.

Definition maxClientSubscriptionBuffer : nat := 200 * 100.

Inductive once := OnceIdle | OnceRunning | OnceDone.

Record ClientSubscription := mkClientSub {
  cs_namespace : string;
  cs_subid : string;
  cs_quitOnce : once;
  cs_quit : chan unit;
  cs_errOnce : bool;                   (* errOnce has run *)
  cs_err : chan (option gerror) }.

Definition newClientSubscription (namespace : string) : ClientSubscription :=
  mkClientSub namespace "" OnceIdle (make_chan 0) false (make_chan 1).

(** ** quitWithError and Unsubscribe *)

(** The points of [quitWithError]: before the Once, before [close(sub.quit)],
    before the unsubscribe call, before the error is sent, before the Once ends;
    then, in [Unsubscribe], before [errOnce]; and the end. *)
Inductive quit_pc := QEnter | QClose | QUnsub | QSend | QFinish | QErrOnce | QDone.

#[export] Instance quit_pc_eq_dec : EqDecision quit_pc.
Proof. solve_decision. Defined.

(** A call of [quitWithError unsub err]; [t_user] marks a call from
    [Unsubscribe], which goes on to close the error channel. *)
Record thread := mkThread { t_unsub : bool; t_err : option gerror; t_user : bool; t_pc : quit_pc }.

Definition quitWithError (unsubscribeServer : bool) (err : option gerror) : thread :=
  mkThread unsubscribeServer err false QEnter.
Definition Unsubscribe : thread := mkThread true None true QEnter.

Definition at_pc (t : thread) (pc : quit_pc) : thread := mkThread (t_unsub t) (t_err t) (t_user t) pc.
Definition after_quit (t : thread) : thread := at_pc t (if t_user t then QErrOnce else QDone).

Definition set_quitOnce (o : once) (s : ClientSubscription) : ClientSubscription :=
  mkClientSub (cs_namespace s) (cs_subid s) o (cs_quit s) (cs_errOnce s) (cs_err s).

(** One step of a call.  The step at [QUnsub] is the return of
    [sub.client.Call], which can take as long as the client lets it. *)
Definition thread_step (t : thread) : go ClientSubscription thread := λ s,
  match t_pc t with
  | QEnter =>
      match cs_quitOnce s with
      | OnceIdle => Ret (at_pc t QClose, set_quitOnce OnceRunning s)
      | OnceRunning => Blocks "sync.Once"
      | OnceDone => Ret (after_quit t, s)
      end
  | QClose =>
      '(_, q) ← chan_close (cs_quit s);
      Ret (at_pc t QUnsub,
           mkClientSub (cs_namespace s) (cs_subid s) (cs_quitOnce s) q (cs_errOnce s) (cs_err s))
  | QUnsub => Ret (at_pc t QSend, s)
  | QSend =>
      match t_err t with
      | None => Ret (at_pc t QFinish, s)
      | Some e =>
          let e := if decide (e = EVar ErrClientQuit) then None else Some e in
          '(_, c) ← chan_send e (cs_err s);
          Ret (at_pc t QFinish,
               mkClientSub (cs_namespace s) (cs_subid s) (cs_quitOnce s) (cs_quit s) (cs_errOnce s) c)
      end
  | QFinish => Ret (after_quit t, set_quitOnce OnceDone s)
  | QErrOnce =>
      if cs_errOnce s then Ret (at_pc t QDone, s)
      else
        '(_, c) ← chan_close (cs_err s);
        Ret (at_pc t QDone,
             mkClientSub (cs_namespace s) (cs_subid s) (cs_quitOnce s) (cs_quit s) true c)
  | QDone => Ret (t, s)
  end.

(** The request that [requestUnsubscribe] makes: the method and its argument. *)
Definition requestUnsubscribe (s : ClientSubscription) : string * string :=
  (cs_namespace s +:+ unsubscribeMethodSuffix, cs_subid s).

(** ** The forwarding loop *)

Section forward.
Context {V : Type}.
(** [json.Unmarshal] into a new element of the subscriber's channel. *)
Variable unmarshal : string → result gerror V.

(** Whether [forward] is running, and what it returned. *)
Inductive fwd := FwdRunning (buffer : list V) | FwdReturned (unsub : bool) (err : option gerror).

(** [case 1: <-sub.in] *)
Definition forward_in (buffer : list V) (result : string) : fwd :=
  match unmarshal result with
  | Err err => FwdReturned true (Some err)
  | Ok val =>
      if decide (length buffer = maxClientSubscriptionBuffer)
      then FwdReturned true (Some (EVar ErrSubscriptionQueueOverflow))
      else FwdRunning (buffer ++ [val])
  end.

(** [case 2: sub.channel<-]: only selected when there is a first item. *)
Definition forward_out (buffer : list V) : option (V * fwd) :=
  match buffer with [] => None | v :: buffer => Some (v, FwdRunning buffer) end.

(** [case 0: <-sub.quit] *)
Definition forward_quit (s : ClientSubscription) : option fwd :=
  if ch_closed (cs_quit s) then Some (FwdReturned false None) else None.

(** [deliver]: handing the result to a running [forward] gives true, a closed
    [quit] gives false; it waits when neither is possible. *)
Inductive deliver (s : ClientSubscription) (f : fwd) (result : string) : bool → fwd → Prop :=
| deliver_in buffer : f = FwdRunning buffer → deliver s f result true (forward_in buffer result)
| deliver_quit : ch_closed (cs_quit s) = true → deliver s f result false f.

(** ** All goroutines together *)

Record csys := mkCsys {
  y_sub : ClientSubscription;
  y_threads : list thread;
  y_fwd : fwd;
  y_accepted : list V;     (* values decoded and queued so far *)
  y_delivered : list V }.  (* values sent to the subscriber so far *)

(** The goroutine of [start] goes on to [quitWithError] when [forward] returns. *)
Definition start_quit (f : fwd) : list thread :=
  match f with FwdRunning _ => [] | FwdReturned unsub err => [quitWithError unsub err] end.

Definition accepted_by (f : fwd) (result : string) : list V :=
  match f, unmarshal result with FwdRunning _, Ok v => [v] | _, _ => [] end.

Inductive cstep : csys → csys → Prop :=
| cs_unsubscribe y :
    cstep y (mkCsys (y_sub y) (y_threads y ++ [Unsubscribe]) (y_fwd y) (y_accepted y) (y_delivered y))
| cs_dispatch_quit y err :
    cstep y (mkCsys (y_sub y) (y_threads y ++ [quitWithError false err]) (y_fwd y) (y_accepted y) (y_delivered y))
| cs_thread y i t t' s' :
    y_threads y !! i = Some t → thread_step t (y_sub y) = Ret (t', s') →
    cstep y (mkCsys s' (<[i := t']> (y_threads y)) (y_fwd y) (y_accepted y) (y_delivered y))
| cs_in y buffer result :
    y_fwd y = FwdRunning buffer →
    let f := forward_in buffer result in
    cstep y (mkCsys (y_sub y) (y_threads y ++ start_quit f) f (y_accepted y ++ accepted_by f result) (y_delivered y))
| cs_out y buffer v f :
    y_fwd y = FwdRunning buffer → forward_out buffer = Some (v, f) →
    cstep y (mkCsys (y_sub y) (y_threads y) f (y_accepted y) (y_delivered y ++ [v]))
| cs_quit_seen y buffer f :
    y_fwd y = FwdRunning buffer → forward_quit (y_sub y) = Some f →
    cstep y (mkCsys (y_sub y) (y_threads y ++ start_quit f) f (y_accepted y) (y_delivered y)).

(** A subscription that was just started. *)
Definition csys_init (namespace subid : string) : csys :=
  mkCsys (mkClientSub namespace subid OnceIdle (make_chan 0) false (make_chan 1)) [] (FwdRunning []) [] [].
End forward.
Arguments fwd : clear implicits.
Arguments csys : clear implicits.

(** ** Lemmas *)

Definition mid (pc : quit_pc) : bool :=
  match pc with QClose | QUnsub | QSend | QFinish => true | _ => false end.

(** What the subscription's state says about the threads. *)
Definition once_inv (s : ClientSubscription) (ths : list thread) : Prop :=
  match cs_quitOnce s with
  | OnceIdle =>
      (∀ i t, ths !! i = Some t → t_pc t = QEnter) ∧ ch_closed (cs_quit s) = false ∧
      ch_closed (cs_err s) = false ∧ ch_buf (cs_err s) = []
  | OnceRunning => ∃ i t,
      ths !! i = Some t ∧ mid (t_pc t) = true ∧
      (∀ j t', ths !! j = Some t' → j ≠ i → t_pc t' = QEnter) ∧
      ch_closed (cs_quit s) = negb (bool_decide (t_pc t = QClose)) ∧
      ch_closed (cs_err s) = false ∧ (t_pc t ≠ QFinish → ch_buf (cs_err s) = [])
  | OnceDone =>
      (∀ i t, ths !! i = Some t → mid (t_pc t) = false) ∧ ch_closed (cs_quit s) = true
  end.

Record sub_inv (s : ClientSubscription) (ths : list thread) : Prop := {
  si_cap : ch_cap (cs_err s) = 1%nat;
  si_len : (length (ch_buf (cs_err s)) ≤ 1)%nat;
  si_errOnce : cs_errOnce s = ch_closed (cs_err s);
  si_once : once_inv s ths;
  si_user : ∀ i t, ths !! i = Some t → t_user t = true → t_pc t = QDone → cs_errOnce s = true;
  si_after : ∀ i t, ths !! i = Some t → t_pc t = QErrOnce ∨ t_pc t = QDone → cs_quitOnce s = OnceDone }.

Lemma lookup_insert_cases {A} (l : list A) i x j y :
  <[i := x]> l !! j = Some y → (j = i ∧ y = x) ∨ (j ≠ i ∧ l !! j = Some y).
Proof. intros H. apply list_lookup_insert_Some in H. naive_solver. Qed.

Lemma once_inv_spawn s ths t : t_pc t = QEnter → once_inv s ths → once_inv s (ths ++ [t]).
Proof.
  intros Ht. assert (∀ j u, (ths ++ [t]) !! j = Some u → ths !! j = Some u ∨ u = t) as Hl.
  { intros j u [H|[? H]]%lookup_app_Some; [by left|].
    apply list_lookup_singleton_Some in H as [_ <-]. by right. }
  unfold once_inv. destruct (cs_quitOnce s).
  - intros (H1 & H2). split; [|done]. intros i u [H|H]%Hl; [eauto|by subst].
  - intros (i & u & Hi & Hm & Ho & H). exists i, u. split; [by apply lookup_app_l_Some|]. split; [done|].
    split; [|done]. intros j u' [Hj|Hj]%Hl Hne; [eauto|by subst].
  - intros (H1 & H2). split; [|done]. intros i u [H|H]%Hl; [eauto|subst; by rewrite Ht].
Qed.

Lemma sub_inv_spawn s ths t : t_pc t = QEnter → sub_inv s ths → sub_inv s (ths ++ [t]).
Proof.
  intros Ht [H1 H2 H3 H4 H5 H6].
  assert (∀ j u, (ths ++ [t]) !! j = Some u → ths !! j = Some u ∨ u = t) as Hl.
  { intros j u [H|[? H]]%lookup_app_Some; [by left|].
    apply list_lookup_singleton_Some in H as [_ <-]. by right. }
  split; [done..|by apply once_inv_spawn| |].
  - intros i u [H|H]%Hl Hu Hp; [eauto|]. subst. congruence.
  - intros i u [H|H]%Hl Hp; [eauto|]. subst. destruct Hp; congruence.
Qed.

(** A thread in the middle of [quitWithError] is the one that runs the Once. *)
Lemma once_running s ths i t : once_inv s ths → ths !! i = Some t → mid (t_pc t) = true →
  cs_quitOnce s = OnceRunning ∧
  (∀ j t', ths !! j = Some t' → j ≠ i → t_pc t' = QEnter) ∧
  ch_closed (cs_quit s) = negb (bool_decide (t_pc t = QClose)) ∧
  ch_closed (cs_err s) = false ∧ (t_pc t ≠ QFinish → ch_buf (cs_err s) = []).
Proof.
  unfold once_inv. intros H Hi Hm. destruct (cs_quitOnce s).
  - destruct H as [H _]. by rewrite (H i t Hi) in Hm.
  - destruct H as (i' & t' & Hi' & Hm' & Ho & H). destruct (decide (i = i')) as [->|Hne].
    + rewrite Hi in Hi'. injection Hi' as <-. done.
    + by rewrite (Ho i t Hi Hne) in Hm.
  - destruct H as [H _]. by rewrite (H i t Hi) in Hm.
Qed.

Lemma thread_step_safe s ths i t : sub_inv s ths → ths !! i = Some t →
  (∃ r, thread_step t s = Ret r) ∨
  (thread_step t s = Blocks "sync.Once" ∧ t_pc t = QEnter ∧
   ∃ j t', ths !! j = Some t' ∧ mid (t_pc t') = true).
Proof.
  intros [H1 H2 H3 H4 H5 H6] Hi. unfold thread_step.
  destruct (t_pc t) eqn:Hp; try (left; by eauto).
  - unfold once_inv in H4. destruct (cs_quitOnce s); [left; eauto| |left; eauto].
    right. destruct H4 as (j & t' & Hj & Hm & _). eauto 10.
  - left. destruct (once_running s ths i t H4 Hi) as (_ & _ & Hq & _); [by rewrite Hp|].
    rewrite bool_decide_eq_true_2 in Hq by done. rewrite chan_close_open by done. cbn. eauto.
  - left. destruct (once_running s ths i t H4 Hi) as (_ & _ & _ & He & Hb); [by rewrite Hp|].
    destruct (t_err t); [|eauto]. rewrite chan_send_room; [cbn; eauto|done|].
    rewrite Hb by (by rewrite Hp). rewrite H1. cbn. lia.
  - left. destruct (cs_errOnce s) eqn:E; [eauto|]. rewrite chan_close_open by done. cbn. eauto.
Qed.

(** While the Once runs in thread [i]: the invariant after a step of [i] that
    stays in the middle. *)
Lemma sub_inv_mid s s' ths i t t' :
  sub_inv s ths → ths !! i = Some t → mid (t_pc t) = true → mid (t_pc t') = true →
  cs_quitOnce s' = OnceRunning → cs_errOnce s' = cs_errOnce s →
  ch_cap (cs_err s') = 1%nat → (length (ch_buf (cs_err s')) ≤ 1)%nat →
  ch_closed (cs_err s') = false →
  ch_closed (cs_quit s') = negb (bool_decide (t_pc t' = QClose)) →
  (t_pc t' ≠ QFinish → ch_buf (cs_err s') = []) →
  sub_inv s' (<[i := t']> ths).
Proof.
  intros [H1 H2 H3 H4 H5 H6] Hi Hm Hm' Ho He Hc Hl Hcl Hq Hb.
  destruct (once_running s ths i t H4 Hi Hm) as (R1 & R2 & R3 & R4 & R5).
  assert (i < length ths)%nat as Hlt by (by eapply lookup_lt_Some).
  split; try done.
  - by rewrite He, H3, R4, Hcl.
  - unfold once_inv. rewrite Ho. exists i, t'. rewrite list_lookup_insert_eq by done.
    split; [done|]. split; [done|]. split; [|done].
    intros j u [[-> _]|[Hne Hj]]%lookup_insert_cases Hji; [done|eauto].
  - intros j u [[-> ->]|[Hne Hj]]%lookup_insert_cases Hu Hp; [by rewrite Hp in Hm'|].
    rewrite He. by eapply H5.
  - intros j u [[-> ->]|[Hne Hj]]%lookup_insert_cases Hp.
    + by destruct Hp as [Hp|Hp]; rewrite Hp in Hm'.
    + rewrite (R2 j u Hj Hne) in Hp. by destruct Hp.
Qed.

Lemma sub_inv_enter s ths i t t' s' :
  sub_inv s ths → ths !! i = Some t → t_pc t = QEnter → thread_step t s = Ret (t', s') → sub_inv s' (<[i := t']> ths).
Proof.
  intros Hinv Hi Hp. pose proof Hinv as [H1 H2 H3 H4 H5 H6].
  assert (i < length ths)%nat as Hlt by (by eapply lookup_lt_Some).
  unfold thread_step. rewrite Hp.
  destruct (cs_quitOnce s) eqn:Ho; [|done|]; intros [= <- <-].
  - unfold once_inv in H4. rewrite Ho in H4. destruct H4 as (I1 & I2 & I3 & I4).
    split; cbn; try done.
    + unfold once_inv. cbn. exists i, (at_pc t QClose). rewrite list_lookup_insert_eq by done.
      split; [done|]. split; [done|]. split; [|done].
      intros j u [[-> _]|[Hne Hj]]%lookup_insert_cases Hji; [done|eauto].
    + intros j u [[-> ->]|[Hne Hj]]%lookup_insert_cases Hu Hd; [done|by eapply H5].
    + intros j u [[-> ->]|[Hne Hj]]%lookup_insert_cases Hd; [by destruct Hd|].
      rewrite (I1 _ _ Hj) in Hd. by destruct Hd.
  - unfold once_inv in H4. rewrite Ho in H4. destruct H4 as (I1 & I2).
    split; cbn; try done.
    + unfold once_inv. rewrite Ho. split; [|done].
      intros j u [[-> ->]|[Hne Hj]]%lookup_insert_cases; [cbn; by destruct (t_user t)|eauto].
    + intros j u [[-> ->]|[Hne Hj]]%lookup_insert_cases Hu Hd; [|by eapply H5].
      cbn in *. by rewrite Hu in Hd.
Qed.

Lemma sub_inv_errOnce s ths i t t' s' :
  sub_inv s ths → ths !! i = Some t → t_pc t = QErrOnce → thread_step t s = Ret (t', s') → sub_inv s' (<[i := t']> ths).
Proof.
  intros Hinv Hi Hp. pose proof Hinv as [H1 H2 H3 H4 H5 H6].
  assert (i < length ths)%nat as Hlt by (by eapply lookup_lt_Some).
  unfold thread_step. rewrite Hp.
  assert (cs_quitOnce s = OnceDone) as Ho by eauto.
  unfold once_inv in H4. rewrite Ho in H4. destruct H4 as (I1 & I2).
  assert (∀ c, ch_cap c = 1%nat → (length (ch_buf c) ≤ 1)%nat → ch_closed c = true →
    sub_inv (mkClientSub (cs_namespace s) (cs_subid s) (cs_quitOnce s) (cs_quit s) true c) (<[i:=at_pc t QDone]> ths)) as Hdone.
  { intros c C1 C2 C3. split; cbn; try done.
    unfold once_inv. cbn. rewrite Ho. split; [|done].
    intros j u [[-> ->]|[Hne Hj]]%lookup_insert_cases; [done|eauto]. }
  destruct (cs_errOnce s) eqn:E.
  - intros [= <- <-]. rewrite <-E in Hdone. destruct s. cbn in *. subst. by apply Hdone.
  - rewrite chan_close_open by done. cbn. intros [= <- <-]. by apply Hdone.
Qed.

Lemma sub_inv_step s ths i t t' s' :
  sub_inv s ths → ths !! i = Some t → thread_step t s = Ret (t', s') → sub_inv s' (<[i := t']> ths).
Proof.
  intros Hinv Hi. pose proof Hinv as [H1 H2 H3 H4 H5 H6].
  assert (i < length ths)%nat as Hlt by (by eapply lookup_lt_Some).
  unfold thread_step. destruct (t_pc t) eqn:Hp.
  - intros H. eapply sub_inv_enter; [done..|]. unfold thread_step. by rewrite Hp.
  - destruct (once_running s ths i t H4 Hi) as (R1 & R2 & R3 & R4 & R5); [by rewrite Hp|].
    rewrite Hp in R3, R5. rewrite bool_decide_eq_true_2 in R3 by done.
    rewrite chan_close_open by done. cbn. intros [= <- <-].
    eapply sub_inv_mid; try done; [by rewrite Hp|auto].
  - destruct (once_running s ths i t H4 Hi) as (R1 & R2 & R3 & R4 & R5); [by rewrite Hp|].
    rewrite Hp in R3, R5. intros [= <- <-]. eapply sub_inv_mid; try done; [by rewrite Hp|auto].
  - destruct (once_running s ths i t H4 Hi) as (R1 & R2 & R3 & R4 & R5); [by rewrite Hp|].
    rewrite Hp in R3, R5. destruct (t_err t) as [e|].
    + rewrite chan_send_room; [|done|rewrite R5 by done; rewrite H1; cbn; lia].
      cbn. rewrite R5 by done. intros [= <- <-]. eapply sub_inv_mid; try done; by rewrite Hp.
    + intros [= <- <-]. eapply sub_inv_mid; try done; by rewrite Hp.
  - destruct (once_running s ths i t H4 Hi) as (R1 & R2 & R3 & R4 & R5); [by rewrite Hp|].
    rewrite Hp in R3. intros [= <- <-]. split; cbn; try done.
    + unfold once_inv. cbn. split; [|done].
      intros j u [[-> ->]|[Hne Hj]]%lookup_insert_cases; [cbn; by destruct (t_user t)|].
      by rewrite (R2 j u Hj Hne).
    + intros j u [[-> ->]|[Hne Hj]]%lookup_insert_cases Hu Hd; [cbn in *; by rewrite Hu in Hd|by eapply H5].
  - intros H. eapply sub_inv_errOnce; [done..|]. unfold thread_step. by rewrite Hp.
  - intros [= <- <-]. by rewrite list_insert_id.
Qed.

Section forward_props.
Context {V : Type} (unmarshal : string → result gerror V).

(** The queue between the values accepted and the values delivered. *)
Definition queue_inv (y : csys V) : Prop :=
  match y_fwd y with
  | FwdRunning buffer =>
      y_accepted y = y_delivered y ++ buffer ∧ (length buffer ≤ maxClientSubscriptionBuffer)%nat
  | FwdReturned _ _ => y_delivered y `prefix_of` y_accepted y
  end.

Lemma sub_inv_start_quit s ths (f : fwd V) : sub_inv s ths → sub_inv s (ths ++ start_quit f).
Proof. destruct f; cbn; [by rewrite app_nil_r|]. by apply sub_inv_spawn. Qed.

Lemma csys_inv_step y y' :
  cstep unmarshal y y' →
  sub_inv (y_sub y) (y_threads y) ∧ queue_inv y → sub_inv (y_sub y') (y_threads y') ∧ queue_inv y'.
Proof.
  intros Hs [Hi Hq].
  destruct Hs as [y|y err|y i t t' s' Hl Ht|y buffer result Hf f|y buffer v f Hf Ho|y buffer f Hf Ho].
  - split; [by apply sub_inv_spawn|done].
  - split; [by apply sub_inv_spawn|done].
  - split; [by eapply sub_inv_step|done].
  - split; [by apply sub_inv_start_quit|]. unfold queue_inv in *. rewrite Hf in Hq.
    destruct Hq as [Hq Hlen]. cbn [y_fwd y_accepted y_delivered]. subst f.
    unfold accepted_by, forward_in. destruct (unmarshal result) as [v|e].
    + case_decide.
      * rewrite app_nil_r, Hq. by apply prefix_app_r.
      * rewrite Hq, app_assoc. split; [done|]. rewrite length_app. cbn [length]. lia.
    + rewrite app_nil_r, Hq. by apply prefix_app_r.
  - split; [done|]. unfold queue_inv in *. rewrite Hf in Hq. destruct buffer as [|w buffer]; [done|].
    injection Ho as <- <-. destruct Hq as [Hq Hlen]. cbn [y_fwd y_accepted y_delivered length] in *.
    rewrite <-app_assoc. split; [done|lia].
  - split; [by apply sub_inv_start_quit|]. unfold queue_inv in *. rewrite Hf in Hq.
    unfold forward_quit in Ho. destruct (ch_closed _); [|done]. injection Ho as <-.
    cbn [y_fwd y_accepted y_delivered]. destruct Hq as [-> _]. by apply prefix_app_r.
Qed.

Lemma csys_inv_reach ns id y : rtc (cstep unmarshal) (csys_init ns id) y →
  sub_inv (y_sub y) (y_threads y) ∧ queue_inv y.
Proof.
  intros Hr. eapply (rtc_ind_r (λ y, sub_inv (y_sub y) (y_threads y) ∧ queue_inv y)); [| |exact Hr].
  - split; [|split; [done|cbn; lia]]. split; cbn; try done; lia.
  - intros x z _ Hs Hx. by eapply csys_inv_step.
Qed.

(** C17: however the forwarding loop, the dispatch loop and any number of
    [Unsubscribe] calls interleave on a client subscription, no channel is closed
    twice and nothing is sent on a closed channel; the error channel never blocks
    its sender and holds at most one error; a call only ever waits while another
    one runs the body of [quitWithError]; and once an [Unsubscribe] has returned
    the error channel is closed. *)
Theorem client_subscription_safe ns id y :
  rtc (cstep unmarshal) (csys_init ns id) y →
  (length (ch_buf (cs_err (y_sub y))) ≤ 1)%nat ∧
  ∀ i t, y_threads y !! i = Some t →
    ((∃ r, thread_step t (y_sub y) = Ret r) ∨
     (thread_step t (y_sub y) = Blocks "sync.Once" ∧ t_pc t = QEnter ∧
      ∃ j t', y_threads y !! j = Some t' ∧ mid (t_pc t') = true)) ∧
    (t_user t = true → t_pc t = QDone →
      ch_closed (cs_err (y_sub y)) = true ∧ ch_closed (cs_quit (y_sub y)) = true).
Proof.
  intros Hr. destruct (csys_inv_reach _ _ _ Hr) as [Hi _]. pose proof Hi as [H1 H2 H3 H4 H5 H6].
  split; [done|]. intros i t Ht. split; [by eapply thread_step_safe|].
  intros Hu Hp. split; [rewrite <-H3; by eapply H5|].
  assert (cs_quitOnce (y_sub y) = OnceDone) as Ho by eauto.
  unfold once_inv in H4. rewrite Ho in H4. apply H4.
Qed.

(** C18: a subscriber gets the values of a subscription in the order the server
    sent them, none left out while the subscription runs, and at most
    [maxClientSubscriptionBuffer] values are ever queued; the subscription ends
    with [ErrSubscriptionQueueOverflow] exactly when a further value arrives at a
    full queue. *)
Theorem forward_fifo ns id y :
  rtc (cstep unmarshal) (csys_init ns id) y →
  y_delivered y `prefix_of` y_accepted y ∧
  ∀ buffer, y_fwd y = FwdRunning buffer →
    y_accepted y = y_delivered y ++ buffer ∧
    (length buffer ≤ maxClientSubscriptionBuffer)%nat ∧
    ∀ result v, unmarshal result = Ok v →
      forward_in unmarshal buffer result =
        if decide (length buffer = maxClientSubscriptionBuffer)
        then FwdReturned true (Some (EVar ErrSubscriptionQueueOverflow))
        else FwdRunning (buffer ++ [v]).
Proof.
  intros Hr. destruct (csys_inv_reach _ _ _ Hr) as [_ Hq]. unfold queue_inv in Hq. split.
  - destruct (y_fwd y); [|done]. destruct Hq as [-> _]. by apply prefix_app_r.
  - intros buffer Hf. rewrite Hf in Hq. destruct Hq as [Hq Hl]. split; [done|]. split; [done|].
    intros result v Hv. unfold forward_in. by rewrite Hv.
Qed.
End forward_props.

(** ** A run *)

Definition ex_unmarshal (s : string) : result gerror string := Ok s.

(** Two values arrive, one is taken, the user unsubscribes while the connection
    goes down. *)
Definition ex_end : csys string :=
  mkCsys (mkClientSub "eth" "0x1" OnceDone (mkChan 0 [] true) true (mkChan 1 [] true))
    [at_pc Unsubscribe QDone; at_pc (quitWithError false (Some (EVar ErrClientQuit))) QDone]
    (FwdRunning ["b"]) ["a"; "b"] ["a"].

(** The steps as a function, for a given choice. *)
Inductive choice := CIn (result : string) | COut | CUnsubscribe | CQuit (err : option gerror) | CThread (i : nat).
Definition choose (y : csys string) (c : choice) : option (csys string) :=
  match c, y_fwd y with
  | CIn result, FwdRunning buffer =>
      let f := forward_in ex_unmarshal buffer result in
      Some (mkCsys (y_sub y) (y_threads y ++ start_quit f) f (y_accepted y ++ accepted_by ex_unmarshal f result) (y_delivered y))
  | COut, FwdRunning buffer =>
      '(v, f) ← forward_out buffer; Some (mkCsys (y_sub y) (y_threads y) f (y_accepted y) (y_delivered y ++ [v]))
  | CUnsubscribe, _ =>
      Some (mkCsys (y_sub y) (y_threads y ++ [Unsubscribe]) (y_fwd y) (y_accepted y) (y_delivered y))
  | CQuit err, _ =>
      Some (mkCsys (y_sub y) (y_threads y ++ [quitWithError false err]) (y_fwd y) (y_accepted y) (y_delivered y))
  | CThread i, _ =>
      t ← y_threads y !! i;
      match thread_step t (y_sub y) with
      | Ret (t', s') => Some (mkCsys s' (<[i := t']> (y_threads y)) (y_fwd y) (y_accepted y) (y_delivered y))
      | _ => None
      end
  | _, _ => None
  end.
Fixpoint choose_all (y : csys string) (l : list choice) : option (csys string) :=
  match l with [] => Some y | c :: l => y ← choose y c; choose_all y l end.

Lemma choose_step y c y' : choose y c = Some y' → cstep ex_unmarshal y y'.
Proof.
  unfold choose. destruct c as [result| | |err|i].
  - destruct (y_fwd y) eqn:E; intros [= <-]. by apply (cs_in _ y _ result).
  - destruct (y_fwd y) eqn:E; [|done]. destruct (forward_out buffer) as [[v f]|] eqn:Eo; cbn; intros [= <-]. by eapply cs_out.
  - intros [= <-]. apply cs_unsubscribe.
  - intros [= <-]. apply cs_dispatch_quit.
  - destruct (y_threads y !! i) as [t|] eqn:Et; [|done]. cbn.
    destruct (thread_step t (y_sub y)) as [[t' s']| |] eqn:Es; intros [= <-]. by eapply cs_thread.
Qed.
Lemma choose_all_run l y y' : choose_all y l = Some y' → rtc (cstep ex_unmarshal) y y'.
Proof.
  revert y. induction l as [|c l IH]; intros y; cbn; [intros [= <-]; apply rtc_refl|].
  destruct (choose y c) as [y1|] eqn:E; [|done]. intros H. eapply rtc_l; [by eapply choose_step|by apply IH].
Qed.

Lemma ex_run : rtc (cstep ex_unmarshal) (csys_init "eth" "0x1") ex_end.
Proof.
  apply (choose_all_run ([CIn "a"; CIn "b"; COut; CUnsubscribe; CQuit (Some (EVar ErrClientQuit))] ++
                         replicate 6 (CThread 0) ++ [CThread 1])).
  vm_compute. reflexivity.
Qed.

Lemma client_subscription_safe_witness :
  ch_closed (cs_err (y_sub ex_end)) = true ∧ ch_closed (cs_quit (y_sub ex_end)) = true.
Proof.
  destruct (client_subscription_safe ex_unmarshal "eth" "0x1" ex_end ex_run) as [_ H].
  apply (H 0%nat (at_pc Unsubscribe QDone)); reflexivity.
Defined.

Lemma forward_fifo_witness : y_accepted ex_end = y_delivered ex_end ++ ["b"].
Proof.
  destruct (forward_fifo ex_unmarshal "eth" "0x1" ex_end ex_run) as [_ H].
  apply (H ["b"] eq_refl).
Defined.
