(* ===== verification/RpcHandler.v ===== *)
(** * The message handler (simple_rpc/rpc/handler.go)

    One handler per connection, as a state that its methods transform.  Pointers
    to request operations, subscriptions and channels are locations in heaps of
    the state.  Goroutines started by [startCallProc] are pending jobs that run
    as a whole, in any order; the interleavings of notifications inside a
    subscribe call and of the users of a client subscription are the subject of
    {!RpcSubscription} and {!RpcClientSub}.  What a callback does to the handler
    while it runs is its [script]. *)

From S2P Require Import Prelude GoText Json RpcMessage RpcArgs RpcService GoChan.
From S2P Require Import RpcSubscription RpcClientSub.

(** ** Callbacks *)

(** A running callback: it asks for the notifier of its context, uses it, or
    (the unsubscribe callback) calls [h.unsubscribe]; then it returns or panics. *)
Inductive script :=
| SReturn (results : list goresult)
| SPanic
| SNotifierFromContext (k : bool → script)
| SCreate (k : Subscription → script)
| SNotify (id : string) (data : gval) (k : option gerror → script)
| SUnsubscribe (id : string) (k : bool * option gerror → script).

Section handler.
Context {W : Type} `{JsonWriter W} {V : Type}.

(** A function of a callback, on its arguments after receiver and context. *)
Abbreviation body := (list V → script).

(** Decoding into a type, the zero value of a type, and the texts of decoder
    errors, as for {!RpcArgs}; the string of an [ID] value; the ID generator. *)
Variable decode_as : gotype → string → result string V.
Variable Zero : gotype → V.
Variable decError_text : decError → string.
Variable as_ID : V → string.
Variable idgen : nat → string.

(** ** State *)

(** [op.ids] are the texts of IDs; [op.sub] is a location. *)
Record requestOp := mkOp {
  op_ids : list string;
  op_err : option gerror;
  op_resp : chan jsonrpcMessage;
  op_sub : option nat }.

(** What the handler does with client subscriptions, in order. *)
Inductive subEvent :=
| SubStart (sub : nat)
| SubDeliver (sub : nat) (result : RawMessage)
| SubQuit (sub : nat) (err : gerror).

(** The [quitOnce] of a client subscription: nothing before it is used; run by a
    goroutine that calls the server to unsubscribe, with the request at a location; or
    done.  The whole of [quitWithError] is {!RpcClientSub}. *)
Inductive quitOnce := QuitRunning (op : nat) | QuitDone.

(** A goroutine of [startCallProc]. *)
Inductive job := JEmptyBatch | JBatch (calls : list jsonrpcMessage) | JMsg (msg : jsonrpcMessage).

Record gauges := mkGauges { g_requests : Z; g_failed : Z; g_successful : Z }.

Record handler := mkHandler {
  h_reg : serviceRegistry body;
  h_respWait : gmap string nat;
  h_clientSubs : gmap string nat;
  h_callWG : list job;
  h_rootCanceled : bool;
  h_conn : W;
  h_allowSubscribe : bool;
  h_serverSubs : gmap string Subscription;
  (* the heaps, and the IDs generated so far *)
  h_ops : gmap nat requestOp;
  h_subids : gmap nat string;
  h_quits : gmap nat quitOnce;
  h_subErrs : gmap nat (chan gerror);
  h_next : nat;
  h_ids : nat;
  h_subLog : list subEvent;
  h_gauges : gauges }.

(** [newHandler]: the heaps belong to the program and are passed on. *)
Definition newHandler (conn : W) (reg : serviceRegistry body) (ops : gmap nat requestOp)
    (subids : gmap nat string) (quits : gmap nat quitOnce) (next ids : nat) (g : gauges) : handler :=
  mkHandler reg ∅ ∅ [] false conn true ∅ ops subids quits ∅ next ids [] g.

Definition upd_respWait (f : gmap string nat → gmap string nat) (h : handler) : handler :=
  mkHandler (h_reg h) (f (h_respWait h)) (h_clientSubs h) (h_callWG h) (h_rootCanceled h) (h_conn h)
    (h_allowSubscribe h) (h_serverSubs h) (h_ops h) (h_subids h) (h_quits h) (h_subErrs h) (h_next h) (h_ids h)
    (h_subLog h) (h_gauges h).
Definition upd_clientSubs (f : gmap string nat → gmap string nat) (h : handler) : handler :=
  mkHandler (h_reg h) (h_respWait h) (f (h_clientSubs h)) (h_callWG h) (h_rootCanceled h) (h_conn h)
    (h_allowSubscribe h) (h_serverSubs h) (h_ops h) (h_subids h) (h_quits h) (h_subErrs h) (h_next h) (h_ids h)
    (h_subLog h) (h_gauges h).
Definition upd_callWG (f : list job → list job) (h : handler) : handler :=
  mkHandler (h_reg h) (h_respWait h) (h_clientSubs h) (f (h_callWG h)) (h_rootCanceled h) (h_conn h)
    (h_allowSubscribe h) (h_serverSubs h) (h_ops h) (h_subids h) (h_quits h) (h_subErrs h) (h_next h) (h_ids h)
    (h_subLog h) (h_gauges h).
Definition cancelRoot (h : handler) : handler :=
  mkHandler (h_reg h) (h_respWait h) (h_clientSubs h) (h_callWG h) true (h_conn h)
    (h_allowSubscribe h) (h_serverSubs h) (h_ops h) (h_subids h) (h_quits h) (h_subErrs h) (h_next h) (h_ids h)
    (h_subLog h) (h_gauges h).
Definition set_conn (w : W) (h : handler) : handler :=
  mkHandler (h_reg h) (h_respWait h) (h_clientSubs h) (h_callWG h) (h_rootCanceled h) w
    (h_allowSubscribe h) (h_serverSubs h) (h_ops h) (h_subids h) (h_quits h) (h_subErrs h) (h_next h) (h_ids h)
    (h_subLog h) (h_gauges h).
Definition set_allowSubscribe (b : bool) (h : handler) : handler :=
  mkHandler (h_reg h) (h_respWait h) (h_clientSubs h) (h_callWG h) (h_rootCanceled h) (h_conn h)
    b (h_serverSubs h) (h_ops h) (h_subids h) (h_quits h) (h_subErrs h) (h_next h) (h_ids h)
    (h_subLog h) (h_gauges h).
Definition upd_serverSubs (f : gmap string Subscription → gmap string Subscription) (h : handler) : handler :=
  mkHandler (h_reg h) (h_respWait h) (h_clientSubs h) (h_callWG h) (h_rootCanceled h) (h_conn h)
    (h_allowSubscribe h) (f (h_serverSubs h)) (h_ops h) (h_subids h) (h_quits h) (h_subErrs h) (h_next h) (h_ids h)
    (h_subLog h) (h_gauges h).
Definition upd_ops (f : gmap nat requestOp → gmap nat requestOp) (h : handler) : handler :=
  mkHandler (h_reg h) (h_respWait h) (h_clientSubs h) (h_callWG h) (h_rootCanceled h) (h_conn h)
    (h_allowSubscribe h) (h_serverSubs h) (f (h_ops h)) (h_subids h) (h_quits h) (h_subErrs h) (h_next h) (h_ids h)
    (h_subLog h) (h_gauges h).
Definition upd_subids (f : gmap nat string → gmap nat string) (h : handler) : handler :=
  mkHandler (h_reg h) (h_respWait h) (h_clientSubs h) (h_callWG h) (h_rootCanceled h) (h_conn h)
    (h_allowSubscribe h) (h_serverSubs h) (h_ops h) (f (h_subids h)) (h_quits h) (h_subErrs h) (h_next h) (h_ids h)
    (h_subLog h) (h_gauges h).
Definition upd_quits (f : gmap nat quitOnce → gmap nat quitOnce) (h : handler) : handler :=
  mkHandler (h_reg h) (h_respWait h) (h_clientSubs h) (h_callWG h) (h_rootCanceled h) (h_conn h)
    (h_allowSubscribe h) (h_serverSubs h) (h_ops h) (h_subids h) (f (h_quits h)) (h_subErrs h) (h_next h) (h_ids h)
    (h_subLog h) (h_gauges h).
Definition upd_subErrs (f : gmap nat (chan gerror) → gmap nat (chan gerror)) (h : handler) : handler :=
  mkHandler (h_reg h) (h_respWait h) (h_clientSubs h) (h_callWG h) (h_rootCanceled h) (h_conn h)
    (h_allowSubscribe h) (h_serverSubs h) (h_ops h) (h_subids h) (h_quits h) (f (h_subErrs h)) (h_next h) (h_ids h)
    (h_subLog h) (h_gauges h).
Definition alloc_sub (h : handler) : handler :=
  mkHandler (h_reg h) (h_respWait h) (h_clientSubs h) (h_callWG h) (h_rootCanceled h) (h_conn h)
    (h_allowSubscribe h) (h_serverSubs h) (h_ops h) (h_subids h) (h_quits h)
    (<[h_next h := make_chan 1]> (h_subErrs h)) (S (h_next h)) (S (h_ids h)) (h_subLog h) (h_gauges h).
Definition log_sub (e : subEvent) (h : handler) : handler :=
  mkHandler (h_reg h) (h_respWait h) (h_clientSubs h) (h_callWG h) (h_rootCanceled h) (h_conn h)
    (h_allowSubscribe h) (h_serverSubs h) (h_ops h) (h_subids h) (h_quits h) (h_subErrs h) (h_next h) (h_ids h)
    (h_subLog h ++ [e]) (h_gauges h).
Definition upd_gauges (f : gauges → gauges) (h : handler) : handler :=
  mkHandler (h_reg h) (h_respWait h) (h_clientSubs h) (h_callWG h) (h_rootCanceled h) (h_conn h)
    (h_allowSubscribe h) (h_serverSubs h) (h_ops h) (h_subids h) (h_quits h) (h_subErrs h) (h_next h) (h_ids h)
    (h_subLog h) (f (h_gauges h)).

(** [h.conn.writeJSON], whose error the handler ignores. *)
Definition write_conn (v : wireval) (h : handler) : handler :=
  set_conn (jw_writeJSON None v (h_conn h)).2 h.

(** A channel operation on the channel of the request at [loc], and on the error
    channel at [loc]. *)
Definition on_resp {A} (loc : nat) (f : go (chan jsonrpcMessage) A) : go handler A := λ h,
  match h_ops h !! loc with
  | None => Panic "invalid memory address or nil pointer dereference"
  | Some op =>
      '(a, c) ← f (op_resp op);
      Ret (a, upd_ops <[loc := mkOp (op_ids op) (op_err op) c (op_sub op)]> h)
  end.
Definition set_op_err (loc : nat) (e : option gerror) : go handler unit := λ h,
  match h_ops h !! loc with
  | None => Panic "invalid memory address or nil pointer dereference"
  | Some op => Ret ((), upd_ops <[loc := mkOp (op_ids op) e (op_resp op) (op_sub op)]> h)
  end.
Definition on_subErr {A} (loc : nat) (f : go (chan gerror) A) : go handler A := λ h,
  match h_subErrs h !! loc with
  | None => Panic "invalid memory address or nil pointer dereference"
  | Some c => '(a, c) ← f c; Ret (a, upd_subErrs <[loc := c]> h)
  end.

(** ** Requests of the local client *)

Definition addRequestOp (loc : nat) : go handler unit := λ h,
  match h_ops h !! loc with
  | None => Panic "invalid memory address or nil pointer dereference"
  | Some op => Ret ((), upd_respWait (λ m, foldl (λ m id, <[id := loc]> m) m (op_ids op)) h)
  end.

Definition removeRequestOp (loc : nat) : go handler unit := λ h,
  match h_ops h !! loc with
  | None => Panic "invalid memory address or nil pointer dereference"
  | Some op => Ret ((), upd_respWait (λ m, foldl (λ m id, delete id m) m (op_ids op)) h)
  end.

(** The first loop of [cancelAllRequests], over the entries of [respWait];
    [didClose] holds the requests already closed. *)
Fixpoint cancel_ops (err : gerror) (entries : list (string * nat)) (didClose : list nat) : go handler unit :=
  match entries with
  | [] => mret ()
  | (id, op) :: entries =>
      go_modify (upd_respWait (delete id)) ;;
      if decide (op ∈ didClose) then cancel_ops err entries didClose
      else
        set_op_err op (Some err) ;;
        on_resp op chan_close ;;
        cancel_ops err entries (op :: didClose)
  end.

(** [sub.quitWithError(false, err)]: whether it returns.  [quitOnce.Do] returns when the
    function has run, here or before, and waits while another goroutine runs it; the
    error goes to a channel that has room for it. *)
Definition quit_client_sub (err : gerror) (sub : nat) : go handler bool :=
  h ← go_get;
  match h_quits h !! sub with
  | Some (QuitRunning _) => mret false
  | _ =>
      go_modify (upd_quits <[sub := QuitDone]>) ;;
      go_modify (log_sub (SubQuit sub err)) ;;
      mret true
  end.

(** The second loop, over the entries of [clientSubs]: the subscription in whose
    [quitOnce] it stands, or [None] at its end. *)
Fixpoint quit_client_subs (err : gerror) (entries : list (string * nat)) : go handler (option nat) :=
  match entries with
  | [] => mret None
  | (id, sub) :: entries =>
      go_modify (upd_clientSubs (delete id)) ;;
      ok ← quit_client_sub err sub;
      if ok : bool then quit_client_subs err entries else mret (Some sub)
  end.

Definition cancelAllRequests (err : gerror) (inflightReq : option nat) : go handler (option nat) :=
  h ← go_get;
  cancel_ops err (map_to_list (h_respWait h)) (match inflightReq with Some op => [op] | None => [] end) ;;
  h ← go_get;
  quit_client_subs err (map_to_list (h_clientSubs h)).

(** [cancelAllRequests] from the [quitOnce] of [sub] on, when that is done. *)
Definition resume_cancel (err : gerror) (sub : nat) : go handler (option nat) :=
  ok ← quit_client_sub err sub;
  if ok : bool then
    h ← go_get;
    quit_client_subs err (map_to_list (h_clientSubs h))
  else go_block "sync.Once".

(** [json.Unmarshal(msg.Result, &op.sub.subid)]: the error, and the new subid. *)
Definition unmarshal_subid (r : RawMessage) (old : string) : option gerror * string :=
  match r with
  | None => (Some (ENew (decError_text DecEOF)), old)
  | Some raw =>
      match shape_of (skip_ws raw) with
      | Some (JStr lit) => (None, unquote lit)
      | Some JNull => (None, old)
      | Some _ => (Some (ENew "json: cannot unmarshal into Go value of type string"), old)
      | None => (Some (ENew (decError_text (DecSyntax raw))), old)
      end
  end.

Definition handleResponse (msg : jsonrpcMessage) : go handler unit :=
  h ← go_get;
  match h_respWait h !! default "" (ID msg) with
  | None => mret ()                       (* Unsolicited RPC response *)
  | Some loc =>
      go_modify (upd_respWait (delete (default "" (ID msg)))) ;;
      match h_ops h !! loc with
      | None => go_panic "invalid memory address or nil pointer dereference"
      | Some op =>
          match op_sub op with
          | None => on_resp loc (chan_send msg)
          | Some sub =>
              (match Error msg with
               | Some e => set_op_err loc (Some (EJson e))
               | None =>
                   let '(err, subid) := unmarshal_subid (Result msg) (default "" (h_subids h !! sub)) in
                   go_modify (upd_subids <[sub := subid]>) ;;
                   set_op_err loc err ;;
                   match err with
                   | Some _ => mret ()
                   | None =>
                       go_modify (log_sub (SubStart sub)) ;;
                       go_modify (upd_clientSubs <[subid := sub]>)
                   end
               end) ;;
              on_resp loc chan_close       (* defer close(op.resp) *)
          end
      end
  end.

(** ** Notifications for client subscriptions *)

(** Decoding params into a [subscriptionResult]: [None] when Unmarshal returns
    an error. *)
Definition set_subresult_field (acc : subscriptionResult * bool) (kv : string * string) :
    subscriptionResult * bool :=
  let '(r, ok) := acc in
  let key := fold_key (unquote kv.1) in
  if decide (key = "subscription") then
    match shape_of kv.2 with
    | Some (JStr lit) => (mkSubResult (unquote lit) (sr_Result r), ok)
    | Some JNull => (r, ok)
    | _ => (r, false)
    end
  else if decide (key = "result") then (mkSubResult (sr_ID r) (Some kv.2), ok)
  else acc.

Definition decode_subscriptionResult (params : RawMessage) : option subscriptionResult :=
  raw ← params;
  match shape_of (skip_ws raw) with
  | Some (JObj l) =>
      let '(r, ok) := foldl set_subresult_field (mkSubResult "" None, true) l in
      if ok : bool then Some r else None
  | Some JNull => Some (mkSubResult "" None)
  | _ => None
  end.

Definition handleSubscriptionResult (msg : jsonrpcMessage) : go handler unit :=
  match decode_subscriptionResult (Params msg) with
  | None => mret ()                       (* Dropping invalid subscription message *)
  | Some result =>
      h ← go_get;
      match h_clientSubs h !! sr_ID result with
      | None => mret ()
      | Some sub => go_modify (log_sub (SubDeliver sub (sr_Result result)))
      end
  end.

Definition handleImmediate (msg : jsonrpcMessage) : go handler bool :=
  if isNotification msg then
    if HasSuffix (Method msg) notificationMethodSuffix
    then handleSubscriptionResult msg ;; mret true
    else mret false
  else if isResponse msg then handleResponse msg ;; mret true
  else mret false.

(** ** Server subscriptions *)

(** [unsubscribe]: the mutex is released by a deferred call, also on a panic. *)
Definition unsubscribe (id : string) : go handler (bool * option gerror) :=
  h ← go_get;
  match h_serverSubs h !! id with
  | None => mret (false, Some (EVar ErrSubscriptionNotFound))
  | Some s =>
      on_subErr (sub_err s) chan_close ;;
      go_modify (upd_serverSubs (delete id)) ;;
      mret (true, None)
  end.

(** [addSubscriptions], with the notifiers after [takeSubscription]. *)
Fixpoint addSubscriptions (nn : list Notifier) : go handler (list Notifier) :=
  match nn with
  | [] => mret []
  | n :: nn =>
      match takeSubscription n with
      | Ret (sub, n') =>
          (match sub with
           | Some s => go_modify (upd_serverSubs <[sub_ID s := s]>)
           | None => mret ()
           end) ;;
          nn' ← addSubscriptions nn;
          mret (n' :: nn')
      | Panic e => go_panic e
      | Blocks c => go_block c
      end
  end.

Definition cancel_server_sub (err : gerror) (e : string * Subscription) : go handler unit :=
  on_subErr (sub_err e.2) (chan_send err) ;;
  on_subErr (sub_err e.2) chan_close ;;
  go_modify (upd_serverSubs (delete e.1)).

Definition cancelServerSubscriptions (err : gerror) : go handler unit :=
  h ← go_get;
  go_for (map_to_list (h_serverSubs h)) (cancel_server_sub err).

(** ** Calls *)

(** Running a callback, with the notifier of its context: its results, or [None]
    when it panicked, in which case what it did before stays done. *)
Fixpoint run_script (n : option Notifier) (s : script) (h : handler) :
    option (list goresult) * option Notifier * handler :=
  match s with
  | SReturn results => (Some results, n, h)
  | SPanic => (None, n, h)
  | SNotifierFromContext k => run_script n (k (bool_decide (is_Some n))) h
  | SCreate k =>
      match n with
      | None => (None, n, h)
      | Some nt =>
          match CreateSubscription (idgen (h_ids h)) (h_next h) nt with
          | Ret (sub, nt) => run_script (Some nt) (k sub) (alloc_sub h)
          | _ => (None, n, h)
          end
      end
  | SNotify id data k =>
      match n with
      | None => (None, n, h)
      | Some nt =>
          match Notify id data (nt, h_conn h) with
          | Ret (err, (nt, w)) => run_script (Some nt) (k err) (set_conn w h)
          | _ => (None, n, h)
          end
      end
  | SUnsubscribe id k =>
      match unsubscribe id h with
      | Ret (r, h) => run_script n (k r) h
      | _ => (None, n, h)
      end
  end.

(** [h.unsubscribeCb]: the callback made of the bound method [h.unsubscribe]. *)
Definition unsubscribe_func : gofunc body :=
  mkFunc [contextType; TNamed "rpc.ID" false] [TNamed "bool" false; errorType]
    (λ args, SUnsubscribe (match args with id :: _ => as_ID id | [] => "" end)
       (λ r, SReturn [RVal (Ok (if r.1 : bool then "true" else "false")); RErr r.2])).
Definition unsubscribeCb : option (callback body) := newCallback false unsubscribe_func.

(** [callb.call] and [runMethod]. *)
Definition runMethod (n : option Notifier) (msg : jsonrpcMessage) (callb : callback body) (args : list V)
    (h : handler) : jsonrpcMessage * option Notifier * handler :=
  let '(results, n, h) := run_script n (fn_body (cb_fn callb) args) h in
  (match call_results callb results with
   | Err err => errorResponse msg err
   | Ok result => response msg result
   end, n, h).

Definition parse_args (params : RawMessage) (types : list gotype) : result gerror (list V) :=
  parsePositionalArguments isPtr decode_as Zero decError_text params types.

Definition count_call (answer : jsonrpcMessage) (g : gauges) : gauges :=
  match Error answer with
  | Some _ => mkGauges (g_requests g + 1) (g_failed g + 1) (g_successful g)
  | None => mkGauges (g_requests g + 1) (g_failed g) (g_successful g + 1)
  end.

Definition handleSubscribe (msg : jsonrpcMessage) (h : handler) : jsonrpcMessage * list Notifier * handler :=
  if negb (h_allowSubscribe h) then (errorResponse msg (EVar ErrNotificationsUnsupported), [], h)
  else
    match parseSubscriptionName (Params msg) with
    | Err err => (errorResponse msg (EInvalidParams (error_text err)), [], h)
    | Ok name =>
        let ns := RpcMessage.namespace msg in
        match reg_subscription (h_reg h) ns name with
        | None => (errorResponse msg (ESubscriptionNotFound ns name), [], h)
        | Some callb =>
            match parse_args (Params msg) (stringType :: argTypes callb) with
            | Err err => (errorResponse msg (EInvalidParams (error_text err)), [], h)
            | Ok args =>
                let '(answer, n, h) := runMethod (Some (new_Notifier ns)) msg callb (tail args) h in
                (answer, option_list n, h)
            end
        end
    end.

(** The answer, the notifiers the call adds to its [callProc], the handler. *)
Definition handleCall (msg : jsonrpcMessage) (h : handler) : jsonrpcMessage * list Notifier * handler :=
  if RpcMessage.isSubscribe msg then handleSubscribe msg h
  else
    let unsub := isUnsubscribe msg in
    let callb := if unsub then unsubscribeCb else reg_callback (h_reg h) (Method msg) in
    match callb with
    | None => (errorResponse msg (EMethodNotFound (Method msg)), [], h)
    | Some callb =>
        match parse_args (Params msg) (argTypes callb) with
        | Err err => (errorResponse msg (EInvalidParams (error_text err)), [], h)
        | Ok args =>
            let '(answer, _, h) := runMethod None msg callb args h in
            (answer, [], if unsub then h else upd_gauges (count_call answer) h)
        end
    end.

Definition handleCallMsg (msg : jsonrpcMessage) (h : handler) :
    option jsonrpcMessage * list Notifier * handler :=
  if isNotification msg then
    let '(_, nn, h) := handleCall msg h in (None, nn, h)
  else if isCall msg then
    let '(resp, nn, h) := handleCall msg h in (Some resp, nn, h)
  else if hasValidID msg then (Some (errorResponse msg (EInvalidRequest "invalid request")), [], h)
  else (Some (errorMessage (EInvalidRequest "invalid request")), [], h).

(** ** Batches, messages and their goroutines *)

Definition activate_all (nn : list Notifier) : go handler unit :=
  go_for nn (λ n h,
    '(_, (_, w)) ← activate (n, h_conn h);
    Ret ((), set_conn w h)).

(** The loop over the calls of a batch: the answers and the notifiers. *)
Fixpoint answer_calls (calls : list jsonrpcMessage) (h : handler) :
    list jsonrpcMessage * list Notifier * handler :=
  match calls with
  | [] => ([], [], h)
  | msg :: calls =>
      let '(answer, nn, h) := handleCallMsg msg h in
      let '(answers, nn', h) := answer_calls calls h in
      (option_list answer ++ answers, nn ++ nn', h)
  end.

(** The functions that [handleBatch] and [handleMsg] start. *)
Definition run_job (j : job) : go handler unit := λ h,
  match j with
  | JEmptyBatch => Ret ((), write_conn (WMsg (errorMessage (EInvalidRequest "empty batch"))) h)
  | JBatch calls =>
      let '(answers, nn, h) := answer_calls calls h in
      (nn ← addSubscriptions nn;
       go_modify (λ h, match answers with [] => h | _ => write_conn (WBatch answers) h end) ;;
       activate_all nn) h
  | JMsg msg =>
      let '(answer, nn, h) := handleCallMsg msg h in
      (nn ← addSubscriptions nn;
       go_modify (λ h, match answer with None => h | Some a => write_conn (WMsg a) h end) ;;
       activate_all nn) h
  end.

Definition startCallProc (j : job) : go handler unit := go_modify (upd_callWG (λ l, l ++ [j])).

(** A started goroutine, the [i]-th of those pending, runs. *)
Definition run_call (i : nat) : go handler unit :=
  h ← go_get;
  match h_callWG h !! i with
  | None => mret ()
  | Some j => go_modify (upd_callWG (delete i)) ;; run_job j
  end.

Fixpoint immediate_all (msgs : list jsonrpcMessage) : go handler (list jsonrpcMessage) :=
  match msgs with
  | [] => mret []
  | msg :: msgs =>
      handled ← handleImmediate msg;
      calls ← immediate_all msgs;
      mret (if handled : bool then calls else msg :: calls)
  end.

Definition handleBatch (msgs : list jsonrpcMessage) : go handler unit :=
  match msgs with
  | [] => startCallProc JEmptyBatch
  | _ =>
      calls ← immediate_all msgs;
      match calls with
      | [] => mret ()
      | _ => startCallProc (JBatch calls)
      end
  end.

Definition handleMsg (msg : jsonrpcMessage) : go handler unit :=
  ok ← handleImmediate msg;
  if ok : bool then mret () else startCallProc (JMsg msg).

(** [close] after [cancelAllRequests]: it waits for the goroutines of calls. *)
Definition close_rest (err : gerror) : go handler unit :=
  h ← go_get;
  match h_callWG h with
  | _ :: _ => go_block "sync.WaitGroup"
  | [] =>
      go_modify cancelRoot ;;
      cancelServerSubscriptions err
  end.

(** [close]: [None] when it has returned, or the subscription in whose [quitOnce] it
    stands; and [close] from there on. *)
Definition close_after (err : gerror) (standing : option nat) : go handler (option nat) :=
  match standing with
  | Some sub => mret (Some sub)
  | None => close_rest err ;; mret None
  end.
Definition close_handler (err : gerror) (inflightReq : option nat) : go handler (option nat) :=
  standing ← cancelAllRequests err inflightReq;
  close_after err standing.
Definition resume_close (err : gerror) (sub : nat) : go handler (option nat) :=
  standing ← resume_cancel err sub;
  close_after err standing.

(** [idForLog.String()]: the text of an ID in log messages; [Unquote] is
    [strconv.Unquote]. *)
Definition idForLog_String (Unquote : string → option string) (id : RawMessage) : string :=
  default (default "" id) (Unquote (default "" id)).
End handler.

Arguments requestOp : clear implicits.
Arguments handler : clear implicits.
