(* ===== verification/RpcHandlerProps.v ===== *)
(** * Properties of the message handler

    The invariants of the request table and of the server subscriptions, that
    every entry point of the handler preserves them without panicking or
    blocking, and what is written for a message or a batch. *)

From S2P Require Import Prelude GoText Json RpcMessage RpcArgs RpcService GoChan.
From S2P Require Import RpcSubscription RpcClientSub RpcHandler.

Section handler_props.
Context {W : Type} `{JsonWriter W} {V : Type}.
Context (decode_as : gotype → string → result string V) (Zero : gotype → V)
  (text : decError → string) (as_ID : V → string) (idgen : nat → string).

Abbreviation handler := (handler W V).
Implicit Types h : handler.

(** ** The request table *)

(** The IDs that wait for the request at [loc]. *)
Definition waiting (m : gmap string nat) (loc : nat) : gmap string nat := filter (λ kv, kv.2 = loc) m.

(** Every registered request is open and has room for the answers it still waits
    for; a subscription request waits for a single answer. *)
Definition op_ok (m : gmap string nat) (loc : nat) (op : requestOp) : Prop :=
  ch_closed (op_resp op) = false ∧
  match op_sub op with
  | None => (length (ch_buf (op_resp op)) + size (waiting m loc) ≤ ch_cap (op_resp op))%nat
  | Some _ => (size (waiting m loc) ≤ 1)%nat
  end.
Definition ops_ok h : Prop :=
  ∀ id loc, h_respWait h !! id = Some loc → ∃ op, h_ops h !! loc = Some op ∧ op_ok (h_respWait h) loc op.

Lemma on_resp_run {A} loc op (f : go (chan jsonrpcMessage) A) a c h :
  h_ops h !! loc = Some op → f (op_resp op) = Ret (a, c) →
  on_resp loc f h = Ret (a, upd_ops <[loc := mkOp (op_ids op) (op_err op) c (op_sub op)]> h).
Proof. intros H1 H2. unfold on_resp. rewrite H1, H2. done. Qed.

Lemma set_op_err_run loc op e h :
  h_ops h !! loc = Some op →
  set_op_err loc e h = Ret ((), upd_ops <[loc := mkOp (op_ids op) e (op_resp op) (op_sub op)]> h).
Proof. intros H1. unfold set_op_err. by rewrite H1. Qed.

Lemma on_subErr_run {A} loc c0 (f : go (chan gerror) A) a c h :
  h_subErrs h !! loc = Some c0 → f c0 = Ret (a, c) →
  on_subErr loc f h = Ret (a, upd_subErrs <[loc := c]> h).
Proof. intros H1 H2. unfold on_subErr. rewrite H1, H2. done. Qed.

Lemma waiting_delete m id loc :
  m !! id = Some loc → S (size (waiting (delete id m) loc)) = size (waiting m loc).
Proof.
  intros Hm. unfold waiting. rewrite map_filter_delete.
  assert (filter (λ kv : string * nat, kv.2 = loc) m !! id = Some loc) as E
    by (by apply map_lookup_filter_Some).
  rewrite map_size_delete_Some by eauto. 
  assert (size (filter (λ kv : string * nat, kv.2 = loc) m) ≠ 0%nat) as Hne.
  { intros H0. apply map_size_empty_inv in H0. by rewrite H0 in E. }
  lia.
Qed.

Lemma waiting_delete_le m id loc : (size (waiting (delete id m) loc) ≤ size (waiting m loc))%nat.
Proof.
  unfold waiting. rewrite map_filter_delete. apply map_subseteq_size. apply delete_subseteq.
Qed.

Lemma waiting_one m loc id id' :
  (size (waiting m loc) ≤ 1)%nat → m !! id = Some loc → m !! id' = Some loc → id = id'.
Proof.
  intros Hs Hi Hi'. destruct (decide (id = id')) as [|Hne]; [done|].
  assert (S (size (waiting (delete id m) loc)) = size (waiting m loc)) as E1 by (by apply waiting_delete).
  assert (S (size (waiting (delete id' (delete id m)) loc)) = size (waiting (delete id m) loc)) as E2.
  { apply waiting_delete. by rewrite lookup_delete_ne. }
  lia.
Qed.

(** Changing one request, when it stays as it has to be. *)
Lemma ops_ok_upd h loc op :
  ops_ok h → ((∃ id, h_respWait h !! id = Some loc) → op_ok (h_respWait h) loc op) →
  ops_ok (upd_ops <[loc := op]> h).
Proof.
  intros Hok Hop id l Hl. cbn in *. destruct (decide (l = loc)) as [->|Hne].
  - exists op. rewrite lookup_insert_eq. eauto.
  - rewrite lookup_insert_ne by done. by apply Hok in Hl.
Qed.

Lemma ops_ok_delete h id : ops_ok h → ops_ok (upd_respWait (delete id) h).
Proof.
  intros Hok id' loc Hl. cbn in *. apply lookup_delete_Some in Hl as [Hne Hl].
  destruct (Hok id' loc Hl) as (op & Ho & Hc & Hr). exists op. split; [done|]. split; [done|].
  pose proof (waiting_delete_le (h_respWait h) id loc). destruct (op_sub op); lia.
Qed.

(** A change that leaves the table and the requests alone. *)
Lemma ops_ok_same h h' :
  h_respWait h' = h_respWait h → h_ops h' = h_ops h → ops_ok h → ops_ok h'.
Proof. unfold ops_ok. by intros -> ->. Qed.

Abbreviation msg_id msg := (default "" (ID msg)).

(** What a response does to the request it answers. *)
Definition answered (msg : jsonrpcMessage) (op op' : requestOp) : Prop :=
  op_ids op' = op_ids op ∧ op_sub op' = op_sub op ∧
  match op_sub op with
  | None => op_err op' = op_err op ∧ ch_closed (op_resp op') = false ∧
            ch_buf (op_resp op') = ch_buf (op_resp op) ++ [msg]
  | Some _ => ch_closed (op_resp op') = true ∧ ch_buf (op_resp op') = ch_buf (op_resp op) ∧
              (∀ e, Error msg = Some e → op_err op' = Some (EJson e))
  end.

Definition closed_op (op : requestOp) : requestOp :=
  mkOp (op_ids op) (op_err op) (mkChan (ch_cap (op_resp op)) (ch_buf (op_resp op)) true) (op_sub op).
Definition failed_op (e : option gerror) (op : requestOp) : requestOp :=
  mkOp (op_ids op) e (op_resp op) (op_sub op).

Lemma close_resp_run h loc op :
  h_ops h !! loc = Some op → ch_closed (op_resp op) = false →
  on_resp loc chan_close h = Ret ((), upd_ops <[loc := closed_op op]> h).
Proof. intros Ho Hc. erewrite on_resp_run; [done|done|by apply chan_close_open]. Qed.

(** The parts of the state that answering a request leaves alone. *)
Definition same_rest h h' : Prop :=
  h_serverSubs h' = h_serverSubs h ∧ h_subErrs h' = h_subErrs h ∧ h_next h' = h_next h ∧
  h_callWG h' = h_callWG h ∧ h_conn h' = h_conn h.

(** Answering the request at [loc], whose ID has been removed. *)
Definition answer_run h msg loc (m : go handler unit) : Prop :=
  ∃ h', m h = Ret ((), h') ∧ ops_ok h' ∧ h_respWait h' = h_respWait h ∧
    (∀ l, l ≠ loc → h_ops h' !! l = h_ops h !! l) ∧
    (∃ op op', h_ops h !! loc = Some op ∧ h_ops h' !! loc = Some op' ∧ answered msg op op') ∧
    same_rest h h'.

Lemma answer_plain h msg loc op :
  ops_ok h → h_ops h !! loc = Some op → op_sub op = None → ch_closed (op_resp op) = false →
  (length (ch_buf (op_resp op)) + size (waiting (h_respWait h) loc) < ch_cap (op_resp op))%nat →
  answer_run h msg loc (on_resp loc (chan_send msg)).
Proof.
  intros Hok Ho Hs Hc Hr. eexists. split; [eapply on_resp_run; [done|]; apply chan_send_room; [done|lia]|].
  split.
  { apply ops_ok_upd; [done|]. intros _. unfold op_ok. cbn [op_resp op_sub ch_closed ch_buf ch_cap].
    rewrite Hs. split; [done|]. rewrite length_app. cbn. lia. }
  split; [done|]. split; [intros l Hne; cbn; by rewrite lookup_insert_ne|]. split; [|done].
  eexists op, _. split; [done|]. split; [apply lookup_insert_eq|]. unfold answered. cbn. by rewrite Hs.
Qed.

(** The branch of [handleResponse] for a subscription, without the close. *)
Definition answer_sub msg loc sub : go handler unit :=
  h ← go_get;
  match Error msg with
  | Some e => set_op_err loc (Some (EJson e))
  | None =>
      let '(err, subid) := unmarshal_subid text (Result msg) (default "" (h_subids h !! sub)) in
      go_modify (upd_subids <[sub := subid]>) ;;
      set_op_err loc err ;;
      match err with
      | Some _ => mret ()
      | None => go_modify (log_sub (SubStart sub)) ;; go_modify (upd_clientSubs <[subid := sub]>)
      end
  end.

Lemma answer_sub_run h msg loc sub op :
  h_ops h !! loc = Some op →
  ∃ h' e, answer_sub msg loc sub h = Ret ((), h') ∧ h_respWait h' = h_respWait h ∧
    h_ops h' = <[loc := failed_op e op]> (h_ops h) ∧ same_rest h h' ∧
    ∀ e', Error msg = Some e' → e = Some (EJson e').
Proof.
  intros Ho. unfold answer_sub. rewrite go_bind_run. cbn [go_get]. destruct (Error msg) as [e|].
  - rewrite (set_op_err_run _ op) by done. eexists _, (Some (EJson e)). split; [reflexivity|].
    by split_and!; [..|intros ? [= ->]].
  - destruct (unmarshal_subid _ _ _) as [err subid]. rewrite go_bind_run. cbn [go_modify].
    rewrite go_bind_run, (set_op_err_run _ op) by done. destruct err; cbn;
      (eexists _, _; split; [reflexivity|]; by split_and!).
Qed.

Lemma answer_sub_close h msg loc sub op :
  ops_ok h → h_ops h !! loc = Some op → op_sub op = Some sub → ch_closed (op_resp op) = false →
  (∀ id, h_respWait h !! id ≠ Some loc) →
  answer_run h msg loc (answer_sub msg loc sub ;; on_resp loc chan_close).
Proof.
  intros Hok Ho Hs Hc Hnone. destruct (answer_sub_run h msg loc sub op Ho) as (h1 & e & E & R1 & R2 & R3 & R4).
  assert (h_ops h1 !! loc = Some (failed_op e op)) as Ho1 by (rewrite R2; apply lookup_insert_eq).
  unfold answer_run. eexists. rewrite go_bind_run, E. split; [by apply close_resp_run|]. split.
  { intros id l Hl. cbn in *. rewrite R1 in *. rewrite R2.
    assert (l ≠ loc) as Hne by (intros ->; by apply Hnone in Hl).
    rewrite !lookup_insert_ne by done. by eapply Hok. }
  split; [done|]. split; [intros l Hne; cbn; rewrite R2, !lookup_insert_ne by done; done|].
  split; [|done]. eexists op, _. split; [done|]. split; [apply lookup_insert_eq|].
  unfold answered. cbn. rewrite Hs. auto.
Qed.

Lemma handleResponse_run h msg :
  ops_ok h →
  ∃ h', handleResponse text msg h = Ret ((), h') ∧ ops_ok h' ∧ same_rest h h' ∧
    match h_respWait h !! msg_id msg with
    | None => h' = h
    | Some loc =>
        h_respWait h' = delete (msg_id msg) (h_respWait h) ∧
        (∀ l, l ≠ loc → h_ops h' !! l = h_ops h !! l) ∧
        ∃ op op', h_ops h !! loc = Some op ∧ h_ops h' !! loc = Some op' ∧ answered msg op op'
    end.
Proof.
  intros Hok. unfold handleResponse. rewrite go_bind_run. cbn [go_get].
  destruct (h_respWait h !! msg_id msg) as [loc|] eqn:Hl; [|by exists h].
  rewrite go_bind_run. cbn [go_modify].
  set (h1 := upd_respWait _ h). assert (ops_ok h1) as Hok1 by (by apply ops_ok_delete).
  destruct (Hok _ _ Hl) as (op & Hop & Hc & Hr). rewrite Hop.
  pose proof (waiting_delete _ _ _ Hl) as Hsz.
  assert (∀ m, answer_run h1 msg loc m → ∃ h', m h1 = Ret ((), h') ∧ ops_ok h' ∧ same_rest h h' ∧
    h_respWait h' = delete (msg_id msg) (h_respWait h) ∧
    (∀ l, l ≠ loc → h_ops h' !! l = h_ops h !! l) ∧
    ∃ op op', h_ops h !! loc = Some op ∧ h_ops h' !! loc = Some op' ∧ answered msg op op') as Hfin.
  { intros m (h' & E & A1 & A2 & A3 & A4 & A5). exists h'. split_and!; done. }
  setoid_rewrite Hop in Hfin.
  destruct (op_sub op) as [sub|] eqn:Es.
  - refine (Hfin (answer_sub msg loc sub ;; on_resp loc chan_close) _).
    apply answer_sub_close with op; try done. intros id Hid.
    cbn in Hid. apply lookup_delete_Some in Hid as [Hne Hid]. apply Hne. by eapply waiting_one.
  - apply Hfin. apply answer_plain with op; try done. cbn. lia.
Qed.

(** ** Cancelling *)

(** The requests after [cancel_ops]: those of the entries that were not closed
    before have failed with the error and are closed. *)
Definition cancelled (err : gerror) (entries : list (string * nat)) (didClose : list nat)
    (m m' : gmap nat requestOp) : Prop :=
  ∀ loc, m' !! loc =
    if decide (loc ∈ entries.*2 ∧ loc ∉ didClose)
    then closed_op <$> (failed_op (Some err) <$> m !! loc) else m !! loc.

Lemma cancel_ops_run err entries didClose h :
  (∀ id loc, (id, loc) ∈ entries → loc ∉ didClose →
     ∃ op, h_ops h !! loc = Some op ∧ ch_closed (op_resp op) = false) →
  ∃ h', cancel_ops err entries didClose h = Ret ((), h') ∧ same_rest h h' ∧
    h_clientSubs h' = h_clientSubs h ∧ h_subLog h' = h_subLog h ∧
    h_respWait h' = foldl (λ m e, delete e.1 m) (h_respWait h) entries ∧
    h_quits h' = h_quits h ∧ cancelled err entries didClose (h_ops h) (h_ops h').
Proof.
  revert didClose h. induction entries as [|[id loc] entries IH]; intros didClose h Hop.
  { exists h. split; [done|]. repeat (split; [done|]). intros l. rewrite decide_False; [done|].
    intros [Hl _]. by apply elem_of_nil in Hl. }
  cbn [cancel_ops]. rewrite go_bind_run. cbn [go_modify]. set (h1 := upd_respWait _ h).
  destruct (decide (loc ∈ didClose)) as [Hin|Hin].
  - destruct (IH didClose h1) as (h' & E & S1 & S2 & S3 & S4 & S6 & S5).
    { intros id' l Hl. apply (Hop id' l). by right. }
    exists h'. split_and!; try done. intros l. rewrite (S5 l). cbn [fmap list_fmap snd].
    apply decide_ext. rewrite elem_of_cons. split; [tauto|]. intros [[->|?] ?]; done.
  - destruct (Hop id loc) as (op & Ho & Hc); [by left|done|].
    rewrite go_bind_run, (set_op_err_run loc op) by done.
    rewrite go_bind_run. rewrite (close_resp_run _ loc (failed_op (Some err) op))
      by (done || apply lookup_insert_eq).
    set (h2 := upd_ops _ _).
    destruct (IH (loc :: didClose) h2) as (h' & E & S1 & S2 & S3 & S4 & S6 & S5).
    { intros id' l Hl Hnl. rewrite not_elem_of_cons in Hnl. destruct Hnl as [Hne Hnl].
      destruct (Hop id' l) as (op' & Ho' & Hc'); [by right|done|]. exists op'. split; [|done].
      cbn. by rewrite !lookup_insert_ne. }
    exists h'. split_and!; try done. intros l. rewrite (S5 l). cbn [fmap list_fmap snd h2 h_ops upd_ops].
    destruct (decide (l = loc)) as [->|Hne].
    + rewrite decide_False by (intros [_ []]; by left). rewrite decide_True by (split; [by left|done]).
      cbn. by rewrite !lookup_insert_eq, Ho.
    + cbn. rewrite !lookup_insert_ne by done. apply decide_ext. rewrite !elem_of_cons. tauto.
Qed.

Lemma foldl_delete_all {A B} (l : list (string * A)) (m : gmap string B) :
  (∀ k, is_Some (m !! k) → k ∈ l.*1) → foldl (λ m e, delete e.1 m) m l = ∅.
Proof.
  revert m. induction l as [|[k a] l IH]; intros m Hm; cbn.
  - apply map_empty. intros k. destruct (m !! k) eqn:E; [|done].
    exfalso. apply (not_elem_of_nil k), Hm. eauto.
  - apply IH. intros k' [b Hb]. cbn in Hb. apply lookup_delete_Some in Hb as [Hne Hb].
    destruct (proj1 (elem_of_cons _ _ _) (Hm k' ltac:(eauto))) as [E|Hin]; [by destruct Hne|done].
Qed.

Lemma map_to_list_keys {A} (m : gmap string A) k : is_Some (m !! k) → k ∈ (map_to_list m).*1.
Proof.
  intros [a Ha]. apply list_elem_of_fmap. exists (k, a). split; [done|]. by apply elem_of_map_to_list.
Qed.

(** Another goroutine is in the middle of [quitWithError]. *)
Definition quitting h (sub : nat) : Prop := ∃ op, h_quits h !! sub = Some (QuitRunning op).

Lemma quit_client_sub_run err sub h :
  (quitting h sub ∧ quit_client_sub err sub h = Ret (false, h)) ∨
  (¬ quitting h sub ∧ quit_client_sub err sub h = Ret (true, log_sub (SubQuit sub err) (upd_quits <[sub := QuitDone]> h))).
Proof.
  unfold quit_client_sub, quitting. rewrite go_bind_run. cbn [go_get].
  destruct (h_quits h !! sub) as [[op|]|]; [left; by eauto|right..]; (split; [by intros [? ?]|done]).
Qed.

(** What the second loop has done with the entries [quit] of a list. *)
Record quit_done err (quit : list (string * nat)) h h' : Prop := {
  qd_rest : same_rest h h';
  qd_wait : h_respWait h' = h_respWait h;
  qd_ops : h_ops h' = h_ops h;
  qd_quits sub : h_quits h' !! sub = if decide (sub ∈ quit.*2) then Some QuitDone else h_quits h !! sub;
  qd_free e : e ∈ quit → ¬ quitting h e.2;
  qd_log : h_subLog h' = h_subLog h ++ map (λ e, SubQuit e.2 err) quit }.

(** Where the second loop stands: at its end, or at a subscription that another
    goroutine is quitting, whose entry is gone. *)
Definition quit_stands h (entries quit : list (string * nat)) (m m' : gmap string nat) (r : option nat) : Prop :=
  match r with
  | None => quit = entries ∧ m' = foldl (λ m e, delete e.1 m) m entries
  | Some sub => ∃ id rest, entries = quit ++ (id, sub) :: rest ∧ quitting h sub ∧
      m' = foldl (λ m e, delete e.1 m) m (quit ++ [(id, sub)])
  end.

Lemma quit_subs_run err entries h :
  ∃ r h' quit, quit_client_subs err entries h = Ret (r, h') ∧ quit_done err quit h h' ∧
    quit_stands h entries quit (h_clientSubs h) (h_clientSubs h') r.
Proof.
  revert h. induction entries as [|[id sub] entries IH]; intros h.
  { exists None, h, []. split; [done|]. split; [|done].
    split; [done|done|done| |by intros e ?%elem_of_nil|by rewrite app_nil_r]. intros s. by rewrite decide_False by apply not_elem_of_nil. }
  cbn [quit_client_subs]. rewrite go_bind_run. cbn [go_modify]. set (h1 := upd_clientSubs _ h). rewrite go_bind_run.
  destruct (quit_client_sub_run err sub h1) as [[Hq ->]|[Hq ->]].
  { exists (Some sub), h1, []. split; [done|]. split; [|by exists id, entries].
    split; [done|done|done| |by intros e ?%elem_of_nil|by rewrite app_nil_r]. intros s. by rewrite decide_False by apply not_elem_of_nil. }
  set (h2 := log_sub _ _). destruct (IH h2) as (r & h' & quit & E & [D1 D2 D3 D4 D5 D6] & St).
  assert (∀ s, quitting h2 s ↔ quitting h s) as Hsame.
  { intros s. unfold quitting. cbn. destruct (decide (s = sub)) as [->|]; [rewrite lookup_insert_eq|by rewrite lookup_insert_ne].
    split; [by intros [? ?]|]. by intros Hs. }
  exists r, h', ((id, sub) :: quit). split; [exact E|]. split.
  - split; [done|done|done| | |].
    + intros s. rewrite D4. cbn [fmap list_fmap snd]. destruct (decide (s = sub)) as [->|Hne].
      * rewrite (decide_True (P := sub ∈ sub :: _)) by by left. case_decide; [done|]. cbn. apply lookup_insert_eq.
      * cbn. rewrite lookup_insert_ne by done. apply decide_ext. rewrite elem_of_cons. tauto.
    + intros e [->|He]%elem_of_cons; [exact Hq|]. rewrite <-Hsame. by apply D5.
    + rewrite D6. cbn. by rewrite <-app_assoc.
  - destruct r as [s|]; [|by destruct St as [-> ->]]. destruct St as (id' & rest & -> & Hs & ->).
    exists id', rest. split; [done|]. split; [by apply Hsame|done].
Qed.

(** The subscriptions that nobody else is quitting are quit without a wait. *)
Lemma quit_stands_free h entries quit m m' r :
  quit_stands h entries quit m m' r → (∀ e, e ∈ entries → ¬ quitting h e.2) → r = None.
Proof.
  destruct r as [sub|]; [|done]. intros (id & rest & -> & Hq & _) Hf. destruct (Hf (id, sub)); [|done].
  apply elem_of_app. right. by left.
Qed.

Lemma foldl_delete_lookup {A B} (l : list (string * A)) (m : gmap string B) k :
  foldl (λ m e, delete e.1 m) m l !! k = if decide (k ∈ l.*1) then None else m !! k.
Proof.
  revert m. induction l as [|[k' a] l IH]; intros m; [done|]. cbn [foldl fmap list_fmap fst]. rewrite IH.
  destruct (decide (k ∈ l.*1)) as [Hk|Hk]; [by rewrite decide_True by by right|].
  destruct (decide (k = k')) as [->|Hne]; [rewrite lookup_delete_eq; by rewrite decide_True by by left|].
  rewrite lookup_delete_ne by done. rewrite decide_False; [done|]. by intros [?|?]%elem_of_cons.
Qed.

(** What closing has done to requests and subscriptions, and where it stands. *)
Record cancelled_all err inflight h h' r : Prop := {
  ca_rest : same_rest h h';
  ca_wait : h_respWait h' = ∅;
  ca_ops loc : h_ops h' !! loc =
    if decide (loc ∈ (map_to_list (h_respWait h)).*2 ∧ Some loc ≠ inflight)
    then closed_op <$> (failed_op (Some err) <$> h_ops h !! loc) else h_ops h !! loc;
  ca_quit : ∃ quit,
    (∀ sub, h_quits h' !! sub = if decide (sub ∈ quit.*2) then Some QuitDone else h_quits h !! sub) ∧
    (∀ e, e ∈ quit → ¬ quitting h e.2) ∧ h_subLog h' = h_subLog h ++ map (λ e, SubQuit e.2 err) quit ∧
    quit_stands h (map_to_list (h_clientSubs h)) quit (h_clientSubs h) (h_clientSubs h') r }.

Lemma cancelAllRequests_run err inflight h :
  ops_ok h → ∃ r h', cancelAllRequests err inflight h = Ret (r, h') ∧ cancelled_all err inflight h h' r.
Proof.
  intros Hok. unfold cancelAllRequests. rewrite go_bind_run. cbn [go_get].
  set (l0 := match inflight with Some op => [op] | None => [] end).
  destruct (cancel_ops_run err (map_to_list (h_respWait h)) l0 h) as (h1 & E1 & S1 & S2 & S3 & S4 & S6 & S5).
  { intros id loc Hin _. apply elem_of_map_to_list in Hin. destruct (Hok _ _ Hin) as (op & Ho & Hc & _). eauto. }
  rewrite go_bind_run, E1, go_bind_run. cbn [go_get]. rewrite S2.
  destruct (quit_subs_run err (map_to_list (h_clientSubs h)) h1) as (r & h2 & quit & E2 & [T1 T2 T3 T4 T5 T6] & St).
  assert (∀ sub, quitting h1 sub ↔ quitting h sub) as Hq by (intros sub; unfold quitting; by rewrite S6).
  exists r, h2. split; [done|]. split.
  - unfold same_rest in *. intuition congruence.
  - rewrite T2, S4. apply foldl_delete_all, map_to_list_keys.
  - intros loc. rewrite T3, (S5 loc). apply decide_ext. unfold l0.
    destruct inflight as [i|]; [rewrite list_elem_of_singleton|rewrite elem_of_nil]; intuition congruence.
  - exists quit. split_and!.
    + intros sub. by rewrite T4, S6.
    + intros e He. rewrite <-Hq. by apply T5.
    + by rewrite T6, S3.
    + rewrite S2 in St. destruct r; [|done]. destruct St as (id & rest & ? & Hs & ?). exists id, rest.
      split; [done|]. split; [by apply Hq|done].
Qed.

(** ** Server subscriptions *)

(** The error channels of the registered subscriptions, and those of [ls], which
    calls have created but not registered yet, are untouched and all different. *)
Record subs_ok h (ls : list nat) : Prop := {
  so_open id s : h_serverSubs h !! id = Some s → h_subErrs h !! sub_err s = Some (make_chan 1) ∧ sub_err s ∉ ls;
  so_inj id1 id2 s1 s2 : h_serverSubs h !! id1 = Some s1 → h_serverSubs h !! id2 = Some s2 →
    sub_err s1 = sub_err s2 → id1 = id2;
  so_nodup : NoDup ls;
  so_new l : l ∈ ls → h_subErrs h !! l = Some (make_chan 1);
  so_next l : is_Some (h_subErrs h !! l) → (l < h_next h)%nat }.

(** The parts of the state that serving a call leaves alone. *)
Definition same_client h h' : Prop :=
  h_respWait h' = h_respWait h ∧ h_ops h' = h_ops h ∧ h_clientSubs h' = h_clientSubs h ∧
  h_subLog h' = h_subLog h ∧ h_callWG h' = h_callWG h ∧ h_reg h' = h_reg h ∧
  h_allowSubscribe h' = h_allowSubscribe h ∧ h_quits h' = h_quits h.

Lemma same_client_trans h1 h2 h3 : same_client h1 h2 → same_client h2 h3 → same_client h1 h3.
Proof. unfold same_client. intuition congruence. Qed.

Lemma same_client_ops_ok h h' : same_client h h' → ops_ok h → ops_ok h'.
Proof. intros (E1 & E2 & _). by apply ops_ok_same. Qed.

(** Only what [subs_ok] reads matters. *)
Lemma subs_ok_same h h' ls :
  h_serverSubs h' = h_serverSubs h → h_subErrs h' = h_subErrs h → h_next h' = h_next h →
  subs_ok h ls → subs_ok h' ls.
Proof. intros E1 E2 E3 [H1 H2 H3 H4 H5]. split; rewrite ?E1, ?E2, ?E3; done. Qed.

Lemma subs_ok_alloc h ls : subs_ok h ls → subs_ok (alloc_sub h) (ls ++ [h_next h]).
Proof.
  intros [H1 H2 H3 H4 H5].
  assert (∀ l c, h_subErrs h !! l = Some c → l ≠ h_next h) as Hne.
  { intros l c Hl ->. specialize (H5 (h_next h) ltac:(eauto)). lia. }
  split; cbn.
  - intros id s Hs. destruct (H1 id s Hs) as [Ho Hn]. pose proof (Hne _ _ Ho).
    rewrite lookup_insert_ne by done. split; [done|]. rewrite elem_of_app, list_elem_of_singleton. tauto.
  - done.
  - apply NoDup_app. split; [done|]. split; [|apply NoDup_singleton].
    intros l Hl ->%list_elem_of_singleton. by eapply Hne; [apply H4|].
  - intros l [Hl| ->%list_elem_of_singleton]%elem_of_app; [|apply lookup_insert_eq].
    pose proof (Hne _ _ (H4 l Hl)). rewrite lookup_insert_ne by done. by apply H4.
  - intros l Hl. destruct (decide (l = h_next h)) as [->|]; [lia|].
    rewrite lookup_insert_ne in Hl by done. specialize (H5 l Hl). lia.
Qed.

(** Touching the channel of a subscription while it is removed. *)
Lemma subs_ok_remove h ls id s c :
  subs_ok h ls → h_serverSubs h !! id = Some s →
  subs_ok (upd_serverSubs (delete id) (upd_subErrs <[sub_err s := c]> h)) ls.
Proof.
  intros [H1 H2 H3 H4 H5] Hs. split; cbn.
  - intros id' s' [Hne Hs']%lookup_delete_Some. rewrite lookup_insert_ne; [by eapply H1|].
    intros E. apply Hne. by apply (H2 id id' s s').
  - intros id1 id2 s1 s2 [_ A]%lookup_delete_Some [_ B]%lookup_delete_Some. by eapply H2.
  - done.
  - intros l Hl. rewrite lookup_insert_ne; [by apply H4|]. intros <-. by apply (H1 id s Hs).
  - intros l Hl. destruct (decide (l = sub_err s)) as [->|].
    + apply H5. destruct (H1 id s Hs) as [-> _]. eauto.
    + rewrite lookup_insert_ne in Hl by done. by apply H5.
Qed.

Lemma unsubscribe_run h ls id :
  subs_ok h ls →
  ∃ r h', unsubscribe id h = Ret (r, h') ∧ subs_ok h' ls ∧ same_client h h' ∧ h_conn h' = h_conn h ∧
    match h_serverSubs h !! id with
    | None => r = (false, Some (EVar ErrSubscriptionNotFound)) ∧ h' = h
    | Some s => r = (true, None) ∧ h_serverSubs h' = delete id (h_serverSubs h) ∧
                h_subErrs h' = <[sub_err s := mkChan 1 [] true]> (h_subErrs h)
    end.
Proof.
  intros Hok. unfold unsubscribe. rewrite go_bind_run. cbn [go_get].
  destruct (h_serverSubs h !! id) as [s|] eqn:Hs; [|by eexists _, h].
  destruct (so_open _ _ Hok id s Hs) as [Hc _].
  rewrite go_bind_run, (on_subErr_run _ _ _ () (mkChan 1 [] true) h Hc) by done.
  eexists _, _. split; [reflexivity|]. split; [by apply subs_ok_remove|]. by split_and!.
Qed.

(** Moving a new subscription into the table. *)
Lemma subs_ok_register h ls s :
  subs_ok h (sub_err s :: ls) → subs_ok (upd_serverSubs <[sub_ID s := s]> h) ls.
Proof.
  intros [H1 H2 H3 H4 H5]. apply NoDup_cons in H3 as [Hn Hd].
  assert (∀ id s', h_serverSubs h !! id = Some s' → sub_err s' ≠ sub_err s) as Hne.
  { intros id s' Hs' E. apply (H1 id s' Hs'). rewrite E. by left. }
  split; cbn.
  - intros id s' [[<- <-]|[_ Hs']]%lookup_insert_Some.
    + split; [apply H4; by left|done].
    + destruct (H1 id s' Hs') as [? Hl]. split; [done|]. by apply not_elem_of_cons in Hl as [_ Hl].
  - intros id1 id2 s1 s2 [[<- <-]|[_ A]]%lookup_insert_Some [[<- <-]|[_ B]]%lookup_insert_Some E; try done.
    + by destruct (Hne _ _ B).
    + by destruct (Hne _ _ A).
    + by eapply H2.
  - done.
  - intros l Hl. apply H4. by right.
  - done.
Qed.

(** ** Callbacks and calls *)

(** A notifier of a call that has not been answered yet. *)
Definition idle (n : Notifier) : Prop :=
  n_activated n = false ∧ (n_sub n = None → n_buffer n = []).
Definition new_subs (nn : list Notifier) : list nat := omap (λ n, sub_err <$> n_sub n) nn.

(** What serving a call keeps: [pre] are the subscriptions of earlier calls. *)
Definition served h h' pre (nn nn' : list Notifier) : Prop :=
  subs_ok h' (pre ++ new_subs nn') ∧ Forall idle nn' ∧ length nn' = length nn ∧
  same_client h h' ∧ h_conn h' = h_conn h.

Lemma served_step h h1 h' pre n n1 nn' :
  same_client h h1 → h_conn h1 = h_conn h → served h1 h' pre [n1] nn' → served h h' pre [n] nn'.
Proof.
  intros Hc Hw (A & B & C & D & E). split_and!; try done; [by eapply same_client_trans|congruence].
Qed.

Lemma Notify_idle id data nt w r :
  idle nt → Notify id data (nt, w) = Ret r →
  ∃ e nt', r = (e, (nt', w)) ∧ idle nt' ∧ n_sub nt' = n_sub nt.
Proof.
  intros [Ha Hb]. unfold Notify. destruct data as [enc|e].
  - destruct (n_sub nt) as [sub|] eqn:Es; [|done]. case_decide; [done|]. rewrite Ha.
    intros [= <-]. eexists _, _. split; [done|]. split; [|done]. by split.
  - intros [= <-]. eexists _, _. split; [done|]. by split.
Qed.

Lemma run_script_served s nt h pre :
  subs_ok h (pre ++ new_subs [nt]) → idle nt →
  ∃ r nt' h', run_script idgen (Some nt) s h = (r, Some nt', h') ∧ served h h' pre [nt] [nt'].
Proof.
  revert nt h. induction s as [rs| |k IH|k IH|id data k IH|id k IH]; intros nt h Hok Hi; cbn [run_script].
  - eexists _, _, _. split; [done|]. split_and!; auto; done.
  - eexists _, _, _. split; [done|]. split_and!; auto; done.
  - by apply IH.
  - unfold CreateSubscription. destruct (n_sub nt) as [sub|] eqn:Es; [|destruct (n_callReturned nt) eqn:Er].
    1,2: eexists _, _, _; split; [done|]; split_and!; auto; done.
    set (sub := mkSubscription _ _ _). set (nt1 := mkNotifier _ _ _ _ _).
    destruct (IH sub nt1 (alloc_sub h)) as (r & nt' & h' & E & Hs).
    + unfold new_subs in *. cbn in *. rewrite Es in Hok. cbn in Hok. rewrite app_nil_r in Hok.
      by apply subs_ok_alloc.
    + split; [apply Hi|done].
    + eexists _, _, _. split; [exact E|]. eapply served_step; [| |exact Hs]; done.
  - destruct (Notify id data (nt, h_conn h)) as [r| |] eqn:E.
    2,3: eexists _, _, _; split; [done|]; split_and!; auto; done.
    destruct (Notify_idle _ _ _ _ _ Hi E) as (e & nt1 & -> & Hi1 & Hs1).
    destruct (IH e nt1 (set_conn (h_conn h) h)) as (r & nt' & h' & E' & Hs); [|done|].
    + eapply (subs_ok_same h); [done..|]. unfold new_subs in *. cbn in *. by rewrite Hs1.
    + eexists _, _, _. split; [exact E'|]. eapply served_step; [| |exact Hs]; done.
  - destruct (unsubscribe_run h _ id Hok) as (r & h1 & -> & Hok1 & Hc & Hw & _).
    destruct (IH r nt h1) as (r' & nt' & h' & E' & Hs); [done|done|].
    eexists _, _, _. split; [exact E'|]. eapply served_step; [| |exact Hs]; done.
Qed.

(** A callback without a notifier. *)
Lemma run_script_plain s h ls :
  subs_ok h ls →
  ∃ r h', run_script idgen None s h = (r, None, h') ∧ subs_ok h' ls ∧ same_client h h' ∧ h_conn h' = h_conn h.
Proof.
  revert h. induction s as [rs| |k IH|k IH|id data k IH|id k IH]; intros h Hok; cbn [run_script];
    try (eexists _, _; split; [done|]; by split_and!).
  - by apply IH.
  - destruct (unsubscribe_run h _ id Hok) as (r & h1 & -> & Hok1 & Hc & Hw & _).
    destruct (IH r h1 Hok1) as (r' & h' & E' & A & B & C).
    eexists _, _. split; [exact E'|]. split_and!; [done|by eapply same_client_trans|congruence].
Qed.

(** ** The form of answers *)

(** A response in the sense of JSON-RPC 2.0 to the ID [id]. *)
Definition is_answer (id : RawMessage) (r : jsonrpcMessage) : Prop :=
  ID r = id ∧ Version r = vsn ∧ Method r = "" ∧ Params r = None ∧
  ((∃ t, Result r = Some t ∧ Error r = None) ∨ (Result r = None ∧ ∃ e, Error r = Some e)).

Lemma errorResponse_answer msg e : is_answer (ID msg) (errorResponse msg e).
Proof.
  unfold is_answer, errorResponse, errorMessage, set_ID. cbn. split_and!; try done. right. eauto.
Qed.
Lemma response_answer msg v : is_answer (ID msg) (response msg v).
Proof.
  destruct v; [|apply errorResponse_answer]. unfold is_answer, response. cbn. split_and!; try done. left. eauto.
Qed.

Lemma runMethod_answer n msg cb args h : is_answer (ID msg) (runMethod idgen n msg cb args h).1.1.
Proof.
  unfold runMethod. destruct (run_script _ _ _ _) as [[results n'] h']. cbn.
  destruct (call_results cb results); [apply response_answer|apply errorResponse_answer].
Qed.

(** What a function that serves calls returns: its notifiers and the handler. *)
Definition serves h pre (nn : list Notifier) h' : Prop :=
  subs_ok h' (pre ++ new_subs nn) ∧ Forall idle nn ∧ same_client h h' ∧ h_conn h' = h_conn h.

Lemma serves_nothing h pre : subs_ok h pre → serves h pre [] h.
Proof. intros Hok. split_and!; [by rewrite app_nil_r|done..]. Qed.

Lemma handleSubscribe_serves msg h pre answer nn h' :
  subs_ok h pre → handleSubscribe decode_as Zero text idgen msg h = (answer, nn, h') →
  is_answer (ID msg) answer ∧ serves h pre nn h'.
Proof.
  intros Hok. unfold handleSubscribe.
  assert (∀ e, (errorResponse msg e, [], h) = (answer, nn, h') → is_answer (ID msg) answer ∧ serves h pre nn h') as Herr.
  { intros e [= <- <- <-]. split; [apply errorResponse_answer|by apply serves_nothing]. }
  destruct (negb _); [apply Herr|]. destruct (parseSubscriptionName _) as [name|]; [|apply Herr].
  destruct (reg_subscription _ _ _) as [callb|]; [|apply Herr].
  destruct (parse_args _ _ _ _ _) as [args|]; [|apply Herr].
  set (nt := new_Notifier _). pose proof (runMethod_answer (Some nt) msg callb (tail args) h) as Ha.
  unfold runMethod in *.
  destruct (run_script_served (fn_body (cb_fn callb) (tail args)) nt h pre) as (r & nt' & h1 & E & A & B & C & D & F).
  { cbn. by rewrite app_nil_r. }
  { by split. }
  rewrite E in *. intros [= <- <- <-]. split; [done|]. split_and!; done.
Qed.

Lemma handleCall_serves msg h pre answer nn h' :
  subs_ok h pre → handleCall decode_as Zero text as_ID idgen msg h = (answer, nn, h') →
  is_answer (ID msg) answer ∧ serves h pre nn h'.
Proof.
  intros Hok. unfold handleCall. destruct (RpcMessage.isSubscribe msg); [by apply handleSubscribe_serves|].
  assert (∀ e, (errorResponse msg e, [], h) = (answer, nn, h') → is_answer (ID msg) answer ∧ serves h pre nn h') as Herr.
  { intros e [= <- <- <-]. split; [apply errorResponse_answer|by apply serves_nothing]. }
  destruct (if isUnsubscribe msg then _ else _) as [callb|]; [|apply Herr].
  destruct (parse_args _ _ _ _ _) as [args|]; [|apply Herr].
  pose proof (runMethod_answer None msg callb args h) as Ha. unfold runMethod in *.
  destruct (run_script_plain (fn_body (cb_fn callb) args) h pre Hok) as (r & h1 & E & A & B & C).
  rewrite E in *. intros [= <- <- <-]. split; [done|].
  assert (serves h pre [] h1) as Hs by (split_and!; [by rewrite app_nil_r|done..]).
  destruct (isUnsubscribe msg); [done|]. destruct Hs as (S1 & S2 & S3 & S4).
  split_and!; try done. by apply (subs_ok_same h1).
Qed.

(** What is answered to a message that is no response and no subscription
    notification: nothing to a notification, a response with its ID to a call, and
    an invalid-request error to anything else, with the ID when it has a valid one. *)
Definition answer_spec (msg : jsonrpcMessage) (answer : option jsonrpcMessage) : Prop :=
  if isNotification msg then answer = None
  else ∃ r, answer = Some r ∧ is_answer (if hasValidID msg then ID msg else null) r ∧
       (isCall msg = false → Error r = Some (mkJsonError (-32600) "invalid request" None)).

Lemma handleCallMsg_serves msg h pre answer nn h' :
  subs_ok h pre → handleCallMsg decode_as Zero text as_ID idgen msg h = (answer, nn, h') →
  answer_spec msg answer ∧ serves h pre nn h'.
Proof.
  intros Hok. unfold handleCallMsg, answer_spec. destruct (isNotification msg).
  - destruct (handleCall _ _ _ _ _ _ _) as [[a nn1] h1] eqn:E. intros [= <- <- <-].
    split; [done|]. by eapply handleCall_serves.
  - destruct (isCall msg) eqn:Ec.
    + destruct (handleCall _ _ _ _ _ _ _) as [[a nn1] h1] eqn:E. intros [= <- <- <-].
      apply handleCall_serves with (pre := pre) in E as [Ha Hs]; [|done]. split; [|done].
      exists a. split; [done|]. split; [|done]. unfold isCall in Ec. apply andb_true_iff in Ec as [-> _]. done.
    + destruct (hasValidID msg); intros [= <- <- <-]; (split; [|by apply serves_nothing]);
        eexists; (split; [done|]); (split; [|done]).
      * apply errorResponse_answer.
      * apply (errorResponse_answer (set_ID zero_msg null)).
Qed.

(** The answers to the calls of a batch, in order, notifications skipped. *)
Fixpoint answers_spec (calls : list jsonrpcMessage) (answers : list jsonrpcMessage) : Prop :=
  match calls with
  | [] => answers = []
  | msg :: calls => ∃ answer rest, answers = option_list answer ++ rest ∧
                                   answer_spec msg answer ∧ answers_spec calls rest
  end.

Lemma new_subs_app nn nn' : new_subs (nn ++ nn') = new_subs nn ++ new_subs nn'.
Proof. unfold new_subs. apply omap_app. Qed.

Lemma answer_calls_serves calls h pre answers nn h' :
  subs_ok h pre → answer_calls decode_as Zero text as_ID idgen calls h = (answers, nn, h') →
  answers_spec calls answers ∧ serves h pre nn h'.
Proof.
  revert h pre answers nn h'. induction calls as [|msg calls IH]; intros h pre answers nn h' Hok; cbn.
  { intros [= <- <- <-]. split; [done|by apply serves_nothing]. }
  destruct (handleCallMsg _ _ _ _ _ _ _) as [[a nn1] h1] eqn:E1.
  destruct (answer_calls _ _ _ _ _ _ h1) as [[as' nn2] h2] eqn:E2. intros [= <- <- <-].
  apply handleCallMsg_serves with (pre := pre) in E1 as [Ha (S1 & S2 & S3 & S4)]; [|done].
  apply IH with (pre := pre ++ new_subs nn1) in E2 as [Hb (T1 & T2 & T3 & T4)]; [|done].
  split; [by eexists _, _|]. split_and!.
  - by rewrite new_subs_app, app_assoc.
  - by apply Forall_app.
  - by eapply same_client_trans.
  - congruence.
Qed.

(** ** The goroutine of a call *)

Definition inv h : Prop := ops_ok h ∧ subs_ok h [].

Lemma addSubscriptions_run nn h ls :
  subs_ok h (new_subs nn ++ ls) → Forall idle nn →
  ∃ nn' h', addSubscriptions nn h = Ret (nn', h') ∧ subs_ok h' ls ∧ Forall idle nn' ∧
            same_client h h' ∧ h_conn h' = h_conn h.
Proof.
  revert h. induction nn as [|n nn IH]; intros h Hok Hi; cbn [addSubscriptions].
  { exists [], h. by split_and!. }
  apply Forall_cons in Hi as [Hn Hi]. cbn [takeSubscription].
  set (n' := mkNotifier _ _ _ _ _). assert (idle n') as Hn' by exact Hn.
  assert (∃ h1, (match n_sub n with Some s => go_modify (upd_serverSubs <[sub_ID s := s]>) | None => mret () end
            : go handler unit) h = Ret ((), h1) ∧ subs_ok h1 (new_subs nn ++ ls) ∧
            same_client h h1 ∧ h_conn h1 = h_conn h) as (h1 & E & Hok1 & Hc & Hw).
  { unfold new_subs in Hok. cbn [omap list_omap] in Hok.
    destruct (n_sub n) as [s|]; cbn in Hok; (eexists; split; [reflexivity|]; split; [|done]); [|done].
    by apply subs_ok_register. }
  rewrite go_bind_run, E. destruct (IH h1 Hok1 Hi) as (nn' & h2 & E2 & A & B & C & D).
  rewrite go_bind_run, E2. eexists _, _. split; [reflexivity|]. split_and!; try done.
  - by constructor.
  - by eapply same_client_trans.
  - congruence.
Qed.

(** A notification of a subscription on the wire. *)
Definition is_note (v : wireval) : Prop := ∃ ns sub d, v = WMsg (notification ns sub d).

(** The change of the connection by a sequence of writes. *)
Definition wrote (P : list wireval → Prop) (w w' : W) : Prop :=
  ∀ l, jw_sent w l → ∃ out, P out ∧ jw_sent w' (l ++ out).

Lemma activate_run n w : idle n →
  ∃ e n' w', activate (n, w) = Ret (e, (n', w')) ∧ wrote (Forall is_note) w w'.
Proof.
  intros [Ha Hb]. unfold activate. destruct (n_sub n) as [sub|] eqn:Es.
  - destruct (send_all n sub (n_buffer n) w) as [e w'] eqn:E.
    assert (wrote (Forall is_note) w w') as Hw.
    { intros l Hl. destruct (send_all_sent n sub _ _ _ _ _ Hl E) as (k & Hk & _).
      eexists. split; [|exact Hk]. apply Forall_forall. intros v Hv. apply list_elem_of_fmap in Hv as (d & -> & _).
      unfold is_note. eauto. }
    destruct e; eauto 10.
  - rewrite Hb by done. eexists _, _, _. split; [reflexivity|].
    intros l Hl. exists []. split; [done|]. by rewrite app_nil_r.
Qed.

Lemma activate_all_run nn h : Forall idle nn →
  ∃ h', activate_all nn h = Ret ((), h') ∧ same_client h h' ∧ h_serverSubs h' = h_serverSubs h ∧
        h_subErrs h' = h_subErrs h ∧ h_next h' = h_next h ∧ wrote (Forall is_note) (h_conn h) (h_conn h').
Proof.
  intros Hn. revert h. induction Hn as [|n nn Hn Hnn IH]; intros h.
  { exists h. split; [done|]. split_and!; try done. intros l Hl. exists []. split; [done|]. by rewrite app_nil_r. }
  unfold activate_all in *. cbn [go_for].
  destruct (activate_run n (h_conn h) Hn) as (e & n' & w' & E & Hw).
  destruct (IH (set_conn w' h)) as (h' & E' & A & B & C & D & F).
  exists h'. rewrite go_bind_run, E. cbn [mbind outcome_bind]. rewrite E'. split_and!; try done.
  intros l Hl. destruct (Hw l Hl) as (o1 & P1 & S1). destruct (F _ S1) as (o2 & P2 & S2).
  exists (o1 ++ o2). split; [by apply Forall_app|]. by rewrite app_assoc.
Qed.

(** The writes of a call: its answer, unless the write fails, and then
    notifications. *)
Definition call_output (expected : list wireval) (out : list wireval) : Prop :=
  ∃ ans notes, out = ans ++ notes ∧ Forall is_note notes ∧
    (ans = expected ∨ ans = [] ∧ ¬ ∀ d v w, (jw_writeJSON (W:=W) d v w).1 = None).

Lemma write_conn_wrote v h :
  wrote (λ out, out = [v] ∨ out = [] ∧ ¬ ∀ d v w, (jw_writeJSON (W:=W) d v w).1 = None)
    (h_conn h) (h_conn (write_conn v h)).
Proof.
  intros l Hl. unfold write_conn. cbn. destruct (jw_writeJSON None v (h_conn h)) as [[e|] w'] eqn:E; cbn.
  - exists []. rewrite app_nil_r. split; [|by eapply jw_sent_err]. right. split; [done|].
    intros Hall. specialize (Hall None v (h_conn h)). by rewrite E in Hall.
  - exists [v]. split; [by left|]. by eapply jw_sent_ok.
Qed.

(** The part of the goroutine after the calls have been answered. *)
Lemma finish_call h nn (expected : list wireval) :
  subs_ok h (new_subs nn) → Forall idle nn → (length expected ≤ 1)%nat →
  ∃ h', (nn ← addSubscriptions nn;
         go_modify (λ h, match expected with v :: _ => write_conn v h | [] => h end) ;;
         activate_all nn) h = Ret ((), h') ∧
    same_client h h' ∧ subs_ok h' [] ∧ wrote (call_output expected) (h_conn h) (h_conn h').
Proof.
  intros Hok Hi Hlen. destruct (addSubscriptions_run nn h []) as (nn' & h1 & E1 & A1 & A2 & A3 & A4);
    [by rewrite app_nil_r|done|].
  rewrite go_bind_run, E1, go_bind_run. cbn [go_modify].
  set (h2 := match expected with v :: _ => write_conn v h1 | [] => h1 end).
  destruct (activate_all_run nn' h2 A2) as (h3 & E3 & B1 & B2 & B3 & B4 & B5).
  assert (same_client h1 h2 ∧ h_serverSubs h2 = h_serverSubs h1 ∧ h_subErrs h2 = h_subErrs h1 ∧
          h_next h2 = h_next h1) as (C1 & C2 & C3 & C4) by (unfold h2; by destruct expected).
  exists h3. split; [done|]. split; [by eapply same_client_trans, same_client_trans|].
  split; [eapply (subs_ok_same h1); [congruence..|done]|].
  intros l Hl. rewrite <-A4 in Hl.
  assert (∃ ans, jw_sent (h_conn h2) (l ++ ans) ∧
    (ans = expected ∨ ans = [] ∧ ¬ ∀ d v w, (jw_writeJSON (W:=W) d v w).1 = None)) as (ans & Ha & Hans).
  { unfold h2. destruct expected as [|v [|]]; [|..|cbn in Hlen; lia].
    - exists []. rewrite app_nil_r. auto.
    - destruct (write_conn_wrote v h1 l Hl) as (out & Ho & Hs). exists out. auto. }
  destruct (B5 _ Ha) as (notes & Hn & Hs). exists (ans ++ notes). rewrite app_assoc. split; [|done].
  exists ans, notes. auto.
Qed.

(** What a goroutine has to write for its calls. *)
Definition job_output (j : job) (expected : list wireval) : Prop :=
  match j with
  | JEmptyBatch => expected = [WMsg (errorMessage (EInvalidRequest "empty batch"))]
  | JBatch calls => ∃ answers, answers_spec calls answers ∧
      expected = match answers with [] => [] | _ => [WBatch answers] end
  | JMsg msg => ∃ answer, answer_spec msg answer ∧
      expected = match answer with None => [] | Some a => [WMsg a] end
  end.

Abbreviation run_job := (run_job decode_as Zero text as_ID idgen).

Lemma run_job_run j h : subs_ok h [] →
  ∃ h' expected, run_job j h = Ret ((), h') ∧ job_output j expected ∧
    same_client h h' ∧ subs_ok h' [] ∧ wrote (call_output expected) (h_conn h) (h_conn h').
Proof.
  intros Hok. destruct j as [|calls|msg]; cbn [RpcHandler.run_job].
  - eexists _, _. split; [reflexivity|]. split; [done|]. split; [done|]. split; [by apply (subs_ok_same h)|].
    intros l Hl. destruct (write_conn_wrote (WMsg (errorMessage (EInvalidRequest "empty batch"))) h l Hl) as (out & Ho & Hs).
    exists out. split; [|done]. exists out, []. rewrite app_nil_r. auto.
  - destruct (answer_calls _ _ _ _ _ _ _) as [[answers nn] h1] eqn:E.
    apply answer_calls_serves with (pre := []) in E as [Ha (S1 & S2 & S3 & S4)]; [|done].
    destruct (finish_call h1 nn (match answers with [] => [] | _ => [WBatch answers] end)) as (h2 & E & A & B & C);
      [done|done|destruct answers; cbn; lia|].
    exists h2, (match answers with [] => [] | _ => [WBatch answers] end).
    split; [destruct answers; exact E|]. split; [by exists answers|].
    split; [by eapply same_client_trans|]. split; [done|by rewrite <-S4].
  - destruct (handleCallMsg _ _ _ _ _ _ _) as [[answer nn] h1] eqn:E.
    apply handleCallMsg_serves with (pre := []) in E as [Ha (S1 & S2 & S3 & S4)]; [|done].
    destruct (finish_call h1 nn (match answer with None => [] | Some a => [WMsg a] end)) as (h2 & E & A & B & C);
      [done|done|destruct answer; cbn; lia|].
    exists h2, (match answer with None => [] | Some a => [WMsg a] end).
    split; [destruct answer; exact E|]. split; [by exists answer|].
    split; [by eapply same_client_trans|]. split; [done|by rewrite <-S4].
Qed.

(** ** Messages that are handled at once *)

Lemma handleImmediate_run msg h : ops_ok h →
  ∃ b h', handleImmediate text msg h = Ret (b, h') ∧ ops_ok h' ∧ same_rest h h' ∧
    (b = false → h' = h ∧ isResponse msg = false) ∧
    (isNotification msg = false → b = isResponse msg).
Proof.
  intros Hok. unfold handleImmediate. destruct (isNotification msg) eqn:En.
  - destruct (HasSuffix _ _).
    + rewrite go_bind_run. unfold handleSubscriptionResult.
      destruct (decode_subscriptionResult _) as [r|]; [rewrite go_bind_run; cbn [go_get]; destruct (h_clientSubs h !! _)|];
        cbn; (eexists _, _; split; [reflexivity|]; split; [by apply (ops_ok_same h)|done]).
    + eexists _, _. split; [reflexivity|]. split_and!; try done. intros _. split; [done|].
      unfold isResponse, hasValidID. unfold isNotification in En. by destruct (ID msg).
  - destruct (isResponse msg) eqn:Er.
    + destruct (handleResponse_run h msg Hok) as (h' & E & A & B & _).
      rewrite go_bind_run, E. eexists _, _. split; [reflexivity|]. by split_and!.
    + eexists _, _. split; [reflexivity|]. by split_and!.
Qed.

Lemma same_rest_trans h1 h2 h3 : same_rest h1 h2 → same_rest h2 h3 → same_rest h1 h3.
Proof. unfold same_rest. intuition congruence. Qed.

Lemma same_rest_subs_ok h h' : same_rest h h' → subs_ok h [] → subs_ok h' [].
Proof. intros (E1 & E2 & E3 & _). by apply subs_ok_same. Qed.

Lemma immediate_all_run msgs h : ops_ok h →
  ∃ calls h', immediate_all text msgs h = Ret (calls, h') ∧ ops_ok h' ∧ same_rest h h' ∧
    calls `sublist_of` msgs.
Proof.
  revert h. induction msgs as [|msg msgs IH]; intros h Hok; cbn [immediate_all].
  { by eexists [], h. }
  destruct (handleImmediate_run msg h Hok) as (b & h1 & E1 & A1 & B1 & _). rewrite go_bind_run, E1.
  destruct (IH h1 A1) as (calls & h2 & E2 & A2 & B2 & C2). rewrite go_bind_run, E2.
  eexists _, _. split; [reflexivity|]. split; [done|]. split; [by eapply same_rest_trans|].
  destruct b; by constructor.
Qed.

Lemma inv_callWG f h : inv h → inv (upd_callWG f h).
Proof. intros [A B]. split; [by apply (ops_ok_same h)|by apply (subs_ok_same h)]. Qed.

Lemma handleMsg_run msg h : inv h → ∃ h', handleMsg text msg h = Ret ((), h') ∧ inv h'.
Proof.
  intros [A B]. unfold handleMsg. destruct (handleImmediate_run msg h A) as (b & h1 & E & A1 & B1 & _).
  rewrite go_bind_run, E. assert (inv h1) as I1 by (split; [done|by eapply same_rest_subs_ok]).
  destruct b; [by exists h1|]. eexists. split; [reflexivity|]. by apply inv_callWG.
Qed.

Lemma handleBatch_run msgs h : inv h → ∃ h', handleBatch text msgs h = Ret ((), h') ∧ inv h'.
Proof.
  intros [A B]. destruct msgs as [|msg msgs].
  { eexists. split; [reflexivity|]. by apply inv_callWG. }
  unfold handleBatch. destruct (immediate_all_run (msg :: msgs) h A) as (calls & h1 & E & A1 & B1 & _).
  rewrite go_bind_run, E. assert (inv h1) as I1 by (split; [done|by eapply same_rest_subs_ok]).
  destruct calls; [by exists h1|]. eexists. split; [reflexivity|]. by apply inv_callWG.
Qed.

Abbreviation run_call := (run_call decode_as Zero text as_ID idgen).

Lemma run_call_run i h : inv h → ∃ h', run_call i h = Ret ((), h') ∧ inv h'.
Proof.
  intros [A B]. unfold RpcHandler.run_call. rewrite go_bind_run. cbn [go_get].
  destruct (h_callWG h !! i) as [j|]; [|by exists h]. rewrite go_bind_run. cbn [go_modify].
  set (h1 := upd_callWG _ h). assert (inv h1) as [A1 B1] by (by apply inv_callWG).
  destruct (run_job_run j h1 B1) as (h2 & exp & E & _ & C & D & _). exists h2. split; [done|].
  split; [by eapply same_client_ops_ok|done].
Qed.

Lemma cancel_server_subs_run err l h :
  subs_ok h [] → NoDup l.*1 → (∀ id s, (id, s) ∈ l → h_serverSubs h !! id = Some s) →
  ∃ h', go_for l (cancel_server_sub err) h = Ret ((), h') ∧ subs_ok h' [] ∧ same_client h h' ∧
    h_serverSubs h' = foldl (λ m e, delete e.1 m) (h_serverSubs h) l ∧
    (∀ id s, (id, s) ∈ l → h_subErrs h' !! sub_err s = Some (mkChan 1 [err] true)) ∧
    ∀ loc, (∀ id s, (id, s) ∈ l → sub_err s ≠ loc) → h_subErrs h' !! loc = h_subErrs h !! loc.
Proof.
  revert h. induction l as [|[id s] l IH]; intros h Hok Hnd Hin.
  { exists h. split_and!; try done. intros id s []%not_elem_of_nil. }
  apply NoDup_cons in Hnd as [Hn Hnd]. pose proof (Hin id s ltac:(by left)) as Hs.
  destruct (so_open _ _ Hok id s Hs) as [Hc _]. cbn [go_for]. rewrite go_bind_run.
  unfold cancel_server_sub at 1. cbn [fst snd]. rewrite go_bind_run.
  rewrite (on_subErr_run _ _ _ () (mkChan 1 [err] false) h Hc) by done. rewrite go_bind_run.
  rewrite (on_subErr_run _ (mkChan 1 [err] false) _ () (mkChan 1 [err] true)) by (done || apply lookup_insert_eq).
  cbn [go_modify]. set (h1 := upd_serverSubs _ _).
  assert (h_subErrs h1 = <[sub_err s := mkChan 1 [err] true]> (h_subErrs h)) as Hsub
    by (cbn; by rewrite insert_insert_eq).
  assert (subs_ok h1 []) as Hok1.
  { eapply (subs_ok_same (upd_serverSubs (delete id) (upd_subErrs <[sub_err s := mkChan 1 [err] true]> h)));
      [done|done|done|by apply subs_ok_remove]. }
  assert (∀ id' s', (id', s') ∈ l → h_serverSubs h1 !! id' = Some s') as Hin1.
  { intros id' s' Hl. cbn. rewrite lookup_delete_ne; [apply Hin; by right|].
    intros ->. apply Hn. apply list_elem_of_fmap. by exists (id', s'). }
  assert (∀ id' s', (id', s') ∈ l → sub_err s' ≠ sub_err s) as Hne.
  { intros id' s' Hl Heq. pose proof (so_inj _ _ Hok id' id s' s (Hin _ _ ltac:(by right)) Hs Heq) as ->.
    apply Hn. apply list_elem_of_fmap. by exists (id, s'). }
  destruct (IH h1 Hok1 Hnd Hin1) as (h' & E & A & B & C & D & F). exists h'. split_and!; try done.
  - intros id' s' [Heq|Hl]%elem_of_cons; [|by eapply D]. injection Heq as -> ->.
    rewrite F, Hsub by done. apply lookup_insert_eq.
  - intros loc Hloc. rewrite F, Hsub; [apply lookup_insert_ne, (Hloc id); by left|].
    intros id' s' Hl. apply (Hloc id'). by right.
Qed.

Lemma cancelServerSubscriptions_run err h :
  subs_ok h [] →
  ∃ h', cancelServerSubscriptions err h = Ret ((), h') ∧ subs_ok h' [] ∧ same_client h h' ∧
    h_serverSubs h' = ∅ ∧
    ∀ id s, h_serverSubs h !! id = Some s → h_subErrs h' !! sub_err s = Some (mkChan 1 [err] true).
Proof.
  intros Hok. unfold cancelServerSubscriptions. rewrite go_bind_run. cbn [go_get].
  destruct (cancel_server_subs_run err (map_to_list (h_serverSubs h)) h Hok) as (h' & E & A & B & C & D & _).
  { apply NoDup_fst_map_to_list. }
  { intros id s. apply elem_of_map_to_list. }
  exists h'. split_and!; try done.
  - rewrite C. apply foldl_delete_all, map_to_list_keys.
  - intros id s Hs. apply (D id), elem_of_map_to_list, Hs.
Qed.

(** ** Registering requests *)

(** A request as the client makes it: its channel is open, empty and has room for
    an answer to each ID; a subscription request has one ID. *)
Definition new_op (op : requestOp) : Prop :=
  ch_closed (op_resp op) = false ∧ ch_buf (op_resp op) = [] ∧
  match op_sub op with
  | None => (length (op_ids op) ≤ ch_cap (op_resp op))%nat
  | Some _ => (length (op_ids op) ≤ 1)%nat
  end.

Lemma waiting_insert m ids loc l :
  (size (waiting (foldl (λ m id, <[id := loc]> m) m ids) l) ≤
   size (waiting m l) + if decide (l = loc) then length ids else 0)%nat.
Proof.
  revert m. induction ids as [|id ids IH]; intros m; cbn [foldl length]; [case_decide; lia|].
  etrans; [apply IH|].
  assert (size (waiting (<[id := loc]> m) l) ≤ size (waiting m l) + if decide (l = loc) then 1 else 0)%nat; [|case_decide; lia].
  unfold waiting. case_decide as Hl.
  - subst. rewrite map_filter_insert_True by done.
    rewrite map_size_insert. destruct (_ !! id); cbn; lia.
  - rewrite map_filter_insert_False by done. rewrite map_filter_delete.
    pose proof (map_subseteq_size _ _ (delete_subseteq (filter (λ kv : string * nat, kv.2 = l) m) id)). lia.
Qed.

Lemma lookup_foldl_insert (m : gmap string nat) ids loc id l :
  foldl (λ m id, <[id := loc]> m) m ids !! id = Some l → l = loc ∨ m !! id = Some l.
Proof.
  revert m. induction ids as [|i ids IH]; intros m; cbn; [auto|]. intros [->|Hl]%IH; [auto|].
  apply lookup_insert_Some in Hl as [[_ <-]|[_ Hl]]; auto.
Qed.

Lemma addRequestOp_run loc op h :
  inv h → h_ops h !! loc = None → new_op op →
  ∃ h', addRequestOp loc (upd_ops <[loc := op]> h) = Ret ((), h') ∧ inv h'.
Proof.
  intros [A B] Hf (Hc & Hb & Hl). unfold addRequestOp. cbn [h_ops upd_ops]. rewrite lookup_insert_eq.
  eexists. split; [reflexivity|]. split; [|by apply (subs_ok_same h)].
  assert (size (waiting (h_respWait h) loc) = 0%nat) as H0.
  { apply map_size_empty_iff, map_empty. intros id. apply map_lookup_filter_None. right.
    intros l Hid E. cbn in E. subst l. destruct (A id loc Hid) as (? & ? & _). congruence. }
  intros id l Hid. cbn [h_respWait h_ops upd_respWait upd_ops] in *.
  pose proof (waiting_insert (h_respWait h) (op_ids op) loc l) as Hw.
  destruct (decide (l = loc)) as [->|Hne].
  - exists op. split; [apply lookup_insert_eq|]. split; [done|]. rewrite Hb. cbn [length].
    destruct (op_sub op); lia.
  - apply lookup_foldl_insert in Hid as [->|Hid]; [done|]. destruct (A id l Hid) as (op' & Ho & Hc' & Hr).
    exists op'. rewrite lookup_insert_ne by done. split; [done|]. split; [done|].
    destruct (op_sub op'); lia.
Qed.

Lemma removeRequestOp_ok loc h h' : inv h → removeRequestOp loc h = Ret ((), h') → inv h'.
Proof.
  intros [A B]. unfold removeRequestOp. destruct (h_ops h !! loc) as [op|]; [|done]. intros [= <-].
  split; [|by apply (subs_ok_same h)]. clear B. generalize (op_ids op) as ids.
  intros ids id l Hid. cbn [h_respWait h_ops upd_respWait] in *.
  assert (∀ m : gmap string nat, foldl (λ m id, delete id m) m ids !! id = Some l → m !! id = Some l) as Hsub.
  { clear. induction ids as [|i ids IH]; intros m; cbn; [done|]. intros Hl%IH.
    by apply lookup_delete_Some in Hl as [_ Hl]. }
  assert (∀ m : gmap string nat, (size (waiting (foldl (λ m id, delete id m) m ids) l) ≤ size (waiting m l))%nat) as Hsz.
  { clear. induction ids as [|i ids IH]; intros m; cbn; [done|]. etrans; [apply IH|apply waiting_delete_le]. }
  destruct (A id l (Hsub _ Hid)) as (op' & Ho & Hc & Hr). exists op'. split; [done|]. split; [done|].
  specialize (Hsz (h_respWait h)). destruct (op_sub op'); lia.
Qed.

Lemma recv_ok loc h r h' : inv h → on_resp loc chan_recv h = Ret (r, h') → inv h'.
Proof.
  intros [A B]. unfold on_resp. destruct (h_ops h !! loc) as [op|] eqn:Ho; [|done].
  unfold chan_recv. destruct (ch_buf (op_resp op)) as [|x l] eqn:Eb.
  - destruct (ch_closed (op_resp op)) eqn:Ec; [|done]. cbn. intros [= <- <-].
    split; [|by apply (subs_ok_same h)]. apply ops_ok_upd; [done|]. intros [id Hid].
    destruct (A id loc Hid) as (? & ? & ? & _). congruence.
  - cbn. intros [= <- <-]. split; [|by apply (subs_ok_same h)]. apply ops_ok_upd; [done|]. intros [id Hid].
    destruct (A id loc Hid) as (op' & Ho' & Hc & Hr). rewrite Ho in Ho'. injection Ho' as <-.
    split; [done|]. cbn. rewrite Eb in Hr. cbn in Hr. destruct (op_sub op); lia.
Qed.

(** ** A connection's life *)

(** What happens to a handler: messages and batches arrive, goroutines of calls
    run, the client registers requests it has made, receives answers and gives
    up on requests, and the connection goes down. *)
Inductive hstep : handler → handler → Prop :=
| hs_msg h msg h' : handleMsg text msg h = Ret ((), h') → hstep h h'
| hs_batch h msgs h' : handleBatch text msgs h = Ret ((), h') → hstep h h'
| hs_call h i h' : run_call i h = Ret ((), h') → hstep h h'
| hs_request h loc op h' :
    h_ops h !! loc = None → new_op op →
    addRequestOp loc (upd_ops <[loc := op]> h) = Ret ((), h') → hstep h h'
| hs_receive h loc r h' : on_resp loc chan_recv h = Ret (r, h') → hstep h h'
| hs_remove h loc h' : removeRequestOp loc h = Ret ((), h') → hstep h h'
| hs_cancel h err inflight r h' : cancelAllRequests err inflight h = Ret (r, h') → hstep h h'
| hs_resume h err sub r h' : resume_cancel err sub h = Ret (r, h') → hstep h h'
| hs_close h err inflight r h' : close_handler err inflight h = Ret (r, h') → hstep h h'
| hs_resume_close h err sub r h' : resume_close err sub h = Ret (r, h') → hstep h h'
| hs_quit h sub op :                       (* a goroutine begins to unsubscribe *)
    h_quits h !! sub = None → hstep h (upd_quits <[sub := QuitRunning op]> h)
| hs_quit_done h sub op :                  (* and ends *)
    h_quits h !! sub = Some (QuitRunning op) → hstep h (upd_quits <[sub := QuitDone]> h).

Lemma cancelAllRequests_inv err inflight h :
  inv h → ∃ r h', cancelAllRequests err inflight h = Ret (r, h') ∧ inv h' ∧ cancelled_all err inflight h h' r.
Proof.
  intros [A B]. destruct (cancelAllRequests_run err inflight h A) as (r & h' & E & C).
  exists r, h'. split; [done|]. split; [split|done].
  - intros id loc Hl. by rewrite (ca_wait _ _ _ _ _ C) in Hl.
  - by eapply same_rest_subs_ok, B; apply C.
Qed.

Lemma quit_done_inv err quit h h' : quit_done err quit h h' → inv h → inv h'.
Proof.
  intros [D1 D2 D3 D4 D5 D6] [A B]. split; [by apply (ops_ok_same h)|by eapply same_rest_subs_ok].
Qed.

Lemma resume_cancel_inv err sub h :
  inv h →
  (quitting h sub ∧ resume_cancel err sub h = Blocks "sync.Once") ∨
  ¬ quitting h sub ∧ ∃ r h' quit, resume_cancel err sub h = Ret (r, h') ∧ inv h' ∧ same_rest h h' ∧
    h_respWait h' = h_respWait h ∧ h_ops h' = h_ops h ∧
    (∀ s, quitting h' s ↔ quitting h s) ∧
    quit_stands h (map_to_list (h_clientSubs h)) quit (h_clientSubs h) (h_clientSubs h') r.
Proof.
  intros Hi. unfold resume_cancel. rewrite go_bind_run.
  destruct (quit_client_sub_run err sub h) as [[Hq ->]|[Hq ->]]; [by left|right]. split; [done|].
  rewrite go_bind_run. cbn [go_get log_sub upd_quits h_clientSubs]. set (h1 := log_sub _ _).
  destruct (quit_subs_run err (map_to_list (h_clientSubs h)) h1) as (r & h' & quit & E & D & St).
  assert (∀ s, quitting h1 s ↔ quitting h s) as Hsame.
  { intros s. unfold quitting, h1. cbn. destruct (decide (s = sub)) as [->|]; [rewrite lookup_insert_eq|by rewrite lookup_insert_ne].
    split; [by intros [? ?]|]. by intros Hs. }
  exists r, h', quit. split; [exact E|]. split.
  { eapply quit_done_inv; [exact D|]. split; [by apply (ops_ok_same h), Hi|by apply (subs_ok_same h), Hi]. }
  destruct D as [D1 D2 D3 D4 D5 D6]. split_and!; [done..| |].
  - intros s. rewrite <-Hsame. unfold quitting. rewrite D4. case_decide as Hs; [|done]. split; [by intros [? ?]|].
    apply list_elem_of_fmap in Hs as (e & -> & He). by apply D5 in He.
  - destruct r as [s|]; [|done]. destruct St as (id & rest & E1 & Hs & E2). exists id, rest. split_and!; [done|by apply Hsame|done].
Qed.

Lemma close_after_inv err r h :
  inv h →
  (h_callWG h ≠ [] ∧ r = None ∧ close_after err r h = Blocks "sync.WaitGroup") ∨
  ∃ h', close_after err r h = Ret (r, h') ∧ inv h' ∧ h_clientSubs h' = h_clientSubs h ∧ h_quits h' = h_quits h ∧
    h_respWait h' = h_respWait h ∧ h_ops h' = h_ops h ∧ (r = None → h_serverSubs h' = ∅ ∧ h_callWG h = []).
Proof.
  intros [A B]. unfold close_after, close_rest. destruct r as [sub|]; [right; by exists h|].
  rewrite go_bind_run, go_bind_run. cbn [go_get]. destruct (h_callWG h) eqn:Hwg; [right|by left].
  rewrite go_bind_run. cbn [go_modify].
  destruct (cancelServerSubscriptions_run err (cancelRoot h)) as (h2 & -> & C & D & F & _); [by apply (subs_ok_same h)|].
  pose proof D as (D1 & D2 & D3 & D4 & D5 & D6 & D7 & D8). exists h2.
  split; [done|]. split; [|done]. split; [|done]. by eapply (same_client_ops_ok (cancelRoot h)).
Qed.

(** Closing returns, or comes to a stop at a subscription that is being quit, or waits
    for calls. *)
Lemma close_inv err inflight h :
  inv h →
  (h_callWG h ≠ [] ∧ close_handler err inflight h = Blocks "sync.WaitGroup") ∨
  ∃ r h', close_handler err inflight h = Ret (r, h') ∧ inv h' ∧ (∀ sub, r = Some sub → quitting h sub) ∧
    (r = None → h_clientSubs h' = ∅ ∧ h_serverSubs h' = ∅) ∧ (∀ s, quitting h' s ↔ quitting h s).
Proof.
  intros Hinv. unfold close_handler. rewrite go_bind_run.
  destruct (cancelAllRequests_inv err inflight h Hinv) as (r & h1 & -> & I1 & [C1 C2 C3 (quit & C4 & C5 & C6 & St)]).
  destruct C1 as (_ & _ & _ & Hwg & _).
  destruct (close_after_inv err r h1 I1) as [(Hne & -> & ->)|(h2 & -> & I2 & E1 & E2 & _ & _ & E3)]; [left; by rewrite <-Hwg|right].
  exists r, h2. split_and!; [done|done| | |].
  - intros sub ->. by destruct St as (id & rest & _ & Hq & _).
  - intros ->. destruct St as [-> St]. rewrite E1, St. split; [|by apply E3]. apply foldl_delete_all, map_to_list_keys.
  - intros s. unfold quitting. rewrite E2, C4. case_decide as Hs; [|done]. split; [by intros [? ?]|].
    apply list_elem_of_fmap in Hs as (e & -> & He). by apply C5 in He.
Qed.

Lemma resume_close_inv err sub h :
  inv h →
  (quitting h sub ∧ resume_close err sub h = Blocks "sync.Once") ∨
  (h_callWG h ≠ [] ∧ resume_close err sub h = Blocks "sync.WaitGroup") ∨
  ∃ r h', resume_close err sub h = Ret (r, h') ∧ inv h' ∧ (∀ s, r = Some s → quitting h s) ∧
    (∀ s, quitting h' s ↔ quitting h s) ∧
    match r with
    | None => h_clientSubs h' = ∅ ∧ h_serverSubs h' = ∅
    | Some _ => (size (h_clientSubs h') < size (h_clientSubs h))%nat
    end ∧ h_respWait h' = h_respWait h ∧ h_ops h' = h_ops h.
Proof.
  intros Hinv. unfold resume_close. rewrite go_bind_run.
  destruct (resume_cancel_inv err sub h Hinv) as [[Hq ->]|(Hq & r & h1 & quit & -> & I1 & R & C1 & C2 & C3 & St)]; [by left|right].
  destruct R as (_ & _ & _ & Hwg & _).
  destruct (close_after_inv err r h1 I1) as [(Hne & -> & ->)|(h2 & -> & I2 & E1 & E2 & E3 & E4 & E5)]; [left; by rewrite <-Hwg|right].
  exists r, h2. split_and!; [done|done| | | |congruence|congruence].
  - intros s ->. by destruct St as (id & rest & _ & Hs & _).
  - intros s. unfold quitting. rewrite E2. apply C3.
  - rewrite E1. destruct r as [s|].
    + destruct St as (id & rest & El & _ & ->). assert (h_clientSubs h !! id = Some s) as Hid.
      { apply elem_of_map_to_list. rewrite El. apply elem_of_app. right. by left. }
      apply map_subset_size, map_subset_alt. split.
      * apply map_subseteq_spec. intros k v. rewrite foldl_delete_lookup. by case_decide.
      * exists id. split; [|by eauto]. rewrite foldl_delete_lookup, decide_True; [done|]. rewrite fmap_app.
        apply elem_of_app. right. by left.
    + destruct St as [-> ->]. split; [|by apply E5]. apply foldl_delete_all, map_to_list_keys.
Qed.

Lemma hstep_inv h h' : hstep h h' → inv h → inv h'.
Proof.
  intros Hs Hi. destruct Hs as [h msg h' E|h msgs h' E|h i h' E|h loc op h' Hf Hn E|h loc r h' E|h loc h' E|h err i r h' E
    |h err sub r h' E|h err i r h' E|h err sub r h' E|h sub op E|h sub op E].
  - destruct (handleMsg_run msg h Hi) as (h1 & E1 & I1). congruence.
  - destruct (handleBatch_run msgs h Hi) as (h1 & E1 & I1). congruence.
  - destruct (run_call_run i h Hi) as (h1 & E1 & I1). congruence.
  - destruct (addRequestOp_run loc op h Hi Hf Hn) as (h1 & E1 & I1). congruence.
  - by eapply recv_ok.
  - by eapply removeRequestOp_ok.
  - destruct (cancelAllRequests_inv err i h Hi) as (r1 & h1 & E1 & I1 & _). congruence.
  - destruct (resume_cancel_inv err sub h Hi) as [[_ E1]|(_ & r1 & h1 & q & E1 & I1 & _)]; congruence.
  - destruct (close_inv err i h Hi) as [[_ E1]|(r1 & h1 & E1 & I1 & _)]; congruence.
  - destruct (resume_close_inv err sub h Hi) as [[_ E1]|[[_ E1]|(r1 & h1 & E1 & I1 & _)]]; congruence.
  - split; [by apply (ops_ok_same h), Hi|by apply (subs_ok_same h), Hi].
  - split; [by apply (ops_ok_same h), Hi|by apply (subs_ok_same h), Hi].
Qed.

Lemma inv_newHandler conn reg ops subids quits next ids g : inv (newHandler conn reg ops subids quits next ids g).
Proof.
  split; [by intros id loc ?|]. split; cbn; try done; [apply NoDup_nil_2|by intros l ?%elem_of_nil|].
  intros l [? Hl]. done.
Qed.

Lemma reach_inv conn reg ops subids quits next ids g h :
  rtc hstep (newHandler conn reg ops subids quits next ids g) h → inv h.
Proof.
  intros Hr. eapply (rtc_ind_r inv); [apply inv_newHandler| |exact Hr].
  intros x y _ Hs Hx. by eapply hstep_inv.
Qed.

(** [cancelAllRequests] comes to its end exactly when nobody else is quitting. *)
Lemma cancel_stands h quit m' r :
  quit_stands h (map_to_list (h_clientSubs h)) quit (h_clientSubs h) m' r → (∀ e, e ∈ quit → ¬ quitting h e.2) →
  (r = None ↔ ∀ id sub, h_clientSubs h !! id = Some sub → ¬ quitting h sub).
Proof.
  intros St Hf. split.
  - intros ->. destruct St as [-> _]. intros id sub Hid. apply (Hf (id, sub)). by apply elem_of_map_to_list.
  - intros Hall. eapply quit_stands_free; [exact St|]. intros [id sub] He. apply (Hall id). by apply elem_of_map_to_list.
Qed.

(** And it goes on once the goroutine it waits for has done. *)
Lemma cancel_resumes err h h' sub :
  inv h' → h_respWait h' = ∅ → (∀ s, quitting h' s ↔ quitting h s) → quitting h sub →
  resume_cancel err sub h' = Blocks "sync.Once" ∧
  ∃ r2 h2, resume_cancel err sub (upd_quits <[sub := QuitDone]> h') = Ret (r2, h2) ∧
    h_respWait h2 = ∅ ∧ h_ops h2 = h_ops h' ∧ (r2 = None → h_clientSubs h2 = ∅) ∧ (∀ sub', r2 = Some sub' → quitting h sub').
Proof.
  intros I' Hw Hsame Hs. split.
  - destruct (resume_cancel_inv err sub h' I') as [[_ ?]|[Hn _]]; [done|]. by destruct Hn; apply Hsame.
  - set (h1 := upd_quits _ h'). assert (inv h1) as I1 by (split; [by apply (ops_ok_same h'), I'|by apply (subs_ok_same h'), I']).
    assert (∀ s, quitting h1 s → quitting h s) as Hq1.
    { intros s. unfold quitting at 1. cbn. destruct (decide (s = sub)) as [->|]; [by rewrite lookup_insert_eq; intros [? ?]|].
      rewrite lookup_insert_ne by done. intros Hq. by apply Hsame. }
    destruct (resume_cancel_inv err sub h1 I1) as [[[op Hq] _]|(_ & r2 & h2 & quit & E & _ & _ & W2 & O2 & _ & St)].
    { cbn in Hq. by rewrite lookup_insert_eq in Hq. }
    exists r2, h2. split_and!; [done|by rewrite W2|by rewrite O2| |].
    + intros ->. destruct St as [_ ->]. apply foldl_delete_all, map_to_list_keys.
    + intros s ->. destruct St as (id & rest & _ & Hq & _). by apply Hq1.
Qed.

(** ** Properties *)

(** A handler at any point of a connection. *)
Definition reachable h : Prop :=
  ∃ conn reg ops subids quits next ids g, rtc hstep (newHandler conn reg ops subids quits next ids g) h.

Lemma reachable_inv h : reachable h → inv h.
Proof. intros (?&?&?&?&?&?&?&?&Hr). by eapply reach_inv. Qed.

(** C1: at every point of a connection, whatever messages, batches, requests,
    timeouts and cancellations came before, whoever is unsubscribing and whatever the
    callbacks do, the handler does not panic, takes every message and batch and
    finishes every goroutine of a call.  Cancelling all requests stops at most in the
    [quitOnce] of a subscription that another goroutine is quitting at that time, and
    goes on when that has ended, and not before; [close] waits for nothing else but
    the goroutines of calls that are still running. *)
Theorem handler_never_stuck h :
  reachable h →
  (∀ msg, ∃ h', handleMsg text msg h = Ret ((), h')) ∧
  (∀ msgs, ∃ h', handleBatch text msgs h = Ret ((), h')) ∧
  (∀ i, ∃ h', run_call i h = Ret ((), h')) ∧
  (∀ err inflight, ∃ r h', cancelAllRequests err inflight h = Ret (r, h') ∧ ∀ sub, r = Some sub → quitting h sub) ∧
  (∀ err sub, (quitting h sub ∧ resume_cancel err sub h = Blocks "sync.Once") ∨
     (¬ quitting h sub ∧ ∃ r h', resume_cancel err sub h = Ret (r, h') ∧ ∀ sub', r = Some sub' → quitting h sub')) ∧
  (∀ err inflight,
     (h_callWG h ≠ [] ∧ close_handler err inflight h = Blocks "sync.WaitGroup") ∨
     ∃ r h', close_handler err inflight h = Ret (r, h') ∧ ∀ sub, r = Some sub → quitting h sub).
Proof.
  intros Hi%reachable_inv. split_and!.
  - intros msg. destruct (handleMsg_run msg h Hi) as (h' & E & _). eauto.
  - intros msgs. destruct (handleBatch_run msgs h Hi) as (h' & E & _). eauto.
  - intros i. destruct (run_call_run i h Hi) as (h' & E & _). eauto.
  - intros err i. destruct (cancelAllRequests_inv err i h Hi) as (r & h' & E & _ & [_ _ _ (quit & _ & _ & _ & St)]).
    exists r, h'. split; [done|]. intros sub ->. by destruct St as (id & rest & _ & Hq & _).
  - intros err sub. destruct (resume_cancel_inv err sub h Hi) as [?|(Hq & r & h' & quit & E & _ & _ & _ & _ & _ & St)]; [by left|right].
    split; [done|]. exists r, h'. split; [done|]. intros s ->. by destruct St as (id & rest & _ & Hs & _).
  - intros err i. destruct (close_inv err i h Hi) as [|(r & h' & E & _ & Hq & _)]; eauto 10.
Qed.

(** C2: what a goroutine of a call writes conforms to JSON-RPC 2.0, for all
    callbacks: a call gets exactly one response, with its ID, version 2.0 and
    either a result or an error; a notification gets none; any other message
    gets an invalid-request error (code -32600), with its ID when it has a
    valid one and with null otherwise; the answers of a batch are one array in
    the order of the calls, nothing is written when there are none, and an empty
    batch gets a single invalid-request error.  After the answer only
    notifications of the new subscriptions follow. *)
Theorem job_answers h j :
  reachable h →
  ∃ h' expected, run_job j h = Ret ((), h') ∧ job_output j expected ∧
    wrote (call_output expected) (h_conn h) (h_conn h').
Proof.
  intros [_ B]%reachable_inv. destruct (run_job_run j h B) as (h' & exp & E & A & _ & _ & C). eauto 10.
Qed.

(** C3: a response is delivered to the request that registered its ID, and to no
    other: the message is added to the request's channel, or, for a subscription
    request, the channel is closed, with the response's error when it has one; the
    ID is forgotten, so a second response to it changes nothing; a response
    nobody waits for changes nothing. *)
Theorem response_delivered_once h msg :
  reachable h → isNotification msg = false → isResponse msg = true →
  ∃ h', handleMsg text msg h = Ret ((), h') ∧
    match h_respWait h !! msg_id msg with
    | None => h' = h
    | Some loc =>
        h_respWait h' = delete (msg_id msg) (h_respWait h) ∧
        (∀ l, l ≠ loc → h_ops h' !! l = h_ops h !! l) ∧
        (∃ op op', h_ops h !! loc = Some op ∧ h_ops h' !! loc = Some op' ∧ answered msg op op') ∧
        handleMsg text msg h' = Ret ((), h')
    end.
Proof.
  intros [A B]%reachable_inv Hn Hr. unfold handleMsg, handleImmediate. rewrite Hn, Hr.
  destruct (handleResponse_run h msg A) as (h' & E & A' & _ & Hd). exists h'. split.
  { by rewrite !go_bind_run, E. }
  destruct (h_respWait h !! msg_id msg) as [loc|]; [|done]. destruct Hd as (D1 & D2 & D3).
  split_and!; try done.
  destruct (handleResponse_run h' msg A') as (h2 & E2 & _ & _ & Hd2).
  rewrite D1, lookup_delete_eq in Hd2. subst h2. by rewrite !go_bind_run, E2.
Qed.

(** C5: [cancelAllRequests] empties the table of requests; every request that was
    registered, except the one in flight, has its channel closed once and the error
    set, and no other request is touched.  Then it quits the client subscriptions with
    the error.  It comes to the end of them, and the table is empty, exactly when no
    other goroutine is in the middle of quitting one; otherwise it stands at such a
    one, until that goroutine has done, and then goes on with the rest. *)
Theorem cancelAllRequests_spec h err inflight :
  reachable h →
  ∃ r h', cancelAllRequests err inflight h = Ret (r, h') ∧ h_respWait h' = ∅ ∧
    (∀ loc op, h_ops h !! loc = Some op →
      ((∃ id, h_respWait h !! id = Some loc) → Some loc ≠ inflight →
         h_ops h' !! loc = Some (mkOp (op_ids op) (Some err)
           (mkChan (ch_cap (op_resp op)) (ch_buf (op_resp op)) true) (op_sub op))) ∧
      ((∀ id, h_respWait h !! id ≠ Some loc) ∨ Some loc = inflight → h_ops h' !! loc = Some op)) ∧
    (r = None ↔ ∀ id sub, h_clientSubs h !! id = Some sub → ¬ quitting h sub) ∧
    match r with
    | None =>
        h_clientSubs h' = ∅ ∧
        h_subLog h' = h_subLog h ++ map (λ e, SubQuit e.2 err) (map_to_list (h_clientSubs h)) ∧
        ∀ id sub, h_clientSubs h !! id = Some sub → h_quits h' !! sub = Some QuitDone
    | Some sub =>
        resume_cancel err sub h' = Blocks "sync.Once" ∧
        ∃ r2 h2, resume_cancel err sub (upd_quits <[sub := QuitDone]> h') = Ret (r2, h2) ∧
          h_respWait h2 = ∅ ∧ h_ops h2 = h_ops h' ∧
          (r2 = None → h_clientSubs h2 = ∅) ∧ (∀ sub', r2 = Some sub' → quitting h sub')
    end.
Proof.
  intros Hi%reachable_inv. destruct (cancelAllRequests_inv err inflight h Hi) as (r & h' & E & I' & [R C G (quit & Q1 & Q2 & Q3 & St)]).
  assert (∀ s, quitting h' s ↔ quitting h s) as Hq.
  { intros s. unfold quitting. rewrite Q1. case_decide as Hs; [|done]. split; [by intros [? ?]|].
    apply list_elem_of_fmap in Hs as (e & -> & He). by apply Q2 in He. }
  exists r, h'. split_and!; [done|done| | |].
  - intros loc op Ho. rewrite G, Ho.
    assert (loc ∈ (map_to_list (h_respWait h)).*2 ↔ ∃ id, h_respWait h !! id = Some loc) as Hiff.
    { rewrite list_elem_of_fmap. split.
      - intros ([id l] & -> & Hin). exists id. by apply elem_of_map_to_list.
      - intros [id Hid]. exists (id, loc). split; [done|]. by apply elem_of_map_to_list. }
    split.
    + intros H1 H2. rewrite decide_True; [done|]. by rewrite Hiff.
    + intros H1. rewrite decide_False; [done|]. rewrite Hiff. intros [[id Hid] H2]. destruct H1 as [H1|H1]; [by apply (H1 id)|done].
  - by eapply cancel_stands.
  - destruct r as [sub|].
    + destruct St as (id & rest & El & Hs & Ec). by eapply cancel_resumes.
    + destruct St as [-> ->]. split_and!; [apply foldl_delete_all, map_to_list_keys|done|].
      intros id sub Hid. rewrite Q1, decide_True; [done|]. apply list_elem_of_fmap. exists (id, sub).
      split; [done|]. by apply elem_of_map_to_list.
Qed.

(** C6: the error channel of a server subscription is closed exactly once: by
    [unsubscribe], which answers true the first time and "subscription not
    found" from then on, or by [close], which sends the error first; [unsubscribe]
    on an unknown ID changes nothing. *)
Theorem server_subscription_closed_once h id err :
  reachable h →
  (∃ r h1, unsubscribe id h = Ret (r, h1) ∧
     match h_serverSubs h !! id with
     | None => r = (false, Some (EVar ErrSubscriptionNotFound)) ∧ h1 = h
     | Some s =>
         h_subErrs h !! sub_err s = Some (make_chan 1) ∧
         r = (true, None) ∧ h_subErrs h1 !! sub_err s = Some (mkChan 1 [] true) ∧
         unsubscribe id h1 = Ret ((false, Some (EVar ErrSubscriptionNotFound)), h1)
     end) ∧
  ∃ h2, cancelServerSubscriptions err h = Ret ((), h2) ∧ h_serverSubs h2 = ∅ ∧
    ∀ id s, h_serverSubs h !! id = Some s → h_subErrs h2 !! sub_err s = Some (mkChan 1 [err] true).
Proof.
  intros [A B]%reachable_inv. split.
  - destruct (unsubscribe_run h [] id B) as (r & h1 & E & B1 & _ & _ & Hd). exists r, h1. split; [done|].
    destruct (h_serverSubs h !! id) as [s|] eqn:Hs; [|done]. destruct Hd as (-> & D1 & D2).
    split; [by apply (so_open _ _ B id s)|]. split; [done|].
    split; [rewrite D2; apply lookup_insert_eq|].
    destruct (unsubscribe_run h1 [] id B1) as (r2 & h2 & E2 & _ & _ & _ & Hd2).
    rewrite D1, lookup_delete_eq in Hd2. destruct Hd2 as [-> ->]. done.
  - destruct (cancelServerSubscriptions_run err h B) as (h' & E & _ & _ & C & D). eauto.
Qed.

(** A call of a method that is registered as a plain callback. *)
Lemma handleCall_callback h msg cb :
  reg_callback (h_reg h) (Method msg) = Some cb →
  RpcMessage.isSubscribe msg = false → isUnsubscribe msg = false →
  handleCall decode_as Zero text as_ID idgen msg h =
    match parse_args decode_as Zero text (Params msg) (argTypes cb) with
    | Err e => (errorResponse msg (EInvalidParams (error_text e)), [], h)
    | Ok args =>
        let '(results, _, h') := run_script idgen None (fn_body (cb_fn cb) args) h in
        let answer := match call_results cb results with
                      | Err err => errorResponse msg err
                      | Ok v => response msg v
                      end in
        (answer, [], upd_gauges (count_call answer) h')
    end.
Proof.
  intros Hcb H1 H2. unfold handleCall. rewrite H1, H2, Hcb. destruct (parse_args _ _ _ _ _) as [args|e]; [|done].
  unfold runMethod. destruct (run_script _ _ _ _) as [[results n] h']. by destruct (call_results cb results).
Qed.

(** Parameters that are an array with the texts [l], or no parameters. *)
Definition params_are (p : RawMessage) (l : list string) : Prop :=
  match p with
  | None => l = []
  | Some raw => is_value (skip_ws raw) ∧ shape_of (skip_ws raw) = Some (JArr l)
  end.

Lemma parse_args_array p l types : params_are p l →
  parse_args decode_as Zero text p types = positional_spec isPtr decode_as Zero (length types) 0 types l.
Proof.
  intros Hp. unfold parse_args. pose proof (parsePositionalArguments_value isPtr decode_as Zero text p types) as Hparse.
  destruct p as [raw|]; [destruct Hp as [Hv Hsh]; exact (Hparse _ Hv Hsh)|]. rewrite Hparse, Hp. by destruct types.
Qed.

Lemma handleCall_registered h msg cb l :
  reg_callback (h_reg h) (Method msg) = Some cb →
  RpcMessage.isSubscribe msg = false → isUnsubscribe msg = false → params_are (Params msg) l →
  handleCall decode_as Zero text as_ID idgen msg h =
    match positional_spec isPtr decode_as Zero (length (argTypes cb)) 0 (argTypes cb) l with
    | Err e => (errorResponse msg (EInvalidParams (error_text e)), [], h)
    | Ok args =>
        let '(results, _, h') := run_script idgen None (fn_body (cb_fn cb) args) h in
        let answer := match call_results cb results with
                      | Err err => errorResponse msg err
                      | Ok v => response msg v
                      end in
        (answer, [], upd_gauges (count_call answer) h')
    end.
Proof. intros Hcb H1 H2 Hp. by rewrite (handleCall_callback h msg cb Hcb H1 H2), (parse_args_array _ l _ Hp). Qed.

(** C4: a call of a method [name_m] that was registered as a plain callback and
    whose parameters are an array that fits the callback's types runs the
    callback's function on the decoded arguments and answers with its result or
    its error; with parameters that do not fit it is refused with code -32602,
    and a method that is not registered with code -32601, without running
    anything. *)
Theorem call_dispatch h msg low name m rcvr reg0 cb raw l :
  registerName low name rcvr reg0 = Ok (h_reg h) → reachable_name name →
  suitableCallbacks low rcvr !! m = Some cb → RpcService.isSubscribe cb = false →
  Method msg = name +:+ "_" +:+ m → RpcMessage.isSubscribe msg = false → isUnsubscribe msg = false →
  Params msg = Some raw → is_value (skip_ws raw) → shape_of (skip_ws raw) = Some (JArr l) →
  handleCall decode_as Zero text as_ID idgen msg h =
    match positional_spec isPtr decode_as Zero (length (argTypes cb)) 0 (argTypes cb) l with
    | Err e => (errorResponse msg (EInvalidParams (error_text e)), [], h)
    | Ok args =>
        let '(results, _, h') := run_script idgen None (fn_body (cb_fn cb) args) h in
        let answer := match call_results cb results with
                      | Err err => errorResponse msg err
                      | Ok v => response msg v
                      end in
        (answer, [], upd_gauges (count_call answer) h')
    end ∧
  ∀ other, reg_callback (h_reg h) (Method other) = None →
    RpcMessage.isSubscribe other = false → isUnsubscribe other = false →
    handleCall decode_as Zero text as_ID idgen other h =
      (errorResponse other (EMethodNotFound (Method other)), [], h) ∧
    ErrorCode (EMethodNotFound (Method other)) = Some (-32601)%Z.
Proof.
  intros Hreg Hname Hm Hs Hmeth H1 H2 Hp Hv Hsh. split.
  - apply (handleCall_registered h msg cb l); try done; [|by rewrite Hp]. rewrite Hmeth.
    exact (registerName_callback low name rcvr reg0 (h_reg h) m cb Hreg Hname Hm Hs).
  - intros other Ho O1 O2. split; [|done]. unfold handleCall. by rewrite O1, O2, Ho.
Qed.
End handler_props.

(** ** Examples *)

Definition ex_body (args : list Z) : script :=
  match args with
  | [a; b] => SReturn [RVal (Ok (FormatInt (a + b)))]
  | _ => SPanic
  end.
Definition ex_int : gotype := TNamed "int" false.
Definition ex_rcvr : receiver (list Z → script) :=
  mkReceiver "*main.Calc"
    [mkMethod "Sum" "" (mkFunc [TPtr (TNamed "main.Calc" false); ex_int; ex_int] [ex_int] ex_body)].
Definition ex_reg : serviceRegistry (list Z → script) :=
  match registerName (λ s, s) "calc" ex_rcvr (mkRegistry ∅) with Ok r => r | Err _ => mkRegistry ∅ end.
Definition ex_decode (t : gotype) (raw : string) : result string Z :=
  match shape_of raw with
  | Some (JNum n) => match parse_int64 n with Some z => Ok z | None => Err "range" end
  | _ => Err "json: cannot unmarshal"
  end.
Definition ex_h : handler (list wireval) Z := newHandler [] ex_reg ∅ ∅ ∅ 0 0 (mkGauges 0 0 0).
Abbreviation ex_reachable := (reachable ex_decode (λ _, 0%Z) (λ _, "") (λ _, "") (λ _, "0x1")).

Definition ex_call_msg : jsonrpcMessage := mkMsg vsn (Some "7") "calc_sum" (Some "[3,4]") None None.
Definition ex_answer : jsonrpcMessage := mkMsg vsn (Some "7") "" None None (Some "7").

(** The handler after a request with ID 7 was registered at location 0. *)
Definition ex_op : requestOp := mkOp ["7"] None (make_chan 1) None.
Definition ex_h1 : handler (list wireval) Z :=
  upd_respWait (λ m, <["7" := 0%nat]> m) (upd_ops <[0%nat := ex_op]> ex_h).

Lemma ex_h_reachable : ex_reachable ex_h.
Proof. repeat eexists. apply rtc_refl. Qed.
Lemma ex_h1_reachable : ex_reachable ex_h1.
Proof.
  exists [], ex_reg, ∅, ∅, ∅, 0%nat, 0%nat, (mkGauges 0 0 0). eapply rtc_once.
  apply (hs_request _ _ _ _ _ ex_h 0%nat ex_op); [done|by split_and!; cbn; try lia|done].
Qed.

Lemma handler_never_stuck_witness :
  ∃ h', handleMsg (λ _, "") ex_call_msg ex_h = Ret ((), h').
Proof. apply (handler_never_stuck ex_decode (λ _, 0%Z) (λ _, "") (λ _, "") (λ _, "0x1") ex_h ex_h_reachable). Defined.

Lemma job_answers_witness :
  ∃ h' expected,
    run_job ex_decode (λ _, 0%Z) (λ _, "") (λ _, "") (λ _, "0x1") (JMsg ex_call_msg) ex_h = Ret ((), h') ∧
    job_output (JMsg ex_call_msg) expected ∧ wrote (call_output expected) (h_conn ex_h) (h_conn h').
Proof. apply (job_answers ex_decode (λ _, 0%Z) (λ _, "") (λ _, "") (λ _, "0x1") ex_h), ex_h_reachable. Defined.

Lemma response_delivered_once_witness :
  ∃ h', handleMsg (λ _, "") ex_answer ex_h1 = Ret ((), h') ∧ h_respWait h' !! "7" = None.
Proof.
  destruct (response_delivered_once ex_decode (λ _, 0%Z) (λ _, "") (λ _, "") (λ _, "0x1") ex_h1 ex_answer
    ex_h1_reachable eq_refl eq_refl) as (h' & E & Hd).
  exists h'. split; [exact E|]. cbn in Hd. destruct Hd as (-> & _). reflexivity.
Defined.

Lemma cancelAllRequests_spec_witness :
  ∃ h', cancelAllRequests (EVar ErrClientQuit) None ex_h1 = Ret (None, h') ∧ h_respWait h' = ∅.
Proof.
  destruct (cancelAllRequests_spec ex_decode (λ _, 0%Z) (λ _, "") (λ _, "") (λ _, "0x1") ex_h1
    (EVar ErrClientQuit) None ex_h1_reachable) as (r & h' & E & Hw & _ & Hr & _).
  rewrite (proj2 Hr) in E; [by eauto|]. intros id sub Hs. discriminate Hs.
Defined.

(** The handler while a subscription is registered. *)
Definition ex_sub_body (args : list Z) : script :=
  SCreate (λ sub, SReturn [RVal (Subscription_MarshalJSON sub); RErr None]).
Definition ex_sub_rcvr : receiver (list Z → script) :=
  mkReceiver "*main.Calc"
    [mkMethod "Ticks" "" (mkFunc [TPtr (TNamed "main.Calc" false); contextType]
       [TPtr subscriptionType; errorType] ex_sub_body)].
Definition ex_sub_reg : serviceRegistry (list Z → script) :=
  match registerName (λ s, s) "calc" ex_sub_rcvr (mkRegistry ∅) with Ok r => r | Err _ => mkRegistry ∅ end.
Definition ex_subscribe : jsonrpcMessage :=
  mkMsg vsn (Some "1") "calc_subscribe" (Some (print_array [quote "ticks"])) None None.

Definition ex_sub_start : handler (list wireval) Z := newHandler [] ex_sub_reg ∅ ∅ ∅ 0 0 (mkGauges 0 0 0).
Definition ex_serve : go (handler (list wireval) Z) unit :=
  handleMsg (λ _, "") ex_subscribe ;; run_call (λ _ _, Ok 0%Z) (λ _, 0%Z) (λ _, "") (λ _, "") (λ _, "0x1") 0.
Definition subscribed (h : handler (list wireval) Z) : bool :=
  match h_serverSubs h !! "0x1" with Some _ => true | None => false end.
Lemma ex_serve_subscribes : match ex_serve ex_sub_start with Ret (_, h) => subscribed h | _ => false end = true.
Proof. vm_compute. reflexivity. Qed.

Lemma ex_subscribed : ∃ h,
  reachable (λ _ _, Ok 0%Z) (λ _, 0%Z) (λ _, "") (λ _, "") (λ _, "0x1") h ∧ subscribed h = true.
Proof.
  pose proof ex_serve_subscribes as H. unfold ex_serve in H. rewrite go_bind_run in H.
  destruct (handleMsg _ _ _) as [[[] h1]| |] eqn:E1; [|discriminate..].
  destruct (run_call _ _ _ _ _ _ h1) as [[[] h2]| |] eqn:E2; [|discriminate..].
  exists h2. split; [|exact H]. exists [], ex_sub_reg, ∅, ∅, ∅, 0%nat, 0%nat, (mkGauges 0 0 0).
  eapply rtc_l; [by eapply hs_msg|]. eapply rtc_once. by eapply hs_call.
Qed.

Lemma server_subscription_closed_once_witness :
  ∃ (h : handler (list wireval) Z) r h1, unsubscribe "0x1" h = Ret (r, h1) ∧ r = (true, None) ∧
          unsubscribe "0x1" h1 = Ret ((false, Some (EVar ErrSubscriptionNotFound)), h1).
Proof.
  destruct ex_subscribed as (h & Hr & Hs).
  destruct (server_subscription_closed_once _ _ _ _ _ h "0x1" (EVar ErrClientQuit) Hr) as [(r & h1 & E & Hd) _].
  exists h, r, h1. unfold subscribed in Hs. destruct (h_serverSubs h !! "0x1"); [|discriminate].
  destruct Hd as (_ & Hr' & _ & Hu). auto.
Defined.

Lemma call_dispatch_witness :
  ∃ h', handleCall ex_decode (λ _, 0%Z) (λ _, "") (λ _, "") (λ _, "0x1") ex_call_msg ex_h =
          (ex_answer, [], h').
Proof.
  destruct (call_dispatch ex_decode (λ _, 0%Z) (λ _, "") (λ _, "") (λ _, "0x1") ex_h ex_call_msg
    (λ s, s) "calc" "sum" ex_rcvr (mkRegistry ∅)
    (mkCallback (mkFunc [TPtr (TNamed "main.Calc" false); ex_int; ex_int] [ex_int] ex_body) true
       [ex_int; ex_int] false (-1) false) "[3,4]" ["3"; "4"]) as [E _];
    try reflexivity.
  eexists. rewrite E. reflexivity.
Defined.
