(* ===== verification/RpcFrame.v ===== *)
(** * What the handler leaves alone

    Frame lemmas for every entry point of the handler: requests that no ID
    waits for are not touched, no ID is registered by handling messages, nobody else's
    unsubscribing is begun or ended, and the server subscriptions change only where
    calls are served or the handler is closed.  They hold whenever the operation
    returns. *)

From S2P Require Import Prelude GoText Json RpcMessage RpcArgs RpcService GoChan.
From S2P Require Import RpcSubscription RpcClientSub RpcHandler RpcHandlerProps.

Section frame.
Context {W : Type} `{JsonWriter W} {V : Type}.
Context (decode_as : gotype → string → result string V) (Zero : gotype → V)
  (text : decError → string) (as_ID : V → string) (idgen : nat → string).
Abbreviation handler := (handler W V).
Implicit Types h : handler.

Definition unregistered h (loc : nat) : Prop := ∀ id, h_respWait h !! id ≠ Some loc.

(** The goroutines that are quitting subscriptions are the same. *)
Definition same_quits h h' : Prop :=
  ∀ sub op, h_quits h' !! sub = Some (QuitRunning op) ↔ h_quits h !! sub = Some (QuitRunning op).

Lemma same_quits_refl h h' : h_quits h' = h_quits h → same_quits h h'.
Proof. intros E sub op. by rewrite E. Qed.
Lemma same_quits_trans h1 h2 h3 : same_quits h1 h2 → same_quits h2 h3 → same_quits h1 h3.
Proof. intros A B sub op. by rewrite (B sub op). Qed.

(** Requests stay on the heap, with their IDs. *)
Definition same_ids h h' : Prop :=
  ∀ loc op, h_ops h !! loc = Some op → ∃ op', h_ops h' !! loc = Some op' ∧ op_ids op' = op_ids op.

Lemma same_ids_refl h h' : h_ops h' = h_ops h → same_ids h h'.
Proof. intros E loc op Ho. exists op. by rewrite E. Qed.
Lemma same_ids_trans h1 h2 h3 : same_ids h1 h2 → same_ids h2 h3 → same_ids h1 h3.
Proof.
  intros A B loc op Ho. destruct (A loc op Ho) as (op' & Ho' & E). destruct (B loc op' Ho') as (op2 & Ho2 & E2).
  exists op2. by rewrite <-E.
Qed.
Lemma same_ids_heap h h' loc : same_ids h h' → is_Some (h_ops h !! loc) → is_Some (h_ops h' !! loc).
Proof. intros A [op Ho]. destruct (A loc op Ho) as (op' & Ho' & _). eauto. Qed.
Lemma same_ids_upd loc op op' h :
  h_ops h !! loc = Some op → op_ids op' = op_ids op → same_ids h (upd_ops <[loc := op']> h).
Proof.
  intros Ho E l o Hl. cbn. destruct (decide (l = loc)) as [->|Hne].
  - exists op'. rewrite lookup_insert_eq. split; [done|]. congruence.
  - exists o. by rewrite lookup_insert_ne.
Qed.

Record frame h h' : Prop := {
  fr_wait id l : h_respWait h' !! id = Some l → h_respWait h !! id = Some l;
  fr_ops loc : unregistered h loc → h_ops h' !! loc = h_ops h !! loc;
  fr_heap : same_ids h h';
  fr_quits : same_quits h h' }.

Definition same_subs h h' : Prop :=
  h_serverSubs h' = h_serverSubs h ∧ h_subErrs h' = h_subErrs h ∧ h_next h' = h_next h.

Lemma frame_refl h h' : h_respWait h' = h_respWait h → h_ops h' = h_ops h → h_quits h' = h_quits h → frame h h'.
Proof. intros E1 E2 E3. split; [by rewrite E1|by rewrite E2|by apply same_ids_refl|by apply same_quits_refl]. Qed.

Lemma frame_trans h1 h2 h3 : frame h1 h2 → frame h2 h3 → frame h1 h3.
Proof.
  intros [A1 A2 A3 A4] [B1 B2 B3 B4]. split; [auto| |by eapply same_ids_trans|by eapply same_quits_trans].
  intros loc Hu. rewrite B2; [by apply A2|]. intros id Hid. by apply (Hu id), A1.
Qed.

Lemma same_subs_trans h1 h2 h3 : same_subs h1 h2 → same_subs h2 h3 → same_subs h1 h3.
Proof. unfold same_subs. intuition congruence. Qed.

Lemma same_subs_ok h h' ls : same_subs h h' → subs_ok h ls → subs_ok h' ls.
Proof. intros (E1 & E2 & E3). by apply subs_ok_same. Qed.

(** Only the request at [loc] changes. *)
Definition only (loc : nat) h h' : Prop :=
  h_respWait h' = h_respWait h ∧ (∀ l, l ≠ loc → h_ops h' !! l = h_ops h !! l) ∧
  same_ids h h' ∧ same_subs h h' ∧ h_quits h' = h_quits h.

Lemma only_refl loc h h' :
  h_respWait h' = h_respWait h → h_ops h' = h_ops h → same_subs h h' → h_quits h' = h_quits h → only loc h h'.
Proof. intros E1 E2 E3 E4. split_and!; [done|by rewrite E2|by apply same_ids_refl|done|done]. Qed.

Lemma only_trans loc h1 h2 h3 : only loc h1 h2 → only loc h2 h3 → only loc h1 h3.
Proof.
  intros (A1 & A2 & A3 & A4 & A5) (B1 & B2 & B3 & B4 & B5).
  split_and!; [congruence| |by eapply same_ids_trans|by eapply same_subs_trans|congruence].
  intros l Hl. by rewrite B2, A2.
Qed.

Lemma only_upd loc op op' h :
  h_ops h !! loc = Some op → op_ids op' = op_ids op → only loc h (upd_ops <[loc := op']> h).
Proof.
  intros Ho E. split_and!; [done| |by eapply same_ids_upd|done|done]; cbn; intros l Hl. by rewrite lookup_insert_ne.
Qed.

Lemma on_resp_only {A} loc (f : go (chan jsonrpcMessage) A) h a h' :
  on_resp loc f h = Ret (a, h') → only loc h h'.
Proof.
  unfold on_resp. destruct (h_ops h !! loc) as [op|] eqn:Ho; [|done].
  destruct (f (op_resp op)) as [[a' c]| |]; cbn; [|done|done]. intros [= <- <-]. by eapply only_upd.
Qed.

Lemma set_op_err_only loc e h u h' : set_op_err loc e h = Ret (u, h') → only loc h h'.
Proof.
  unfold set_op_err. destruct (h_ops h !! loc) as [op|] eqn:Ho; [|done]. intros [= _ <-]. by eapply only_upd.
Qed.

Lemma only_frame id loc h h' :
  h_respWait h !! id = Some loc → only loc (upd_respWait (delete id) h) h' → frame h h' ∧ same_subs h h'.
Proof.
  intros Hid (A1 & A2 & A3 & A4 & A5). cbn in *. split; [|done]. split.
  - intros i l. rewrite A1. by intros [_ ?]%lookup_delete_Some.
  - intros l Hu. apply A2. intros ->. by apply (Hu id).
  - done.
  - by apply same_quits_refl.
Qed.

Lemma handleResponse_frame msg h u h' :
  handleResponse text msg h = Ret (u, h') → frame h h' ∧ same_subs h h'.
Proof.
  unfold handleResponse. rewrite go_bind_run. cbn [go_get].
  destruct (h_respWait h !! _) as [loc|] eqn:Hl.
  2:{ intros [= _ <-]. split; [by apply frame_refl|done]. }
  rewrite go_bind_run. cbn [go_modify]. intros Hr. eapply only_frame; [exact Hl|].
  set (h1 := upd_respWait _ h) in *. destruct (h_ops h !! loc) as [op|]; [|done].
  destruct (op_sub op) as [sub|]; [|by eapply on_resp_only].
  apply go_bind_inv in Hr as (x & h2 & E1 & E2). eapply only_trans; [|by eapply on_resp_only].
  destruct (Error msg); [by eapply set_op_err_only|].
  destruct (unmarshal_subid _ _ _) as [err subid]. rewrite go_bind_run in E1. cbn [go_modify] in E1.
  apply go_bind_inv in E1 as (y & h3 & E1 & E3).
  eapply only_trans; [apply (only_refl loc h1 (upd_subids <[sub:=subid]> h1)); done|].
  eapply only_trans; [by eapply set_op_err_only|].
  destruct err; [injection E3; intros; subst; by apply only_refl|].
  rewrite go_bind_run in E3. cbn [go_modify] in E3. injection E3; intros; subst. by apply only_refl.
Qed.

Lemma handleImmediate_frame msg h b h' :
  handleImmediate text msg h = Ret (b, h') → frame h h' ∧ same_subs h h'.
Proof.
  assert (frame h h ∧ same_subs h h) as Hrefl by (split; [by apply frame_refl|done]).
  unfold handleImmediate. destruct (isNotification msg).
  - destruct (HasSuffix _ _); [|by intros [= _ <-]]. intros (u & h1 & E1 & E2)%go_bind_inv.
    injection E2; intros; subst. unfold handleSubscriptionResult in E1.
    destruct (decode_subscriptionResult _) as [r|]; [|by injection E1; intros; subst].
    rewrite go_bind_run in E1. cbn [go_get] in E1.
    destruct (h_clientSubs h !! _); injection E1; intros; subst; [|done].
    split; [by apply frame_refl|done].
  - destruct (isResponse msg); [|by intros [= _ <-]]. intros (u & h1 & E1 & E2)%go_bind_inv.
    injection E2; intros; subst. by eapply handleResponse_frame.
Qed.

Lemma immediate_all_frame msgs h l h' :
  immediate_all text msgs h = Ret (l, h') → frame h h' ∧ same_subs h h'.
Proof.
  revert h l h'. induction msgs as [|msg msgs IH]; intros h l h'; cbn [immediate_all].
  { intros [= _ <-]. split; [by apply frame_refl|done]. }
  intros (b & h1 & E1 & (l1 & h2 & E2 & E3)%go_bind_inv)%go_bind_inv. injection E3; intros; subst.
  apply handleImmediate_frame in E1 as [A1 B1]. apply IH in E2 as [A2 B2].
  split; [by eapply frame_trans|by eapply same_subs_trans].
Qed.

Lemma handleMsg_frame msg h u h' : handleMsg text msg h = Ret (u, h') → frame h h' ∧ same_subs h h'.
Proof.
  unfold handleMsg. intros (b & h1 & E1 & E2)%go_bind_inv. apply handleImmediate_frame in E1 as [A1 B1].
  destruct b; injection E2; intros; subst; [done|].
  split; [eapply frame_trans; [exact A1|by apply frame_refl]|done].
Qed.

Lemma handleBatch_frame msgs h u h' : handleBatch text msgs h = Ret (u, h') → frame h h' ∧ same_subs h h'.
Proof.
  destruct msgs as [|msg msgs].
  { intros [= _ <-]. split; [by apply frame_refl|done]. }
  unfold handleBatch. intros (l & h1 & E1 & E2)%go_bind_inv. apply immediate_all_frame in E1 as [A1 B1].
  destruct l; injection E2; intros; subst; [done|].
  split; [eapply frame_trans; [exact A1|by apply frame_refl]|done].
Qed.

(** Cancelling: requests already closed, the one in flight among them, stay. *)
Lemma cancel_ops_frame err entries didClose h u h' :
  cancel_ops err entries didClose h = Ret (u, h') →
  h_respWait h' = foldl (λ m e, delete e.1 m) (h_respWait h) entries ∧
  (∀ loc, loc ∉ entries.*2 ∨ loc ∈ didClose → h_ops h' !! loc = h_ops h !! loc) ∧
  same_ids h h' ∧ same_subs h h' ∧
  h_callWG h' = h_callWG h ∧ h_quits h' = h_quits h.
Proof.
  revert didClose h. induction entries as [|[id op] entries IH]; intros didClose h; cbn [cancel_ops].
  { intros [= _ <-]. split_and!; try done. by apply same_ids_refl. }
  rewrite go_bind_run. cbn [go_modify]. set (h1 := upd_respWait _ h). case_decide as Hin.
  - intros (A1 & A2 & A3 & A4 & A5 & A6)%IH. split_and!; try done. intros loc Hl. rewrite A2; [done|].
    destruct Hl as [Hl|Hl]; [left|by right]. intros Hc. apply Hl. by right.
  - intros (x & h2 & E1 & (y & h3 & E2 & E3)%go_bind_inv)%go_bind_inv.
    assert (h_callWG h3 = h_callWG h) as Hwg.
    { unfold set_op_err in E1. destruct (h_ops h1 !! op); [|done]. injection E1; intros; subst.
      unfold on_resp in E2. destruct (_ !! op); [|done]. destruct (chan_close _) as [[]| |]; [|done|done].
      by injection E2; intros; subst. }
    apply set_op_err_only in E1. apply on_resp_only in E2.
    destruct (only_trans _ _ _ _ E1 E2) as (O1 & O2 & O3 & O4 & O5).
    apply IH in E3 as (A1 & A2 & A3 & A4 & A5 & A6). split_and!.
    + by rewrite A1, O1.
    + intros loc Hl. assert (loc ≠ op) as Hne.
      { intros ->. destruct Hl as [Hl|Hl]; [apply Hl; by left|done]. }
      rewrite A2, O2; [done|done|]. destruct Hl as [Hl|Hl]; [left|right; by right].
      intros Hc. apply Hl. by right.
    + by eapply same_ids_trans.
    + by eapply same_subs_trans.
    + by rewrite A5.
    + by rewrite A6.
Qed.

(** What cancelling and closing leave alone. *)
Record close_frame (infl : option nat) h h' : Prop := {
  cf_ops loc : unregistered h loc ∨ infl = Some loc → h_ops h' !! loc = h_ops h !! loc;
  cf_heap : same_ids h h';
  cf_quits : same_quits h h' }.

Lemma quit_subs_frame err l h r h' :
  quit_client_subs err l h = Ret (r, h') →
  h_respWait h' = h_respWait h ∧ h_ops h' = h_ops h ∧ same_subs h h' ∧ h_callWG h' = h_callWG h ∧ same_quits h h'.
Proof.
  destruct (quit_subs_run idgen err l h) as (r1 & h1 & quit & -> & [D1 D2 D3 D4 D5 D6] & _). intros [= _ <-].
  unfold same_rest in D1. unfold same_subs. split_and!; try tauto.
  intros sub op. rewrite D4. case_decide as Hs; [|done]. split; [done|]. intros Hq.
  apply list_elem_of_fmap in Hs as (e & -> & He). destruct (D5 e He). by exists op.
Qed.

Lemma cancelAllRequests_frame err infl h r h' :
  cancelAllRequests err infl h = Ret (r, h') →
  h_respWait h' = ∅ ∧ close_frame infl h h' ∧ same_subs h h' ∧ h_callWG h' = h_callWG h.
Proof.
  unfold cancelAllRequests. rewrite go_bind_run. cbn [go_get]. intros (x & h1 & E1 & E2)%go_bind_inv.
  rewrite go_bind_run in E2. cbn [go_get] in E2.
  apply cancel_ops_frame in E1 as (A1 & A2 & A3 & A4 & A5 & A6). apply quit_subs_frame in E2 as (B1 & B2 & B3 & B4 & B5).
  split_and!.
  - rewrite B1, A1. apply foldl_delete_all, map_to_list_keys.
  - split.
    + intros loc Hl. rewrite B2. apply A2. destruct Hl as [Hl| ->]; [left|right; by left].
      intros ([id l] & E & Hin)%list_elem_of_fmap. cbn in E. subst. apply (Hl id). by apply elem_of_map_to_list.
    + eapply same_ids_trans; [exact A3|by apply same_ids_refl].
    + eapply same_quits_trans; [by apply same_quits_refl|exact B5].
  - by eapply same_subs_trans.
  - congruence.
Qed.

Lemma resume_cancel_frame err sub h r h' :
  resume_cancel err sub h = Ret (r, h') →
  h_respWait h' = h_respWait h ∧ h_ops h' = h_ops h ∧ same_subs h h' ∧ h_callWG h' = h_callWG h ∧ same_quits h h'.
Proof.
  unfold resume_cancel. rewrite go_bind_run. destruct (quit_client_sub_run err sub h) as [[Hq ->]|[Hq ->]]; [done|].
  rewrite go_bind_run. cbn [go_get]. intros (A1 & A2 & A3 & A4 & A5)%quit_subs_frame. split_and!; [done..|].
  eapply same_quits_trans; [|exact A5]. intros s op. cbn. destruct (decide (s = sub)) as [->|Hne]; [|by rewrite lookup_insert_ne].
  rewrite lookup_insert_eq. split; [done|]. intros Hs. destruct Hq. by exists op.
Qed.

Lemma close_after_frame err r h r' h' :
  subs_ok h [] → close_after err r h = Ret (r', h') →
  r' = r ∧ h_respWait h' = h_respWait h ∧ h_ops h' = h_ops h ∧ h_quits h' = h_quits h ∧ subs_ok h' [] ∧
  h_clientSubs h' = h_clientSubs h ∧ h_callWG h' = h_callWG h.
Proof.
  intros Hok. unfold close_after, close_rest. destruct r as [sub|]; [by intros [= <- <-]|].
  rewrite go_bind_run, go_bind_run. cbn [go_get]. destruct (h_callWG h) eqn:Hwg; [|done].
  rewrite go_bind_run. cbn [go_modify].
  destruct (cancelServerSubscriptions_run err (cancelRoot h)) as (h2 & -> & B1 & (C1 & C2 & C3 & C4 & C5 & C6 & C7 & C8) & _).
  { by apply (subs_ok_same h). }
  intros [= <- <-]. split_and!; try done. by rewrite C5.
Qed.

Lemma close_handler_frame err infl h r h' :
  subs_ok h [] → close_handler err infl h = Ret (r, h') →
  h_respWait h' = ∅ ∧ close_frame infl h h' ∧ subs_ok h' [].
Proof.
  intros Hok. unfold close_handler. intros (r1 & h1 & E1 & E2)%go_bind_inv.
  apply cancelAllRequests_frame in E1 as (A1 & [A2 A3 A4] & A5 & A6).
  apply close_after_frame in E2 as (-> & B1 & B2 & B3 & B4 & _); [|by eapply same_subs_ok].
  split_and!; [by rewrite B1| |done]. split; [by rewrite B2|eapply same_ids_trans; [exact A3|by apply same_ids_refl]|].
  eapply same_quits_trans; [exact A4|by apply same_quits_refl].
Qed.

Lemma resume_close_frame err sub h r h' :
  subs_ok h [] → resume_close err sub h = Ret (r, h') →
  h_respWait h' = h_respWait h ∧ h_ops h' = h_ops h ∧ same_quits h h' ∧ subs_ok h' [] ∧ h_callWG h' = h_callWG h.
Proof.
  intros Hok. unfold resume_close. intros (r1 & h1 & E1 & E2)%go_bind_inv.
  apply resume_cancel_frame in E1 as (A1 & A2 & A3 & A4 & A5).
  apply close_after_frame in E2 as (-> & B1 & B2 & B3 & B4 & _ & B6); [|by eapply same_subs_ok].
  split_and!; [congruence..| |done|congruence]. eapply same_quits_trans; [exact A5|by apply same_quits_refl].
Qed.

(** Nothing goes on while somebody else is quitting the subscription. *)
Lemma resume_close_blocked err sub h : quitting h sub → resume_close err sub h = Blocks "sync.Once".
Proof.
  intros [op Hq]. unfold resume_close. rewrite go_bind_run. unfold resume_cancel. rewrite go_bind_run.
  unfold quit_client_sub. rewrite go_bind_run. cbn [go_get]. by rewrite Hq.
Qed.

Lemma run_call_frame i h u h' :
  subs_ok h [] → run_call decode_as Zero text as_ID idgen i h = Ret (u, h') → frame h h' ∧ subs_ok h' [].
Proof.
  intros Hok. unfold RpcHandler.run_call. rewrite go_bind_run. cbn [go_get].
  destruct (h_callWG h !! i) as [j|]; [|intros [= _ <-]; split; [by apply frame_refl|done]].
  rewrite go_bind_run. cbn [go_modify]. set (h1 := upd_callWG _ h).
  destruct (run_job_run decode_as Zero text as_ID idgen j h1) as (h2 & exp & -> & _ & (C1 & C2 & _ & _ & _ & _ & _ & C8) & Hok2 & _).
  { by apply (subs_ok_same h). }
  intros [= _ <-]. split; [|done]. by apply frame_refl.
Qed.

(** The goroutines of calls leave the requests and the client's subscriptions alone. *)
Lemma run_call_same i h u h' :
  subs_ok h [] → run_call decode_as Zero text as_ID idgen i h = Ret (u, h') →
  h_respWait h' = h_respWait h ∧ h_ops h' = h_ops h ∧ h_clientSubs h' = h_clientSubs h ∧ h_quits h' = h_quits h ∧
  (is_Some (h_callWG h !! i) → h_callWG h' = delete i (h_callWG h)).
Proof.
  intros Hok. unfold RpcHandler.run_call. rewrite go_bind_run. cbn [go_get].
  destruct (h_callWG h !! i) as [j|] eqn:Hi.
  2:{ intros [= _ <-]. split_and!; try done. }
  rewrite go_bind_run. cbn [go_modify]. set (h1 := upd_callWG _ h).
  destruct (run_job_run decode_as Zero text as_ID idgen j h1) as (h2 & exp & -> & _ & (C1 & C2 & C3 & _ & C5 & _ & _ & C8) & _).
  { by apply (subs_ok_same h). }
  intros [= _ <-]. by split_and!.
Qed.

Lemma removeRequestOp_frame loc h u h' : removeRequestOp loc h = Ret (u, h') → frame h h' ∧ same_subs h h'.
Proof.
  unfold removeRequestOp. destruct (h_ops h !! loc) as [op|]; [|done]. intros [= _ <-]. split; [|done].
  split; [|done|by apply same_ids_refl|done]. cbn. generalize (h_respWait h). induction (op_ids op) as [|i ids IH]; intros m id l; cbn; [done|].
  intros Hl%IH. by apply lookup_delete_Some in Hl as [_ Hl].
Qed.

Lemma addRequestOp_frame loc h u h' : addRequestOp loc h = Ret (u, h') →
  h_ops h' = h_ops h ∧ same_subs h h' ∧ h_quits h' = h_quits h ∧
  (∀ id l, h_respWait h' !! id = Some l → l = loc ∨ h_respWait h !! id = Some l).
Proof.
  unfold addRequestOp. destruct (h_ops h !! loc) as [op|]; [|done]. intros [= _ <-]. split_and!; [done..|].
  intros id l. apply lookup_foldl_insert.
Qed.

(** ** Registered requests and their answers *)

(** A request that its caller does not wait for any more: it has an answer, or its
    channel is closed. *)
Definition answered_op (op : requestOp) : Prop := ch_buf (op_resp op) ≠ [] ∨ ch_closed (op_resp op) = true.
Definition has_answer h loc : Prop := ∃ op, h_ops h !! loc = Some op ∧ answered_op op.

(** Answers stay, and an ID is forgotten only when its request has its answer. *)
Definition keeps_answers h h' : Prop :=
  (∀ loc, has_answer h loc → has_answer h' loc) ∧
  (∀ id loc, h_respWait h !! id = Some loc → h_respWait h' !! id = Some loc ∨ has_answer h' loc).

Lemma keeps_answers_refl h h' : h_respWait h' = h_respWait h → h_ops h' = h_ops h → keeps_answers h h'.
Proof. intros E1 E2. unfold keeps_answers, has_answer. rewrite E1, E2. auto. Qed.
Lemma keeps_answers_trans h1 h2 h3 : keeps_answers h1 h2 → keeps_answers h2 h3 → keeps_answers h1 h3.
Proof.
  intros [A1 A2] [B1 B2]. split; [auto|]. intros id loc Hid. destruct (A2 id loc Hid) as [Hid'|Ha]; auto.
Qed.

Lemma handleResponse_answers msg h u h' :
  ops_ok h → handleResponse text msg h = Ret (u, h') → keeps_answers h h'.
Proof.
  intros Hok. destruct (handleResponse_run text h msg Hok) as (h1 & -> & _ & _ & Hd). intros [= _ <-].
  destruct (h_respWait h !! default "" (ID msg)) as [loc|] eqn:Hl; [|subst; by apply keeps_answers_refl].
  destruct Hd as (D1 & D2 & op & op' & D3 & D4 & _ & _ & D5).
  assert (answered_op op') as Ha.
  { unfold answered_op. destruct (op_sub op); [by right; destruct D5|left]. destruct D5 as (_ & _ & ->). by destruct (ch_buf _). }
  split.
  - intros l (o & Ho & Hal). destruct (decide (l = loc)) as [->|Hne]; [by exists op'|]. exists o. by rewrite D2.
  - intros id l Hid. rewrite D1. destruct (decide (id = default "" (ID msg))) as [->|Hne].
    + right. exists op'. by simplify_eq.
    + left. by rewrite lookup_delete_ne.
Qed.

Lemma handleImmediate_answers msg h b h' :
  ops_ok h → handleImmediate text msg h = Ret (b, h') → keeps_answers h h' ∧ ops_ok h'.
Proof.
  intros Hok E. destruct (handleImmediate_run text msg h Hok) as (b1 & h1 & E1 & Hok1 & _).
  assert (h1 = h') as -> by congruence. split; [|done]. clear E1. revert E. unfold handleImmediate.
  destruct (isNotification msg).
  - destruct (HasSuffix _ _); [|intros [= _ <-]; by apply keeps_answers_refl].
    intros (u & h1 & E1 & E2)%go_bind_inv. injection E2; intros; subst. unfold handleSubscriptionResult in E1.
    destruct (decode_subscriptionResult _) as [r|]; [|injection E1; intros; subst; by apply keeps_answers_refl].
    rewrite go_bind_run in E1. cbn [go_get] in E1.
    destruct (h_clientSubs h !! _); injection E1; intros; subst; by apply keeps_answers_refl.
  - destruct (isResponse msg); [|intros [= _ <-]; by apply keeps_answers_refl].
    intros (u & h1 & E1 & E2)%go_bind_inv. injection E2; intros; subst. by eapply handleResponse_answers.
Qed.

Lemma immediate_all_answers msgs h l h' :
  ops_ok h → immediate_all text msgs h = Ret (l, h') → keeps_answers h h'.
Proof.
  revert h l h'. induction msgs as [|msg msgs IH]; intros h l h' Hok; cbn [immediate_all].
  { intros [= _ <-]. by apply keeps_answers_refl. }
  intros (b & h1 & E1 & (l1 & h2 & E2 & E3)%go_bind_inv)%go_bind_inv. injection E3; intros; subst.
  apply handleImmediate_answers in E1 as [A1 B1]; [|done]. eapply keeps_answers_trans; [exact A1|by eapply IH].
Qed.

Lemma handleMsg_answers msg h u h' : ops_ok h → handleMsg text msg h = Ret (u, h') → keeps_answers h h'.
Proof.
  intros Hok. unfold handleMsg. intros (b & h1 & E1 & E2)%go_bind_inv. apply handleImmediate_answers in E1 as [A1 B1]; [|done].
  destruct b; injection E2; intros; subst; [done|]. eapply keeps_answers_trans; [exact A1|by apply keeps_answers_refl].
Qed.

Lemma handleBatch_answers msgs h u h' : ops_ok h → handleBatch text msgs h = Ret (u, h') → keeps_answers h h'.
Proof.
  intros Hok. destruct msgs as [|msg msgs]; [intros [= _ <-]; by apply keeps_answers_refl|].
  unfold handleBatch. intros (l & h1 & E1 & E2)%go_bind_inv. apply immediate_all_answers in E1; [|done].
  destruct l; injection E2; intros; subst; [done|]. eapply keeps_answers_trans; [exact E1|by apply keeps_answers_refl].
Qed.

(** Registering a request, and giving up on one, leave the IDs of others alone. *)
Lemma addRequestOp_ids loc op h u h' id :
  h_ops h !! loc = Some op → addRequestOp loc h = Ret (u, h') →
  (id ∈ op_ids op → h_respWait h' !! id = Some loc) ∧
  (id ∉ op_ids op → h_respWait h' !! id = h_respWait h !! id).
Proof.
  unfold addRequestOp. intros -> [= _ <-]. cbn. generalize (h_respWait h). induction (op_ids op) as [|i ids IH]; intros m; cbn.
  { split; [by intros ?%elem_of_nil|done]. }
  destruct (IH (<[i := loc]> m)) as [A B]. split.
  - intros Hin. destruct (decide (id ∈ ids)) as [Hi|Hi]; [by apply A|]. rewrite B by done.
    apply elem_of_cons in Hin as [->|?]; [apply lookup_insert_eq|done].
  - intros Hn. apply not_elem_of_cons in Hn as [Hne Hn]. by rewrite B, lookup_insert_ne.
Qed.
Lemma removeRequestOp_ids loc op h u h' id :
  h_ops h !! loc = Some op → removeRequestOp loc h = Ret (u, h') → id ∉ op_ids op →
  h_respWait h' !! id = h_respWait h !! id.
Proof.
  unfold removeRequestOp. intros -> [= _ <-]. cbn. generalize (h_respWait h). induction (op_ids op) as [|i ids IH]; intros m; cbn; [done|].
  intros [Hne Hn]%not_elem_of_cons. by rewrite IH, lookup_delete_ne.
Qed.
End frame.
