(* ===== verification/RpcClient.v ===== *)
(** * The client (simple_rpc/rpc/client.go)

    The dispatch loop is a state and one function per branch of its select; the
    goroutines that send requests are threads that share the send lock with it; so are
    those that unsubscribe, which hold the [quitOnce] of their subscription until their
    request has returned, and the loop may come to stand in front of it.
    Requests and handlers are those of {!RpcHandler}: a new connection gets a new
    handler over the same heap of requests.  What a connection returns (write
    errors, dial errors, messages and errors read) is up to the environment. *)

From S2P Require Import Prelude GoText Json RpcMessage RpcArgs RpcService GoChan.
From S2P Require Import RpcSubscription RpcClientSub RpcHandler.

(** ** Requests *)

(** [nextID]: the counter after [atomic.AddUint32] and the ID's text. *)
Definition nextID (idCounter : Z) : Z * string :=
  let id := wrapu 32 (idCounter + 1) in (id, FormatUint (Z.to_N id)).

(** [newMessage]: [params] is what Marshal gives for the arguments, [None] for
    none. *)
Definition newMessage (idCounter : Z) (method : string) (params : option gval) :
    result gerror jsonrpcMessage * Z :=
  let '(c, id) := nextID idCounter in
  (match params with
   | None => Ok (mkMsg vsn (Some id) method None None None)
   | Some (Ok t) => Ok (mkMsg vsn (Some id) method (Some t) None None)
   | Some (Err e) => Err (ENew e)
   end, c).

(** The start of [CallContext]: [result] is the caller's result when it is not
    nil, as whether it is a pointer and its text with [%v]. *)
Definition CallContext_message (result : option (bool * string)) (idCounter : Z) (method : string)
    (params : option gval) : Prelude.result gerror jsonrpcMessage * Z :=
  match result with
  | Some (false, v) => (Err (ENew ("call result parameter must be pointer or nil interface: " +:+ v)), idCounter)
  | _ => newMessage idCounter method params
  end.

(** The requests that [CallContext], [BatchCallContext], [Notify] and [Subscribe]
    make: the channel has a buffer of one, one per element, is nil, or has none. *)
Definition call_op (id : string) : requestOp := mkOp [id] None (make_chan 1) None.
Definition batch_op (ids : list string) : requestOp := mkOp ids None (make_chan (length ids)) None.
Definition notify_op : requestOp := mkOp [] None (make_chan 0) None.
Definition subscribe_op (id : string) (sub : nat) : requestOp := mkOp [id] None (make_chan 0) (Some sub).


(** A request as one of the client's methods makes it. *)
Inductive request : requestOp → Prop :=
| req_call id : request (call_op id)
| req_batch ids : request (batch_op ids)
| req_notify : request notify_op
| req_subscribe id sub : request (subscribe_op id sub).

(** [Notify] drops the ID of its message. *)
Definition Notify_message (idCounter : Z) (method : string) (params : option gval) :
    result gerror jsonrpcMessage * Z :=
  let '(r, c) := newMessage idCounter method params in
  (match r with Ok m => Ok (set_ID m None) | Err e => Err e end, c).

(** [Subscribe] on a channel of the subscriber: whether it is a channel, can be
    sent to, is nil. *)
Record chanArg := mkChanArg { ca_is_chan : bool; ca_send_dir : bool; ca_is_nil : bool }.
Definition Subscribe_message (isHTTP : bool) (idCounter : Z) (namespace : string) (channel : chanArg)
    (params : option gval) : outcome (result gerror jsonrpcMessage * Z) :=
  if negb (ca_is_chan channel) || negb (ca_send_dir channel)
  then Panic "first argument to Subscribe must be a writable channel"
  else if ca_is_nil channel then Panic "channel given to Subscribe must not be nil"
  else if isHTTP then Ret (Err (EVar ErrNotificationsUnsupported), idCounter)
  else Ret (newMessage idCounter (namespace +:+ subscribeMethodSuffix) params).

(** What [op.wait] returns: the context's error, or a message ([None] from a
    closed channel) with [op.err]. *)
Inductive waited := WaitDone (err : gerror) | WaitResp (resp : option jsonrpcMessage) (err : option gerror).

Definition op_wait (ctx_err : option gerror) (op : requestOp) : outcome (waited * requestOp) :=
  match ctx_err with
  | Some e => Ret (WaitDone e, op)
  | None =>
      '(r, c) ← chan_recv (op_resp op);
      Ret (WaitResp r (op_err op), mkOp (op_ids op) (op_err op) c (op_sub op))
  end.

(** The end of [CallContext], from the send error and the result of [op.wait];
    [unmarshal] is decoding into the caller's result. *)
Definition CallContext_result (unmarshal : string → option gerror)
    (send_err : option gerror) (w : waited) : outcome (option gerror) :=
  match send_err with
  | Some e => Ret (Some e)
  | None =>
      match w with
      | WaitDone e => Ret (Some e)
      | WaitResp _ (Some e) => Ret (Some e)
      | WaitResp None None => Panic "invalid memory address or nil pointer dereference"
      | WaitResp (Some resp) None =>
          match Error resp with
          | Some e => Ret (Some (EJson e))
          | None =>
              match Result resp with
              | None | Some EmptyString => Ret (Some (EVar ErrNoResult))
              | Some t => Ret (unmarshal t)
              end
          end
      end
  end.

(** The end of [Subscribe]: the subscription, at a location, or the error. *)
Definition Subscribe_result (sub : nat) (send_err : option gerror) (w : waited) : Prelude.result gerror nat :=
  match send_err with
  | Some e => Err e
  | None =>
      match w with
      | WaitDone e => Err e
      | WaitResp _ (Some e) => Err e
      | WaitResp _ None => Ok sub
      end
  end.

(** ** Batches *)

(** A [BatchElem]: decoding into its [Result], what was decoded, its [Error]. *)
Record BatchElem := mkElem {
  be_Method : string;
  be_Args : option gval;
  be_unmarshal : string → option gerror;
  be_Result : option string;
  be_Error : option gerror }.

Definition set_be_Error (e : BatchElem) (err : option gerror) : BatchElem :=
  mkElem (be_Method e) (be_Args e) (be_unmarshal e) (be_Result e) err.

(** What the response to an element does to it. *)
Definition apply_resp (e : BatchElem) (resp : jsonrpcMessage) : BatchElem :=
  match Error resp with
  | Some err => set_be_Error e (Some (EJson err))
  | None =>
      match Result resp with
      | None | Some EmptyString => set_be_Error e (Some (EVar ErrNoResult))
      | Some t => mkElem (be_Method e) (be_Args e) (be_unmarshal e) (Some t) (be_unmarshal e t)
      end
  end.

(** The inner loop: the first element whose message has the response's ID. *)
Fixpoint find_elem (msgs : list jsonrpcMessage) (id : RawMessage) : option nat :=
  match msgs with
  | [] => None
  | m :: msgs => if decide (ID m = id) then Some O else S <$> find_elem msgs id
  end.

(** The messages of a batch. *)
Fixpoint batch_messages (idCounter : Z) (b : list BatchElem) : result gerror (list jsonrpcMessage) * Z :=
  match b with
  | [] => (Ok [], idCounter)
  | e :: b =>
      match newMessage idCounter (be_Method e) (be_Args e) with
      | (Err err, c) => (Err err, c)
      | (Ok m, c) =>
          let '(r, c) := batch_messages c b in
          (match r with Ok l => Ok (m :: l) | Err err => Err err end, c)
      end
  end.

(** The waiting loop of [BatchCallContext], on what the successive [op.wait]
    calls return. *)
Fixpoint batch_loop (msgs : list jsonrpcMessage) (b : list BatchElem) (ws : list waited) :
    outcome (option gerror * list BatchElem) :=
  match ws with
  | [] => Ret (None, b)
  | WaitDone e :: _ | WaitResp _ (Some e) :: _ => Ret (Some e, b)
  | WaitResp None None :: _ => Panic "invalid memory address or nil pointer dereference"
  | WaitResp (Some resp) None :: ws =>
      match find_elem msgs (ID resp) with
      | None => Panic "invalid memory address or nil pointer dereference"
      | Some i =>
          match b !! i with
          | None => Panic "index out of range"
          | Some e => batch_loop msgs (<[i := apply_resp e resp]> b) ws
          end
      end
  end.

(** [BatchCallContext] after its messages are made: the send error, and what the
    [op.wait] calls return, one for each element. *)
Definition BatchCallContext_result (msgs : list jsonrpcMessage) (b : list BatchElem)
    (send_err : option gerror) (ws : list waited) : outcome (option gerror * list BatchElem) :=
  match send_err with
  | Some e => Ret (Some e, b)
  | None => batch_loop msgs b (take (length b) ws)
  end.

Section client.
Context {W : Type} `{JsonWriter W} {V : Type}.
Variable decode_as : gotype → string → result string V.
Variable Zero : gotype → V.
Variable decError_text : decError → string.
Variable as_ID : V → string.
Variable idgen : nat → string.

Abbreviation handler := (handler W V).

(** ** The dispatch loop *)

(** What the loop does when the connection's [close] returns: it leaves the loop, or it
    goes on after a read error, or to the new connection. *)
Inductive after_close := AfterExit | AfterReadErr | AfterReconnect (newcodec : nat) (w : W).

(** [dp_conn] and [dp_codec] are the [clientConn]; [dp_reader] is the codec whose
    read goroutine is running; [dp_waiting] is set while the loop stands in the
    [quitOnce] of a subscription, inside [close] with the error. *)
Record dispatch := mkDispatch {
  dp_lastOp : option nat;
  dp_accept : bool;          (* reqInitLock is c.reqInit; otherwise nil *)
  dp_conn : handler;
  dp_codec : nat;
  dp_reading : bool;
  dp_reader : option nat;
  dp_closedCodecs : list nat;
  dp_closing : bool;         (* closed channels *)
  dp_didClose : bool;
  dp_waiting : option (nat * gerror * after_close) }.

Definition set_send (lastOp : option nat) (accept : bool) (d : dispatch) : dispatch :=
  mkDispatch lastOp accept (dp_conn d) (dp_codec d) (dp_reading d) (dp_reader d)
    (dp_closedCodecs d) (dp_closing d) (dp_didClose d) (dp_waiting d).
Definition set_dp_conn (h : handler) (d : dispatch) : dispatch :=
  mkDispatch (dp_lastOp d) (dp_accept d) h (dp_codec d) (dp_reading d) (dp_reader d)
    (dp_closedCodecs d) (dp_closing d) (dp_didClose d) (dp_waiting d).
Definition set_read (reading : bool) (reader : option nat) (d : dispatch) : dispatch :=
  mkDispatch (dp_lastOp d) (dp_accept d) (dp_conn d) (dp_codec d) reading reader
    (dp_closedCodecs d) (dp_closing d) (dp_didClose d) (dp_waiting d).
Definition close_codec (d : dispatch) : dispatch :=
  mkDispatch (dp_lastOp d) (dp_accept d) (dp_conn d) (dp_codec d) (dp_reading d) (dp_reader d)
    (dp_codec d :: dp_closedCodecs d) (dp_closing d) (dp_didClose d) (dp_waiting d).
Definition set_closing (d : dispatch) : dispatch :=
  mkDispatch (dp_lastOp d) (dp_accept d) (dp_conn d) (dp_codec d) (dp_reading d) (dp_reader d)
    (dp_closedCodecs d) true (dp_didClose d) (dp_waiting d).
Definition set_didClose (d : dispatch) : dispatch :=
  mkDispatch (dp_lastOp d) (dp_accept d) (dp_conn d) (dp_codec d) (dp_reading d) (dp_reader d)
    (dp_closedCodecs d) (dp_closing d) true (dp_waiting d).
Definition set_waiting (w : option (nat * gerror * after_close)) (d : dispatch) : dispatch :=
  mkDispatch (dp_lastOp d) (dp_accept d) (dp_conn d) (dp_codec d) (dp_reading d) (dp_reader d)
    (dp_closedCodecs d) (dp_closing d) (dp_didClose d) w.

(** [c.newClientConn(codec)]: a new handler; the program's heaps go with it. *)
Definition newClientConn (codec : nat) (w : W) (d : dispatch) : dispatch :=
  let h := dp_conn d in
  mkDispatch (dp_lastOp d) (dp_accept d)
    (newHandler w (h_reg h) (h_ops h) (h_subids h) (h_quits h) (h_next h) (h_ids h) (h_gauges h)) codec
    (dp_reading d) (dp_reader d) (dp_closedCodecs d) (dp_closing d) (dp_didClose d) (dp_waiting d).

(** [conn.handler.f()] *)
Definition on_conn {A} (f : go handler A) : go dispatch A := λ d,
  '(a, h) ← f (dp_conn d); Ret (a, set_dp_conn h d).

(** [drainRead] drops what the reader still sends, up to its error; closing the
    codec is what makes the reader fail. *)
Definition drainRead : go dispatch unit := go_modify (λ d, set_read (dp_reading d) None d).

(** [lastOp] where the code dereferences it. *)
Definition with_lastOp (f : nat → go handler unit) : go dispatch unit := λ d,
  match dp_lastOp d with
  | None => Panic "invalid memory address or nil pointer dereference"
  | Some op => on_conn (f op) d
  end.

(** After the old connection, if there was one, has gone. *)
Definition reconnect_to (newcodec : nat) (w : W) : go dispatch unit :=
  go_modify (set_read true (Some newcodec)) ;;
  go_modify (newClientConn newcodec w) ;;
  with_lastOp addRequestOp.

(** What follows [conn.close] in the three places where the loop calls it. *)
Definition after_conn_close (k : after_close) : go dispatch unit :=
  match k with
  | AfterExit => drainRead ;; go_modify set_didClose
  | AfterReadErr => go_modify (set_read false None)
  | AfterReconnect newcodec w => drainRead ;; reconnect_to newcodec w
  end.

(** [clientConn.close] from where the handler's [close] stands, and what follows. *)
Definition finish_close (err : gerror) (k : after_close) (standing : option nat) : go dispatch unit :=
  match standing with
  | Some sub => go_modify (set_waiting (Some (sub, err, k)))
  | None =>
      go_modify (set_waiting None) ;;
      go_modify close_codec ;;
      after_conn_close k
  end.
Definition conn_close (err : gerror) (inflightReq : option nat) (k : after_close) : go dispatch unit :=
  standing ← on_conn (close_handler err inflightReq);
  finish_close err k standing.

(** The [quitOnce] in which the loop stands has been done. *)
Definition once_done : go dispatch unit :=
  d ← go_get;
  match dp_waiting d with
  | None => mret ()
  | Some (sub, err, k) =>
      standing ← on_conn (resume_close err sub);
      finish_close err k standing
  end.

(** The cases of the select, and the end of a wait inside of one of them. *)
Inductive event :=
| EvClose
| EvReadOp (msgs : list jsonrpcMessage) (batch : bool)
| EvReadErr (err : gerror)
| EvReconnected (newcodec : nat) (w : W)
| EvReqInit (op : nat)
| EvReqSent (err : option gerror)
| EvReqTimeout (op : nat)
| EvOnceDone.

(** The deferred function of [dispatch]. *)
Definition dispatch_exit : go dispatch unit :=
  go_modify set_closing ;;
  d ← go_get;
  if dp_reading d then conn_close (EVar ErrClientQuit) None AfterExit
  else go_modify set_didClose.

Definition dispatch_case (ev : event) : go dispatch unit :=
  match ev with
  | EvClose => dispatch_exit
  | EvReadOp msgs batch =>
      if batch then on_conn (handleBatch decError_text msgs)
      else match msgs with
           | msg :: _ => on_conn (handleMsg decError_text msg)
           | [] => go_panic "index out of range"
           end
  | EvReadErr err =>
      d ← go_get;
      conn_close err (dp_lastOp d) AfterReadErr
  | EvReconnected newcodec w =>
      d ← go_get;
      if dp_reading d then conn_close (EVar errClientReconnected) (dp_lastOp d) (AfterReconnect newcodec w)
      else reconnect_to newcodec w
  | EvReqInit op =>
      go_modify (set_send (Some op) false) ;;
      on_conn (addRequestOp op)
  | EvReqSent err =>
      match err with Some _ => with_lastOp removeRequestOp | None => mret () end ;;
      go_modify (set_send None true)
  | EvReqTimeout op => on_conn (removeRequestOp op)
  | EvOnceDone => once_done
  end.

(** While the loop stands in a [quitOnce], it takes part in nothing else. *)
Definition dispatch_event (ev : event) : go dispatch unit :=
  d ← go_get;
  match dp_waiting d, ev with
  | Some _, EvOnceDone => once_done
  | Some _, _ => go_block "sync.Once"
  | None, _ => dispatch_case ev
  end.

(** [initClient]: the loop's state when it starts, with the read loop spawned. *)
Definition init_dispatch (codec : nat) (w : W) (reg : serviceRegistry (list V → script)) : dispatch :=
  mkDispatch None true (newHandler w reg ∅ ∅ ∅ 0 0 (mkGauges 0 0 0)) codec true (Some codec) [] false false None.

(** ** Sending *)

(** The points of [send], [write] and [reconnect] in a goroutine: offering the
    request to dispatch; the top of [write]; offering the new connection to
    dispatch; before [writeJSON]; before reporting on [reqSent]; the end. *)
Inductive send_pc :=
| SInit
| SWrite (retry : bool)
| SReconnect (retry : bool) (newconn : nat) (w : W)
| SEmit (retry : bool)
| SReport (err : option gerror)
| SReturn (err : option gerror).

Record sender := mkSender { sn_op : nat; sn_pc : send_pc }.

Record client := mkClient {
  cl_dispatch : dispatch;
  cl_running : bool;                      (* the dispatch loop has not returned *)
  cl_reconnectFunc : bool;                (* reconnectFunc is set *)
  cl_writeConn : option nat;
  cl_reqSent : list (option gerror);      (* the buffer of reqSent, of capacity one *)
  cl_senders : list sender }.

Definition upd_sender (i : nat) (s : sender) (pc : send_pc) (c : client) : client :=
  mkClient (cl_dispatch c) (cl_running c) (cl_reconnectFunc c) (cl_writeConn c) (cl_reqSent c)
    (<[i := mkSender (sn_op s) pc]> (cl_senders c)).
Definition upd_dispatch (d : dispatch) (c : client) : client :=
  mkClient d (cl_running c) (cl_reconnectFunc c) (cl_writeConn c) (cl_reqSent c) (cl_senders c).
Definition set_writeConn (w : option nat) (c : client) : client :=
  mkClient (cl_dispatch c) (cl_running c) (cl_reconnectFunc c) w (cl_reqSent c) (cl_senders c).
Definition set_reqSent (l : list (option gerror)) (c : client) : client :=
  mkClient (cl_dispatch c) (cl_running c) (cl_reconnectFunc c) (cl_writeConn c) l (cl_senders c).
Definition stop_running (c : client) : client :=
  mkClient (cl_dispatch c) false (cl_reconnectFunc c) (cl_writeConn c) (cl_reqSent c) (cl_senders c).
(** The loop returns when its deferred function has closed [didClose]. *)
Definition leave_loop (d : dispatch) (c : client) : client :=
  let c := upd_dispatch d c in if dp_didClose d then stop_running c else c.
(** A goroutine sends a request of its own. *)
Definition add_sender (loc : nat) (op : requestOp) (c : client) : client :=
  mkClient (set_dp_conn (upd_ops <[loc := op]> (dp_conn (cl_dispatch c))) (cl_dispatch c)) (cl_running c)
    (cl_reconnectFunc c) (cl_writeConn c) (cl_reqSent c) (cl_senders c ++ [mkSender loc SInit]).
Definition upd_conn (h : handler) (c : client) : client := upd_dispatch (set_dp_conn h (cl_dispatch c)) c.

(** The request of [requestUnsubscribe], in a [quitOnce] that is running; its context is
    the background context, which is never done. *)
Definition unsubscribing (h : handler) (loc : nat) : Prop := ∃ sub, h_quits h !! sub = Some (QuitRunning loc).
(** Its [Call] has returned: sending has failed, or its answer has been received, or its
    channel is closed. *)
Definition call_returned (c : client) (loc : nat) (h : handler) : Prop :=
  ∃ i s, cl_senders c !! i = Some s ∧ sn_op s = loc ∧
    ((∃ err, sn_pc s = SReturn (Some err)) ∧ h = dp_conn (cl_dispatch c) ∨
     sn_pc s = SReturn None ∧ ∃ r, on_resp loc chan_recv (dp_conn (cl_dispatch c)) = Ret (r, h)).

(** One step of a sending goroutine at its program counter. *)
Inductive send_step (i : nat) (s : sender) (c : client) : client → Prop :=
| ss_reqInit d :                                      (* c.reqInit <- op *)
    sn_pc s = SInit → cl_running c = true → dp_accept (cl_dispatch c) = true →
    dispatch_event (EvReqInit (sn_op s)) (cl_dispatch c) = Ret ((), d) →
    send_step i s c (upd_sender i s (SWrite false) (upd_dispatch d c))
| ss_ctx_done err :                                   (* <-ctx.Done() *)
    sn_pc s = SInit → ¬ unsubscribing (dp_conn (cl_dispatch c)) (sn_op s) →
    send_step i s c (upd_sender i s (SReturn (Some err)) c)
| ss_closing :                                        (* <-c.closing *)
    sn_pc s = SInit → dp_closing (cl_dispatch c) = true →
    send_step i s c (upd_sender i s (SReturn (Some (EVar ErrClientQuit))) c)
| ss_have_conn retry conn :
    sn_pc s = SWrite retry → cl_writeConn c = Some conn →
    send_step i s c (upd_sender i s (SEmit retry) c)
| ss_dead retry :
    sn_pc s = SWrite retry → cl_writeConn c = None → cl_reconnectFunc c = false →
    send_step i s c (upd_sender i s (SReport (Some (EVar errDead))) c)
| ss_dial_error retry err :
    sn_pc s = SWrite retry → cl_writeConn c = None → cl_reconnectFunc c = true →
    send_step i s c (upd_sender i s (SReport (Some err)) c)
| ss_dial retry newconn w :
    sn_pc s = SWrite retry → cl_writeConn c = None → cl_reconnectFunc c = true →
    send_step i s c (upd_sender i s (SReconnect retry newconn w) c)
| ss_reconnected retry newconn w d :                  (* c.reconnected <- newconn *)
    sn_pc s = SReconnect retry newconn w → cl_running c = true →
    dispatch_event (EvReconnected newconn w) (cl_dispatch c) = Ret ((), d) →
    send_step i s c (upd_sender i s (SEmit retry) (set_writeConn (Some newconn) (upd_dispatch d c)))
| ss_reconnect_closed retry newconn w :               (* <-c.didClose *)
    sn_pc s = SReconnect retry newconn w → dp_didClose (cl_dispatch c) = true →
    send_step i s c (upd_sender i s (SReport (Some (EVar ErrClientQuit))) c)
| ss_emitted retry :
    sn_pc s = SEmit retry → send_step i s c (upd_sender i s (SReport None) c)
| ss_emit_error retry err :
    sn_pc s = SEmit retry →
    send_step i s c (upd_sender i s (if retry : bool then SReport (Some err) else SWrite true)
                       (set_writeConn None c))
| ss_report err :                                     (* c.reqSent <- err *)
    sn_pc s = SReport err → (length (cl_reqSent c) < 1)%nat →
    send_step i s c (upd_sender i s (SReturn err) (set_reqSent (cl_reqSent c ++ [err]) c)).

Inductive client_step : client → client → Prop :=
| cl_request c loc op :                               (* a goroutine starts a request *)
    h_ops (dp_conn (cl_dispatch c)) !! loc = None → request op →
    client_step c (add_sender loc op c)
| cl_unsubscribe c loc id sub :                       (* quitWithError(true, err), unless it was called before *)
    let h := dp_conn (cl_dispatch c) in
    h_ops h !! loc = None → h_quits h !! sub = None →
    client_step c (add_sender loc (call_op id) (upd_conn (upd_quits <[sub := QuitRunning loc]> h) c))
| cl_unsubscribed c loc sub h :                       (* its request has returned *)
    h_quits (dp_conn (cl_dispatch c)) !! sub = Some (QuitRunning loc) → call_returned c loc h →
    client_step c (upd_conn (upd_quits <[sub := QuitDone]> h) c)
| cl_send c i s c' :
    cl_senders c !! i = Some s → send_step i s c c' → client_step c c'
| cl_sent c err rest d :                              (* <-c.reqSent *)
    cl_running c = true → cl_reqSent c = err :: rest →
    dispatch_event (EvReqSent err) (cl_dispatch c) = Ret ((), d) →
    client_step c (set_reqSent rest (upd_dispatch d c))
| cl_read c msgs batch d :                            (* <-c.readOp *)
    cl_running c = true → is_Some (dp_reader (cl_dispatch c)) →
    dispatch_event (EvReadOp msgs batch) (cl_dispatch c) = Ret ((), d) →
    client_step c (upd_dispatch d c)
| cl_read_error c err d :                             (* <-c.readErr *)
    cl_running c = true → is_Some (dp_reader (cl_dispatch c)) →
    dispatch_event (EvReadErr err) (cl_dispatch c) = Ret ((), d) →
    client_step c (upd_dispatch d c)
| cl_timeout c loc d :                                (* <-c.reqTimeout *)
    cl_running c = true → ¬ unsubscribing (dp_conn (cl_dispatch c)) loc →
    dispatch_event (EvReqTimeout loc) (cl_dispatch c) = Ret ((), d) →
    client_step c (upd_dispatch d c)
| cl_close c d :                                      (* <-c.close *)
    cl_running c = true →
    dispatch_event EvClose (cl_dispatch c) = Ret ((), d) →
    client_step c (leave_loop d c)
| cl_once_done c d :                                  (* the quitOnce the loop stands in is done *)
    cl_running c = true → dp_waiting (cl_dispatch c) ≠ None →
    dispatch_event EvOnceDone (cl_dispatch c) = Ret ((), d) →
    client_step c (leave_loop d c)
| cl_call c i h :                                     (* a goroutine of a call runs *)
    run_call decode_as Zero decError_text as_ID idgen i (dp_conn (cl_dispatch c)) = Ret ((), h) →
    client_step c (upd_conn h c)
| cl_wait c loc r h :                                 (* a caller receives from op.resp *)
    ¬ unsubscribing (dp_conn (cl_dispatch c)) loc →
    on_resp loc chan_recv (dp_conn (cl_dispatch c)) = Ret (r, h) →
    client_step c (upd_conn h c).

(** [initClient] on a codec that may be reconnected. *)
Definition initClient (codec : nat) (w : W) (reg : serviceRegistry (list V → script)) (reconnect : bool) : client :=
  mkClient (init_dispatch codec w reg) true reconnect (Some codec) [] [].
End client.
Arguments dispatch : clear implicits.
Arguments client : clear implicits.

(** ** Dialing and closing *)

(** [DialContext], with [url.Parse] giving the scheme and [DialIPC] the rest. *)
Definition DialContext {C : Type} (Parse : string → result gerror string)
    (DialIPC : string → result gerror C) (rawurl : string) : result gerror C :=
  match Parse rawurl with
  | Err e => Err e
  | Ok scheme =>
      if decide (scheme = "") then DialIPC rawurl
      else Err (ENew ("no known transport for URL scheme " +:+ quote_go scheme))
  end.
