(* ===== verification/RpcWire.v ===== *)
(** * A call over a connection

    The client of {!RpcClient} and the handler of {!RpcHandler} at the two ends of a
    connection, whose texts are those of {!RpcMessage}: what one side writes is what
    the other side reads. *)

From S2P Require Import Prelude GoText Json RpcMessage RpcArgs RpcService GoChan.
From S2P Require Import RpcSubscription RpcClientSub RpcHandler RpcHandlerProps RpcClient.

Section wire.
Context {V V' : Type}.
Context (reencode syntax_text : string → string) (remote : option string) (now : Z).
Context (decode_as : gotype → string → result string V) (Zero : gotype → V).
Context (text : decError → string) (as_ID : V → string) (idgen : nat → string).

Abbreviation codec := (jsonCodec (C := streamConn)).
#[local] Instance wire_writer : JsonWriter codec := codec_JsonWriter reencode syntax_text remote now.

(** ** The two ends *)

(** What [c'] has written more than [c], as further input of the other end. *)
Definition written (c c' : codec) : string := str_drop (slen (s_out (c_conn c))) (s_out (c_conn c')).
Definition feed (t : string) (c : codec) : codec :=
  let s := c_conn c in
  mkCodec (c_remote c) (c_closer c) (c_closeCh c)
    (mkStream (s_in s +:+ t) (s_out s) (s_deadline s) (s_closed s) (s_dec_err s)).

(** One turn of the reading goroutine ([Client.read]) and of the loop it feeds
    ([Client.dispatch]) that reads a message or a batch; the error read otherwise. *)
Definition read_turn {U} : go (handler codec U) (option gerror) := λ h,
  '(r, c) ← readBatch (stream_funcs reencode syntax_text remote) (h_conn h);
  let h := set_conn c h in
  match r with
  | Err e => Ret (Some e, h)
  | Ok (msgs, true) => (handleBatch text msgs ;; mret None) h
  | Ok (msg :: _, false) => (handleMsg text msg ;; mret None) h
  | Ok ([], false) => Panic "index out of range"
  end.

(** A call: the client registers the request at [loc] and writes its message; the
    server reads it and runs the goroutine of the call; the client reads the answer and
    receives from the channel of the request. *)
Definition exchange (msg : jsonrpcMessage) (loc : nat) (hc : handler codec V') (hs : handler codec V) :
    outcome (option gerror * waited * handler codec V' * handler codec V) :=
  let op := call_op (default "" (ID msg)) in
  '(_, hc) ← addRequestOp loc (upd_ops <[loc := op]> hc);
  let '(send_err, cc) := jw_writeJSON None (WMsg msg) (h_conn hc) in
  let hs0 := set_conn (feed (written (h_conn hc) cc) (h_conn hs)) hs in
  '(_, hs1) ← read_turn hs0;
  '(_, hs2) ← run_call decode_as Zero text as_ID idgen (length (h_callWG hs)) hs1;
  '(_, hc) ← read_turn (set_conn (feed (written (h_conn hs1) (h_conn hs2)) cc) hc);
  match h_ops hc !! loc with
  | None => Panic "invalid memory address or nil pointer dereference"
  | Some op => '(w, op) ← op_wait None op; Ret (send_err, w, upd_ops <[loc := op]> hc, hs2)
  end.

(** Nothing but white space is left to read. *)
Definition idle (c : codec) : Prop := skip_ws (s_in (c_conn c)) = "" ∧ s_dec_err (c_conn c) = None.

Lemma idle_feed t rest c : idle c → skip_ws (s_in (c_conn (feed (t +:+ rest) c))) = skip_ws (t +:+ rest).
Proof.
  intros [H _]. cbn [feed c_conn s_in]. revert H. generalize (s_in (c_conn c)) as s. induction s as [|x s IH]; [done|].
  cbn. rewrite str_app_cons. cbn. destruct (is_ws x); [exact IH|done].
Qed.

(** What one end writes is read at the other end, which is idle again afterwards. *)
Lemma deliver c c' v :
  Forall (msg_ok reencode) (wire_msgs v).1 → idle c' →
  ∃ c2 c3, jw_writeJSON None v c = (None, c2) ∧ s_in (c_conn c2) = s_in (c_conn c) ∧
    s_dec_err (c_conn c2) = s_dec_err (c_conn c) ∧
    readBatch (stream_funcs reencode syntax_text remote) (feed (written c c2) c') =
      Ret (Ok (received reencode <$> (wire_msgs v).1, (wire_msgs v).2), c3) ∧ idle c3.
Proof.
  intros Hv Hidle. destruct (encode_wire_ok reencode v Hv) as (t & Ht & Hval & Hread).
  eexists. eexists. split.
  { change (jw_writeJSON None v c) with (codec_write reencode syntax_text remote now None v c). unfold codec_write.
    rewrite (writeJSON_run _ _ _ _ _ _ _ t Ht). reflexivity. }
  split; [done|]. split; [done|].
  unfold written. cbn [c_conn s_out]. rewrite str_drop_app.
  pose proof (idle_feed t (String "010" "") c' Hidle) as Hin.
  rewrite (readBatch_run _ _ _ _ t "") by (done || apply Hidle). by rewrite Hread.
Qed.

(** The arguments a callback is called with, or why it is not. *)
Definition args_of (cb : callback (list V → script)) (l : list string) : result gerror (list V) :=
  positional_spec isPtr decode_as Zero (length (argTypes cb)) 0 (argTypes cb) l.

(** The answer of a callback that returns [f] of its arguments. *)
Definition answer_of (cb : callback (list V → script)) (f : list V → list goresult) (msg : jsonrpcMessage)
    (l : list string) : jsonrpcMessage :=
  match args_of cb l with
  | Err e => errorResponse msg (EInvalidParams (error_text e))
  | Ok args =>
      match call_results cb (Some (f args)) with
      | Err err => errorResponse msg err
      | Ok v => response msg v
      end
  end.

Lemma answer_of_response cb f msg l :
  let a := answer_of cb f msg l in
  ID a = ID msg ∧ Method a = "" ∧ Params a = None ∧ (is_Some (Result a) ∨ is_Some (Error a)).
Proof.
  assert (∀ err, let a := errorResponse msg err in
    ID a = ID msg ∧ Method a = "" ∧ Params a = None ∧ (is_Some (Result a) ∨ is_Some (Error a))) as He.
  { intros err. split_and!; try done. right. by eexists. }
  cbn zeta. unfold answer_of. destruct (args_of cb l) as [args|e]; [|apply He].
  destruct (call_results cb _) as [[v|e]|e]; [|apply He..]. split_and!; try done. left. by eexists.
Qed.

Lemma handleCallMsg_stateless h msg cb f l :
  isCall msg = true → is_nil (ID msg) = false → RpcMessage.isSubscribe msg = false → isUnsubscribe msg = false →
  reg_callback (h_reg h) (Method msg) = Some cb → (∀ args, args_of cb l = Ok args → fn_body (cb_fn cb) args = RpcHandler.SReturn (f args)) →
  params_are (Params msg) l →
  ∃ g, handleCallMsg decode_as Zero text as_ID idgen msg (h : handler codec V) = (Some (answer_of cb f msg l), [], upd_gauges g h).
Proof.
  intros Hcall Hid H1 H2 Hcb Hf Hp.
  unfold handleCallMsg, isNotification. rewrite Hid, Hcall. cbn [andb].
  rewrite (handleCall_registered decode_as Zero text as_ID idgen h msg cb l) by done.
  change (positional_spec _ _ _ _ _ _ _) with (args_of cb l). unfold answer_of. destruct (args_of cb l) as [args|e].
  - rewrite Hf by done. cbn [run_script]. by eexists.
  - exists (λ g, g). by destruct h.
Qed.

Lemma FormatUint_head n : ∃ c t, FormatUint n = String c t ∧ is_digit c = true.
Proof.
  pose proof (FormatUint_digits n) as H. destruct (FormatUint n) as [|c t] eqn:E; [|by exists c, t; cbn in H; destruct (is_digit c)].
  destruct (FormatUint_num n) as [[Hv _] _]. by rewrite E in Hv.
Qed.

Lemma in_range_digit c : is_digit c = true → bool_decide (c = "{"%char) = false ∧ bool_decide (c = "["%char) = false.
Proof. by destruct c as [[] [] [] [] [] [] [] []]. Qed.

(** ** The turns of the two loops *)

Lemma read_turn_msg {U} (h : handler codec U) msg c :
  readBatch (stream_funcs reencode syntax_text remote) (h_conn h) = Ret (Ok ([msg], false), c) →
  read_turn h = (handleMsg text msg ;; mret None) (set_conn c h).
Proof. intros E. unfold read_turn. by rewrite E. Qed.

Lemma handleMsg_call {U} (h : handler codec U) msg :
  is_nil (ID msg) = false → isCall msg = true → handleMsg text msg h = Ret ((), upd_callWG (λ l, l ++ [JMsg msg]) h).
Proof.
  intros Hid Hc. unfold handleMsg, handleImmediate, isNotification. rewrite Hid. cbn [andb].
  assert (isResponse msg = false) as ->; [|done]. unfold isCall in Hc. apply andb_true_iff in Hc as [_ Hm%negb_true_iff].
  unfold isResponse. by rewrite Hm, andb_false_r.
Qed.

Lemma run_call_answer (h : handler codec V) msg answer h' l :
  h_callWG h = l ++ [JMsg msg] →
  handleCallMsg decode_as Zero text as_ID idgen msg (upd_callWG (delete (length l)) h) = (Some answer, [], h') →
  run_call decode_as Zero text as_ID idgen (length l) h = Ret ((), write_conn (WMsg answer) h').
Proof.
  intros Hwg Hans. unfold run_call. rewrite go_bind_run. cbn [go_get]. rewrite Hwg, lookup_app_r, Nat.sub_diag by done.
  cbn [lookup list_lookup]. rewrite go_bind_run. cbn [go_modify]. unfold run_job. rewrite Hans. done.
Qed.

(** The server's half: the message fed to it is read, and its call is answered. *)
Lemma serve_call (hs : handler codec V) msg cb f l (c : codec) :
  isCall msg = true → is_nil (ID msg) = false → RpcMessage.isSubscribe msg = false → isUnsubscribe msg = false →
  reg_callback (h_reg hs) (Method msg) = Some cb → (∀ args, args_of cb l = Ok args → fn_body (cb_fn cb) args = RpcHandler.SReturn (f args)) →
  params_are (Params msg) l →
  readBatch (stream_funcs reencode syntax_text remote) (h_conn hs) = Ret (Ok ([msg], false), c) →
  ∃ hs1 hs2, read_turn hs = Ret (None, hs1) ∧ h_conn hs1 = c ∧
    run_call decode_as Zero text as_ID idgen (length (h_callWG hs)) hs1 = Ret ((), hs2) ∧
    h_conn hs2 = (jw_writeJSON None (WMsg (answer_of cb f msg l)) c).2 ∧ h_callWG hs2 = h_callWG hs.
Proof.
  intros Hcall Hid H1 H2 Hcb Hf Hp Hread.
  rewrite (read_turn_msg _ _ _ Hread), go_bind_run, handleMsg_call by done.
  set (hs1 := upd_callWG _ _).
  destruct (handleCallMsg_stateless (upd_callWG (delete (length (h_callWG hs))) hs1) msg cb f l) as [g Hans]; try done.
  do 2 eexists. split; [reflexivity|]. split; [done|].
  split; [by apply (run_call_answer hs1 msg _ _ (h_callWG hs)) in Hans|]. split; [done|].
  cbn. by rewrite delete_middle, app_nil_r.
Qed.

(** The client's half: the answer fed to it reaches the channel of its request. *)
Lemma take_answer {U} (hc : handler codec U) a loc id op (c : codec) :
  ops_ok hc → ID a = Some id → hasValidID a = true → Method a = "" → Params a = None →
  (is_Some (Result a) ∨ is_Some (Error a)) →
  h_respWait hc !! id = Some loc → h_ops hc !! loc = Some op → op_sub op = None → op_err op = None → ch_buf (op_resp op) = [] →
  readBatch (stream_funcs reencode syntax_text remote) (h_conn hc) = Ret (Ok ([a], false), c) →
  ∃ hc' op', read_turn hc = Ret (None, hc') ∧ h_conn hc' = c ∧ h_respWait hc' = delete id (h_respWait hc) ∧
    h_ops hc' !! loc = Some op' ∧ ∃ op2, op_wait None op' = Ret (WaitResp (Some a) None, op2).
Proof.
  intros Hok Hid Hvid Hm Hp Hre Hreg Hop Hsub Herr Hbuf Hread.
  rewrite (read_turn_msg _ _ _ Hread), go_bind_run. unfold handleMsg, handleImmediate, isNotification, isResponse.
  rewrite Hid, Hvid, Hm, Hp. cbn [is_nil andb].
  rewrite bool_decide_eq_true_2 by done. assert (negb (is_nil (Result a)) || negb (is_nil (Error a)) = true) as ->.
  { destruct Hre as [[x ->]|[x ->]]; [done|]. by rewrite orb_true_r. }
  destruct (handleResponse_run text (set_conn c hc) a) as (hc' & E & _ & (_ & _ & _ & _ & Hconn) & Hd); [done|].
  cbn [andb]. rewrite !go_bind_run, E. rewrite Hid in Hd. change (default "" (Some id)) with id in Hd. cbn [set_conn h_respWait h_ops] in Hd.
  rewrite Hreg in Hd. destruct Hd as (Hdel & _ & op0 & op' & Hop0 & Hop' & _ & _ & Hans).
  rewrite Hop in Hop0. injection Hop0 as <-. rewrite Hsub in Hans. destruct Hans as (Herr' & _ & Hbuf').
  exists hc', op'. split; [reflexivity|]. split_and!; [done|done|done|].
  unfold op_wait, chan_recv. rewrite Hbuf', Hbuf, Herr', Herr. by eexists.
Qed.

(** ** A call *)

(** The parameters of a call as Marshal gives them: absent, or an array. *)
Definition params_text (p : RawMessage) : option gval := Ok <$> p.
Definition params_ok (p : RawMessage) (l : list string) : Prop :=
  match p with None => l = [] | Some raw => canonical raw ∧ shape_of raw = Some (JArr l) end.

Lemma params_ok_are p l : params_ok p l → raw_ok p ∧ params_are p l.
Proof.
  destruct p as [raw|]; [|done]. intros [Hc Hs]. split; [done|]. pose proof (is_value_skip_ws raw "" (proj1 Hc)) as Hw.
  rewrite !str_app_nil_r in Hw. cbn. by rewrite Hw; destruct Hc.
Qed.

Lemma newMessage_ok idCounter method p : ∃ msg c, newMessage idCounter method (params_text p) = (Ok msg, c).
Proof. unfold newMessage, nextID. destruct p; by do 2 eexists. Qed.

Lemma newMessage_call idCounter method p msg c :
  newMessage idCounter method (params_text p) = (Ok msg, c) → method ≠ "" → is_ascii method = true → raw_ok p →
  isCall msg = true ∧ msg_ok reencode msg ∧ Method msg = method ∧ Params msg = p ∧ received reencode msg = msg ∧
  ∃ id, ID msg = Some id ∧ hasValidID msg = true ∧ canonical id.
Proof.
  unfold newMessage, nextID. intros E Hm Ha Hraw. set (n := Z.to_N (wrapu 32 (idCounter + 1))) in *.
  assert (msg = mkMsg vsn (Some (FormatUint n)) method p None None) as -> by (destruct p; by injection E as <- _).
  destruct (FormatUint_head n) as (d & s & Es & Hd).
  assert (canonical (FormatUint n)) as Hid by (split; [apply FormatUint_num|apply tight_compact, tight_FormatUint]).
  assert (hasValidID (mkMsg vsn (Some (FormatUint n)) method p None None) = true) as Hv.
  { unfold hasValidID. cbn [ID]. rewrite Es. by destruct (in_range_digit d Hd) as [-> ->]. }
  split_and!; try done.
  - unfold isCall. rewrite Hv. cbn [Method]. by rewrite bool_decide_eq_false_2.
  - exists (FormatUint n). by split_and!.
Qed.

(** A request with one ID as a method of the client registers it. *)
Lemma register_op {U} loc id op (hc : handler codec U) :
  inv hc → h_ops hc !! loc = None → op_ids op = [id] → new_op op →
  ∃ hc1, addRequestOp loc (upd_ops <[loc := op]> hc) = Ret ((), hc1) ∧ ops_ok hc1 ∧ h_conn hc1 = h_conn hc ∧
    h_respWait hc1 !! id = Some loc ∧ h_ops hc1 !! loc = Some op ∧
    h_subLog hc1 = h_subLog hc ∧ h_clientSubs hc1 = h_clientSubs hc.
Proof.
  intros Hinv Hloc Hids Hnew. destruct (addRequestOp_run loc op hc Hinv Hloc Hnew) as (hc1 & E & [Hok _]).
  exists hc1. split_and!; [done|done|..]; unfold addRequestOp in E; cbn [h_ops upd_ops] in E;
    rewrite lookup_insert_eq in E; injection E as <-; [done| |apply lookup_insert_eq|done..].
  cbn. rewrite Hids. apply lookup_insert_eq.
Qed.

(** A message that is a call is answered over the connection. *)
Lemma exchange_answers msg id l cb f loc (hc : handler codec V') (hs : handler codec V) :
  inv hc → h_ops hc !! loc = None → idle (h_conn hc) → idle (h_conn hs) →
  isCall msg = true → ID msg = Some id → hasValidID msg = true → msg_ok reencode msg → received reencode msg = msg →
  RpcMessage.isSubscribe msg = false → isUnsubscribe msg = false →
  params_are (Params msg) l →
  reg_callback (h_reg hs) (Method msg) = Some cb → (∀ args, args_of cb l = Ok args → fn_body (cb_fn cb) args = RpcHandler.SReturn (f args)) →
  let a := answer_of cb f msg l in
  msg_ok reencode a →
  ∃ hc' hs', exchange msg loc hc hs = Ret (None, WaitResp (Some (received reencode a)) None, hc', hs') ∧
    h_respWait hc' !! id = None ∧ h_callWG hs' = h_callWG hs ∧ idle (h_conn hc') ∧ idle (h_conn hs').
Proof.
  intros Hinv Hloc Hic His Hcall Hid Hvid Hok Hrecv Hs1 Hs2 Hp Hcb Hf a Ha.
  unfold exchange. rewrite Hid. cbn [default from_option Datatypes.id].
  destruct (register_op loc id (call_op id) hc Hinv Hloc) as (hc1 & E1 & Hok1 & Hconn & Hreg & Hop & _);
    [done|split_and!; [done..|cbn; lia]|].
  rewrite E1. cbn [mbind outcome_bind]. rewrite Hconn.
  destruct (deliver (h_conn hc) (h_conn hs) (WMsg msg)) as (cc & sc & -> & Hin & Hde & Hread & Hsc);
    [by apply Forall_singleton|done|].
  cbn [wire_msgs fst snd fmap list_fmap] in Hread. rewrite Hrecv in Hread.
  set (hs0 := set_conn (feed (written (h_conn hc) cc) (h_conn hs)) hs).
  destruct (serve_call hs0 msg cb f l sc) as (hs1 & hs2 & -> & Hc1 & E2 & Hc2 & Hwg); try done; [by rewrite Hid|].
  cbn [mbind outcome_bind]. change (h_callWG hs) with (h_callWG hs0). rewrite E2. cbn [mbind outcome_bind].
  assert (idle cc) as Hcc by (split; [by rewrite Hin; apply Hic|by rewrite Hde; apply Hic]).
  destruct (deliver sc cc (WMsg a)) as (sc2 & cc2 & Ew & Hin2 & Hde2 & Hread2 & Hcc2); [by apply Forall_singleton|done|].
  fold a in Hc2. rewrite Hc1, Hc2, Ew. cbn [snd].
  destruct (answer_of_response cb f msg l) as (A1 & A2 & A3 & A4). fold a in A1, A2, A3, A4.
  destruct (take_answer (set_conn (feed (written sc sc2) cc) hc1) (received reencode a) loc id (call_op id) cc2)
    as (hc' & op' & -> & Hcc' & Hdel & Hop' & op2 & Ewait); try done.
  - cbn. by rewrite A1.
  - unfold hasValidID. cbn [received ID]. unfold hasValidID in Hvid. by rewrite A1.
  - cbn. destruct A4 as [?|[e ->]]; [by left|right; by eexists].
  - cbn [mbind outcome_bind]. rewrite Hop', Ewait. do 2 eexists. split; [reflexivity|].
    split_and!; [cbn; by rewrite Hdel, lookup_delete_eq|done|by cbn; rewrite Hcc'|].
    rewrite Hc2, Ew. cbn [snd]. split; [by rewrite Hin2; apply Hsc|by rewrite Hde2; apply Hsc].
Qed.

(** C12: a call of a method whose callback only returns, made with [CallContext] and an
    array of parameters or none at all, on a connection with nothing unread: the texts written are those read at the other end,
    the server's handler calls the callback on the decoded parameters, and [CallContext]
    returns the error of its answer, with its data as decoded data, or what decoding the
    result into the caller's variable gives; afterwards the request is forgotten, no
    goroutine is left and the connection is free for the next call. *)
Theorem call_over_connection idCounter method p l cb f loc (hc : handler codec V') (hs : handler codec V) :
  inv hc → h_ops hc !! loc = None → idle (h_conn hc) → idle (h_conn hs) →
  method ≠ "" → is_ascii method = true →
  HasSuffix method subscribeMethodSuffix = false → HasSuffix method unsubscribeMethodSuffix = false →
  params_ok p l →
  reg_callback (h_reg hs) method = Some cb → (∀ args, args_of cb l = Ok args → fn_body (cb_fn cb) args = RpcHandler.SReturn (f args)) →
  ∃ msg c, CallContext_message (Some (true, "")) idCounter method (params_text p) = (Ok msg, c) ∧
    let a := answer_of cb f msg l in
    (msg_ok reencode a →
     ∃ w hc' hs', exchange msg loc hc hs = Ret (None, w, hc', hs') ∧
       (∀ unmarshal, CallContext_result unmarshal None w =
          Ret (match Error a, Result a with
               | Some e, _ => Some (EJson (received_error reencode e))
               | None, (None | Some "") => Some (EVar ErrNoResult)
               | None, Some t => unmarshal t
               end)) ∧
       h_respWait hc' !! default "" (ID msg) = None ∧ h_callWG hs' = h_callWG hs ∧
       idle (h_conn hc') ∧ idle (h_conn hs')).
Proof.
  intros Hinv Hloc Hic His Hm Hma Hs1 Hs2 Hpar Hcb Hf. destruct (params_ok_are p l Hpar) as [Hraw Hare].
  destruct (newMessage_ok idCounter method p) as (msg & c & E).
  destruct (newMessage_call _ _ _ _ _ E Hm Hma Hraw) as (Hcall & Hok & Hmeth & Hp & Hrecv & id & Hid & Hvid & _).
  exists msg, c. split; [done|]. intros a Ha.
  destruct (exchange_answers msg id l cb f loc hc hs) as (hc' & hs' & E' & H'); try done;
    [by unfold RpcMessage.isSubscribe; rewrite Hmeth|by unfold isUnsubscribe; rewrite Hmeth|by rewrite Hp|by rewrite Hmeth|].
  fold a in E'. do 3 eexists. split; [exact E'|]. split; [|by rewrite Hid].
  intros unmarshal. unfold CallContext_result, received. cbn [Error Result]. destruct (Error a); [done|]. cbn [fmap option_fmap option_map].
  by destruct (Result a) as [[|x s]|].
Qed.
End wire.

(** ** A call of a method without parameters *)

Definition demo_callback : callback (list unit → script) :=
  mkCallback (mkFunc [] [] (λ _, RpcHandler.SReturn [RVal (Ok "7")])) false [] false (-1) false.
Definition demo_registry : serviceRegistry (list unit → script) :=
  mkRegistry {[ "eth" := mkService "eth" {[ "seven" := demo_callback ]} ∅ ]}.
Definition demo_end {U} (reg : serviceRegistry (list U → script)) : handler (jsonCodec (C := streamConn)) U :=
  newHandler (NewCodec id id None (mkStream "" "" 0 0 None)) reg ∅ ∅ ∅ 0 0 (mkGauges 0 0 0).

Lemma call_over_connection_witness :
  ∃ w hc' hs', exchange id id None 0 (λ _ _, Err "") (λ _, tt) (λ _, "") (λ _, "") (λ _, "")
      (mkMsg vsn (Some "1") "eth_seven" (Some "[]") None None) 0 (demo_end (U := unit) (mkRegistry ∅)) (demo_end demo_registry) =
        Ret (None, w, hc', hs') ∧
    CallContext_result (λ t, if decide (t = "7") then None else Some ECrashed) None w = Ret None.
Proof.
  destruct (call_over_connection (V' := unit) id id None 0 (λ _ _, Err "") (λ _, tt) (λ _, "") (λ _, "") (λ _, "")
    0 "eth_seven" (Some "[]") [] demo_callback (λ _, [RVal (Ok "7")]) 0 (demo_end (mkRegistry ∅)) (demo_end demo_registry))
    as (msg & c & E & H); try done.
  - apply inv_newHandler.
  - injection E as <- _. destruct H as (w & hc' & hs' & E & Hres & _).
    { by split_and!. }
    exists w, hc', hs'. split; [exact E|]. by rewrite Hres.
Defined.
