(* ===== verification/RpcWireSub.v ===== *)
(** * A subscription over a connection

    The client and the server of {!RpcWire} for [Subscribe]: the answer of the call and
    the notifications that follow it are texts of the connection, read by the client one
    after the other. *)

From S2P Require Import Prelude GoText Json RpcMessage RpcArgs RpcService GoChan.
From S2P Require Import RpcSubscription RpcClientSub RpcHandler RpcHandlerProps RpcClient RpcWire.

(** The callback of a subscription method as the package documents it: it creates the
    subscription, notifies it of some values, and returns it. *)
Fixpoint notify_each (id : string) (ds : list string) (k : script) : script :=
  match ds with
  | [] => k
  | d :: ds => SNotify id (Ok d) (λ _, notify_each id ds k)
  end.
Definition subscription_body (ds : list string) : script :=
  SNotifierFromContext (λ supported,
    if supported : bool then
      SCreate (λ sub, notify_each (sub_ID sub) ds
        (RpcHandler.SReturn [RVal (Subscription_MarshalJSON sub); RErr None]))
    else RpcHandler.SReturn [RVal (Ok "null"); RErr (Some (EVar ErrNotificationsUnsupported))]).

Section wire_sub.
Context {V V' : Type}.
Context (reencode syntax_text : string → string) (remote : option string) (now : Z).
Context (decode_as : gotype → string → result string V) (Zero : gotype → V).
Context (text : decError → string) (as_ID : V → string) (idgen : nat → string).

Abbreviation codec := (jsonCodec (C := streamConn)).
#[local] Instance sub_writer : JsonWriter codec := codec_JsonWriter reencode syntax_text remote now.
Abbreviation read_turn := (read_turn reencode syntax_text remote text).

(** The client reads [n] messages, or stops at an error. *)
Fixpoint read_turns {U} (n : nat) : go (handler codec U) (option gerror) :=
  match n with
  | O => mret None
  | S n => e ← read_turn; match e with Some e => mret (Some e) | None => read_turns n end
  end.

(** A subscribe request: the client registers it at [loc] for the subscription at
    [sub] and writes its message; the server reads it and runs the goroutine of the
    call; the client reads [n] messages and receives from the channel of the request. *)
Definition subscribe_exchange (msg : jsonrpcMessage) (loc sub n : nat) (hc : handler codec V') (hs : handler codec V) :
    outcome (option gerror * waited * handler codec V' * handler codec V) :=
  let op := subscribe_op (default "" (ID msg)) sub in
  '(_, hc) ← addRequestOp loc (upd_ops <[loc := op]> hc);
  let '(send_err, cc) := jw_writeJSON None (WMsg msg) (h_conn hc) in
  let hs0 := set_conn (feed (written (h_conn hc) cc) (h_conn hs)) hs in
  '(_, hs1) ← read_turn hs0;
  '(_, hs2) ← run_call decode_as Zero text as_ID idgen (length (h_callWG hs)) hs1;
  '(_, hc) ← read_turns n (set_conn (feed (written (h_conn hs1) (h_conn hs2)) cc) hc);
  match h_ops hc !! loc with
  | None => Panic "invalid memory address or nil pointer dereference"
  | Some op => '(w, op) ← op_wait None op; Ret (send_err, w, upd_ops <[loc := op]> hc, hs2)
  end.

(** ** Several messages in the connection *)

(** What is left to read are the values [vs]. *)
Definition pending (c : codec) (vs : list wireval) : Prop :=
  s_dec_err (c_conn c) = None ∧ ∃ t, wire_text reencode vs = Some t ∧ skip_ws (s_in (c_conn c)) = skip_ws t.

Lemma idle_pending c : idle c ↔ pending c [].
Proof.
  split; [intros [H1 H2]; split; [done|]; by exists ""|]. intros (H1 & t & [= <-] & H2). by split.
Qed.

Lemma read_pending c v vs : pending c (v :: vs) → Forall (msg_ok reencode) (wire_msgs v).1 →
  ∃ c', readBatch (stream_funcs reencode syntax_text remote) c =
    Ret (Ok (received reencode <$> (wire_msgs v).1, (wire_msgs v).2), c') ∧ pending c' vs.
Proof.
  intros (He & t & Ht & Hin) Hv. destruct (encode_wire_ok reencode v Hv) as (tv & Etv & Hval & Hread).
  cbn [wire_text foldr] in Ht. rewrite Etv in Ht. cbn [mbind option_bind] in Ht.
  fold (wire_text reencode vs) in Ht. apply bind_Some in Ht as (rest & Hrest & [= <-]).
  rewrite <-(str_app_nil rest) in Hin. eexists. split; [|].
  - rewrite (readBatch_run _ _ _ _ tv rest); [by rewrite Hread|done|done|]. by rewrite Hin.
  - split; [done|]. exists rest. split; [done|]. done.
Qed.

(** Writing values one after the other. *)
Definition write_all (vs : list wireval) (c : codec) : codec := foldl (λ c v, (jw_writeJSON None v c).2) c vs.

Definition wire_ok (v : wireval) : Prop := Forall (msg_ok reencode) (wire_msgs v).1.

Lemma write_one v c : wire_ok v →
  ∃ t c', encode_wire reencode v = Some t ∧ jw_writeJSON None v c = (None, c') ∧
    s_out (c_conn c') = s_out (c_conn c) +:+ t +:+ String "010" "" ∧
    s_in (c_conn c') = s_in (c_conn c) ∧ s_dec_err (c_conn c') = s_dec_err (c_conn c).
Proof.
  intros Hv. destruct (encode_wire_ok reencode v Hv) as (t & Ht & _). exists t. eexists. split; [done|]. split.
  - change (jw_writeJSON None v c) with (codec_write reencode syntax_text remote now None v c). unfold codec_write.
    rewrite (writeJSON_run _ _ _ _ _ _ _ t Ht). reflexivity.
  - done.
Qed.

Lemma write_all_out vs c : Forall wire_ok vs →
  ∃ t, wire_text reencode vs = Some t ∧ s_out (c_conn (write_all vs c)) = s_out (c_conn c) +:+ t ∧
    s_in (c_conn (write_all vs c)) = s_in (c_conn c) ∧ s_dec_err (c_conn (write_all vs c)) = s_dec_err (c_conn c).
Proof.
  intros Hvs. revert c. induction Hvs as [|v vs Hv _ IH]; intros c; [exists ""; by rewrite str_app_nil_r|].
  destruct (write_one v c Hv) as (t & c' & Et & Ew & Ho & Hi & He). cbn [write_all foldl]. rewrite Ew. cbn [snd].
  destruct (IH c') as (u & Hu & Ho' & Hi' & He'). exists (t +:+ String "010" "" +:+ u). cbn [wire_text foldr]. rewrite Et.
  fold (wire_text reencode vs). rewrite Hu. split; [done|]. unfold write_all in *. rewrite Ho', Ho, Hi', Hi, He', He.
  by rewrite !str_app_assoc.
Qed.

Lemma skip_ws_idle s t : skip_ws s = "" → skip_ws (s +:+ t) = skip_ws t.
Proof. induction s as [|x s IH]; [done|]. rewrite str_app_cons. cbn. destruct (is_ws x); [exact IH|done]. Qed.

(** What one end writes waits at the other. *)
Lemma feed_pending vs c c' : Forall wire_ok vs → idle c' → pending (feed (written c (write_all vs c)) c') vs.
Proof.
  intros Hvs [Hi He]. destruct (write_all_out vs c Hvs) as (t & Ht & Ho & _). split; [done|]. exists t. split; [done|].
  cbn [feed c_conn s_in]. unfold written. rewrite Ho, str_drop_app. by apply skip_ws_idle.
Qed.

(** ** Notifications as messages *)

(** Data of a notification: a value that the encoder leaves as it is. *)
Definition data_text (d : string) : Prop := is_value d ∧ tight d.

Lemma data_canonical d : data_text d → canonical d.
Proof. intros [Hv Ht]. split; [done|by apply tight_compact]. Qed.

Lemma encode_notification ns sub d : bare (sub_ID sub) = true → data_text d →
  Params (notification ns sub d) = Some (print_object [("subscription", quote (sub_ID sub)); ("result", d)]).
Proof.
  intros Hid Hd. cbn [notification Params]. unfold encode_subscriptionResult. cbn [sr_Result sr_ID].
  by rewrite raw_field_ok by (by apply data_canonical).
Qed.

Lemma notification_members sub d : bare (sub_ID sub) = true → data_text d →
  Forall member_ok [("subscription", quote (sub_ID sub)); ("result", d)].
Proof.
  intros Hid [Hv _]. repeat apply Forall_cons_2; [|split; [done|exact Hv]|done].
  split; [done|]. by apply is_value_quote, bare_ascii.
Qed.

Lemma notification_ok ns sub d : is_ascii ns = true → bare (sub_ID sub) = true → data_text d →
  wire_ok (WMsg (notification ns sub d)).
Proof.
  intros Hns Hid Hd. apply Forall_singleton. pose proof (encode_notification ns sub d Hid Hd) as Hp.
  unfold msg_ok. rewrite Hp. cbn [notification Version Method ID Result Error].
  split_and!; [done| |done| |done..].
  - unfold is_ascii in *. rewrite str_forall_app, Hns. done.
  - split; [by apply is_value_print_object, notification_members|]. apply tight_compact, tight_print_object.
    repeat apply Forall_cons_2; [split; [done|]|split; [done|apply Hd]|done].
    rewrite quote_bare by done. by apply tight_literal.
Qed.

Lemma decode_notification ns sub d : bare (sub_ID sub) = true → data_text d →
  decode_subscriptionResult (Params (notification ns sub d)) = Some (mkSubResult (sub_ID sub) (Some d)).
Proof.
  intros Hid Hd. pose proof (notification_members sub d Hid Hd) as Hm.
  rewrite encode_notification by done. unfold decode_subscriptionResult. cbn [mbind option_bind].
  pose proof (is_value_skip_ws _ "" (is_value_print_object _ Hm)) as E. rewrite !str_app_nil_r in E.
  rewrite E, shape_of_print_object by done. cbn [foldl]. unfold set_subresult_field. cbn [fst snd].
  destruct (shape_of_quote (sub_ID sub)) as (lit & Hlit & Hun); [by apply bare_ascii|].
  change (fold_key (unquote "subscription")) with "subscription". change (fold_key (unquote "result")) with "result".
  rewrite Hlit. repeat (case_decide; try done). by rewrite Hun.
Qed.

(** The client's loop hands a notification of a known subscription to it. *)
Lemma take_notification {U} (hc : handler codec U) ns sub d loc c :
  bare (sub_ID sub) = true → data_text d → h_clientSubs hc !! sub_ID sub = Some loc →
  readBatch (stream_funcs reencode syntax_text remote) (h_conn hc) = Ret (Ok ([notification ns sub d], false), c) →
  read_turn hc = Ret (None, log_sub (SubDeliver loc (Some d)) (set_conn c hc)).
Proof.
  intros Hid Hd Hsub Hread. rewrite (read_turn_msg _ _ _ _ _ _ _ Hread), go_bind_run.
  assert (handleSubscriptionResult (notification ns sub d) (set_conn c hc) =
    Ret ((), log_sub (SubDeliver loc (Some d)) (set_conn c hc))) as E.
  { unfold handleSubscriptionResult. rewrite decode_notification by done. rewrite go_bind_run.
    cbn [go_get set_conn h_clientSubs sr_ID]. by rewrite Hsub. }
  unfold handleMsg. rewrite go_bind_run. unfold handleImmediate, isNotification. cbn [notification ID Method is_nil].
  rewrite HasSuffix_app, bool_decide_eq_false_2 by (by destruct ns). cbn [negb andb].
  fold (notification ns sub d). by rewrite go_bind_run, E.
Qed.

(** The notifications that wait are delivered in their order. *)
Lemma take_notifications {U} (hc : handler codec U) ns sub ds loc :
  bare (sub_ID sub) = true → is_ascii ns = true → Forall data_text ds → h_clientSubs hc !! sub_ID sub = Some loc →
  pending (h_conn hc) (map (λ d, WMsg (notification ns sub d)) ds) →
  ∃ hc', read_turns (length ds) hc = Ret (None, hc') ∧ idle (h_conn hc') ∧
    h_subLog hc' = h_subLog hc ++ map (λ d, SubDeliver loc (Some d)) ds ∧
    h_clientSubs hc' = h_clientSubs hc ∧ h_ops hc' = h_ops hc ∧ h_respWait hc' = h_respWait hc.
Proof.
  intros Hid Hns Hds. revert hc. induction Hds as [|d ds Hd Hds IH]; intros hc Hsub Hpend.
  { exists hc. rewrite app_nil_r. split_and!; try done; by apply idle_pending in Hpend as []. }
  cbn [map] in Hpend. destruct (read_pending _ _ _ Hpend) as (c & Hread & Hpend').
  { by apply notification_ok. }
  cbn [read_turns length]. rewrite go_bind_run.
  rewrite (take_notification hc ns sub d loc c) by done.
  destruct (IH (log_sub (SubDeliver loc (Some d)) (set_conn c hc))) as (hc' & E & Hidle & Hlog & H1 & H2 & H3); [done..|].
  exists hc'. split; [exact E|]. split; [done|]. split; [|done]. rewrite Hlog. cbn [log_sub h_subLog]. by rewrite <-app_assoc.
Qed.

(** The answer of a subscribe call starts the subscription. *)
Lemma take_subscription {U} (hc : handler codec U) a sid loc id sub (c : codec) :
  ID a = Some id → hasValidID a = true → Method a = "" → Params a = None → Error a = None →
  Result a = Some (quote sid) → bare sid = true →
  h_respWait hc !! id = Some loc → h_ops hc !! loc = Some (subscribe_op id sub) →
  readBatch (stream_funcs reencode syntax_text remote) (h_conn hc) = Ret (Ok ([a], false), c) →
  ∃ hc', read_turn hc = Ret (None, hc') ∧ h_conn hc' = c ∧ h_respWait hc' = delete id (h_respWait hc) ∧
    h_subLog hc' = h_subLog hc ++ [SubStart sub] ∧ h_clientSubs hc' = <[sid := sub]> (h_clientSubs hc) ∧
    h_ops hc' !! loc = Some (closed_op (subscribe_op id sub)).
Proof.
  intros Hid Hvid Hm Hp He Hr Hsid Hreg Hop Hread.
  rewrite (read_turn_msg _ _ _ _ _ _ _ Hread), go_bind_run. unfold handleMsg.
  rewrite go_bind_run. unfold handleImmediate, isNotification, isResponse. rewrite Hid, Hvid, Hm, Hp, Hr, He.
  cbn [is_nil andb negb orb]. rewrite bool_decide_eq_true_2 by done. cbn [andb]. rewrite go_bind_run.
  assert (unmarshal_subid text (Some (quote sid)) (default "" (h_subids hc !! sub)) = (None, sid)) as Hun.
  { unfold unmarshal_subid. pose proof (is_value_skip_ws _ "" (is_value_quote sid (bare_ascii _ Hsid))) as Es.
    rewrite !str_app_nil_r in Es. rewrite Es. destruct (shape_of_quote sid) as (lit & -> & ->); [by apply bare_ascii|done]. }
  unfold handleResponse. rewrite go_bind_run. cbn [go_get set_conn h_respWait]. rewrite Hid. cbn [default from_option Datatypes.id].
  rewrite Hreg, go_bind_run. cbn [go_modify upd_respWait set_conn h_ops h_subids]. rewrite Hop. cbn [subscribe_op op_sub].
  rewrite He, Hr, Hun, !go_bind_run. cbn [go_modify]. rewrite go_bind_run.
  rewrite (set_op_err_run _ (subscribe_op id sub)) by exact Hop. rewrite !go_bind_run. cbn [go_modify].
  erewrite close_resp_run; [|by apply lookup_insert_eq|done].
  eexists. split; [reflexivity|]. cbn. split_and!; try done. by rewrite lookup_insert_eq.
Qed.

(** ** The server's half *)

Lemma set_conn_same {U} (h : handler codec U) : set_conn (h_conn h) h = h.
Proof. by destruct h. Qed.

Lemma notify_each_run ns sub ds buf k (h : handler codec V) :
  run_script idgen (Some (mkNotifier ns (Some sub) buf false false)) (notify_each (sub_ID sub) ds k) h =
  run_script idgen (Some (mkNotifier ns (Some sub) (buf ++ ds) false false)) k h.
Proof.
  revert buf. induction ds as [|d ds IH]; intros buf; [by rewrite app_nil_r|]. cbn [notify_each run_script].
  unfold Notify. cbn [n_sub n_activated n_namespace n_buffer n_callReturned].
  rewrite decide_False by (intros E; by apply E). rewrite set_conn_same, IH. by rewrite <-app_assoc.
Qed.

(** What the callback of a subscription leaves behind. *)
Definition new_sub ns (h : handler codec V) : Subscription := mkSubscription (idgen (h_ids h)) ns (h_next h).

Lemma handleSubscribe_body (h : handler codec V) msg ns name cb nv args ds :
  h_allowSubscribe h = true → parseSubscriptionName (Params msg) = Ok name → RpcMessage.namespace msg = ns →
  reg_subscription (h_reg h) ns name = Some cb → errPos cb = 1%Z →
  parse_args decode_as Zero text (Params msg) (stringType :: argTypes cb) = Ok (nv :: args) →
  fn_body (cb_fn cb) args = subscription_body ds →
  handleSubscribe decode_as Zero text idgen msg h =
    (response msg (Ok (quote (idgen (h_ids h)))), [mkNotifier ns (Some (new_sub ns h)) ds false false], alloc_sub h).
Proof.
  intros Ha Hname Hns Hcb Hpos Hargs Hbody. unfold handleSubscribe. rewrite Ha. cbn [negb]. rewrite Hname, Hns. cbv zeta.
  rewrite Hcb, Hargs. cbn [tail]. unfold runMethod. rewrite Hbody.
  unfold subscription_body. cbn [run_script]. rewrite bool_decide_eq_true_2 by done. cbn [run_script].
  unfold CreateSubscription, new_Notifier. cbn [n_sub n_callReturned n_namespace n_buffer n_activated].
  fold (new_sub ns h). rewrite (notify_each_run ns (new_sub ns h)). cbn [run_script app].
  unfold call_results. rewrite Hpos. done.
Qed.

Lemma send_all_write n sub ds w : is_ascii (n_namespace n) = true → bare (sub_ID sub) = true → Forall data_text ds →
  send_all n sub ds w = (None, write_all (map (λ d, WMsg (notification (n_namespace n) sub d)) ds) w).
Proof.
  intros Hns Hid Hds. revert w. induction Hds as [|d ds Hd _ IH]; intros w; [done|]. cbn [send_all]. unfold send.
  destruct (write_one (WMsg (notification (n_namespace n) sub d)) w) as (t & c' & _ & Ew & _); [by apply notification_ok|].
  cbn [map write_all foldl]. rewrite Ew. cbn [snd]. apply IH.
Qed.

(** The goroutine of the call writes the answer and then the notifications. *)
Lemma run_subscribe (hs : handler codec V) l msg ns name cb nv args ds :
  h_callWG hs = l ++ [JMsg msg] → isCall msg = true → is_nil (ID msg) = false → RpcMessage.isSubscribe msg = true →
  h_allowSubscribe hs = true → parseSubscriptionName (Params msg) = Ok name → RpcMessage.namespace msg = ns →
  reg_subscription (h_reg hs) ns name = Some cb → errPos cb = 1%Z →
  parse_args decode_as Zero text (Params msg) (stringType :: argTypes cb) = Ok (nv :: args) →
  fn_body (cb_fn cb) args = subscription_body ds →
  is_ascii ns = true → bare (idgen (h_ids hs)) = true → Forall data_text ds →
  ∃ hs', run_call decode_as Zero text as_ID idgen (length l) hs = Ret ((), hs') ∧ h_callWG hs' = l ∧
    h_conn hs' = write_all (WMsg (response msg (Ok (quote (idgen (h_ids hs))))) ::
      map (λ d, WMsg (notification ns (new_sub ns hs) d)) ds) (h_conn hs) ∧
    h_serverSubs hs' = <[idgen (h_ids hs) := new_sub ns hs]> (h_serverSubs hs).
Proof.
  intros Hwg Hcall Hid Hsubm Ha Hname Hns Hcb Hpos Hargs Hbody Hans Hbare Hds.
  unfold run_call. rewrite go_bind_run. cbn [go_get]. rewrite Hwg, lookup_app_r, Nat.sub_diag by done.
  cbn [lookup list_lookup]. rewrite go_bind_run. cbn [go_modify]. unfold run_job, handleCallMsg, isNotification.
  rewrite Hid, Hcall. cbn [andb]. unfold handleCall. rewrite Hsubm.
  rewrite (handleSubscribe_body (upd_callWG (delete (length l)) hs) msg ns name cb nv args ds) by done.
  rewrite go_bind_run. cbn [addSubscriptions]. unfold takeSubscription. cbn [n_sub n_namespace n_buffer n_activated].
  rewrite !go_bind_run. cbn [go_modify]. rewrite !go_bind_run. cbn [mret go_ret]. rewrite !go_bind_run. cbn [go_modify].
  unfold activate_all. cbn [go_for]. rewrite go_bind_run. unfold activate. cbn [n_sub n_buffer n_namespace].
  match goal with |- context [send_all ?n ?s ds ?w] => rewrite (send_all_write n s ds w) by done end.
  eexists. split; [by destruct ds|]. cbn. rewrite Hwg. by rewrite delete_middle, app_nil_r.
Qed.

(** ** The whole *)

Lemma response_received msg sid : bare sid = true → raw_ok (ID msg) →
  let a := response msg (Ok (quote sid)) in
  wire_ok (WMsg a) ∧ received reencode a = a ∧ Result a = Some (quote sid) ∧ ID a = ID msg ∧
  Method a = "" ∧ Params a = None ∧ Error a = None.
Proof.
  intros Hsid Hid. cbn zeta. split; [|done]. apply Forall_singleton. split_and!; try done.
  split; [by apply is_value_quote, bare_ascii|]. apply tight_compact. rewrite quote_bare by done. by apply tight_literal.
Qed.

Lemma namespace_of ns suf id p r e v : str_forall (λ d, negb (bool_decide (d = "_"%char))) ns = true →
  RpcMessage.namespace (mkMsg v id (ns +:+ String "_" suf) p r e) = ns.
Proof. intros H. unfold RpcMessage.namespace, SplitN2. cbn [Method]. change serviceMethodSeparator with "_"%char. by rewrite cut_app. Qed.

(** One more notification, from any goroutine, when the notifier is active. *)
Lemma notify_over_connection {U} (hc : handler codec U) (w : codec) n sub d loc :
  n_sub n = Some sub → n_activated n = true → is_ascii (n_namespace n) = true → bare (sub_ID sub) = true → data_text d →
  h_clientSubs hc !! sub_ID sub = Some loc → idle (h_conn hc) →
  ∃ w' hc', Notify (sub_ID sub) (Ok d) (n, w) = Ret (None, (n, w')) ∧
    read_turn (set_conn (feed (written w w') (h_conn hc)) hc) = Ret (None, hc') ∧
    h_subLog hc' = h_subLog hc ++ [SubDeliver loc (Some d)] ∧ idle (h_conn hc').
Proof.
  intros Hn Ha Hns Hid Hd Hsub Hidle. pose proof (notification_ok (n_namespace n) sub d Hns Hid Hd) as Hok.
  destruct (write_one _ w Hok) as (t & w' & _ & Ew & _). exists w'.
  pose proof (feed_pending [WMsg (notification (n_namespace n) sub d)] w (h_conn hc)) as Hp.
  cbn [write_all foldl] in Hp. rewrite Ew in Hp. cbn [snd] in Hp.
  destruct (read_pending _ _ _ (Hp ltac:(by apply Forall_singleton) Hidle) Hok) as (c & Hread & Hpend).
  eexists. split; [|split].
  - unfold Notify. rewrite Hn, decide_False by (intros E; by apply E). rewrite Ha. unfold send. by rewrite Ew.
  - by apply (take_notification _ (n_namespace n) sub d loc c).
  - split; [done|]. by apply idle_pending.
Qed.

(** The server reads the call and its goroutine answers. *)
Lemma serve_subscribe (hs : handler codec V) msg ns name cb nv args ds c :
  readBatch (stream_funcs reencode syntax_text remote) (h_conn hs) = Ret (Ok ([msg], false), c) →
  isCall msg = true → is_nil (ID msg) = false → RpcMessage.isSubscribe msg = true →
  h_allowSubscribe hs = true → parseSubscriptionName (Params msg) = Ok name → RpcMessage.namespace msg = ns →
  reg_subscription (h_reg hs) ns name = Some cb → errPos cb = 1%Z →
  parse_args decode_as Zero text (Params msg) (stringType :: argTypes cb) = Ok (nv :: args) →
  fn_body (cb_fn cb) args = subscription_body ds →
  is_ascii ns = true → bare (idgen (h_ids hs)) = true → Forall data_text ds →
  ∃ hs1 hs2, read_turn hs = Ret (None, hs1) ∧ h_conn hs1 = c ∧
    run_call decode_as Zero text as_ID idgen (length (h_callWG hs)) hs1 = Ret ((), hs2) ∧
    h_conn hs2 = write_all (WMsg (response msg (Ok (quote (idgen (h_ids hs))))) ::
      map (λ d, WMsg (notification ns (new_sub ns hs) d)) ds) c ∧
    h_serverSubs hs2 = <[idgen (h_ids hs) := new_sub ns hs]> (h_serverSubs hs).
Proof.
  intros Hread Hcall Hid Hsubm Ha Hname Hns Hcb Hpos Hargs Hbody Hans Hbare Hds.
  rewrite (read_turn_msg _ _ _ _ hs _ _ Hread), go_bind_run, handleMsg_call by done. cbn [mret go_ret].
  eexists. destruct (run_subscribe (upd_callWG (λ l, l ++ [JMsg msg]) (set_conn c hs)) (h_callWG hs) msg ns name cb nv args ds)
    as (hs2 & E & _ & Hc & Hs); try done.
  exists hs2. split; [reflexivity|]. split; [done|]. split; [exact E|]. by split.
Qed.

(** The client reads the answer and the notifications. *)
Lemma take_subscribed {U} (hc : handler codec U) msg s loc id sub ns ds :
  ID msg = Some id → hasValidID msg = true → raw_ok (ID msg) → is_ascii ns = true → bare (sub_ID s) = true → Forall data_text ds →
  h_respWait hc !! id = Some loc → h_ops hc !! loc = Some (subscribe_op id sub) →
  pending (h_conn hc) (WMsg (response msg (Ok (quote (sub_ID s)))) :: map (λ d, WMsg (notification ns s d)) ds) →
  ∃ hc', read_turns (S (length ds)) hc = Ret (None, hc') ∧ idle (h_conn hc') ∧
    h_subLog hc' = h_subLog hc ++ SubStart sub :: map (λ d, SubDeliver sub (Some d)) ds ∧
    h_clientSubs hc' = <[sub_ID s := sub]> (h_clientSubs hc) ∧ h_ops hc' !! loc = Some (closed_op (subscribe_op id sub)).
Proof.
  intros Hid Hvid Hraw Hns Hbare Hds Hreg Hop Hpend.
  destruct (response_received msg (sub_ID s) Hbare Hraw) as (Hok & Hrecv & A1 & A2 & A3 & A4 & A5).
  destruct (read_pending _ _ _ Hpend Hok) as (c & Hread & Hpend').
  cbn [wire_msgs fst snd fmap list_fmap] in Hread. rewrite Hrecv in Hread.
  destruct (take_subscription hc (response msg (Ok (quote (sub_ID s)))) (sub_ID s) loc id sub c)
    as (hc1 & E1 & Hc1 & _ & Hlog & Hcs & Hop1); try done.
  destruct (take_notifications hc1 ns s ds sub) as (hc2 & E2 & Hidle & Hlog2 & Hcs2 & Hop2 & _); try done;
    [by rewrite Hcs, lookup_insert_eq|by rewrite Hc1|].
  exists hc2. cbn [read_turns]. rewrite go_bind_run, E1. split; [exact E2|]. split; [done|].
  rewrite Hlog2, Hlog, <-app_assoc, Hcs2, Hop2. done.
Qed.

(** C14: [Subscribe] of a method whose callback creates a subscription and notifies it of
    [ds], on a connection with nothing unread: the answer and the notifications are
    texts that the client reads one by one, [Subscribe] returns the subscription, the
    client starts it and delivers [ds] to it in their order, and from then on whatever
    the server notifies through the active notifier arrives as well. *)
Theorem subscribe_over_connection idCounter ns raw name cb nv args ds loc sub (hc : handler codec V') (hs : handler codec V) :
  inv hc → h_ops hc !! loc = None → idle (h_conn hc) → idle (h_conn hs) →
  is_ascii ns = true → str_forall (λ d, negb (bool_decide (d = "_"%char))) ns = true → canonical raw →
  h_allowSubscribe hs = true → parseSubscriptionName (Some raw) = Ok name → reg_subscription (h_reg hs) ns name = Some cb →
  errPos cb = 1%Z → parse_args decode_as Zero text (Some raw) (stringType :: argTypes cb) = Ok (nv :: args) →
  fn_body (cb_fn cb) args = subscription_body ds → Forall data_text ds → bare (idgen (h_ids hs)) = true →
  let id := idgen (h_ids hs) in let s := new_sub ns hs in
  ∃ msg c w hc' hs',
    Subscribe_message false idCounter ns (mkChanArg true true false) (Some (Ok raw)) = Ret (Ok msg, c) ∧
    subscribe_exchange msg loc sub (S (length ds)) hc hs = Ret (None, w, hc', hs') ∧
    Subscribe_result sub None w = Ok sub ∧
    h_subLog hc' = h_subLog hc ++ SubStart sub :: map (λ d, SubDeliver sub (Some d)) ds ∧
    h_clientSubs hc' = <[id := sub]> (h_clientSubs hc) ∧ h_serverSubs hs' = <[id := s]> (h_serverSubs hs) ∧
    idle (h_conn hc') ∧ idle (h_conn hs') ∧
    ∀ d n, data_text d → n_sub n = Some s → n_activated n = true → n_namespace n = ns →
      ∃ w' hc2, Notify id (Ok d) (n, h_conn hs') = Ret (None, (n, w')) ∧
        read_turn (set_conn (feed (written (h_conn hs') w') (h_conn hc')) hc') = Ret (None, hc2) ∧
        h_subLog hc2 = h_subLog hc' ++ [SubDeliver sub (Some d)].
Proof.
  intros Hinv Hloc Hic His Hans Hnou Hraw Hallow Hname Hcb Hpos Hargs Hbody Hds Hbare id s.
  destruct (newMessage_ok idCounter (ns +:+ subscribeMethodSuffix) (Some raw)) as (msg & c & E).
  destruct (newMessage_call reencode _ _ (Some raw) _ _ E) as (Hcall & Hok & Hmeth & Hp & Hrecv & mid & Hid & Hvid & Hmid);
    [by destruct ns|by unfold is_ascii in *; rewrite str_forall_app, Hans|done|].
  exists msg, c. unfold subscribe_exchange. rewrite Hid. cbn [default from_option Datatypes.id].
  destruct (register_op loc mid (subscribe_op mid sub) hc Hinv Hloc) as (hc1 & E1 & Hok1 & Hconn & Hreg & Hop & Hlog1 & Hcs1);
    [done|split_and!; [done..|cbn; lia]|].
  rewrite E1. cbn [mbind outcome_bind]. rewrite Hconn.
  destruct (write_one (WMsg msg) (h_conn hc)) as (t1 & cc & _ & Ew1 & _ & Hin1 & Hde1); [by apply Forall_singleton|].
  pose proof (feed_pending [WMsg msg] (h_conn hc) (h_conn hs) ltac:(by apply Forall_singleton, Forall_singleton) His) as Hpend.
  cbn [write_all foldl] in Hpend. rewrite Ew1 in Hpend |- *. cbn [snd] in Hpend.
  set (hs0 := set_conn (feed (written (h_conn hc) cc) (h_conn hs)) hs).
  destruct (read_pending _ _ _ Hpend) as (sc & Hread & Hsc); [by apply Forall_singleton|].
  cbn [wire_msgs fst snd fmap list_fmap] in Hread. rewrite Hrecv in Hread.
  assert (RpcMessage.namespace msg = ns) as Hns.
  { unfold newMessage, nextID in E. injection E as <- _. by apply (namespace_of ns "subscribe"). }
  destruct (serve_subscribe hs0 msg ns name cb nv args ds sc Hread) as (hs1 & hs2 & -> & Hc1 & E2 & Hc2 & Hss2); try done;
    [by rewrite Hid|unfold RpcMessage.isSubscribe; rewrite Hmeth; apply HasSuffix_app|by rewrite Hp|by rewrite Hp|].
  cbn [mbind outcome_bind]. change (h_callWG hs) with (h_callWG hs0). rewrite E2. cbn [mbind outcome_bind].
  change (idgen (h_ids hs0)) with id in Hc2, Hss2. change (new_sub ns hs0) with s in Hc2, Hss2.
  assert (Forall wire_ok (WMsg (response msg (Ok (quote id))) :: map (λ d, WMsg (notification ns s d)) ds)) as Hvs.
  { constructor; [apply (response_received msg id Hbare); by rewrite Hid|]. apply Forall_map.
    eapply Forall_impl; [exact Hds|]. intros d Hd. by apply notification_ok. }
  assert (idle cc) as Hcc by (split; [by rewrite Hin1; apply Hic|by rewrite Hde1; apply Hic]).
  rewrite Hc1, Hc2.
  destruct (take_subscribed (set_conn (feed (written sc (write_all (WMsg (response msg (Ok (quote id))) ::
    map (λ d, WMsg (notification ns s d)) ds) sc)) cc) hc1) msg s loc mid sub ns ds)
    as (hc2 & -> & Hidle & Hlog & Hcs & Hop2); try done; [by rewrite Hid|by apply feed_pending|].
  cbn [mbind outcome_bind]. rewrite Hop2. do 3 eexists. split; [by rewrite <-E|]. split; [reflexivity|].
  split; [done|]. cbn [h_subLog h_clientSubs upd_ops h_conn]. rewrite Hlog, Hcs. cbn [set_conn h_subLog h_clientSubs].
  rewrite Hlog1, Hcs1. split_and!; [done|done|exact Hss2|done| |].
  - destruct (write_all_out _ sc Hvs) as (_ & _ & _ & Hi & He). apply idle_pending in Hsc as [Hs1 Hs2].
    by split; [rewrite Hc2, Hi|rewrite Hc2, He].
  - intros d n Hd Hn Hact Hnn. match goal with |- context [set_conn _ ?h] =>
      destruct (notify_over_connection h (h_conn hs2) n s d sub) as (w' & hc3 & H1 & H2 & H3 & _) end;
      [done|done|by rewrite Hnn|done|done|by cbn; rewrite Hcs, lookup_insert_eq|done|].
    exists w', hc3. split; [exact H1|]. split; [exact H2|].
    rewrite H3. cbn [upd_ops h_subLog]. rewrite Hlog. cbn [set_conn h_subLog]. by rewrite Hlog1.
Qed.
End wire_sub.

(** ** A subscription with two notifications *)

Definition demo_ticks : callback (list string → script) :=
  mkCallback (mkFunc [contextType] [TPtr subscriptionType; errorType] (λ _, subscription_body ["1"; "2"]))
    false [] true 1 true.
Definition demo_sub_registry : serviceRegistry (list string → script) :=
  mkRegistry {[ "eth" := mkService "eth" ∅ {[ "ticks" := demo_ticks ]} ]}.

Lemma subscribe_over_connection_witness :
  ∃ msg w hc' hs',
    subscribe_exchange id id None 0 (λ _ raw, Ok raw) (λ _, "") (λ _, "") id (λ _, "0x7")
      msg 3 9 3 (demo_end (U := unit) (mkRegistry ∅)) (demo_end demo_sub_registry) = Ret (None, w, hc', hs') ∧
    Subscribe_result 9 None w = Ok 9%nat ∧
    h_subLog hc' = [SubStart 9; SubDeliver 9 (Some "1"); SubDeliver 9 (Some "2")] ∧
    h_clientSubs hc' = {[ "0x7" := 9%nat ]}.
Proof.
  destruct (subscribe_over_connection (V' := unit) id id None 0 (λ _ raw, Ok raw) (λ _, "") (λ _, "") id (λ _, "0x7")
    0 "eth" (print_array [quote "ticks"]) "ticks" demo_ticks (quote "ticks") [] ["1"; "2"] 3 9
    (demo_end (mkRegistry ∅)) (demo_end demo_sub_registry)) as (msg & c & w & hc' & hs' & _ & E & Hw & Hlog & Hcs & _);
    try (split; [reflexivity|]); try reflexivity.
  - apply inv_newHandler.
  - repeat apply Forall_cons_2; try apply Forall_nil_2; (split; [reflexivity|by apply tight_outer]).
  - exists msg, w, hc', hs'. split; [exact E|]. split; [exact Hw|]. split; [exact Hlog|exact Hcs].
Defined.
