(* ===== verification/RpcClientProps.v ===== *)
(** * Properties of the client

    Request IDs, the matching of batch responses, and the invariant of the send
    lock. *)

From S2P Require Import Prelude GoText Json RpcMessage RpcArgs RpcService GoChan.
From S2P Require Import RpcSubscription RpcClientSub RpcHandler RpcHandlerProps RpcClient.

(** ** Request IDs *)

(** The IDs of [n] consecutive requests. *)
Fixpoint next_ids (n : nat) (idCounter : Z) : list string :=
  match n with O => [] | S n => (nextID idCounter).2 :: next_ids n (nextID idCounter).1 end.

Lemma next_ids_lookup n c i id :
  in_u 32 c → next_ids n c !! i = Some id →
  (i < n)%nat ∧ id = FormatUint (Z.to_N (wrapu 32 (c + Z.of_nat i + 1))).
Proof.
  revert c i. induction n as [|n IH]; intros c i Hc; cbn [next_ids]; [done|].
  destruct i as [|i]; cbn [lookup list_lookup].
  - intros [= <-]. split; [lia|]. cbn. do 3 f_equal. lia.
  - intros H. apply IH in H as [Hi ->]; [|by apply wrapu_range]. split; [lia|].
    do 2 f_equal. cbn [nextID fst]. unfold wrapu.
    replace ((c + 1) mod 2 ^ 32 + Z.of_nat i + 1)%Z with ((c + 1) mod 2 ^ 32 + (Z.of_nat i + 1))%Z by lia.
    rewrite Z.add_mod_idemp_l by lia. f_equal. lia.
Qed.

(** the IDs of up to [2^32] consecutive requests of a client are different,
    also when the counter wraps around, and each is the text of a JSON number. *)
Theorem nextID_distinct n c :
  in_u 32 c → (Z.of_nat n ≤ 2 ^ 32)%Z → NoDup (next_ids n c) ∧ Forall is_value (next_ids n c).
Proof.
  intros Hc Hn. split.
  - apply NoDup_alt. intros i j id Hi Hj.
    apply next_ids_lookup in Hi as [Hin ->]; [|done]. apply next_ids_lookup in Hj as [Hjn E]; [|done].
    apply (inj pretty) in E. apply Z2N.inj in E; [|by apply wrapu_range..]. unfold wrapu in E.
    pose proof (Z.div_mod (c + Z.of_nat i + 1) (2 ^ 32) ltac:(lia)).
    pose proof (Z.div_mod (c + Z.of_nat j + 1) (2 ^ 32) ltac:(lia)).
    set (q1 := ((c + Z.of_nat i + 1) / 2 ^ 32)%Z) in *. set (q2 := ((c + Z.of_nat j + 1) / 2 ^ 32)%Z) in *.
    assert (q1 = q2) by nia. subst. lia.
  - apply Forall_lookup. intros i id Hi. apply next_ids_lookup in Hi as [_ ->]; [|done].
    apply FormatUint_num.
Qed.

Lemma nextID_distinct_witness : NoDup ["4294967295"; "0"; "1"] ∧ Forall is_value ["4294967295"; "0"; "1"].
Proof. apply (nextID_distinct 3 4294967294); [done|lia]. Defined.

(** ** Batches *)

Lemma find_elem_lookup msgs id i m :
  NoDup (ID <$> msgs) → msgs !! i = Some m → ID m = id → find_elem msgs id = Some i.
Proof.
  revert i. induction msgs as [|m0 msgs IH]; intros i Hnd Hi Hid; [done|]. cbn in Hnd |- *.
  apply NoDup_cons in Hnd as [Hn Hnd]. destruct i as [|i]; cbn in Hi.
  - injection Hi as ->. by rewrite decide_True.
  - rewrite decide_False; [by rewrite (IH i)|]. intros E. apply Hn. rewrite E, <-Hid.
    by eapply list_elem_of_fmap_2, list_elem_of_lookup_2.
Qed.

Lemma batch_loop_spec msgs b rs :
  NoDup (ID <$> msgs) → length b = length msgs → NoDup (ID <$> rs) → (ID <$> rs) ⊆ (ID <$> msgs) →
  ∃ b', batch_loop msgs b (map (λ r, WaitResp (Some r) None) rs) = Ret (None, b') ∧ length b' = length b ∧
    ∀ i m e, msgs !! i = Some m → b !! i = Some e →
      (∀ r, r ∈ rs → ID r = ID m → b' !! i = Some (apply_resp e r)) ∧
      (ID m ∉ (ID <$> rs) → b' !! i = Some e).
Proof.
  intros Hnd. revert b. induction rs as [|r rs IH]; intros b Hlen Hndr Hsub; cbn [map batch_loop].
  { exists b. split_and!; try done. intros i m e Hm He. split; [|done]. intros r []%elem_of_nil. }
  cbn in Hndr, Hsub. apply NoDup_cons in Hndr as [Hnr Hndr].
  assert (ID r ∈ (ID <$> msgs)) as (m & Hid & Hm)%list_elem_of_fmap by (apply Hsub; by left).
  apply list_elem_of_lookup in Hm as [i Hi]. rewrite (find_elem_lookup msgs (ID r) i m) by done.
  destruct (b !! i) as [e|] eqn:He.
  2: { apply lookup_lt_Some in Hi. apply lookup_ge_None in He. lia. }
  destruct (IH (<[i:=apply_resp e r]> b)) as (b' & E & Hl & Hb); [by rewrite length_insert|done| |].
  { intros x Hx. apply Hsub. by right. }
  exists b'. split; [done|]. split; [by rewrite Hl, length_insert|].
  assert (i < length b)%nat as Hlt by (by eapply lookup_lt_Some).
  intros j mj ej Hmj Hej. destruct (decide (j = i)) as [->|Hne].
  - simplify_eq. destruct (Hb i m (apply_resp e r)) as [_ Hb2]; [done|by apply list_lookup_insert_eq|].
    split.
    + intros r' [->|Hr']%elem_of_cons Hid'; [apply Hb2; by rewrite <-Hid|]. exfalso. apply Hnr.
      rewrite Hid, <-Hid'. by apply list_elem_of_fmap_2.
    + intros Hn. exfalso. apply Hn. rewrite <-Hid. by left.
  - assert (ID mj ≠ ID r) as Hidne.
    { intros E'. apply Hne. rewrite NoDup_alt in Hnd. apply (Hnd j i (ID mj)).
      - by rewrite list_lookup_fmap, Hmj.
      - rewrite list_lookup_fmap, Hi. cbn. congruence. }
    destruct (Hb j mj ej Hmj) as [Hb1 Hb2]; [by rewrite list_lookup_insert_ne|]. split.
    + intros r' [->|Hr']%elem_of_cons Hid'; [done|]. by apply Hb1.
    + intros Hn. apply Hb2. intros Hin. apply Hn. by right.
Qed.

(** [BatchCallContext] gives every element the response with the ID of its
    message, whatever the order in which the server answers: its error, an
    [ErrNoResult] error, or the decoded result. *)
Theorem batch_responses_matched msgs b rs :
  NoDup (ID <$> msgs) → length b = length msgs → (ID <$> rs) ≡ₚ (ID <$> msgs) →
  ∃ b', BatchCallContext_result msgs b None (map (λ r, WaitResp (Some r) None) rs) = Ret (None, b') ∧
    ∀ i m e, msgs !! i = Some m → b !! i = Some e →
      ∃ r, r ∈ rs ∧ ID r = ID m ∧ b' !! i = Some (apply_resp e r).
Proof.
  intros Hnd Hlen Hp. unfold BatchCallContext_result.
  assert (length rs = length b) as Hrs.
  { apply Permutation_length in Hp. rewrite !length_fmap in Hp. lia. }
  rewrite firstn_all2 by (rewrite length_map; lia).
  destruct (batch_loop_spec msgs b rs) as (b' & E & _ & Hb); [done|done|by rewrite Hp|by rewrite Hp|].
  exists b'. split; [done|]. intros i m e Hm He.
  assert (ID m ∈ (ID <$> rs)) as (r & Hid & Hr)%list_elem_of_fmap.
  { rewrite Hp. by eapply list_elem_of_fmap_2, list_elem_of_lookup_2. }
  exists r. split; [done|]. split; [done|]. by apply (Hb i m e).
Qed.

Definition ex_elem : BatchElem := mkElem "eth_x" None (λ _, None) None None.
Definition ex_req (id : string) : jsonrpcMessage := mkMsg vsn (Some id) "eth_x" None None None.
Definition ex_resp (id v : string) : jsonrpcMessage := mkMsg vsn (Some id) "" None None (Some v).

Lemma batch_responses_matched_witness :
  ∃ b', BatchCallContext_result [ex_req "1"; ex_req "2"] [ex_elem; ex_elem] None
          (map (λ r, WaitResp (Some r) None) [ex_resp "2" "20"; ex_resp "1" "10"]) = Ret (None, b').
Proof.
  destruct (batch_responses_matched [ex_req "1"; ex_req "2"] [ex_elem; ex_elem]
    [ex_resp "2" "20"; ex_resp "1" "10"]) as (b' & E & _); [|done| |by exists b'].
  - apply NoDup_cons. split; [|apply NoDup_singleton]. by intros H%list_elem_of_singleton.
  - apply Permutation_swap.
Defined.

(** ** The send lock *)

Section client_props.
Context {W : Type} `{JsonWriter W} {V : Type}.
Context (decode_as : gotype → string → result string V) (Zero : gotype → V)
  (text : decError → string) (as_ID : V → string) (idgen : nat → string).

Abbreviation dispatch := (dispatch W V).
Abbreviation client := (client W V).
Abbreviation client_step := (client_step decode_as Zero text as_ID idgen).
Implicit Types (d : dispatch) (c : client).

(** A goroutine between the two channel operations of [send]. *)
Definition holding (s : sender (W:=W)) : bool :=
  match sn_pc s with SWrite _ | SReconnect _ _ _ | SEmit _ | SReport _ => true | _ => false end.
Definition holders (l : list (sender (W:=W))) : nat := length (filter (λ s, holding s = true) l).
Definition b2n (b : bool) : nat := if b then 1%nat else 0%nat.

#[local] Arguments holders : simpl never.

Lemma holders_insert l i s s' :
  l !! i = Some s → (holders (<[i := s']> l) + b2n (holding s) = holders l + b2n (holding s'))%nat.
Proof.
  intros Hi. assert (i < length l)%nat as Hlt by (by eapply lookup_lt_Some).
  assert (holders l = holders (take i l ++ s :: drop (S i) l)) as -> by (by rewrite <-(list_split_lookup l i s Hi)).
  rewrite (insert_take_drop l i s') by done. unfold holders. rewrite !filter_app, !length_app, !filter_cons.
  destruct (holding s), (holding s'); repeat case_decide; try done; cbn [length b2n]; lia.
Qed.

Lemma holders_snoc l s : holders (l ++ [s]) = (holders l + b2n (holding s))%nat.
Proof.
  unfold holders. rewrite filter_app, length_app, filter_cons, filter_nil.
  destruct (holding s); by rewrite ?decide_True, ?decide_False by done.
Qed.

Lemma holders_pos l s : s ∈ l → holding s = true → (0 < holders l)%nat.
Proof.
  intros Hin Hh. assert (s ∈ filter (λ s, holding s = true) l) as Hf by (by apply list_elem_of_filter).
  unfold holders. destruct (filter _ l); [by apply elem_of_nil in Hf|cbn; lia].
Qed.

(** Who holds the send lock: a sender, a report not yet read, or dispatch. *)
Definition lock_inv c : Prop :=
  (holders (cl_senders c) + length (cl_reqSent c) + b2n (dp_accept (cl_dispatch c)) = 1)%nat ∧
  (dp_accept (cl_dispatch c) = false → is_Some (dp_lastOp (cl_dispatch c))) ∧
  (∀ i s, cl_senders c !! i = Some s → holding s = true → dp_lastOp (cl_dispatch c) = Some (sn_op s)).

(** The send state after an event. *)
Definition send_after (ev : event (W:=W)) d : option nat * bool :=
  match ev with
  | EvReqInit op => (Some op, false)
  | EvReqSent _ => (None, true)
  | _ => (dp_lastOp d, dp_accept d)
  end.

Lemma on_conn_inv {A} (f : go (RpcHandler.handler W V) A) d a d' :
  on_conn f d = Ret (a, d') → ∃ h, f (dp_conn d) = Ret (a, h) ∧ d' = set_dp_conn h d.
Proof. unfold on_conn. destruct (f (dp_conn d)) as [[a' h]| |]; cbn; [|done|done]. intros [= <- <-]. eauto. Qed.

(** An event other than the end of a wait is taken only when the loop does not wait. *)
Lemma dispatch_event_cases ev d x :
  dispatch_event text ev d = Ret x → (ev = EvOnceDone ∨ dp_waiting d = None) ∧ dispatch_case text ev d = Ret x.
Proof.
  unfold dispatch_event. rewrite go_bind_run. cbn [go_get].
  destruct (dp_waiting d), ev; try done; cbn [dispatch_case]; auto.
Qed.
Lemma dispatch_event_case ev d : dp_waiting d = None → dispatch_event text ev d = dispatch_case text ev d.
Proof. intros E. unfold dispatch_event. rewrite go_bind_run. cbn [go_get]. by rewrite E. Qed.
Lemma dispatch_event_waits ev d :
  dp_waiting d ≠ None → ev ≠ EvOnceDone → dispatch_event text ev d = Blocks "sync.Once".
Proof.
  intros Hw He. unfold dispatch_event. rewrite go_bind_run. cbn [go_get].
  by destruct (dp_waiting d), ev.
Qed.

Lemma reconnect_inv cd w d u d' :
  reconnect_to cd w d = Ret (u, d') →
  ∃ op h, dp_lastOp d = Some op ∧
    addRequestOp op (dp_conn (newClientConn cd w (set_read true (Some cd) d))) = Ret ((), h) ∧
    d' = set_dp_conn h (newClientConn cd w (set_read true (Some cd) d)).
Proof.
  unfold reconnect_to. rewrite go_bind_run. cbn [go_modify]. rewrite go_bind_run. cbn [go_modify]. unfold with_lastOp.
  set (d1 := newClientConn _ _ _). destruct (dp_lastOp d1) as [op|] eqn:E; [|done].
  intros (h & Ha & ->)%on_conn_inv. destruct u. by exists op, h.
Qed.

(** The state after [conn.close] has returned and the loop has gone on. *)
Definition went_on (k : after_close (W:=W)) d d' : Prop :=
  match k with
  | AfterExit => d' = set_didClose (set_read (dp_reading d) None d)
  | AfterReadErr => d' = set_read false None d
  | AfterReconnect cd w => ∃ op h, dp_lastOp d = Some op ∧
      addRequestOp op (dp_conn (newClientConn cd w d)) = Ret ((), h) ∧
      d' = set_dp_conn h (newClientConn cd w (set_read true (Some cd) d))
  end.
(** And where it stands in [close]. *)
Definition closes_to err (k : after_close (W:=W)) (r : option nat) d d' : Prop :=
  match r with
  | Some sub => d' = set_waiting (Some (sub, err, k)) d
  | None => went_on k (close_codec (set_waiting None d)) d'
  end.

Lemma finish_close_inv err k r d u d' : finish_close err k r d = Ret (u, d') → closes_to err k r d d'.
Proof.
  unfold finish_close, closes_to. destruct r as [sub|]; [by intros [= _ <-]|].
  rewrite go_bind_run. cbn [go_modify]. rewrite go_bind_run. cbn [go_modify].
  destruct k as [| |cd w]; cbn [after_conn_close went_on].
  - rewrite go_bind_run. by intros [= _ <-].
  - by intros [= _ <-].
  - rewrite go_bind_run. cbn [go_modify drainRead]. intros (op & h & H1 & H2 & ->)%reconnect_inv. by exists op, h.
Qed.

Lemma conn_close_inv err infl k d u d' :
  conn_close err infl k d = Ret (u, d') →
  ∃ r h, close_handler err infl (dp_conn d) = Ret (r, h) ∧ closes_to err k r (set_dp_conn h d) d'.
Proof.
  unfold conn_close. intros (r & d1 & (h & E1 & ->)%on_conn_inv & E2%finish_close_inv)%go_bind_inv. eauto.
Qed.

Lemma once_done_inv d u d' :
  once_done d = Ret (u, d') →
  match dp_waiting d with
  | None => d' = d
  | Some (sub, err, k) => ∃ r h, resume_close err sub (dp_conn d) = Ret (r, h) ∧ closes_to err k r (set_dp_conn h d) d'
  end.
Proof.
  unfold once_done. rewrite go_bind_run. cbn [go_get]. destruct (dp_waiting d) as [[[sub err] k]|]; [|by intros [= _ <-]].
  intros (r & d1 & (h & E1 & ->)%on_conn_inv & E2%finish_close_inv)%go_bind_inv. eauto.
Qed.

(** Read off the state of a step that cannot fail. *)
Ltac inj E := injection E; intros; subst.

(** What an event does to the channels [closing] and [didClose], and what the loop then
    waits for. *)
Definition exits (ev : event (W:=W)) d : bool :=
  match ev, dp_waiting d with EvClose, _ => true | EvOnceDone, Some (_, _, AfterExit) => true | _, _ => false end.
Definition waits d : bool := match dp_waiting d with Some _ => true | None => false end.
Record event_flags ev d d' : Prop := {
  fl_send : (dp_lastOp d', dp_accept d') = send_after ev d;
  fl_closing : dp_closing d' = dp_closing d || match ev with EvClose => true | _ => false end;
  fl_didClose : dp_didClose d' = dp_didClose d || (exits ev d && negb (waits d'));
  fl_waiting sub err k : dp_waiting d' = Some (sub, err, k) →
    match ev with
    | EvClose => k = AfterExit
    | EvReadErr err' => k = AfterReadErr ∧ err = err'
    | EvReconnected cd w => k = AfterReconnect cd w
    | EvOnceDone => ∃ sub0, dp_waiting d = Some (sub0, err, k)
    | _ => False
    end }.

(** The event [EvClose], or the end of a wait in it, is the only one that exits. *)
Lemma closes_to_flags err k r d d' :
  closes_to err k r d d' → dp_lastOp d' = dp_lastOp d ∧ dp_accept d' = dp_accept d ∧ dp_closing d' = dp_closing d ∧
  dp_waiting d' = (match r with Some sub => Some (sub, err, k) | None => None end) ∧
  dp_didClose d' = dp_didClose d || (match k with AfterExit => true | _ => false end && negb (waits d')).
Proof.
  unfold closes_to. destruct r as [sub|].
  - intros ->. cbn. rewrite andb_false_r, orb_false_r. by split_and!.
  - destruct k as [| |cd w]; cbn [went_on]; [intros ->|intros ->|intros (op & h & _ & _ & ->)]; cbn;
      rewrite ?andb_false_r, ?orb_false_r, ?orb_true_r; by split_and!.
Qed.

Lemma dispatch_event_flags ev d d' : dispatch_event text ev d = Ret ((), d') → event_flags ev d d'.
Proof.
  assert (∀ d', dp_lastOp d' = dp_lastOp d → dp_accept d' = dp_accept d → dp_closing d' = dp_closing d →
    dp_waiting d' = None → dp_didClose d' = dp_didClose d → send_after ev d = (dp_lastOp d, dp_accept d) →
    ev ≠ EvClose → exits ev d = false → event_flags ev d d') as Hkeep.
  { intros d1 E1 E2 E3 E4 E5 Es Hc Hx. split; [by rewrite E1, E2, Es| |by rewrite E5, Hx, orb_false_r|by rewrite E4].
    rewrite E3. destruct ev; try done; by rewrite orb_false_r. }
  intros [Hw H0]%dispatch_event_cases. destruct ev as [|msgs batch|err|cd w|op|err|op|]; cbn [dispatch_case] in H0.
  - destruct Hw as [|Hw]; [done|]. unfold dispatch_exit in H0. rewrite go_bind_run in H0. cbn [go_modify] in H0.
    rewrite go_bind_run in H0. cbn [go_get] in H0. destruct (dp_reading (set_closing d)).
    + apply conn_close_inv in H0 as (r & h & _ & (F1 & F2 & F3 & F4 & F5)%closes_to_flags).
      split; [by rewrite F1, F2|by rewrite F3, orb_true_r|exact F5|].
      intros sub e k. rewrite F4. destruct r; by intros [= _ _ <-].
    + inj H0. split; [done|by rewrite orb_true_r| |by cbn; rewrite Hw]. unfold waits. cbn. rewrite Hw. by rewrite orb_true_r.
  - destruct Hw as [|Hw]; [done|].
    destruct batch; [|destruct msgs; [done|]]; apply on_conn_inv in H0 as (h & _ & ->); by apply Hkeep.
  - rewrite go_bind_run in H0. cbn [go_get] in H0. apply conn_close_inv in H0 as (r & h & _ & (F1 & F2 & F3 & F4 & F5)%closes_to_flags).
    split; [by rewrite F1, F2|by rewrite F3, orb_false_r|by rewrite F5|].
    intros sub e k. rewrite F4. destruct r; by intros [= _ <- <-].
  - destruct Hw as [|Hw]; [done|]. rewrite go_bind_run in H0. cbn [go_get] in H0. destruct (dp_reading d).
    + apply conn_close_inv in H0 as (r & h & _ & (F1 & F2 & F3 & F4 & F5)%closes_to_flags).
      split; [by rewrite F1, F2|by rewrite F3, orb_false_r|by rewrite F5|].
      intros sub e k. rewrite F4. destruct r; by intros [= _ _ <-].
    + apply reconnect_inv in H0 as (op & h & _ & _ & ->). by apply Hkeep.
  - destruct Hw as [|Hw]; [done|]. rewrite go_bind_run in H0. cbn [go_modify] in H0. apply on_conn_inv in H0 as (h & _ & ->).
    split; cbn; rewrite ?orb_false_r; try done. by rewrite Hw.
  - destruct Hw as [|Hw]; [done|]. apply go_bind_inv in H0 as (? & d1 & E1 & E2). inj E2.
    assert (dp_closing d1 = dp_closing d ∧ dp_didClose d1 = dp_didClose d ∧ dp_waiting d1 = None) as (E3 & E4 & E5).
    { destruct err; [|by inj E1]. unfold with_lastOp in E1. destruct (dp_lastOp d); [|done].
      by apply on_conn_inv in E1 as (h & _ & ->). }
    split; cbn; rewrite ?orb_false_r; try done. by rewrite E5.
  - destruct Hw as [|Hw]; [done|]. apply on_conn_inv in H0 as (h & _ & ->). by apply Hkeep.
  - apply once_done_inv in H0. destruct (dp_waiting d) as [[[sub err] k]|] eqn:Hd.
    + destruct H0 as (r & h & _ & (F1 & F2 & F3 & F4 & F5)%closes_to_flags).
      split; [by rewrite F1, F2|by rewrite F3, orb_false_r| |].
      * rewrite F5. unfold exits. by rewrite Hd.
      * intros s e k'. rewrite F4. destruct r; [|done]. intros [= _ <- <-]. by exists sub.
    + subst d'. apply Hkeep; try done. unfold exits. by rewrite Hd.
Qed.

Lemma send_after_event ev d d' :
  dispatch_event text ev d = Ret ((), d') → (dp_lastOp d', dp_accept d') = send_after ev d.
Proof. by intros [? _]%dispatch_event_flags. Qed.

Lemma lock_inv_senders c pc i s :
  cl_senders c !! i = Some s → holding (mkSender (sn_op s) pc) = holding s →
  lock_inv c → lock_inv (upd_sender i s pc c).
Proof.
  intros Hi Hh (L1 & L2 & L3). split_and!; [|done|]; cbn.
  - pose proof (holders_insert (cl_senders c) i s (mkSender (sn_op s) pc) Hi) as E. rewrite Hh in E. lia.
  - intros j s' [[-> ->]|[Hne Hj]]%lookup_insert_cases Hs'; [|by eapply L3].
    cbn in *. eapply (L3 i s); [done|]. congruence.
Qed.

Lemma lock_inv_send i s c c' :
  cl_senders c !! i = Some s → send_step text i s c c' → lock_inv c → lock_inv c'.
Proof.
  intros Hi Hs L.
  destruct Hs as [d Hp Hr Ha Hd|err Hp Hu|Hp _|retry conn Hp Hw|retry Hp Hw Hr|retry err Hp Hw Hr|retry nc w Hp Hw Hr
    |retry nc w d Hp Hr Hd|retry nc w Hp Hr|retry Hp|retry err Hp|err Hp Hlen];
    assert (holding s = match sn_pc s with SWrite _ | SReconnect _ _ _ | SEmit _ | SReport _ => true | _ => false end) as Hh by done;
    rewrite Hp in Hh; try (by apply lock_inv_senders).
  - apply send_after_event in Hd. injection Hd as D1 D2. destruct L as (L1 & L2 & L3).
    rewrite Ha in L1. cbn [b2n] in L1.
    pose proof (holders_insert (cl_senders c) i s (mkSender (sn_op s) (SWrite false)) Hi) as E.
    rewrite Hh in E. cbn [holding sn_pc b2n] in E. split_and!; cbn.
    + rewrite D2. cbn. lia.
    + intros _. rewrite D1. eauto.
    + intros j s' [[-> ->]|[Hne Hj]]%lookup_insert_cases Hs'; [done|].
      pose proof (holders_insert (cl_senders c) j s' s' Hj) as E'.
      pose proof (holders_pos (cl_senders c) s' ltac:(by eapply list_elem_of_lookup_2) Hs'). lia.
  - apply send_after_event in Hd. injection Hd as D1 D2.
    apply (lock_inv_senders (set_writeConn (Some nc) (upd_dispatch d c))); [done|done|].
    destruct L as (L1 & L2 & L3). split_and!; cbn; rewrite ?D1, ?D2; done.
  - destruct retry; apply (lock_inv_senders (set_writeConn None c)); done.
  - destruct L as (L1 & L2 & L3).
    pose proof (holders_insert (cl_senders c) i s (mkSender (sn_op s) (SReturn err)) Hi) as E.
    rewrite Hh in E. cbn [holding sn_pc b2n] in E. split_and!; [cbn|done|cbn].
    + rewrite length_app. cbn. lia.
    + intros j s' [[-> ->]|[Hne Hj]]%lookup_insert_cases Hs'; [done|by eapply L3].
Qed.

(** A request of its own, and the end of the loop. *)
Lemma lock_inv_add loc op h c : lock_inv c → lock_inv (add_sender loc op (upd_conn h c)).
Proof.
  intros (L1 & L2 & L3). split_and!; [cbn|done|cbn].
  - rewrite holders_snoc. cbn. lia.
  - intros i s [Hi|[_ Hi]]%lookup_app_Some Hh; [by eapply L3|].
    apply list_lookup_singleton_Some in Hi as [_ <-]. done.
Qed.

Lemma leave_loop_fields d c :
  cl_dispatch (leave_loop d c) = d ∧ cl_senders (leave_loop d c) = cl_senders c ∧ cl_reqSent (leave_loop d c) = cl_reqSent c ∧
  cl_writeConn (leave_loop d c) = cl_writeConn c ∧ cl_reconnectFunc (leave_loop d c) = cl_reconnectFunc c ∧
  cl_running (leave_loop d c) = cl_running c && negb (dp_didClose d).
Proof. unfold leave_loop. destruct (dp_didClose d); cbn; by rewrite ?andb_true_r, ?andb_false_r. Qed.

Lemma lock_inv_leave d c :
  dp_lastOp d = dp_lastOp (cl_dispatch c) → dp_accept d = dp_accept (cl_dispatch c) → lock_inv c → lock_inv (leave_loop d c).
Proof.
  intros E1 E2 (L1 & L2 & L3). destruct (leave_loop_fields d c) as (F1 & F2 & F3 & _).
  unfold lock_inv. by rewrite F1, F2, F3, E1, E2.
Qed.

Lemma lock_inv_step c c' : client_step c c' → lock_inv c → lock_inv c'.
Proof.
  intros Hs L. pose proof L as (L1 & L2 & L3).
  destruct Hs as [c loc op Hf Hq|c loc id sub h Hf Hq|c loc sub h Hq Hret|c i s c' Hi Hs|c err rest d Hr Hb Hd
    |c msgs batch d Hr Hrd Hd|c err d Hr Hrd Hd|c loc d Hr Hu Hd|c d Hr Hd|c d Hr Hw Hd|c i h Hc|c loc r h Hu Hc];
    try (apply send_after_event in Hd; injection Hd as D1 D2); try (by apply lock_inv_leave).
  - by apply (lock_inv_add loc op (dp_conn (cl_dispatch c)) c).
  - by apply lock_inv_add.
  - by split_and!.
  - by eapply lock_inv_send.
  - rewrite Hb in L1. cbn [length] in L1. split_and!; cbn; rewrite ?D1, ?D2; cbn [b2n].
    + destruct (dp_accept _); cbn [b2n] in L1; lia.
    + done.
    + intros i s Hi Hh. pose proof (holders_pos (cl_senders c) s ltac:(by eapply list_elem_of_lookup_2) Hh). lia.
  - split_and!; cbn; rewrite ?D1, ?D2; done.
  - split_and!; cbn; rewrite ?D1, ?D2; done.
  - split_and!; cbn; rewrite ?D1, ?D2; done.
  - by split_and!.
  - by split_and!.
Qed.

Lemma lock_inv_init codec w reg rc : lock_inv (initClient codec w reg rc).
Proof. split_and!; done. Qed.
End client_props.
