(* ===== verification/RpcWireBatch.v ===== *)
(** * A batch over a connection

    [BatchCallContext] of the client against the handler of a server: the batch is one
    text, its answers are another one, and each element is given its own. *)

From S2P Require Import Prelude GoText Json RpcMessage RpcArgs RpcService GoChan.
From S2P Require Import RpcSubscription RpcClientSub RpcHandler RpcHandlerProps RpcClient RpcWire RpcClientProps.

Section wire_batch.
Context {V V' : Type}.
Context (reencode syntax_text : string → string) (remote : option string) (now : Z).
Context (decode_as : gotype → string → result string V) (Zero : gotype → V).
Context (text : decError → string) (as_ID : V → string) (idgen : nat → string).

Abbreviation codec := (jsonCodec (C := streamConn)).
#[local] Instance wire_batch_writer : JsonWriter codec := codec_JsonWriter reencode syntax_text remote now.
Abbreviation read_turn := (read_turn reencode syntax_text remote text).

(** ** The batch and its waits *)

(** The calls of [op.wait] in the loop of [BatchCallContext]. *)
Fixpoint wait_all {U} (n loc : nat) : go (handler codec U) (list waited) :=
  match n with
  | O => mret []
  | S n => λ h,
      match h_ops h !! loc with
      | None => Panic "invalid memory address or nil pointer dereference"
      | Some op =>
          '(w, op) ← op_wait None op;
          '(ws, h) ← wait_all n loc (upd_ops <[loc := op]> h);
          Ret (w :: ws, h)
      end
  end.

(** The client registers the request at [loc] and writes the batch; the server reads
    it and runs the goroutine of its calls; the client reads the answers and receives
    them from the channel of the request. *)
Definition batch_exchange (msgs : list jsonrpcMessage) (loc : nat) (hc : handler codec V') (hs : handler codec V) :
    outcome (option gerror * list waited * handler codec V' * handler codec V) :=
  let op := batch_op (map (λ m, default "" (ID m)) msgs) in
  '(_, hc) ← addRequestOp loc (upd_ops <[loc := op]> hc);
  let '(send_err, cc) := jw_writeJSON None (WBatch msgs) (h_conn hc) in
  let hs0 := set_conn (feed (written (h_conn hc) cc) (h_conn hs)) hs in
  '(_, hs1) ← read_turn hs0;
  '(_, hs2) ← run_call decode_as Zero text as_ID idgen (length (h_callWG hs)) hs1;
  '(_, hc) ← read_turn (set_conn (feed (written (h_conn hs1) (h_conn hs2)) cc) hc);
  '(ws, hc) ← wait_all (length msgs) loc hc;
  Ret (send_err, ws, hc, hs2).

(** ** What the elements ask for *)

(** A call of a callback that only returns, with its parameters. *)
Record served_call := mkServed {
  se_params : RawMessage;
  se_args : list string;
  se_cb : callback (list V → script);
  se_f : list V → list goresult }.

Definition serves_call (reg : serviceRegistry (list V → script)) (method : string) (s : served_call) : Prop :=
  reg_callback reg method = Some (se_cb s) ∧
  ∀ args, args_of decode_as Zero (se_cb s) (se_args s) = Ok args → fn_body (cb_fn (se_cb s)) args = RpcHandler.SReturn (se_f s args).
Definition asks (reg : serviceRegistry (list V → script)) (e : BatchElem) (s : served_call) : Prop :=
  be_Method e ≠ "" ∧ is_ascii (be_Method e) = true ∧
  HasSuffix (be_Method e) subscribeMethodSuffix = false ∧ HasSuffix (be_Method e) unsubscribeMethodSuffix = false ∧
  be_Args e = params_text (se_params s) ∧ params_ok (se_params s) (se_args s) ∧ serves_call reg (be_Method e) s.

Definition answer_for (s : served_call) (m : jsonrpcMessage) : jsonrpcMessage :=
  answer_of decode_as Zero (se_cb s) (se_f s) m (se_args s).

(** The message of such an element. *)
Record request_for (reg : serviceRegistry (list V → script)) (s : served_call) (m : jsonrpcMessage) : Prop := {
  rf_call : isCall m = true;
  rf_id : is_Some (ID m) ∧ hasValidID m = true;
  rf_plain : RpcMessage.isSubscribe m = false ∧ isUnsubscribe m = false;
  rf_wire : msg_ok reencode m ∧ received reencode m = m;
  rf_params : params_are (Params m) (se_args s);
  rf_serves : serves_call reg (Method m) s }.

Lemma batch_messages_ok reg c b specs : Forall2 (asks reg) b specs →
  ∃ msgs c', batch_messages c b = (Ok msgs, c') ∧ Forall2 (request_for reg) specs msgs ∧
    map (λ m, default "" (ID m)) msgs = next_ids (length b) c.
Proof.
  intros Hb. revert c. induction Hb as [|e s b specs (Hm & Ha & Hs1 & Hs2 & He & Hp & Hs) Hb IH]; intros c.
  { exists [], c. by split_and!. }
  destruct (newMessage_ok c (be_Method e) (se_params s)) as (m & c1 & E). destruct (params_ok_are _ _ Hp) as [Hraw Hare].
  destruct (newMessage_call reencode _ _ _ _ _ E Hm Ha Hraw) as (Hcall & Hok & Hmeth & Hpar & Hrecv & id & Hid & Hv & _).
  destruct (IH c1) as (msgs & c' & E' & Hms & Hids). exists (m :: msgs), c'. cbn [batch_messages]. rewrite He, E, E'.
  split; [done|]. split.
  - constructor; [|done]. split; [done|split; [by eexists|done]| |done|by rewrite Hpar|by rewrite Hmeth].
    unfold RpcMessage.isSubscribe, isUnsubscribe. by rewrite Hmeth.
  - cbn [map length next_ids]. rewrite Hids. unfold newMessage, nextID, params_text in E.
    destruct (se_params s); injection E as <- <-; done.
Qed.

(** ** The server's half *)

Lemma immediate_all_calls {U} msgs (h : handler codec U) :
  Forall (λ m, isCall m = true ∧ is_Some (ID m)) msgs → immediate_all text msgs h = Ret (msgs, h).
Proof.
  induction 1 as [|m msgs [Hc [id Hid]] Hms IH]; [done|]. cbn [immediate_all]. rewrite go_bind_run.
  unfold handleImmediate, isNotification. rewrite Hid. cbn [is_nil andb].
  assert (isResponse m = false) as ->.
  { unfold isCall in Hc. apply andb_true_iff in Hc as [_ Hm%negb_true_iff]. unfold isResponse. by rewrite Hm, andb_false_r. }
  cbn [mret go_ret]. by rewrite go_bind_run, IH.
Qed.

Lemma answer_calls_stateless specs msgs (h : handler codec V) :
  Forall2 (request_for (h_reg h)) specs msgs →
  ∃ g, answer_calls decode_as Zero text as_ID idgen msgs h = (zip_with answer_for specs msgs, [], upd_gauges g h).
Proof.
  remember (h_reg h) as reg eqn:Er. intros Hm. revert h Er. induction Hm as [|s m specs msgs R Hm IH]; intros h ->.
  { exists (λ g, g). by destruct h. }
  destruct R as [R1 [[id Hid] _] [R3 R4] _ R5 [R6 R7]]. cbn [answer_calls].
  destruct (handleCallMsg_stateless reencode syntax_text remote now decode_as Zero text as_ID idgen h m (se_cb s) (se_f s) (se_args s)) as [g Hg]; try done;
    [by rewrite Hid|].
  change (wire_writer reencode syntax_text remote now) with wire_batch_writer in Hg. rewrite Hg. destruct (IH (upd_gauges g h) eq_refl) as [g' Hg']. rewrite Hg'. by exists (g' ∘ g).
Qed.

(** The server reads the batch, and one goroutine answers it. *)
Lemma serve_batch (hs : handler codec V) specs msgs c :
  msgs ≠ [] → Forall2 (request_for (h_reg hs)) specs msgs →
  readBatch (stream_funcs reencode syntax_text remote) (h_conn hs) = Ret (Ok (msgs, true), c) →
  ∃ hs1 hs2, read_turn hs = Ret (None, hs1) ∧ h_conn hs1 = c ∧
    run_call decode_as Zero text as_ID idgen (length (h_callWG hs)) hs1 = Ret ((), hs2) ∧
    h_conn hs2 = (jw_writeJSON None (WBatch (zip_with answer_for specs msgs)) c).2 ∧ h_callWG hs2 = h_callWG hs.
Proof.
  intros Hne Hm Hread. unfold read_turn. rewrite Hread. cbn [mbind outcome_bind].
  assert (Forall (λ m, isCall m = true ∧ is_Some (ID m)) msgs) as Hcalls.
  { eapply Forall2_Forall_r; [exact Hm|]. apply Forall_true. intros s m [R1 [R2 _] _ _ _ _]. by split. }
  set (hs1 := upd_callWG (λ l, l ++ [JBatch msgs]) (set_conn c hs)).
  set (h0 := upd_callWG (delete (length (h_callWG hs))) hs1).
  destruct (answer_calls_stateless specs msgs h0) as [g Hg]; [done|].
  exists hs1, (write_conn (WBatch (zip_with answer_for specs msgs)) (upd_gauges g h0)). split_and!; [|done| |done|].
  - rewrite go_bind_run. unfold handleBatch. destruct msgs as [|m0 msgs0]; [done|].
    rewrite go_bind_run, immediate_all_calls by done. done.
  - unfold run_call. rewrite go_bind_run. cbn [go_get h_callWG upd_callWG set_conn hs1].
    rewrite lookup_app_r, Nat.sub_diag by done. cbn [lookup list_lookup]. rewrite go_bind_run. cbn [go_modify]. unfold run_job.
    fold hs1 h0. rewrite Hg. destruct specs as [|s0 specs0]; [by apply Forall2_nil_inv_l in Hm; subst|].
    by destruct msgs as [|m0 msgs0].
  - cbn. by rewrite delete_middle, app_nil_r.
Qed.

(** ** The client's half *)

(** An answer to the request at [loc]. *)
Definition answers_to {U} (loc : nat) (h : handler codec U) (r : jsonrpcMessage) : Prop :=
  is_Some (ID r) ∧ hasValidID r = true ∧ Method r = "" ∧ Params r = None ∧ (is_Some (Result r) ∨ is_Some (Error r)) ∧
  h_respWait h !! default "" (ID r) = Some loc.

Lemma immediate_answers {U} rs loc (h : handler codec U) op :
  ops_ok h → NoDup (ID <$> rs) → Forall (answers_to loc h) rs →
  h_ops h !! loc = Some op → op_sub op = None → op_err op = None →
  ∃ h' op', immediate_all text rs h = Ret ([], h') ∧ h_conn h' = h_conn h ∧
    h_ops h' !! loc = Some op' ∧ op_err op' = None ∧ ch_buf (op_resp op') = ch_buf (op_resp op) ++ rs ∧
    (∀ id, h_respWait h !! id = None → h_respWait h' !! id = None) ∧
    ∀ r, r ∈ rs → h_respWait h' !! default "" (ID r) = None.
Proof.
  intros Hok Hnd Hr. revert h op Hok Hr. induction rs as [|r rs IH]; intros h op Hok Hr Hop Hsub Herr.
  { exists h, op. split_and!; try done; [by rewrite app_nil_r|]. by intros r ?%elem_of_nil. }
  apply Forall_cons in Hr as [([id Hid] & Hv & Hm & Hp & Hre & Hw) Hr]. cbn in Hnd. apply NoDup_cons in Hnd as [Hnr Hnd].
  destruct (handleResponse_run text h r Hok) as (h1 & E1 & Hok1 & (_ & _ & _ & _ & Hc1) & Hd).
  rewrite Hw in Hd. destruct Hd as (Hdel & _ & op0 & op1 & Hop0 & Hop1 & Hans1 & Hans2 & Hans).
  rewrite Hop in Hop0. injection Hop0 as <-. rewrite Hsub in Hans. destruct Hans as (He1 & _ & Hb1).
  destruct (IH Hnd h1 op1) as (h' & op' & E2 & Hc2 & Hop' & He2 & Hb2 & Hn & Hall); [done| |done|by rewrite Hans2|by rewrite He1|].
  { rewrite Forall_forall in Hr |- *. intros r' Hr'. destruct (Hr r' Hr') as ([id' Hid'] & ? & ? & ? & ? & Hw').
    unfold answers_to. split_and!; [by eexists|done..|]. rewrite Hdel, lookup_delete_ne; [done|]. rewrite Hid, Hid'. cbn. intros ->. apply Hnr.
    rewrite Hid, <-Hid'. by apply list_elem_of_fmap_2. }
  exists h', op'. split_and!; [|by rewrite Hc2|done|done|by rewrite Hb2, Hb1, <-app_assoc| |].
  - cbn [immediate_all]. rewrite go_bind_run. unfold handleImmediate, isNotification, isResponse. rewrite Hid, Hv, Hm, Hp. cbn [is_nil andb].
    rewrite bool_decide_eq_true_2 by done. assert (negb (is_nil (Result r)) || negb (is_nil (Error r)) = true) as ->.
    { destruct Hre as [[x ->]|[x ->]]; [done|]. by rewrite orb_true_r. }
    cbn [andb]. rewrite go_bind_run, E1. cbn [mret go_ret]. by rewrite go_bind_run, E2.
  - intros id0 H0. apply Hn. rewrite Hdel. apply lookup_delete_None. by right.
  - intros r' [->|Hr']%elem_of_cons; [apply Hn; rewrite Hdel; apply lookup_delete_eq|by apply Hall].
Qed.

(** The answers are received one after the other. *)
Lemma wait_all_run {U} rs loc (h : handler codec U) op :
  h_ops h !! loc = Some op → op_err op = None → ch_buf (op_resp op) = rs →
  ∃ h', wait_all (length rs) loc h = Ret (map (λ r, WaitResp (Some r) None) rs, h') ∧
    h_respWait h' = h_respWait h ∧ h_conn h' = h_conn h.
Proof.
  revert h op. induction rs as [|r rs IH]; intros h op Hop Herr Hb; [by exists h|]. cbn [length wait_all]. rewrite Hop.
  unfold op_wait, chan_recv. rewrite Hb, Herr. cbn [mbind outcome_bind op_err].
  set (op1 := mkOp _ _ _ _).
  destruct (IH (upd_ops <[loc := op1]> h) op1) as (h' & E & H1 & H2); [apply lookup_insert_eq|done|done|].
  exists h'. rewrite E. cbn [map]. by split_and!.
Qed.

(** The answers are read in one text and received in their order. *)
Lemma take_answers {U} (hc : handler codec U) loc op rs c :
  rs ≠ [] → ops_ok hc → NoDup (ID <$> rs) → Forall (answers_to loc hc) rs →
  h_ops hc !! loc = Some op → op_sub op = None → op_err op = None → ch_buf (op_resp op) = [] →
  readBatch (stream_funcs reencode syntax_text remote) (h_conn hc) = Ret (Ok (rs, true), c) →
  ∃ hc1 hc2, read_turn hc = Ret (None, hc1) ∧
    wait_all (length rs) loc hc1 = Ret (map (λ r, WaitResp (Some r) None) rs, hc2) ∧ h_conn hc2 = c ∧
    ∀ r, r ∈ rs → h_respWait hc2 !! default "" (ID r) = None.
Proof.
  intros Hne Hok Hnd Hr Hop Hsub Herr Hb Hread. unfold read_turn. rewrite Hread. cbn [mbind outcome_bind].
  destruct (immediate_answers rs loc (set_conn c hc) op) as (hc1 & op1 & E1 & Hc1 & Hop1 & Herr1 & Hb1 & _ & Hall); try done.
  destruct (wait_all_run rs loc hc1 op1) as (hc2 & E2 & Hw & Hc2); [done|done|by rewrite Hb1, Hb|].
  exists hc1, hc2. split_and!; [|done|by rewrite Hc2, Hc1|by rewrite Hw].
  rewrite go_bind_run. unfold handleBatch. destruct rs as [|r rs]; [done|]. rewrite go_bind_run, E1. done.
Qed.

(** ** The whole *)

Lemma answer_for_ID s m : ID (answer_for s m) = ID m.
Proof. by destruct (answer_of_response decode_as Zero (se_cb s) (se_f s) m (se_args s)) as [? _]. Qed.

Lemma fmap_ID_received (l : list jsonrpcMessage) : ID <$> (received reencode <$> l) = ID <$> l.
Proof. rewrite <-list_fmap_compose. by apply list_fmap_ext. Qed.

Lemma answers_IDs specs msgs : length specs = length msgs → ID <$> zip_with answer_for specs msgs = ID <$> msgs.
Proof.
  revert msgs. induction specs as [|s specs IH]; intros [|m msgs] Hl; try done. cbn. rewrite answer_for_ID. f_equal. apply IH. by injection Hl.
Qed.

Lemma foldl_insert_ids (m : gmap string nat) ids loc id :
  id ∈ ids → foldl (λ m id, <[id := loc]> m) m ids !! id = Some loc.
Proof.
  revert m. induction ids as [|id' ids IH]; intros m; [by intros ?%elem_of_nil|]. cbn [foldl].
  destruct (decide (id ∈ ids)) as [Hin|Hn]; [by intros _; apply IH|]. intros [->|?]%elem_of_cons; [|done].
  assert (∀ m, foldl (λ m id, <[id := loc]> m) m ids !! id' = m !! id') as ->; [|by apply lookup_insert_eq].
  clear IH. induction ids as [|x ids IH]; intros m0; [done|]. cbn [foldl]. apply not_elem_of_cons in Hn as [Hne Hn].
  rewrite IH by done. by apply lookup_insert_ne.
Qed.

Lemma register_batch {U} loc op (hc : handler codec U) : inv hc → h_ops hc !! loc = None → new_op op →
  ∃ hc1, addRequestOp loc (upd_ops <[loc := op]> hc) = Ret ((), hc1) ∧ ops_ok hc1 ∧ h_conn hc1 = h_conn hc ∧
    h_ops hc1 !! loc = Some op ∧ ∀ id, id ∈ op_ids op → h_respWait hc1 !! id = Some loc.
Proof.
  intros Hinv Hloc Hnew. destruct (addRequestOp_run loc op hc Hinv Hloc Hnew) as (hc1 & E & [Hok _]).
  exists hc1. unfold addRequestOp in E. cbn [h_ops upd_ops] in E. rewrite lookup_insert_eq in E. injection E as <-.
  split_and!; [|done|done|apply lookup_insert_eq|].
  - unfold addRequestOp. cbn [h_ops upd_ops]. by rewrite lookup_insert_eq.
  - intros id Hid. by apply foldl_insert_ids.
Qed.

Lemma batch_IDs_distinct n c msgs : in_u 32 c → (Z.of_nat n ≤ 2 ^ 32)%Z →
  map (λ m, default "" (ID m)) msgs = next_ids n c → NoDup (ID <$> msgs).
Proof.
  intros Hc Hn E. apply (NoDup_fmap_1 (default "")). rewrite <-list_fmap_compose.
  change (NoDup (map (λ m, default "" (ID m)) msgs)). rewrite E. by apply nextID_distinct.
Qed.

Lemma requests_wire reg specs msgs : Forall2 (request_for reg) specs msgs →
  Forall (msg_ok reencode) msgs ∧ received reencode <$> msgs = msgs.
Proof.
  induction 1 as [|s m specs msgs [_ _ _ [R1 R2] _ _] Hm [IH1 IH2]]; [done|]. cbn. rewrite R2, IH2. split; [by constructor|done].
Qed.

(** Every answer is one that the registered request waits for. *)
Lemma answers_registered {U} specs msgs (hc : handler codec U) loc r reg :
  Forall2 (request_for reg) specs msgs → (∀ id, id ∈ map (λ m, default "" (ID m)) msgs → h_respWait hc !! id = Some loc) →
  r ∈ received reencode <$> zip_with answer_for specs msgs → answers_to loc hc r.
Proof.
  intros Hms Hreg (a & -> & Ha)%list_elem_of_fmap. apply list_elem_of_lookup in Ha as [i Hi].
  apply lookup_zip_with_Some in Hi as (s & m & -> & Hs & Hm). destruct (Forall2_lookup_lr _ _ _ _ _ _ Hms Hs Hm) as [_ [R1 R2] _ _ _ _].
  destruct (answer_of_response decode_as Zero (se_cb s) (se_f s) m (se_args s)) as (A1 & A2 & A3 & A4).
  fold (answer_for s m) in A1, A2, A3, A4. unfold answers_to, received, hasValidID in *. cbn [ID Method Params Result Error].
  rewrite A1. split_and!; [done|done|done|done| |].
  - destruct A4 as [?|[e ->]]; [by left|right; by eexists].
  - apply Hreg. apply list_elem_of_lookup. exists i. by rewrite list_lookup_fmap, Hm.
Qed.

(** The loop over the answers gives each element its own. *)
Lemma batch_given specs msgs b : NoDup (ID <$> msgs) → length b = length msgs → length specs = length msgs →
  let rs := received reencode <$> zip_with answer_for specs msgs in
  ∃ b', BatchCallContext_result msgs b None (map (λ r, WaitResp (Some r) None) rs) = Ret (None, b') ∧
    ∀ i e s m, b !! i = Some e → specs !! i = Some s → msgs !! i = Some m →
      b' !! i = Some (apply_resp e (received reencode (answer_for s m))).
Proof.
  intros Hnd Hl1 Hl2 rs.
  assert (ID <$> rs = ID <$> msgs) as HIDs by (unfold rs; rewrite fmap_ID_received; by apply answers_IDs).
  assert (length rs = length msgs) as Hlrs by (rewrite <-(length_fmap ID rs), HIDs; apply length_fmap).
  destruct (batch_loop_spec msgs b rs Hnd) as (b' & Eb & _ & Hb'); [lia|by rewrite HIDs|by rewrite HIDs|].
  exists b'. split; [unfold BatchCallContext_result; by rewrite firstn_all2 by (rewrite length_map; lia)|].
  intros i e s m He Hs Hm. apply (Hb' i m e Hm He); [|cbn; by rewrite answer_for_ID].
  apply list_elem_of_fmap_2, list_elem_of_lookup. exists i. by rewrite lookup_zip_with, Hs, Hm.
Qed.

(** C13: a batch of calls made with [BatchCallContext] on a connection with nothing unread,
    each of a method whose callback only returns, with parameters that are absent or an
    array: the batch is one text, one goroutine of the server answers its calls in order
    with one text, and every element is given what the callback of its own method returns
    for its own parameters, its result or its error; afterwards no ID is registered, no
    goroutine is left and the connection is free. *)
Theorem batch_over_connection idCounter (b : list BatchElem) specs loc (hc : handler codec V') (hs : handler codec V) :
  inv hc → h_ops hc !! loc = None → idle (h_conn hc) → idle (h_conn hs) → b ≠ [] →
  in_u 32 idCounter → (Z.of_nat (length b) ≤ 2 ^ 32)%Z → Forall2 (asks (h_reg hs)) b specs →
  ∃ msgs c, batch_messages idCounter b = (Ok msgs, c) ∧
    (Forall (msg_ok reencode) (zip_with answer_for specs msgs) →
     ∃ ws hc' hs' b', batch_exchange msgs loc hc hs = Ret (None, ws, hc', hs') ∧
       BatchCallContext_result msgs b None ws = Ret (None, b') ∧
       (∀ i e s m, b !! i = Some e → specs !! i = Some s → msgs !! i = Some m →
          b' !! i = Some (apply_resp e (received reencode (answer_for s m)))) ∧
       (∀ m, m ∈ msgs → h_respWait hc' !! default "" (ID m) = None) ∧
       h_callWG hs' = h_callWG hs ∧ idle (h_conn hc') ∧ idle (h_conn hs')).
Proof.
  intros Hinv Hloc Hic His Hne Hc Hlen Hb.
  destruct (batch_messages_ok (h_reg hs) idCounter b specs Hb) as (msgs & c & E & Hms & Hids). exists msgs, c. split; [done|]. intros Hans.
  pose proof (batch_IDs_distinct _ _ _ Hc Hlen Hids) as Hnd.
  pose proof (Forall2_length _ _ _ Hms) as Hl1. pose proof (Forall2_length _ _ _ Hb) as Hl2.
  assert (msgs ≠ []) as Hmne by (intros ->; destruct b, specs; done).
  unfold batch_exchange. set (op := batch_op _).
  destruct (register_batch loc op hc Hinv Hloc) as (hc1 & -> & Hok1 & Hconn & Hop & Hreg);
    [split_and!; [done|done|]; cbn; by rewrite length_map|].
  cbn [mbind outcome_bind]. rewrite Hconn.
  destruct (requests_wire _ _ _ Hms) as [Hwire Hrecv].
  destruct (deliver reencode syntax_text remote now (h_conn hc) (h_conn hs) (WBatch msgs)) as (cc & sc & Ew1 & Hin & Hde & Hread & Hsc); [done|done|].
  change (wire_writer reencode syntax_text remote now) with wire_batch_writer in Ew1. rewrite Ew1.
  cbn [wire_msgs fst snd] in Hread. rewrite Hrecv in Hread.
  set (hs0 := set_conn (feed (written (h_conn hc) cc) (h_conn hs)) hs).
  destruct (serve_batch hs0 specs msgs sc Hmne Hms Hread) as (hs1 & hs2 & -> & Hc1 & E2 & Hc2 & Hwg).
  cbn [mbind outcome_bind]. change (h_callWG hs) with (h_callWG hs0). rewrite E2. cbn [mbind outcome_bind].
  assert (idle cc) as Hcc by (split; [by rewrite Hin; apply Hic|by rewrite Hde; apply Hic]).
  set (answers := zip_with answer_for specs msgs) in *.
  destruct (deliver reencode syntax_text remote now sc cc (WBatch answers)) as (sc2 & cc2 & Ew & Hin2 & Hde2 & Hread2 & Hcc2); [done|done|].
  change (wire_writer reencode syntax_text remote now) with wire_batch_writer in Ew. rewrite Hc1, Hc2, Ew. cbn [snd].
  cbn [wire_msgs fst snd] in Hread2. set (rs := received reencode <$> answers) in *.
  assert (ID <$> rs = ID <$> msgs) as HIDs by (unfold rs; rewrite fmap_ID_received; by apply answers_IDs).
  assert (length rs = length msgs) as Hlrs by (rewrite <-(length_fmap ID rs), HIDs; apply length_fmap).
  destruct (take_answers (set_conn (feed (written sc sc2) cc) hc1) loc op rs cc2) as (hc2 & hc3 & -> & E3 & Hcc3 & Hall);
    [by intros Hnil; rewrite Hnil in Hlrs; destruct msgs|done|by rewrite HIDs| |done|done|done|done|done|].
  { apply Forall_forall. intros r Hr. by apply (answers_registered specs msgs _ loc r (h_reg hs)). }
  cbn [mbind outcome_bind]. rewrite <-Hlrs, E3. cbn [mbind outcome_bind].
  destruct (batch_given specs msgs b Hnd) as (b' & Eb & Hb'); [lia|lia|].
  exists (map (λ r, WaitResp (Some r) None) rs), hc3, hs2, b'. do 2 (split; [done|]). split_and!; [exact Hb'|..].
  - intros m Hm. assert (ID m ∈ ID <$> rs) as (r & Er & Hr)%list_elem_of_fmap by (rewrite HIDs; by apply list_elem_of_fmap_2).
    rewrite Er. by apply Hall.
  - done.
  - by rewrite Hcc3.
  - rewrite Hc2, Ew. cbn [snd]. split; [by rewrite Hin2; apply Hsc|by rewrite Hde2; apply Hsc].
Qed.
End wire_batch.

(** ** A batch of two calls *)

Definition demo_elem : BatchElem := mkElem "eth_seven" None (λ _, None) None None.
Definition demo_call : served_call (V := unit) := mkServed None [] demo_callback (λ _, [RVal (Ok "7")]).

Definition demo_batch : list jsonrpcMessage :=
  [mkMsg vsn (Some "1") "eth_seven" None None None; mkMsg vsn (Some "2") "eth_seven" None None None].

Lemma batch_over_connection_witness :
  ∃ ws hc' hs' b', batch_exchange id id None 0 (λ _ _, Err "") (λ _, tt) (λ _, "") (λ _, "") (λ _, "") demo_batch 0
      (demo_end (U := unit) (mkRegistry ∅)) (demo_end demo_registry) = Ret (None, ws, hc', hs') ∧
    BatchCallContext_result demo_batch [demo_elem; demo_elem] None ws = Ret (None, b') ∧
    b' !! 1%nat = Some (mkElem "eth_seven" None (λ _, None) (Some "7") None).
Proof.
  destruct (batch_over_connection (V' := unit) id id None 0 (λ _ _, Err "") (λ _, tt) (λ _, "") (λ _, "") (λ _, "")
    0 [demo_elem; demo_elem] [demo_call; demo_call] 0 (demo_end (mkRegistry ∅)) (demo_end demo_registry))
    as (msgs & c & E & H).
  - apply inv_newHandler.
  - reflexivity.
  - split; reflexivity.
  - split; reflexivity.
  - discriminate.
  - done.
  - cbn. lia.
  - by repeat constructor.
  - injection E as <- _. destruct H as (ws & hc' & hs' & b' & Ee & Er & Hb & _).
    { cbn. by repeat constructor. }
    exists ws, hc', hs', b'. split; [exact Ee|]. split; [exact Er|]. exact (Hb 1%nat _ _ _ eq_refl eq_refl eq_refl).
Defined.
