(* ===== verification/RpcDispatch.v ===== *)
(** * The dispatch loop

    Invariants of a client's life: its dispatch loop, the goroutines that send
    and the goroutines that wait.  The loop never panics or blocks on a
    connection that is not reconnected, closing the client releases every
    registered request, and a request that was written just before the
    connection went down waits forever. *)

From S2P Require Import Prelude GoText Json RpcMessage RpcArgs RpcService GoChan.
From S2P Require Import RpcSubscription RpcClientSub RpcHandler RpcHandlerProps RpcFrame.
From S2P Require Import RpcClient RpcClientProps.

Section dispatch_props.
Context {W : Type} `{JsonWriter W} {V : Type}.
Context (decode_as : gotype → string → result string V) (Zero : gotype → V)
  (text : decError → string) (as_ID : V → string) (idgen : nat → string).

Abbreviation dispatch := (dispatch W V).
Abbreviation client := (client W V).
Abbreviation client_step := (client_step decode_as Zero text as_ID idgen).
Abbreviation client_handler c := (dp_conn (cl_dispatch c)).
Implicit Types (d : dispatch) (c : client).

(** ** What an event changes *)

(** The request an event registers. *)
Definition added (ev : event (W:=W)) d : option nat :=
  match ev with
  | EvReqInit op => Some op
  | EvReconnected _ _ => dp_lastOp d
  | EvOnceDone => match dp_waiting d with Some (_, _, AfterReconnect _ _) => dp_lastOp d | _ => None end
  | _ => None
  end.

Record event_frame ev d d' : Prop := {
  ef_subs : subs_ok (dp_conn d') [];
  ef_heap : same_ids (dp_conn d) (dp_conn d');
  ef_ops loc : unregistered (dp_conn d) loc → h_ops (dp_conn d') !! loc = h_ops (dp_conn d) !! loc;
  ef_wait id l : h_respWait (dp_conn d') !! id = Some l →
    h_respWait (dp_conn d) !! id = Some l ∨ added ev d = Some l;
  ef_quits : same_quits (dp_conn d) (dp_conn d') }.

Lemma event_frame_handler ev d d' :
  subs_ok (dp_conn d) [] → frame (dp_conn d) (dp_conn d') ∧ same_subs (dp_conn d) (dp_conn d') → event_frame ev d d'.
Proof. intros Hok [[F1 F2 F3 F4] Hs]. split; [by eapply same_subs_ok|done|done|auto|done]. Qed.

Lemma event_frame_same ev d d' : subs_ok (dp_conn d) [] → dp_conn d' = dp_conn d → event_frame ev d d'.
Proof. intros Hok E. apply event_frame_handler; [done|]. rewrite E. split; [by apply frame_refl|done]. Qed.

Lemma add_frame ev op d h' d' :
  subs_ok (dp_conn d) [] → added ev d = Some op → addRequestOp op (dp_conn d) = Ret ((), h') → dp_conn d' = h' →
  event_frame ev d d'.
Proof.
  intros Hok Ha Hr <-. destruct (addRequestOp_frame _ _ _ _ Hr) as (A1 & A2 & A3 & A4).
  split; [by eapply same_subs_ok|by apply same_ids_refl|by rewrite A1| |by apply same_quits_refl]. intros id l [->|Hl]%A4; auto.
Qed.

(** From the handler's [close] on, or from where it stood. *)
Lemma event_frame_closed ev d h err k r d' :
  event_frame ev d (set_dp_conn h d) → closes_to err k r (set_dp_conn h d) d' →
  (∀ cd w, k = AfterReconnect cd w → added ev d = dp_lastOp d) → event_frame ev d d'.
Proof.
  intros F. unfold closes_to. destruct r as [sub|]; [intros -> _; destruct F; by split|].
  destruct k as [| |cd w]; cbn [went_on]; [intros -> _; destruct F; by split..|].
  intros (op & h2 & Hl & Ha & ->) Hadd. cbn in Hl. destruct F as [F1 F2 F3 F4 F5].
  destruct (addRequestOp_frame _ _ _ _ Ha) as (A1 & A2 & A3 & A4). cbn in A1, A2, A3, A4. split; cbn.
  - eapply same_subs_ok; [exact A2|apply inv_newHandler].
  - eapply same_ids_trans; [exact F2|by apply same_ids_refl].
  - by rewrite A1.
  - intros id l [->|Hl']%A4; [|done]. right. by rewrite (Hadd cd w).
  - eapply same_quits_trans; [exact F5|by apply same_quits_refl].
Qed.

Lemma event_frame_reconnect ev cd w d u d' :
  subs_ok (dp_conn d) [] → reconnect_to cd w d = Ret (u, d') → added ev d = dp_lastOp d → event_frame ev d d'.
Proof.
  intros Hok (op & h & Hl & Ha & ->)%reconnect_inv Hadd. destruct (addRequestOp_frame _ _ _ _ Ha) as (A1 & A2 & A3 & A4).
  cbn in A1, A2, A3, A4. split; cbn; [|by apply same_ids_refl|by rewrite A1| |by apply same_quits_refl].
  - eapply same_subs_ok; [exact A2|apply inv_newHandler].
  - intros id l [->|Hl']%A4; [|done]. right. by rewrite Hadd.
Qed.

Lemma event_frame_close ev d err infl k u d' :
  subs_ok (dp_conn d) [] → conn_close err infl k d = Ret (u, d') →
  (∀ cd w, k = AfterReconnect cd w → added ev d = dp_lastOp d) → event_frame ev d d'.
Proof.
  intros Hok (r & h & E1 & E2)%conn_close_inv Ha. eapply event_frame_closed; [|exact E2|done].
  destruct (close_handler_frame idgen err infl _ _ _ Hok E1) as (A1 & [A2 A3 A4] & A5).
  split; cbn; [done|done|intros loc Hu; apply A2; by left| |done]. intros id l. by rewrite A1.
Qed.

Lemma event_frame_resume d u d' :
  subs_ok (dp_conn d) [] → once_done d = Ret (u, d') → event_frame EvOnceDone d d'.
Proof.
  intros Hok E%once_done_inv. destruct (dp_waiting d) as [[[sub err] k]|] eqn:Hw; [|subst; by apply event_frame_same].
  destruct E as (r & h & E1 & E2). eapply event_frame_closed; [|exact E2|].
  - destruct (resume_close_frame idgen err sub _ _ _ Hok E1) as (A1 & A2 & A3 & A4 & _).
    split; cbn; [done|by apply same_ids_refl|by rewrite A2| |done]. intros id l. rewrite A1. auto.
  - intros cd w ->. cbn. by rewrite Hw.
Qed.

Lemma dispatch_event_frame ev d d' :
  subs_ok (dp_conn d) [] → dispatch_event text ev d = Ret ((), d') → event_frame ev d d'.
Proof.
  intros Hok [_ H0]%dispatch_event_cases. destruct ev as [|msgs batch|err|cd w|op|err|op|]; cbn [dispatch_case] in H0.
  - unfold dispatch_exit in H0. rewrite go_bind_run in H0. cbn [go_modify] in H0. rewrite go_bind_run in H0. cbn [go_get] in H0.
    destruct (dp_reading (set_closing d)); [|injection H0; intros; subst; by apply event_frame_same].
    apply (event_frame_close EvClose) in H0 as [A1 A2 A3 A4 A5]; [by split|done|done].
  - destruct batch; [|destruct msgs; [done|]]; apply on_conn_inv in H0 as (h & E & ->); apply event_frame_handler; try done.
    + by eapply handleBatch_frame.
    + by eapply handleMsg_frame.
  - rewrite go_bind_run in H0. cbn [go_get] in H0. by eapply event_frame_close.
  - rewrite go_bind_run in H0. cbn [go_get] in H0. destruct (dp_reading d); [by eapply event_frame_close|].
    by eapply event_frame_reconnect.
  - rewrite go_bind_run in H0. cbn [go_modify] in H0. apply on_conn_inv in H0 as (h & E & ->). by eapply add_frame.
  - apply go_bind_inv in H0 as (x & d1 & E1 & E2). injection E2; intros; subst. destruct err.
    + unfold with_lastOp in E1. destruct (dp_lastOp d); [|done]. apply on_conn_inv in E1 as (h & E & ->).
      apply event_frame_handler; [done|]. by eapply removeRequestOp_frame.
    + injection E1; intros; subst. by apply event_frame_same.
  - apply on_conn_inv in H0 as (h & E & ->). apply event_frame_handler; [done|]. by eapply removeRequestOp_frame.
  - by eapply event_frame_resume.
Qed.

(** ** What always holds of a client *)

(** Every sender has a request of its own; an ID only waits for a request whose
    sender has passed it to the dispatch loop. *)
Record client_inv c : Prop := {
  ci_lock : lock_inv c;
  ci_subs : subs_ok (client_handler c) [];
  ci_heap i s : cl_senders c !! i = Some s → is_Some (h_ops (client_handler c) !! sn_op s);
  ci_distinct i j s s' : cl_senders c !! i = Some s → cl_senders c !! j = Some s' → sn_op s = sn_op s' → i = j;
  ci_wait id loc : h_respWait (client_handler c) !! id = Some loc →
    ∃ i s, cl_senders c !! i = Some s ∧ sn_op s = loc ∧ sn_pc s ≠ SInit;
  ci_last loc : dp_lastOp (cl_dispatch c) = Some loc →
    ∃ i s, cl_senders c !! i = Some s ∧ sn_op s = loc ∧ sn_pc s ≠ SInit }.

Lemma client_last_heap c loc :
  client_inv c → dp_lastOp (cl_dispatch c) = Some loc → is_Some (h_ops (client_handler c) !! loc).
Proof. intros I Hl. destruct (ci_last _ I loc Hl) as (i & s & Hi & <- & _). by eapply ci_heap. Qed.

(** The invariant but for the lock, when a sender moves on and the handler
    registers at most that sender's request. *)
Lemma client_inv_move c c' i s pc :
  client_inv c → cl_senders c !! i = Some s → lock_inv c' →
  cl_senders c' = <[i := mkSender (sn_op s) pc]> (cl_senders c) → pc ≠ SInit →
  subs_ok (client_handler c') [] →
  same_ids (client_handler c) (client_handler c') →
  (∀ id l, h_respWait (client_handler c') !! id = Some l →
     h_respWait (client_handler c) !! id = Some l ∨ l = sn_op s) →
  dp_lastOp (cl_dispatch c') = dp_lastOp (cl_dispatch c) ∨ dp_lastOp (cl_dispatch c') = Some (sn_op s) →
  client_inv c'.
Proof.
  intros [I1 I2 I3 I4 I5 I6] Hi HL Hs Hpc Hsub Hheap Hw Hlast.
  assert (i < length (cl_senders c))%nat as Hlt by (by eapply lookup_lt_Some).
  set (l := <[i := mkSender (sn_op s) pc]> (cl_senders c)).
  assert (∃ j s', l !! j = Some s' ∧ sn_op s' = sn_op s ∧ sn_pc s' ≠ SInit) as Hself.
  { exists i, (mkSender (sn_op s) pc). unfold l. by rewrite list_lookup_insert_eq. }
  assert (∀ loc j s', cl_senders c !! j = Some s' → sn_op s' = loc ∧ sn_pc s' ≠ SInit →
    ∃ j s', l !! j = Some s' ∧ sn_op s' = loc ∧ sn_pc s' ≠ SInit) as Hkept.
  { intros loc j s' Hj [E Hne]. destruct (decide (j = i)) as [->|Hji]; [simplify_eq; done|].
    exists j, s'. unfold l. by rewrite list_lookup_insert_ne. }
  split; [done|done| | | |]; rewrite ?Hs.
  - intros j s' [[-> ->]|[_ Hj]]%lookup_insert_cases; (eapply same_ids_heap; [exact Hheap|]); [exact (I3 i s Hi)|by eapply I3].
  - intros j k s1 s2 [[-> ->]|[Hj1 Hj]]%lookup_insert_cases [[-> ->]|[Hk1 Hk]]%lookup_insert_cases; cbn; [done|..];
      intros E; by eapply I4.
  - intros id loc Hl. destruct (Hw id loc Hl) as [(j & s' & Hj & E)%I5| ->]; [by eapply Hkept|by apply Hself].
  - intros loc Ho. destruct Hlast as [E|E]; rewrite E in Ho.
    + destruct (I6 loc Ho) as (j & s' & Hj & E'). by eapply Hkept.
    + injection Ho as <-. by apply Hself.
Qed.

(** The same when no sender moves and at most the last request is registered. *)
Lemma client_inv_keep c c' :
  client_inv c → lock_inv c' → cl_senders c' = cl_senders c → subs_ok (client_handler c') [] →
  same_ids (client_handler c) (client_handler c') →
  (∀ id l, h_respWait (client_handler c') !! id = Some l →
     h_respWait (client_handler c) !! id = Some l ∨ dp_lastOp (cl_dispatch c) = Some l) →
  (∀ op, dp_lastOp (cl_dispatch c') = Some op → dp_lastOp (cl_dispatch c) = Some op) →
  client_inv c'.
Proof.
  intros [I1 I2 I3 I4 I5 I6] HL Hs Hsub Hheap Hw Hlast. split; [done|done| | | |]; rewrite ?Hs; [|done| |].
  - intros i s Hi. by eapply same_ids_heap, I3.
  - intros id loc [Hl|Hl]%Hw; [by eapply I5|by apply I6].
  - intros op Ho. by apply I6, Hlast.
Qed.

Lemma client_inv_event ev c d c' :
  client_inv c → dispatch_event text ev (cl_dispatch c) = Ret ((), d) →
  (∀ op, ev ≠ EvReqInit op) →
  lock_inv c' → cl_dispatch c' = d → cl_senders c' = cl_senders c → client_inv c'.
Proof.
  intros I Hd Hne HL <- Hs. destruct (dispatch_event_frame _ _ _ (ci_subs _ I) Hd) as [F1 F2 F3 F4 F5].
  eapply client_inv_keep; try done.
  - intros id l Hl. destruct (F4 id l Hl) as [|Ha]; [auto|]. right.
    destruct ev; cbn in Ha; try done; [by destruct (Hne op)|]. by destruct (dp_waiting _) as [[[? ?] []]|].
  - apply send_after_event, (f_equal fst) in Hd. intros op. destruct ev; cbn in *; try congruence. by destruct (Hne op0).
Qed.

(** A goroutine comes with a request of its own. *)
Lemma client_inv_add loc op f c :
  client_inv c → h_ops (client_handler c) !! loc = None →
  client_inv (add_sender loc op (upd_conn (upd_quits f (client_handler c)) c)).
Proof.
  intros [I1 I2 I3 I4 I5 I6] Hf.
  assert (∀ i s, cl_senders c !! i = Some s → sn_op s ≠ loc) as Hfresh.
  { intros i s Hi E. destruct (I3 i s Hi) as [o Ho]. congruence. }
  split; [by apply lock_inv_add|by apply (subs_ok_same (client_handler c))| | | |]; cbn.
  - intros i s [Hi|[_ [_ <-]%list_lookup_singleton_Some]]%lookup_app_Some; cbn.
    + rewrite lookup_insert_ne by (symmetry; by eapply Hfresh). by eapply I3.
    + rewrite lookup_insert_eq. eauto.
  - intros i j s s' [Hi|[Hi1 [Hi2 <-]%list_lookup_singleton_Some]]%lookup_app_Some
      [Hj|[Hj1 [Hj2 <-]%list_lookup_singleton_Some]]%lookup_app_Some; cbn; intros E.
    + by eapply I4.
    + by apply Hfresh in Hi.
    + symmetry in E. by apply Hfresh in Hj.
    + lia.
  - intros id l Hl. destruct (I5 id l Hl) as (i & s & Hi & E). exists i, s. split; [|done]. by apply lookup_app_l_Some.
  - intros l Hl. destruct (I6 l Hl) as (i & s & Hi & E). exists i, s. split; [|done]. by apply lookup_app_l_Some.
Qed.

Lemma client_inv_send i s c c' :
  cl_senders c !! i = Some s → send_step text i s c c' → client_inv c → client_inv c'.
Proof.
  intros Hi Hs I. pose proof (lock_inv_send text i s c c' Hi Hs (ci_lock _ I)) as HL.
  destruct Hs as [d Hp Hr Ha Hd|err Hp Hu|Hp _|retry conn Hp Hw|retry Hp Hw Hr|retry err Hp Hw Hr|retry nc w Hp Hw Hr
    |retry nc w d Hp Hr Hd|retry nc w Hp Hr|retry Hp|retry err Hp|err Hp Hlen];
    try (eapply client_inv_move; [exact I|exact Hi|exact HL|reflexivity|done|apply (ci_subs _ I)|by apply same_ids_refl|auto|auto]; fail).
  - destruct (dispatch_event_frame _ _ _ (ci_subs _ I) Hd) as [F1 F2 F3 F4 F5].
    apply send_after_event in Hd. injection Hd as D1 _.
    eapply client_inv_move; [exact I|exact Hi|exact HL|reflexivity|done|done|done| |cbn; rewrite D1; by auto].
    intros id l Hl. destruct (F4 id l Hl) as [|E]; [auto|]. right. cbn in E. congruence.
  - destruct (dispatch_event_frame _ _ _ (ci_subs _ I) Hd) as [F1 F2 F3 F4 F5].
    apply send_after_event in Hd. injection Hd as D1 _.
    eapply client_inv_move; [exact I|exact Hi|exact HL|reflexivity|done|done|done| |cbn; rewrite D1; by auto].
    intros id l Hl. destruct (F4 id l Hl) as [|E]; [auto|]. right. cbn in E.
    destruct (ci_lock _ I) as (_ & _ & L3). rewrite (L3 i s Hi) in E; [congruence|]. unfold holding. by rewrite Hp.
  - destruct retry;
      (eapply client_inv_move; [exact I|exact Hi|exact HL|reflexivity|done|apply (ci_subs _ I)|by apply same_ids_refl|auto|auto]).
Qed.

Lemma upd_quits_id (h : RpcHandler.handler W V) : upd_quits (λ m, m) h = h.
Proof. by destruct h. Qed.

Lemma call_returned_frame c loc h :
  call_returned c loc h → only loc (client_handler c) h.
Proof. intros (i & s & _ & _ & [[_ ->]|[_ [r Hr]]]); [by apply only_refl|by eapply on_resp_only]. Qed.

Lemma client_inv_only loc f h c :
  client_inv c → only loc (client_handler c) h → client_inv (upd_conn (upd_quits f h) c).
Proof.
  intros I (O1 & O2 & O3 & O4 & O5). eapply client_inv_keep; [exact I|apply (ci_lock _ I)|done| |done| |done].
  - by eapply (subs_ok_same h), same_subs_ok, (ci_subs _ I).
  - cbn. rewrite O1. auto.
Qed.

Lemma client_inv_step c c' : client_step c c' → client_inv c → client_inv c'.
Proof.
  intros Hs I. pose proof (lock_inv_step decode_as Zero text as_ID idgen c c' Hs (ci_lock _ I)) as HL.
  destruct Hs as [c loc op Hf Hq|c loc id sub h Hf Hq|c loc sub h Hq Hret|c i s c' Hi Hs|c err rest d Hr Hb Hd
    |c msgs batch d Hr Hrd Hd|c err d Hr Hrd Hd|c loc d Hr Hu Hd|c d Hr Hd|c d Hr Hw Hd|c i h Hc|c loc r h Hu Hc];
    try (eapply (client_inv_event _ c d); [exact I|exact Hd|done|exact HL|apply leave_loop_fields|apply leave_loop_fields]; fail);
    try (eapply (client_inv_event _ c d); [exact I|exact Hd|done|exact HL|done|done]; fail).
  - pose proof (client_inv_add loc op (λ m, m) c I Hf) as Ha. rewrite upd_quits_id in Ha. exact Ha.
  - by apply client_inv_add.
  - eapply client_inv_only; [done|by eapply call_returned_frame].
  - by eapply client_inv_send.
  - destruct (run_call_frame decode_as Zero text as_ID idgen _ _ _ _ (ci_subs _ I) Hc) as [[F1 F2 F3 F5] F4].
    eapply client_inv_keep; try done. intros id l Hl. left. by apply F1.
  - pose proof (client_inv_only loc (λ m, m) h c I (on_resp_only _ _ _ _ _ Hc)) as Ho. by rewrite upd_quits_id in Ho.
Qed.

(** A client at any point of its life. *)
Definition creachable c : Prop :=
  ∃ codec w reg reconnect, rtc client_step (initClient codec w reg reconnect) c.

Lemma creachable_ind (P : client → Prop) c :
  (∀ codec w reg reconnect, P (initClient codec w reg reconnect)) →
  (∀ c c', client_inv c → client_step c c' → P c → P c') → creachable c → client_inv c ∧ P c.
Proof.
  intros Hinit Hstep (codec & w & reg & rc & Hr). eapply (rtc_ind_r (λ c, client_inv c ∧ P c)); [| |exact Hr].
  - split; [|apply Hinit]. split; [apply lock_inv_init|apply inv_newHandler|..]; by intros ? **.
  - intros x y _ Hs [I HP]. split; [by eapply client_inv_step|by eapply Hstep].
Qed.

Lemma creachable_inv c : creachable c → client_inv c.
Proof. intros Hc. by apply (creachable_ind (λ _, True)) in Hc as [? _]. Qed.

Lemma creachable_step c c' : creachable c → client_step c c' → creachable c'.
Proof. intros (cd & w & reg & rc & Hr) Hs. exists cd, w, reg, rc. by eapply rtc_r. Qed.

Lemma creachable_run c c' : creachable c → rtc client_step c c' → creachable c'.
Proof. intros Hc Hr. induction Hr; [done|]. apply IHHr. by eapply creachable_step. Qed.

(** ** The send lock *)

(** C8: at most one goroutine is between the two channel operations of [send]:
    when it sends on [reqSent] the buffer is empty, when the dispatch loop
    receives from [reqSent] or [reconnected], the request [lastOp] that it
    dereferences is set, to the request of that goroutine in the second case, and
    while any of this is going on no other request is accepted. *)
Theorem send_lock c :
  creachable c →
  (∀ i j s s', cl_senders c !! i = Some s → cl_senders c !! j = Some s' →
     holding s = true → holding s' = true → i = j) ∧
  (∀ i s, cl_senders c !! i = Some s → holding s = true →
     cl_reqSent c = [] ∧ dp_accept (cl_dispatch c) = false ∧ dp_lastOp (cl_dispatch c) = Some (sn_op s)) ∧
  (cl_reqSent c ≠ [] → dp_accept (cl_dispatch c) = false ∧ is_Some (dp_lastOp (cl_dispatch c))) ∧
  (length (cl_reqSent c) ≤ 1)%nat.
Proof.
  intros Hc%creachable_inv. destruct (ci_lock _ Hc) as (L1 & L2 & L3).
  assert (∀ i s, cl_senders c !! i = Some s → holding s = true →
    cl_reqSent c = [] ∧ dp_accept (cl_dispatch c) = false) as Hone.
  { intros i s Hi Hh. pose proof (holders_pos (cl_senders c) s ltac:(by eapply list_elem_of_lookup_2) Hh).
    destruct (cl_reqSent c), (dp_accept _); cbn in L1; [lia|done|lia|lia]. }
  split_and!.
  - intros i j s s' Hi Hj Hs Hs'. eapply (ci_distinct _ Hc); [done|done|].
    apply L3 in Hi; [|done]. apply L3 in Hj; [|done]. congruence.
  - intros i s Hi Hh. destruct (Hone i s Hi Hh). by split_and!; [..|eapply L3].
  - intros Hne. assert (dp_accept (cl_dispatch c) = false) as Ha; [|auto].
    destruct (cl_reqSent c), (dp_accept _); cbn in L1; try done; lia.
  - lia.
Qed.

(** ** A connection without reconnection *)

(** The events other goroutines offer to the dispatch loop. *)
Inductive offered c : event (W:=W) → Prop :=
| of_close : offered c EvClose
| of_read msgs batch : (batch = false → msgs ≠ []) → offered c (EvReadOp msgs batch)
| of_read_error err : offered c (EvReadErr err)
| of_reconnected i s retry newconn w :
    cl_senders c !! i = Some s → sn_pc s = SReconnect retry newconn w → offered c (EvReconnected newconn w)
| of_init i s :
    cl_senders c !! i = Some s → sn_pc s = SInit → dp_accept (cl_dispatch c) = true → offered c (EvReqInit (sn_op s))
| of_sent err rest : cl_reqSent c = err :: rest → offered c (EvReqSent err)
| of_timeout i s : cl_senders c !! i = Some s → offered c (EvReqTimeout (sn_op s))
| of_once_done : dp_waiting (cl_dispatch c) ≠ None → offered c EvOnceDone.

(** No sender ever has a new connection, nor has the loop, the handler's invariant holds,
    and what has not been sent is as it was made. *)
Record plain_inv c : Prop := {
  pi_reconnect : cl_reconnectFunc c = false;
  pi_inv : inv (client_handler c);
  pi_sender i s retry newconn w : cl_senders c !! i = Some s → sn_pc s ≠ SReconnect retry newconn w;
  pi_waiting sub err newconn w : dp_waiting (cl_dispatch c) ≠ Some (sub, err, AfterReconnect newconn w);
  pi_new i s : cl_senders c !! i = Some s → sn_pc s = SInit →
    ∃ op, h_ops (client_handler c) !! sn_op s = Some op ∧ new_op op }.

Lemma init_unregistered c i s :
  client_inv c → cl_senders c !! i = Some s → sn_pc s = SInit → unregistered (client_handler c) (sn_op s).
Proof.
  intros I Hi Hp id Hid. destruct (ci_wait _ I id _ Hid) as (j & s' & Hj & E & Hne).
  assert (j = i) as -> by (by eapply (ci_distinct _ I)). congruence.
Qed.

Lemma request_new op : request op → new_op op.
Proof. intros []; split_and!; cbn; auto; lia. Qed.

(** [addRequestOp] on a request that is on the heap. *)
Lemma addRequestOp_new loc op (h : RpcHandler.handler W V) :
  inv h → h_ops h !! loc = Some op → new_op op → unregistered h loc →
  ∃ h', addRequestOp loc h = Ret ((), h') ∧ inv h'.
Proof.
  intros [A B] Ho Hn Hu. destruct (addRequestOp_run loc op (upd_ops (delete loc) h)) as (h' & E & I).
  - split; [|by apply (subs_ok_same h)]. intros id l Hl. cbn in *.
    rewrite lookup_delete_ne by (intros ->; by apply (Hu id)). by apply (A id).
  - apply lookup_delete_eq.
  - done.
  - exists h'. split; [|done]. rewrite <-E. f_equal. destruct h. unfold upd_ops. cbn in *.
    by rewrite insert_delete_eq, insert_id.
Qed.

(** The events in which the loop closes the connection. *)
Definition closes (ev : event (W:=W)) : bool :=
  match ev with EvClose | EvReadErr _ | EvReconnected _ _ | EvOnceDone => true | _ => false end.

(** The outcome of an event: it is handled, after which the loop may stand at a
    subscription that somebody is quitting; or closing waits for calls; or the loop
    stands there already. *)
Definition fine (ev : event (W:=W)) d (o : outcome (unit * dispatch)) : Prop :=
  (∃ d', o = Ret ((), d') ∧ inv (dp_conn d') ∧
     ∀ w, dp_waiting d' = Some w → closes ev = true ∧ quitting (dp_conn d') w.1.1) ∨
  (closes ev = true ∧ h_callWG (dp_conn d) ≠ [] ∧ o = Blocks "sync.WaitGroup") ∨
  (∃ w, dp_waiting d = Some w ∧ (ev = EvOnceDone → quitting (dp_conn d) w.1.1) ∧ o = Blocks "sync.Once").

Lemma on_conn_fine ev d (f : go (RpcHandler.handler W V) unit) h :
  dp_waiting d = None → f (dp_conn d) = Ret ((), h) → inv h → fine ev d (on_conn f d).
Proof.
  intros Hw E I. left. exists (set_dp_conn h d). unfold on_conn. rewrite E. split_and!; [done..|]. cbn. by rewrite Hw.
Qed.

Lemma finish_close_fine ev err k r d d' :
  closes ev = true → (∀ cd w, k ≠ AfterReconnect cd w) → inv (dp_conn d') →
  (∀ sub, r = Some sub → quitting (dp_conn d') sub) → fine ev d (finish_close err k r d').
Proof.
  intros Hev Hk I Hr. left. destruct r as [sub|].
  - eexists. split; [reflexivity|]. split; [done|]. intros w [= <-]. auto.
  - unfold finish_close. rewrite go_bind_run. cbn [go_modify]. rewrite go_bind_run. cbn [go_modify].
    destruct k as [| |cd w]; [..|by destruct (Hk cd w)]; cbn [after_conn_close]; rewrite ?go_bind_run;
      (eexists; split; [reflexivity|]; split; [done|by intros ?]).
Qed.

Lemma conn_close_fine ev err infl k d :
  closes ev = true → (∀ cd w, k ≠ AfterReconnect cd w) → inv (dp_conn d) → fine ev d (conn_close err infl k d).
Proof.
  intros Hev Hk I. unfold conn_close. rewrite go_bind_run. unfold on_conn.
  destruct (close_inv idgen err infl (dp_conn d) I) as [[Hwg ->]|(r & h & -> & I' & Hr & _ & Hq)]; [right; left; by split_and!|].
  cbn. apply finish_close_fine; [done|done|done|]. intros sub E. apply Hq. by apply Hr.
Qed.

Lemma once_done_fine c :
  plain_inv c → fine EvOnceDone (cl_dispatch c) (once_done (cl_dispatch c)).
Proof.
  intros [P1 P2 P3 P4 P5]. unfold once_done. rewrite go_bind_run. cbn [go_get].
  destruct (dp_waiting (cl_dispatch c)) as [[[sub err] k]|] eqn:Hw.
  2:{ left. eexists. split; [reflexivity|]. split; [done|]. intros w. by rewrite Hw. }
  rewrite go_bind_run. unfold on_conn.
  destruct (resume_close_inv idgen err sub (client_handler c) P2) as [[Hq ->]|[[Hwg ->]|(r & h & -> & I' & Hr & Hq & _)]].
  - right. right. by eexists.
  - right. left. by split_and!.
  - cbn. apply finish_close_fine; [done| |done|].
    + intros cd w ->. by apply (P4 sub err cd w).
    + intros s E. apply Hq. by apply Hr.
Qed.

Lemma on_conn_remove op d :
  inv (dp_conn d) → is_Some (h_ops (dp_conn d) !! op) →
  ∃ d', on_conn (removeRequestOp op) d = Ret ((), d') ∧ inv (dp_conn d') ∧ dp_waiting d' = dp_waiting d.
Proof.
  intros I [o Ho]. unfold on_conn. destruct (removeRequestOp op (dp_conn d)) as [[[] h']| |] eqn:E.
  - exists (set_dp_conn h' d). split; [done|]. split; [by eapply removeRequestOp_ok|done].
  - unfold removeRequestOp in E. by rewrite Ho in E.
  - unfold removeRequestOp in E. by rewrite Ho in E.
Qed.

(** A new request on the heap. *)
Lemma ops_alloc (h : RpcHandler.handler W V) loc op :
  inv h → h_ops h !! loc = None → inv (upd_ops <[loc := op]> h).
Proof.
  intros [A B] Hf. split; [|by apply (subs_ok_same h)].
  apply ops_ok_upd; [done|]. intros [id Hid]. destruct (A id loc Hid) as (? & ? & _). congruence.
Qed.

Lemma event_fine ev c :
  client_inv c → plain_inv c → offered c ev → fine ev (cl_dispatch c) (dispatch_event text ev (cl_dispatch c)).
Proof.
  intros I P Ho. destruct (ci_lock _ I) as (L1 & L2 & L3).
  destruct (dp_waiting (cl_dispatch c)) as [w|] eqn:Hw.
  { assert (ev = EvOnceDone ∨ ev ≠ EvOnceDone) as [->|Hne] by (destruct ev; auto).
    - unfold dispatch_event. rewrite go_bind_run. cbn [go_get]. rewrite Hw. by apply once_done_fine.
    - right. right. exists w. split_and!; [done|done|]. apply dispatch_event_waits; [by rewrite Hw|done]. }
  rewrite dispatch_event_case by done.
  destruct P as [P1 P2 P3 P5 P4].
  destruct Ho as [|msgs batch Hb|err|i s retry nc w Hi Hp|i s Hi Hp Ha|err rest Hs|i s Hi|]; cbn [dispatch_case]; [..|done].
  - unfold dispatch_exit. rewrite go_bind_run. cbn [go_modify]. rewrite go_bind_run. cbn [go_get].
    destruct (dp_reading (set_closing (cl_dispatch c))).
    + by apply (conn_close_fine EvClose (EVar ErrClientQuit) None AfterExit (set_closing (cl_dispatch c))).
    + left. eexists. split; [reflexivity|]. split; [done|]. intros w. cbn. by rewrite Hw.
  - destruct batch.
    + destruct (handleBatch_run text msgs _ P2) as (h' & E & I'). by eapply on_conn_fine.
    + destruct msgs as [|msg msgs]; [by destruct Hb|].
      destruct (handleMsg_run text msg _ P2) as (h' & E & I'). by eapply on_conn_fine.
  - rewrite go_bind_run. cbn [go_get]. by apply conn_close_fine.
  - by eapply P3 in Hp.
  - rewrite go_bind_run. cbn [go_modify]. destruct (P4 i s Hi Hp) as (op & Hop & Hn).
    destruct (addRequestOp_new (sn_op s) op (client_handler c)) as (h' & E & I'); try done.
    { by eapply init_unregistered. }
    left. eexists. unfold on_conn. cbn [dp_conn set_send]. rewrite E. split; [reflexivity|]. split; [done|].
    intros w. cbn. by rewrite Hw.
  - assert (is_Some (dp_lastOp (cl_dispatch c))) as [op Hop].
    { apply L2. rewrite Hs in L1. destruct (dp_accept _); [cbn in L1; lia|done]. }
    left. destruct err as [e|]; rewrite go_bind_run.
    + unfold with_lastOp. rewrite Hop.
      destruct (on_conn_remove op (cl_dispatch c) P2 (client_last_heap _ op I Hop)) as (d' & -> & I' & Hw').
      eexists. split; [reflexivity|]. split; [done|]. intros w. cbn. by rewrite Hw', Hw.
    + eexists. split; [reflexivity|]. split; [done|]. intros w. cbn. by rewrite Hw.
  - destruct (on_conn_remove (sn_op s) (cl_dispatch c) P2 (ci_heap _ I i s Hi)) as (d' & E & I' & Hw').
    left. exists d'. split_and!; [done|done|]. intros w. by rewrite Hw', Hw.
Qed.

(** Receiving from a channel that is open and empty blocks. *)
Lemma recv_empty (h : RpcHandler.handler W V) loc op :
  h_ops h !! loc = Some op → ch_buf (op_resp op) = [] → ch_closed (op_resp op) = false →
  on_resp loc chan_recv h = Blocks "chan receive".
Proof. intros Ho Hb Hc. unfold on_resp, chan_recv. by rewrite Ho, Hb, Hc. Qed.

Lemma step_reconnectFunc c c' : client_step c c' → cl_reconnectFunc c' = cl_reconnectFunc c.
Proof. intros []; try done; try apply leave_loop_fields. match goal with Hs : send_step _ _ _ _ _ |- _ => by destruct Hs as [| | | | | | | | | |[]|] end. Qed.

(** Every event that is handled keeps the handler's invariant. *)
Lemma event_inv ev c d :
  client_inv c → plain_inv c → offered c ev → dispatch_event text ev (cl_dispatch c) = Ret ((), d) → inv (dp_conn d).
Proof.
  intros I P Ho Hd. destruct (event_fine ev c I P Ho) as [(d' & E & I' & _)|[(_ & _ & E)|(w & _ & _ & E)]]; congruence.
Qed.

Lemma event_waiting ev c d :
  plain_inv c → offered c ev → dispatch_event text ev (cl_dispatch c) = Ret ((), d) →
  ∀ sub err newconn w, dp_waiting d ≠ Some (sub, err, AfterReconnect newconn w).
Proof.
  intros P Ho Hd sub err cd w Hw. apply dispatch_event_flags in Hd as [_ _ _ F]. apply F in Hw.
  destruct Ho; try done; [naive_solver|by eapply pi_sender|]. destruct Hw as [sub0 Hw]. by eapply pi_waiting.
Qed.

(** What is not sent yet is not touched. *)
Lemma plain_inv_frame c c' :
  client_inv c → plain_inv c → inv (client_handler c') → cl_reconnectFunc c' = cl_reconnectFunc c →
  (∀ i s, cl_senders c' !! i = Some s →
     (∃ s0, cl_senders c !! i = Some s0 ∧ sn_op s = sn_op s0 ∧ (sn_pc s = SInit → sn_pc s0 = SInit)) ∧
     ∀ retry newconn w, sn_pc s ≠ SReconnect retry newconn w) →
  (∀ sub err newconn w, dp_waiting (cl_dispatch c') ≠ Some (sub, err, AfterReconnect newconn w)) →
  (∀ loc op, unregistered (client_handler c) loc → h_ops (client_handler c) !! loc = Some op → new_op op →
     h_ops (client_handler c') !! loc = Some op) →
  plain_inv c'.
Proof.
  intros I [P1 P2 P3 P5 P4] Hi Hr Hs Hw Ho. split; [congruence|done| |done|].
  - intros i s retry nc w Hj. by apply (Hs i s Hj).
  - intros i s Hj Hp. destruct (Hs i s Hj) as [(s0 & Hj0 & E & Hp0) _].
    destruct (P4 i s0 Hj0 (Hp0 Hp)) as (op & Hop & Hn). exists op. rewrite E.
    split; [|done]. apply Ho; [|done|done]. eapply init_unregistered; [done|done|by apply Hp0].
Qed.

Lemma plain_inv_senders c i s :
  plain_inv c → cl_senders c !! i = Some s →
  (∃ s0, cl_senders c !! i = Some s0 ∧ sn_op s = sn_op s0 ∧ (sn_pc s = SInit → sn_pc s0 = SInit)) ∧
  ∀ retry newconn w, sn_pc s ≠ SReconnect retry newconn w.
Proof. intros P Hi. split; [eauto|]. intros retry nc w. by eapply pi_sender. Qed.

Lemma plain_inv_event ev c d c' :
  client_inv c → plain_inv c → offered c ev → dispatch_event text ev (cl_dispatch c) = Ret ((), d) →
  cl_dispatch c' = d → cl_reconnectFunc c' = cl_reconnectFunc c → cl_senders c' = cl_senders c → plain_inv c'.
Proof.
  intros I P Ho Hd <- Hr Hs. pose proof (event_inv ev c _ I P Ho Hd) as Hinv.
  destruct (dispatch_event_frame _ _ _ (ci_subs _ I) Hd) as [F1 F2 F3 F4 F5].
  eapply plain_inv_frame; try done.
  - intros i s. rewrite Hs. by apply plain_inv_senders.
  - by eapply event_waiting.
  - intros loc op Hu Hop _. by rewrite F3.
Qed.

(** A sender at another point, when the dispatch state is kept or was handled. *)
Lemma plain_inv_move c c' i s pc :
  client_inv c → plain_inv c → cl_senders c !! i = Some s → cl_senders c' = <[i := mkSender (sn_op s) pc]> (cl_senders c) →
  pc ≠ SInit → (∀ retry newconn w, pc ≠ SReconnect retry newconn w) → cl_reconnectFunc c' = cl_reconnectFunc c →
  inv (client_handler c') →
  (∀ sub err newconn w, dp_waiting (cl_dispatch c') ≠ Some (sub, err, AfterReconnect newconn w)) →
  (∀ loc, unregistered (client_handler c) loc → h_ops (client_handler c') !! loc = h_ops (client_handler c) !! loc) →
  plain_inv c'.
Proof.
  intros I P Hi Hs Hp1 Hp2 Hr Hinv Hw Ho. eapply plain_inv_frame; try done.
  - intros j s'. rewrite Hs. intros [[-> ->]|[_ Hj]]%lookup_insert_cases; [|by apply plain_inv_senders].
    split; [|done]. exists s. by split_and!.
  - intros loc op Hu Hop _. by rewrite Ho.
Qed.

Lemma plain_inv_send i s c c' :
  cl_senders c !! i = Some s → send_step text i s c c' → client_inv c → plain_inv c → plain_inv c'.
Proof.
  intros Hi Hs I P.
  destruct Hs as [d Hp Hr Ha Hd|err Hp Hu|Hp _|retry conn Hp Hw|retry Hp Hw Hr|retry err Hp Hw Hr|retry nc w Hp Hw Hr
    |retry nc w d Hp Hr Hd|retry nc w Hp Hr|retry Hp|retry err Hp|err Hp Hlen];
    try (eapply plain_inv_move; [exact I|exact P|exact Hi|reflexivity|done|done|done|apply (pi_inv _ P)|apply (pi_waiting _ P)|done]; fail).
  - pose proof (event_inv _ c d I P (of_init _ i s Hi Hp Ha) Hd) as Hinv.
    destruct (dispatch_event_frame _ _ _ (ci_subs _ I) Hd) as [F1 F2 F3 F4 F5].
    pose proof (event_waiting _ c d P (of_init _ i s Hi Hp Ha) Hd) as Hwt.
    eapply plain_inv_move; [exact I|exact P|exact Hi|reflexivity|done|done|done|done|exact Hwt|exact F3].
  - rewrite (pi_reconnect _ P) in Hr. done.
  - by eapply pi_sender in Hp.
  - destruct retry;
      (eapply plain_inv_move; [exact I|exact P|exact Hi|reflexivity|done|done|done|apply (pi_inv _ P)|apply (pi_waiting _ P)|done]).
Qed.

Lemma plain_inv_add loc op f c :
  client_inv c → plain_inv c → h_ops (client_handler c) !! loc = None → request op →
  plain_inv (add_sender loc op (upd_conn (upd_quits f (client_handler c)) c)).
Proof.
  intros I [P1 P2 P3 P5 P4] Hf Hq. pose proof (ops_alloc (client_handler c) loc op P2 Hf) as [A B]. split; [done| | |done|]; cbn.
  - split; [by apply (ops_ok_same (upd_ops <[loc:=op]> (client_handler c)))|by apply (subs_ok_same (upd_ops <[loc:=op]> (client_handler c)))].
  - intros i s retry nc w [Hi|[_ [_ <-]%list_lookup_singleton_Some]]%lookup_app_Some; [by eapply P3|done].
  - intros i s [Hi|[_ [_ <-]%list_lookup_singleton_Some]]%lookup_app_Some Hp; cbn.
    + destruct (P4 i s Hi Hp) as (o & Ho & Hn). exists o. by rewrite lookup_insert_ne by (intros ->; congruence).
    + exists op. rewrite lookup_insert_eq. split; [done|by apply request_new].
Qed.

Lemma call_returned_inv c loc h :
  inv (client_handler c) → call_returned c loc h → inv h ∧
  ∀ l op, h_ops (client_handler c) !! l = Some op → new_op op → h_ops h !! l = Some op.
Proof.
  intros Hi (i & s & _ & _ & [[_ ->]|[_ [r Hr]]]); [done|]. split; [by eapply recv_ok|].
  intros l op Ho (Hcl & Hb & _). destruct (on_resp_only _ _ _ _ _ Hr) as (_ & O2 & _). rewrite O2; [done|].
  intros ->. by rewrite (recv_empty _ _ _ Ho Hb Hcl) in Hr.
Qed.

Lemma plain_inv_step c c' : client_inv c → client_step c c' → plain_inv c → plain_inv c'.
Proof.
  intros I Hs P.
  destruct Hs as [c loc op Hf Hq|c loc id sub h Hf Hq|c loc sub h Hq Hret|c i s c' Hi Hs|c err rest d Hr Hb Hd
    |c msgs batch d Hr Hrd Hd|c err d Hr Hrd Hd|c loc d Hr Hu Hd|c d Hr Hd|c d Hr Hw Hd|c i h Hc|c loc r h Hu Hc].
  - pose proof (plain_inv_add loc op (λ m, m) c I P Hf Hq) as Ha. by rewrite upd_quits_id in Ha.
  - apply plain_inv_add; [done..|constructor].
  - destruct (call_returned_inv c loc h (pi_inv _ P) Hret) as [[A B] Ho].
    eapply plain_inv_frame; [exact I|exact P| |done|intros j s; exact (plain_inv_senders c j s P)|apply (pi_waiting _ P)|auto].
    split; [by apply (ops_ok_same h)|by apply (subs_ok_same h)].
  - by eapply plain_inv_send.
  - eapply (plain_inv_event (EvReqSent err)); [exact I|exact P|by eapply of_sent|exact Hd|done..].
  - eapply (plain_inv_event (EvReadOp msgs batch)); [exact I|exact P| |exact Hd|done..].
    apply of_read. intros -> ->. by apply dispatch_event_cases in Hd as [_ Hd].
  - eapply (plain_inv_event (EvReadErr err)); [exact I|exact P|apply of_read_error|exact Hd|done..].
  - pose proof (dispatch_event_flags _ _ _ _ Hd) as [_ _ _ Fw].
    apply dispatch_event_cases in Hd as [_ Hd]. cbn [dispatch_case] in Hd. apply on_conn_inv in Hd as (h & E & ->).
    destruct (removeRequestOp_frame _ _ _ _ E) as [[F1 F2 F3 F4] _]. apply removeRequestOp_ok in E; [|apply P].
    apply (plain_inv_frame c); try done; [intros j s; exact (plain_inv_senders c j s P)| |].
    + intros sub err cd w Hw. by apply (Fw sub err (AfterReconnect cd w)).
    + intros l o Hu' Ho _. cbn. by rewrite F2.
  - eapply (plain_inv_event EvClose); [exact I|exact P|apply of_close|exact Hd|apply leave_loop_fields..].
  - eapply (plain_inv_event EvOnceDone); [exact I|exact P|by apply of_once_done|exact Hd|apply leave_loop_fields..].
  - destruct (run_call_frame decode_as Zero text as_ID idgen _ _ _ _ (ci_subs _ I) Hc) as [[F1 F2 F3 F5] F4].
    destruct (run_call_run decode_as Zero text as_ID idgen i _ (pi_inv _ P)) as (h' & E & I').
    assert (h' = h) as -> by congruence.
    apply (plain_inv_frame c); try done; [intros j s; exact (plain_inv_senders c j s P)|apply (pi_waiting _ P)|].
    intros l o Hu Ho _. cbn. by rewrite F2.
  - destruct (on_resp_only _ _ _ _ _ Hc) as (O1 & O2 & O3 & O4).
    pose proof (recv_ok loc _ _ _ (pi_inv _ P) Hc) as Hinv.
    apply (plain_inv_frame c); try done; [intros j s; exact (plain_inv_senders c j s P)|apply (pi_waiting _ P)|].
    intros l o Hu' Ho (Hcl & Hb & _). cbn. rewrite O2; [done|]. intros ->. by rewrite (recv_empty _ _ _ Ho Hb Hcl) in Hc.
Qed.

Lemma plain_reachable c : creachable c → cl_reconnectFunc c = false → client_inv c ∧ plain_inv c.
Proof.
  intros Hc Hr. apply (creachable_ind (λ c, cl_reconnectFunc c = false → plain_inv c)) in Hc as [I P]; [auto| |].
  - intros codec w reg rc Erc. split; [done|apply inv_newHandler|..]; by intros ? **.
  - intros c1 c2 I Hs P Hr2. eapply plain_inv_step; [done|done|]. apply P. rewrite <-Hr2. symmetry.
    by eapply step_reconnectFunc.
Qed.

(** C7: the dispatch loop of a client whose connection cannot be reconnected, as every
    connection that a server serves, never panics, and it blocks only in two places:
    whatever other goroutines offer to it, at any point of its life, is handled, except
    that closing the connection waits for goroutines of calls that are still running,
    and that it may come to stand in the [quitOnce] of a subscription that another
    goroutine is unsubscribing at that time; while it stands there it takes nothing,
    and it goes on when, and only when, that goroutine has done. *)
Theorem dispatch_never_stuck c ev :
  creachable c → cl_reconnectFunc c = false → offered c ev →
  (∃ d, dispatch_event text ev (cl_dispatch c) = Ret ((), d) ∧
     (∀ sub err k, dp_waiting d = Some (sub, err, k) → closes ev = true ∧ quitting (dp_conn d) sub) ∧
     ∀ sub err k, dp_waiting (cl_dispatch c) = Some (sub, err, k) → ev = EvOnceDone ∧ ¬ quitting (client_handler c) sub) ∨
  (closes ev = true ∧ h_callWG (client_handler c) ≠ [] ∧
     dispatch_event text ev (cl_dispatch c) = Blocks "sync.WaitGroup") ∨
  (∃ sub err k, dp_waiting (cl_dispatch c) = Some (sub, err, k) ∧ (ev = EvOnceDone → quitting (client_handler c) sub) ∧
     dispatch_event text ev (cl_dispatch c) = Blocks "sync.Once").
Proof.
  intros Hc Hr Ho. apply plain_reachable in Hc as [I P]; [|done].
  destruct (event_fine ev c I P Ho) as [(d & E & _ & Hw)|[?|([[sub err] k] & Hw & Hq & E)]]; [left|by right; left|right; right].
  - exists d. split_and!; [done|intros sub err k Hd; exact (Hw _ Hd)|]. intros sub err k Hd.
    apply dispatch_event_cases in E as [[-> |] E]; [|congruence]. split; [done|]. intros Hq.
    apply once_done_inv in E. rewrite Hd in E. destruct E as (r & h & E & _).
    by rewrite resume_close_blocked in E.
  - by exists sub, err, k.
Qed.

(** ** A request in flight when the connection goes down *)

(** A request that was written and that no ID waits for. *)
Record stranded loc op c : Prop := {
  st_unregistered : unregistered (client_handler c) loc;
  st_op : h_ops (client_handler c) !! loc = Some op;
  st_sent i s : cl_senders c !! i = Some s → sn_op s = loc →
    sn_pc s = SReport None ∨ ∃ err, sn_pc s = SReturn err;
  st_wait sub err newconn w : dp_waiting (cl_dispatch c) = Some (sub, err, AfterReconnect newconn w) →
    dp_lastOp (cl_dispatch c) ≠ Some loc }.

Lemma stranded_frame loc op c c' :
  stranded loc op c → cl_senders c' = cl_senders c → dp_waiting (cl_dispatch c') = dp_waiting (cl_dispatch c) →
  dp_lastOp (cl_dispatch c') = dp_lastOp (cl_dispatch c) →
  (unregistered (client_handler c) loc → unregistered (client_handler c') loc) →
  h_ops (client_handler c') !! loc = h_ops (client_handler c) !! loc → stranded loc op c'.
Proof. intros [S1 S2 S3 S4] Hs Hw Hl Hu Ho. split; [auto|by rewrite Ho|by rewrite Hs|by rewrite Hw, Hl]. Qed.

Lemma stranded_event ev c d loc op :
  client_inv c → stranded loc op c → dispatch_event text ev (cl_dispatch c) = Ret ((), d) →
  added ev (cl_dispatch c) ≠ Some loc →
  unregistered (dp_conn d) loc ∧ h_ops (dp_conn d) !! loc = Some op ∧
  ∀ sub err newconn w, dp_waiting d = Some (sub, err, AfterReconnect newconn w) → dp_lastOp d ≠ Some loc.
Proof.
  intros I [S1 S2 _ _] Hd Ha. destruct (dispatch_event_frame _ _ _ (ci_subs _ I) Hd) as [F1 F2 F3 F4 F5].
  apply dispatch_event_flags in Hd as [E _ _ Fw]. split_and!; [|by rewrite F3|].
  - intros id Hid. destruct (F4 id loc Hid) as [Hc|Hc]; [by apply (S1 id)|done].
  - intros sub err cd w Hw. apply Fw in Hw. destruct ev; try done; [by destruct Hw|..]; injection E as -> _; [done|].
    destruct Hw as [sub0 Hw]. cbn in Ha. by rewrite Hw in Ha.
Qed.

Lemma stranded_move c c' i s pc loc op :
  stranded loc op c → cl_senders c !! i = Some s → cl_senders c' = <[i := mkSender (sn_op s) pc]> (cl_senders c) →
  unregistered (client_handler c') loc ∧ h_ops (client_handler c') !! loc = Some op ∧
  (∀ sub err newconn w, dp_waiting (cl_dispatch c') = Some (sub, err, AfterReconnect newconn w) →
     dp_lastOp (cl_dispatch c') ≠ Some loc) →
  (sn_op s = loc → ∃ err, pc = SReturn err) → stranded loc op c'.
Proof.
  intros [S1 S2 S3 S4] Hi Hs (Hu & Ho & Hw) Hpc. split; [done|done| |done]. rewrite Hs.
  intros j s' [[-> ->]|[_ Hj]]%lookup_insert_cases; [|by apply (S3 j)]. cbn. intros E. right. by apply Hpc.
Qed.

Lemma stranded_send i s c c' loc op :
  cl_senders c !! i = Some s → send_step text i s c c' → client_inv c → stranded loc op c → stranded loc op c'.
Proof.
  intros Hi Hs I St. pose proof (st_sent _ _ _ St i s Hi) as Hsent.
  destruct (ci_lock _ I) as (_ & _ & L3). specialize (L3 i s Hi).
  assert (unregistered (client_handler c) loc ∧ h_ops (client_handler c) !! loc = Some op ∧
    (∀ sub err newconn w, dp_waiting (cl_dispatch c) = Some (sub, err, AfterReconnect newconn w) →
       dp_lastOp (cl_dispatch c) ≠ Some loc)) as Hsame by (split_and!; apply St).
  destruct Hs as [d Hp Hr Ha Hd|err Hp Hu|Hp _|retry conn Hp Hw|retry Hp Hw Hr|retry err Hp Hw Hr|retry nc w Hp Hw Hr
    |retry nc w d Hp Hr Hd|retry nc w Hp Hr|retry Hp|retry err Hp|err Hp Hlen];
    unfold holding in L3; rewrite Hp in Hsent, L3;
    try (eapply stranded_move; [exact St|exact Hi|reflexivity|exact Hsame|];
         intros E; destruct (Hsent E) as [|[? ?]]; by eauto).
  - eapply stranded_move; [exact St|exact Hi|reflexivity| |].
    + eapply stranded_event; [exact I|exact St|exact Hd|]. intros [= E]. by destruct (Hsent E) as [|[? ?]].
    + intros E. by destruct (Hsent E) as [|[? ?]].
  - eapply stranded_move; [exact St|exact Hi|reflexivity| |].
    + eapply stranded_event; [exact I|exact St|exact Hd|]. cbn. rewrite L3 by done. intros [= E].
      by destruct (Hsent E) as [|[? ?]].
    + intros E. by destruct (Hsent E) as [|[? ?]].
Qed.

Lemma stranded_add loc op l o f c :
  stranded loc op c → h_ops (client_handler c) !! l = None →
  stranded loc op (add_sender l o (upd_conn (upd_quits f (client_handler c)) c)).
Proof.
  intros St Hf. assert (l ≠ loc) as Hne by (intros ->; pose proof (st_op _ _ _ St); congruence).
  split; [apply St| | |apply St]; cbn.
  - rewrite lookup_insert_ne by done. apply St.
  - intros i s [Hi|[_ [_ <-]%list_lookup_singleton_Some]]%lookup_app_Some E; [by eapply st_sent|done].
Qed.

Lemma stranded_only loc op l f h c :
  stranded loc op c → only l (client_handler c) h → l ≠ loc → stranded loc op (upd_conn (upd_quits f h) c).
Proof.
  intros St (O1 & O2 & _) Hne. eapply stranded_frame; [exact St|done..| |]; cbn; [|by apply O2].
  unfold unregistered. cbn. by rewrite O1.
Qed.

Lemma stranded_step loc op c c' :
  ch_buf (op_resp op) = [] → ch_closed (op_resp op) = false →
  client_inv c → client_step c c' → stranded loc op c → stranded loc op c'.
Proof.
  intros Hb Hcl I Hs St.
  assert (∀ l r h, on_resp l chan_recv (client_handler c) = Ret (r, h) → l ≠ loc) as Hrecv.
  { intros l r h Hc ->. by rewrite (recv_empty _ _ _ (st_op _ _ _ St) Hb Hcl) in Hc. }
  assert (∀ ev d c', dispatch_event text ev (cl_dispatch c) = Ret ((), d) → added ev (cl_dispatch c) ≠ Some loc →
    cl_dispatch c' = d → cl_senders c' = cl_senders c → stranded loc op c') as Hev.
  { intros ev d c2 Hd Ha <- Hsn. destruct (stranded_event ev c _ loc op I St Hd Ha) as (Hu & Ho & Hw).
    split; [done|done| |done]. rewrite Hsn. apply St. }
  destruct Hs as [c l o Hf Hq|c l id sub h Hf Hq|c l sub h Hq Hret|c i s c' Hi Hs|c err rest d Hr Hbuf Hd
    |c msgs batch d Hr Hrd Hd|c err d Hr Hrd Hd|c l d Hr Hu Hd|c d Hr Hd|c d Hr Hw Hd|c i h Hc|c l r h Hu Hc];
    try (by eapply Hev).
  - pose proof (stranded_add loc op l o (λ m, m) c St Hf) as Ha. by rewrite upd_quits_id in Ha.
  - by apply stranded_add.
  - pose proof (call_returned_frame _ _ _ Hret) as Ho. destruct Hret as (i & s & _ & _ & [[_ ->]|[_ [r Hc]]]).
    + eapply stranded_frame; [exact St|done..].
    + eapply stranded_only; [done|done|by eapply Hrecv].
  - by eapply stranded_send.
  - eapply (Hev EvClose); [exact Hd|done|apply leave_loop_fields..].
  - eapply (Hev EvOnceDone); [exact Hd| |apply leave_loop_fields..].
    cbn. destruct (dp_waiting _) as [[[sub err] []]|] eqn:E; try done. by apply (st_wait _ _ _ St _ _ _ _ E).
  - destruct (run_call_frame decode_as Zero text as_ID idgen _ _ _ _ (ci_subs _ I) Hc) as [[F1 F2 F3 F5] F4].
    eapply stranded_frame; [exact St|done..| |apply F2, St]. intros Hu id Hid. by apply (Hu id), F1.
  - pose proof (stranded_only loc op l (λ m, m) h c St (on_resp_only _ _ _ _ _ Hc)) as Ho. rewrite upd_quits_id in Ho.
    by eapply Ho, Hrecv.
Qed.

(** A read error closes the connection, the request in flight excepted. *)
Lemma read_error_inv err d d' :
  dispatch_event text (EvReadErr err) d = Ret ((), d') →
  ∃ r h, close_handler err (dp_lastOp d) (dp_conn d) = Ret (r, h) ∧ dp_conn d' = h.
Proof.
  intros [_ H0]%dispatch_event_cases. cbn [dispatch_case] in H0. rewrite go_bind_run in H0. cbn [go_get] in H0.
  apply conn_close_inv in H0 as (r & h & E1 & E2). exists r, h. split; [done|].
  destruct r; cbn in E2; by rewrite E2.
Qed.

(** C9: when the connection goes down after a request was written and before the
    loop has read from [reqSent], the request's channel is neither answered nor
    closed, then or ever after, whether the client is reconnected or closed: its
    caller, if its context is not cancelled, waits forever. *)
Theorem inflight_request_stranded c i s op err d c' :
  creachable c → cl_senders c !! i = Some s → sn_pc s = SReport None →
  h_ops (client_handler c) !! sn_op s = Some op → ch_buf (op_resp op) = [] → ch_closed (op_resp op) = false →
  dispatch_event text (EvReadErr err) (cl_dispatch c) = Ret ((), d) →
  rtc client_step (upd_dispatch d c) c' →
  h_ops (client_handler c') !! sn_op s = Some op ∧ op_wait None op = Blocks "chan receive".
Proof.
  intros Hc%creachable_inv Hi Hp Ho Hb Hcl Hd Hr. split; [|by unfold op_wait, chan_recv; rewrite Hb, Hcl].
  assert (client_inv (upd_dispatch d c) ∧ stranded (sn_op s) op (upd_dispatch d c)) as Hst.
  - pose proof (send_after_event _ _ _ _ Hd) as E. injection E as D1 D2.
    destruct (ci_lock _ Hc) as (L1 & L2 & L3).
    split; [eapply client_inv_event; [exact Hc|exact Hd|done| |done|done]; split_and!; cbn; rewrite ?D1, ?D2; done|].
    pose proof (dispatch_event_flags _ _ _ _ Hd) as [_ _ _ Fw].
    apply read_error_inv in Hd as (r & h & E1 & Ed).
    destruct (close_handler_frame idgen _ _ _ _ _ (ci_subs _ Hc) E1) as (A1 & [A2 A3 A5] & A4).
    split; cbn; rewrite ?Ed.
    + intros id. by rewrite A1.
    + rewrite A2; [done|]. right. eapply L3; [done|]. unfold holding. by rewrite Hp.
    + intros j s' Hj E'. assert (j = i) as -> by (by eapply (ci_distinct _ Hc)). left. congruence.
    + intros sub e cd w Hw. by destruct (Fw _ _ _ Hw).
  - assert (client_inv c' ∧ stranded (sn_op s) op c') as [_ St]; [|apply St].
    eapply (rtc_ind_r (λ c, client_inv c ∧ stranded (sn_op s) op c)); [exact Hst| |exact Hr].
    intros x y _ Hs [I St]. split; [by eapply client_inv_step|by eapply stranded_step].
Qed.

End dispatch_props.

(** ** Examples *)

Abbreviation ex_client := (client (list wireval) Z).
Abbreviation ex_creachable := (creachable ex_decode (λ _, 0%Z) (λ _, "") (λ _, "") (λ _, "0x1")).
Abbreviation ex_cstep := (client_step ex_decode (λ _, 0%Z) (λ _, "") (λ _, "") (λ _, "0x1")).

Definition ex_event (ev : event) (d : dispatch (list wireval) Z) : dispatch (list wireval) Z :=
  match dispatch_event (λ _, "") ev d with Ret (_, d') => d' | _ => d end.

Definition ex_handled (ev : event) (d : dispatch (list wireval) Z) : bool :=
  match dispatch_event (λ _, "") ev d with Ret _ => true | _ => false end.
Lemma ex_event_ret ev d : ex_handled ev d = true → dispatch_event (λ _, "") ev d = Ret ((), ex_event ev d).
Proof. unfold ex_handled, ex_event. by destruct (dispatch_event _ ev d) as [[[] d']| |]. Qed.

(** A client that has just written a call. *)
Definition ex_c0 : ex_client := initClient 0 [] ex_reg false.
Definition ex_d1 : dispatch (list wireval) Z :=
  set_dp_conn (upd_ops <[0%nat := call_op "1"]> (dp_conn (cl_dispatch ex_c0))) (cl_dispatch ex_c0).
Definition ex_c1 (pc : send_pc) (d : dispatch (list wireval) Z) : ex_client :=
  mkClient d true false (Some 0%nat) [] [mkSender 0 pc].
Definition ex_c2 : ex_client := ex_c1 (SReport None) (ex_event (EvReqInit 0) ex_d1).

Lemma ex_c2_reachable : ex_creachable ex_c2.
Proof.
  exists 0%nat, [], ex_reg, false.
  eapply (rtc_l _ _ (ex_c1 SInit ex_d1)).
  { exact (cl_request _ _ _ _ _ ex_c0 0%nat (call_op "1") eq_refl (req_call "1")). }
  eapply (rtc_l _ _ (ex_c1 (SWrite false) (ex_event (EvReqInit 0) ex_d1))).
  { refine (cl_send _ _ _ _ _ (ex_c1 SInit ex_d1) 0%nat (mkSender 0 SInit) _ eq_refl _).
    refine (ss_reqInit _ 0%nat (mkSender 0 SInit) (ex_c1 SInit ex_d1) (ex_event (EvReqInit 0) ex_d1) eq_refl eq_refl eq_refl _).
    by apply ex_event_ret. }
  eapply (rtc_l _ _ (ex_c1 (SEmit false) (ex_event (EvReqInit 0) ex_d1))).
  { refine (cl_send _ _ _ _ _ (ex_c1 (SWrite false) (ex_event (EvReqInit 0) ex_d1)) 0%nat (mkSender 0 (SWrite false)) _ eq_refl _).
    by refine (ss_have_conn _ _ _ (ex_c1 (SWrite false) (ex_event (EvReqInit 0) ex_d1)) false 0%nat _ _). }
  eapply rtc_once. refine (cl_send _ _ _ _ _ (ex_c1 (SEmit false) (ex_event (EvReqInit 0) ex_d1)) 0%nat (mkSender 0 (SEmit false)) _ eq_refl _).
  by refine (ss_emitted _ _ _ (ex_c1 (SEmit false) (ex_event (EvReqInit 0) ex_d1)) false _).
Qed.

Lemma send_lock_witness :
  cl_reqSent ex_c2 = [] ∧ dp_accept (cl_dispatch ex_c2) = false ∧ dp_lastOp (cl_dispatch ex_c2) = Some 0%nat.
Proof.
  destruct (send_lock _ _ _ _ _ ex_c2 ex_c2_reachable) as (_ & Hl & _).
  apply (Hl 0%nat (mkSender 0 (SReport None))); reflexivity.
Defined.

Lemma dispatch_never_stuck_witness :
  ∃ d, dispatch_event (λ _, "") (EvReadOp [ex_answer] false) (cl_dispatch ex_c2) = Ret ((), d) ∧ dp_waiting d = None.
Proof.
  destruct (dispatch_never_stuck _ _ _ _ _ ex_c2 (EvReadOp [ex_answer] false) ex_c2_reachable)
    as [(d & E & Hw & _)|[(Hc & _)|(sub & err & k & Hw & _)]]; [reflexivity|by apply of_read| |discriminate Hc|discriminate Hw].
  exists d. split; [exact E|]. destruct (dp_waiting d) as [[[sub err] k]|]; [|done].
  destruct (Hw sub err k eq_refl) as [Hc _]. discriminate Hc.
Defined.

(** The connection goes down, the sender reports, and the client is closed. *)
Definition ex_d3 : dispatch (list wireval) Z := ex_event (EvReadErr (EVar ErrClientQuit)) (cl_dispatch ex_c2).
Definition ex_c3 : ex_client := mkClient ex_d3 true false (Some 0%nat) [None] [mkSender 0 (SReturn None)].
Definition ex_c4 : ex_client := set_reqSent [] (upd_dispatch (ex_event (EvReqSent None) ex_d3) ex_c3).
Definition ex_c5 : ex_client := leave_loop (ex_event EvClose (cl_dispatch ex_c4)) ex_c4.

Lemma inflight_request_stranded_witness :
  ∃ c', rtc ex_cstep (upd_dispatch ex_d3 ex_c2) c' ∧
    cl_running c' = false ∧
    h_ops (dp_conn (cl_dispatch c')) !! 0%nat = Some (call_op "1") ∧
    op_wait None (call_op "1") = Blocks "chan receive".
Proof.
  exists ex_c5.
  assert (rtc ex_cstep (upd_dispatch ex_d3 ex_c2) ex_c5) as Hr.
  { eapply (rtc_l _ _ ex_c3).
    - refine (cl_send _ _ _ _ _ (upd_dispatch ex_d3 ex_c2) 0%nat (mkSender 0 (SReport None)) _ eq_refl _).
      refine (ss_report _ 0%nat (mkSender 0 (SReport None)) (upd_dispatch ex_d3 ex_c2) None eq_refl _). cbn. lia.
    - eapply (rtc_l _ _ ex_c4).
      + refine (cl_sent _ _ _ _ _ ex_c3 None [] (ex_event (EvReqSent None) ex_d3) eq_refl eq_refl _).
        apply ex_event_ret. vm_compute. reflexivity.
      + eapply rtc_once. refine (cl_close _ _ _ _ _ ex_c4 (ex_event EvClose (cl_dispatch ex_c4)) eq_refl _).
        apply ex_event_ret. vm_compute. reflexivity. }
  destruct (inflight_request_stranded _ _ _ _ _ ex_c2 0%nat (mkSender 0 (SReport None)) (call_op "1")
    (EVar ErrClientQuit) ex_d3 ex_c5 ex_c2_reachable) as [Ho Hw]; [reflexivity..|exact Hr|].
  by split_and!.
Defined.

