(* ===== verification/RpcClose.v ===== *)
(** * Closing a client (simple_rpc/rpc/client.go)

    [Close] as a goroutine next to the dispatch loop, and how closing ends: the loop may
    have to wait, one after the other, for goroutines that are unsubscribing, and on
    [Close] each of them comes to its end.  After a read error it need not: the loop and
    the goroutine can wait for each other for ever. *)

From S2P Require Import Prelude GoText Json RpcMessage RpcArgs RpcService GoChan.
From S2P Require Import RpcSubscription RpcClientSub RpcHandler RpcHandlerProps RpcFrame.
From S2P Require Import RpcClient RpcClientProps RpcDispatch.

Section close_props.
Context {W : Type} `{JsonWriter W} {V : Type}.
Context (decode_as : gotype → string → result string V) (Zero : gotype → V)
  (text : decError → string) (as_ID : V → string) (idgen : nat → string).

Abbreviation dispatch := (dispatch W V).
Abbreviation client := (client W V).
Abbreviation client_step := (client_step decode_as Zero text as_ID idgen).
Abbreviation creachable := (creachable decode_as Zero text as_ID idgen).
Abbreviation client_handler c := (dp_conn (cl_dispatch c)).
Implicit Types (d : dispatch) (c : client).

(** ** The end of the dispatch loop *)

Definition leaving d : bool := match dp_waiting d with Some (_, _, AfterExit) => true | _ => false end.

(** [didClose] is closed when the loop has returned, and [closing] also while it waits in
    its deferred function; a loop that waits has not returned. *)
Record quit_ok d (running : bool) : Prop := {
  qk_didClose : dp_didClose d = negb running;
  qk_closing : dp_closing d = negb running || leaving d;
  qk_waiting : dp_waiting d ≠ None → running = true }.
Definition quit_inv c : Prop := quit_ok (cl_dispatch c) (cl_running c).

Lemma quit_ok_event ev d d' :
  quit_ok d true → dispatch_event text ev d = Ret ((), d') →
  quit_ok d' (negb (dp_didClose d')) ∧ (ev = EvClose ∨ ev = EvOnceDone ∨ dp_didClose d' = false).
Proof.
  intros [Q1 Q2 _] Hd. pose proof (dispatch_event_flags _ _ _ _ Hd) as [_ F2 F3 F4].
  apply dispatch_event_cases in Hd as [Hw _]. rewrite Q1 in F3. rewrite Q2 in F2. cbn in F2, F3.
  assert (ev = EvClose ∨ ev = EvOnceDone ∨ dp_didClose d' = false) as Hev.
  { destruct ev; auto; right; right; rewrite F3; cbn; by destruct (dp_waiting d) as [[[]]|]. }
  split; [|done]. split; [by rewrite negb_involutive| |].
  - rewrite negb_involutive, F2, F3. unfold leaving, waits, exits in *.
    destruct (dp_waiting d') as [[[sub err] k]|] eqn:Ew.
    + specialize (F4 sub err k eq_refl). destruct ev; try done; cbn.
      * subst k. by rewrite orb_true_r.
      * destruct Hw as [|Hw]; [done|]. rewrite Hw. by destruct F4 as [-> _].
      * destruct Hw as [|Hw]; [done|]. rewrite Hw. by subst k.
      * destruct F4 as [sub0 ->]. by destruct k.
    + destruct ev; try (destruct Hw as [|Hw]; [done|rewrite Hw; done]); cbn.
      by destruct (dp_waiting d) as [[[? ?] []]|].
  - intros Hne. rewrite F3. unfold waits, exits. destruct (dp_waiting d'); [|done]. by rewrite andb_false_r.
Qed.

Lemma quit_inv_event ev d c :
  quit_inv c → cl_running c = true → dispatch_event text ev (cl_dispatch c) = Ret ((), d) →
  quit_inv (leave_loop d c) ∧ (ev = EvClose ∨ ev = EvOnceDone ∨ upd_dispatch d c = leave_loop d c).
Proof.
  unfold quit_inv. intros Q Hr Hd. rewrite Hr in Q. destruct (quit_ok_event ev _ _ Q Hd) as [Q' Hev].
  destruct (leave_loop_fields d c) as (-> & _ & _ & _ & _ & ->). rewrite Hr. split; [done|].
  destruct Hev as [|[|E]]; [auto..|]. right. right. unfold leave_loop. by rewrite E.
Qed.

Lemma quit_inv_keep ev d c :
  quit_inv c → cl_running c = true → dispatch_event text ev (cl_dispatch c) = Ret ((), d) →
  ev ≠ EvClose → ev ≠ EvOnceDone → quit_inv (upd_dispatch d c).
Proof. intros Q Hr Hd H1 H2. by destruct (quit_inv_event ev d c Q Hr Hd) as [? [ |[ | -> ]]]. Qed.

Lemma quit_inv_step c c' :
  client_step c c' → quit_inv c → quit_inv c' ∧ (cl_running c = false → cl_running c' = false).
Proof.
  intros Hs Q.
  destruct Hs as [c loc op Hf Hq|c loc id sub h Hf Hq|c loc sub h Hq Hret|c i s c' Hi Hs|c err rest d Hr Hb Hd
    |c msgs batch d Hr Hrd Hd|c err d Hr Hrd Hd|c loc d Hr Hu Hd|c d Hr Hd|c d Hr Hw Hd|c i h Hc|c loc r h Hu Hc];
    try (split; [apply (quit_inv_event _ _ _ Q Hr Hd)|by rewrite Hr]; fail);
    try (split; [exact (quit_inv_keep _ _ _ Q Hr Hd ltac:(done) ltac:(done))|by rewrite Hr]; fail);
    try (split; [destruct Q; by split|done]; fail).
  destruct Hs as [d Hp Hr Ha Hd|err Hp Hu|Hp _|retry conn Hp Hw|retry Hp Hw Hr|retry err Hp Hw Hr|retry nc w Hp Hw Hr
    |retry nc w d Hp Hr Hd|retry nc w Hp Hr|retry Hp|retry err Hp|err Hp Hlen]; try (split; [exact Q|done]; fail);
    (split; [exact (quit_inv_keep _ _ _ Q Hr Hd ltac:(done) ltac:(done))|by rewrite Hr]).
Qed.

Lemma quit_reachable c : creachable c → quit_inv c.
Proof.
  intros Hc. apply (creachable_ind decode_as Zero text as_ID idgen quit_inv) in Hc as [_ ?]; [done|by intros|].
  intros c1 c2 _ Hs Q. by apply (quit_inv_step c1).
Qed.

(** ** Requests with IDs of their own *)

(** No two requests share an ID, as those of [nextID] do not. *)
Definition own_ids c : Prop :=
  ∀ l l' op op' id, h_ops (client_handler c) !! l = Some op → h_ops (client_handler c) !! l' = Some op' →
    id ∈ op_ids op → id ∈ op_ids op' → l = l'.

Lemma same_ids_own h h' : same_ids h h' →
  (∀ l l' op op' id, h_ops h' !! l = Some op → h_ops h' !! l' = Some op' → id ∈ op_ids op → id ∈ op_ids op' → l = l') →
  ∀ l l' (op op' : requestOp) id, h_ops (h : RpcHandler.handler W V) !! l = Some op → h_ops h !! l' = Some op' →
    id ∈ op_ids op → id ∈ op_ids op' → l = l'.
Proof.
  intros Hs Ho l l' op op' id H1 H2 H3 H4. destruct (Hs l op H1) as (o1 & E1 & I1). destruct (Hs l' op' H2) as (o2 & E2 & I2).
  eapply (Ho l l' o1 o2 id); congruence.
Qed.

Lemma same_ids_alloc loc op (h : RpcHandler.handler W V) f :
  h_ops h !! loc = None → same_ids h (upd_ops <[loc := op]> (upd_quits f h)).
Proof. intros Hf l o Ho. exists o. cbn. by rewrite lookup_insert_ne by (intros ->; congruence). Qed.

Lemma step_same_ids c c' : client_inv c → client_step c c' → same_ids (client_handler c) (client_handler c').
Proof.
  intros I Hs.
  assert (∀ ev d, dispatch_event text ev (cl_dispatch c) = Ret ((), d) → same_ids (client_handler c) (dp_conn d)) as Hev.
  { intros ev d Hd. by destruct (dispatch_event_frame text idgen _ _ _ (ci_subs _ I) Hd). }
  destruct Hs as [c loc op Hf Hq|c loc id sub h Hf Hq|c loc sub h Hq Hret|c i s c' Hi Hs|c err rest d Hr Hb Hd
    |c msgs batch d Hr Hrd Hd|c err d Hr Hrd Hd|c loc d Hr Hu Hd|c d Hr Hd|c d Hr Hw Hd|c i h Hc|c loc r h Hu Hc];
    try (by eapply Hev); try (destruct (leave_loop_fields d c) as (-> & _); by eapply Hev).
  - pose proof (same_ids_alloc loc op (client_handler c) (λ m, m) Hf) as Ha. by rewrite upd_quits_id in Ha.
  - by apply same_ids_alloc.
  - by destruct (call_returned_frame _ _ _ Hret) as (_ & _ & ? & _).
  - destruct Hs as [d Hp Hr Ha Hd|err Hp Hu|Hp _|retry conn Hp Hw|retry Hp Hw Hr|retry err Hp Hw Hr|retry nc w Hp Hw Hr
      |retry nc w d Hp Hr Hd|retry nc w Hp Hr|retry Hp|retry err Hp|err Hp Hlen]; try (by apply same_ids_refl); by eapply Hev.
  - destruct (run_call_frame decode_as Zero text as_ID idgen _ _ _ _ (ci_subs _ I) Hc) as [[F1 F2 F3 F5] F4]. exact F3.
  - by destruct (on_resp_only _ _ _ _ _ Hc) as (_ & _ & ? & _).
Qed.

Lemma own_ids_step c c' : client_inv c → client_step c c' → own_ids c' → own_ids c.
Proof. intros I Hs Ho. exact (same_ids_own _ _ (step_same_ids c c' I Hs) Ho). Qed.

(** ** The requests of unsubscribing goroutines *)

(** A call whose end does not depend on the connection's peer alone: it has not been
    offered to the loop, or has failed, or its ID is registered, so that closing ends
    it, or it has its answer. *)
Definition call_ok (h : RpcHandler.handler W V) (pc : send_pc (W:=W)) (loc : nat) : Prop :=
  ∃ op id, h_ops h !! loc = Some op ∧ op_ids op = [id] ∧
    (pc = SInit ∨ (∃ e, pc = SReturn (Some e)) ∨ h_respWait h !! id = Some loc ∨ answered_op op).

Lemma call_ok_handler h h' pc loc :
  call_ok h pc loc → same_ids h h' → (has_answer h loc → has_answer h' loc) →
  (∀ id op, h_ops h !! loc = Some op → op_ids op = [id] → h_respWait h !! id = Some loc →
     h_respWait h' !! id = Some loc ∨ has_answer h' loc) → call_ok h' pc loc.
Proof.
  intros (op & id & Ho & Hid & Hc) Hs Ha Hw. destruct (Hs loc op Ho) as (op' & Ho' & E). exists op', id.
  split; [done|]. split; [congruence|].
  assert (has_answer h' loc → answered_op op') as Hans by (intros (o & Hl & ?); by simplify_eq).
  destruct Hc as [|[|[Hr|Hr]]]; [by auto..| |].
  - destruct (Hw id op Ho Hid Hr); auto.
  - right. right. right. apply Hans, Ha. by exists op.
Qed.

(** While the goroutine writes and reports. *)
Lemma call_ok_pc h pc pc' loc :
  call_ok h pc loc → pc ≠ SInit → (∀ e, pc ≠ SReturn (Some e)) → call_ok h pc' loc.
Proof.
  intros (op & id & Ho & Hid & Hc) H1 H2. exists op, id. split; [done|]. split; [done|].
  destruct Hc as [|[[e He]|Hc]]; [done|by destruct (H2 e)|]. auto.
Qed.

Record tracked c : Prop := {
  tr_call sub loc : h_quits (client_handler c) !! sub = Some (QuitRunning loc) →
    ∃ i s, cl_senders c !! i = Some s ∧ sn_op s = loc ∧ call_ok (client_handler c) (sn_pc s) loc;
  tr_inj sub sub' loc : h_quits (client_handler c) !! sub = Some (QuitRunning loc) →
    h_quits (client_handler c) !! sub' = Some (QuitRunning loc) → sub = sub';
  tr_report err i s : err ∈ cl_reqSent c → cl_senders c !! i = Some s →
    dp_lastOp (cl_dispatch c) = Some (sn_op s) → sn_pc s = SReturn err }.

(** The same senders at the same points. *)
Lemma tracked_keep c c' :
  tracked c → cl_senders c' = cl_senders c → same_quits (client_handler c) (client_handler c') →
  same_ids (client_handler c) (client_handler c') →
  (∀ loc, unsubscribing (client_handler c) loc → has_answer (client_handler c) loc → has_answer (client_handler c') loc) →
  (∀ loc id op, unsubscribing (client_handler c) loc → h_ops (client_handler c) !! loc = Some op → op_ids op = [id] →
     h_respWait (client_handler c) !! id = Some loc →
     h_respWait (client_handler c') !! id = Some loc ∨ has_answer (client_handler c') loc ∨
     ∃ i s err, cl_senders c !! i = Some s ∧ sn_op s = loc ∧ sn_pc s = SReturn (Some err)) →
  (∀ err, err ∈ cl_reqSent c' → err ∈ cl_reqSent c ∧ dp_lastOp (cl_dispatch c') = dp_lastOp (cl_dispatch c)) →
  client_inv c → tracked c'.
Proof.
  intros [T1 T2 T3] Hs Hq Hids Ha Hw Hr I. split; rewrite ?Hs.
  - intros sub loc Hsub%Hq. assert (unsubscribing (client_handler c) loc) as Hu by by exists sub.
    destruct (T1 sub loc Hsub) as (i & s & Hi & E & Hc). exists i, s. split; [done|]. split; [done|].
    destruct (sn_pc s) as [| | | |e1|[e|]] eqn:Hp; try (eapply call_ok_handler; [exact Hc|done|by apply Ha|];
      intros id op Ho Hid Hl; destruct (Hw loc id op Hu Ho Hid Hl) as [|[|(j & s' & e2 & Hj & Hj' & Hp')]]; [by auto..|];
      assert (j = i) as -> by (eapply (ci_distinct _ I); [done|done|congruence]); congruence).
    destruct Hc as (op & id & Ho & Hid & _). destruct (Hids loc op Ho) as (op' & Ho' & E'). exists op', id.
    split; [done|]. split; [congruence|]. eauto.
  - intros sub sub' loc H1%Hq H2%Hq. by eapply T2.
  - intros err i s [He ->]%Hr. by apply T3.
Qed.
(** A goroutine moves on, at most to the end of its call. *)
Lemma tracked_move c c' i s pc :
  tracked c → cl_senders c !! i = Some s → cl_senders c' = <[i := mkSender (sn_op s) pc]> (cl_senders c) →
  client_handler c' = client_handler c → dp_lastOp (cl_dispatch c') = dp_lastOp (cl_dispatch c) →
  sn_pc s ≠ SInit ∨ ¬ unsubscribing (client_handler c) (sn_op s) → (∀ e, sn_pc s ≠ SReturn e) →
  (∀ err, err ∈ cl_reqSent c' → err ∈ cl_reqSent c ∨
     pc = SReturn err ∧ ∀ j s', cl_senders c !! j = Some s' → dp_lastOp (cl_dispatch c) = Some (sn_op s') → j = i) →
  tracked c'.
Proof.
  intros [T1 T2 T3] Hi Hs Hh Hl Hpc Hret Hr. split; rewrite ?Hh; [|done|].
  - intros sub loc Hsub. destruct (T1 sub loc Hsub) as (j & s' & Hj & E & Hc). rewrite Hs.
    destruct (decide (j = i)) as [->|Hne].
    + assert (s' = s) as -> by congruence. exists i, (mkSender (sn_op s) pc). rewrite list_lookup_insert_eq by (by eapply lookup_lt_Some).
      split; [done|]. split; [done|]. eapply call_ok_pc; [exact Hc| |done].
      destruct Hpc as [|Hn]; [done|]. destruct Hn. rewrite E. by exists sub.
    + exists j, s'. by rewrite list_lookup_insert_ne.
  - intros err j s' He. rewrite Hs, Hl. intros [[-> ->]|[Hne Hj]]%lookup_insert_cases Hlast; cbn in *.
    + destruct (Hr err He) as [Ho|[-> _]]; [|done]. by destruct (Hret err); eapply T3.
    + destruct (Hr err He) as [Ho|[_ Ho]]; [by eapply T3|]. by destruct Hne; eapply Ho.
Qed.

(** A goroutine comes with a request of its own, perhaps to unsubscribe. *)
Lemma tracked_add c loc op f :
  client_inv c → tracked c → h_ops (client_handler c) !! loc = None →
  f = (λ m, m) ∨ (∃ sub id, op = call_op id ∧ f = <[sub := QuitRunning loc]>) →
  tracked (add_sender loc op (upd_conn (upd_quits f (client_handler c)) c)).
Proof.
  intros I [T1 T2 T3] Hf Hq.
  assert (∀ sub l, f (h_quits (client_handler c)) !! sub = Some (QuitRunning l) →
    h_quits (client_handler c) !! sub = Some (QuitRunning l) ∨
    l = loc ∧ f = <[sub := QuitRunning loc]> ∧ ∃ id, op = call_op id) as Hcase.
  { intros sub l. destruct Hq as [->|(s0 & id & E & ->)]; [by left|].
    intros [[<- [= <-]]|[_ ?]]%lookup_insert_Some; [right; by eauto|by left]. }
  assert (∀ sub, h_quits (client_handler c) !! sub ≠ Some (QuitRunning loc)) as Hfresh.
  { intros sub Hs. destruct (T1 sub loc Hs) as (_ & _ & _ & _ & o & _ & Ho & _). congruence. }
  split; cbn.
  - intros sub l [Hs|(-> & _ & id & ->)]%Hcase.
    + destruct (T1 sub l Hs) as (i & s & Hi & E & Hc). exists i, s. split; [by apply lookup_app_l_Some|]. split; [done|].
      eapply call_ok_handler; [exact Hc|by apply same_ids_alloc| |auto].
      intros (o & Ho & Ha). exists o. cbn. by rewrite lookup_insert_ne by (intros ->; congruence).
    + exists (length (cl_senders c)), (mkSender loc SInit). split; [|split; [done|]].
      * by rewrite lookup_app_r, Nat.sub_diag by lia.
      * exists (call_op id), id. cbn. rewrite lookup_insert_eq. auto.
  - intros s1 s2 l [H1|(-> & E1 & _)]%Hcase [H2|(E2 & E3 & _)]%Hcase; [by eapply T2|subst; by apply Hfresh in H1|by apply Hfresh in H2|].
    rewrite E1 in E3. apply (f_equal (λ g, g ∅ !! s1)) in E3. rewrite lookup_insert_eq in E3.
    destruct (decide (s1 = s2)) as [->|Hne]; [done|]. by rewrite lookup_insert_ne, lookup_empty in E3.
  - intros err i s He [Hi|[_ [_ <-]%list_lookup_singleton_Some]]%lookup_app_Some Hl; [by eapply T3|].
    cbn in Hl. destruct (client_last_heap c loc I Hl). congruence.
Qed.
(** ** A connection that is up *)

(** The loop is at its select and the connection is being read. *)
Definition live c : Prop :=
  cl_running c = true ∧ dp_reading (cl_dispatch c) = true ∧ dp_waiting (cl_dispatch c) = None.

(** Without reconnection, what leaves it up found it up, and was none of the events that
    close it. *)
Lemma closes_to_down err k r d d' :
  closes_to err k r d d' → (∀ cd w, k ≠ AfterReconnect cd w) →
  dp_waiting d' ≠ None ∨ dp_reading d' = false ∨ dp_didClose d' = true.
Proof.
  unfold closes_to. destruct r; [intros ->; by left|]. destruct k as [| |cd w]; cbn [went_on]; [intros ->; auto..|].
  intros _ Hk. by destruct (Hk cd w).
Qed.

Lemma event_live_back ev d d' :
  dispatch_event text ev d = Ret ((), d') → (∀ cd w, ev ≠ EvReconnected cd w) →
  (∀ sub err cd w, dp_waiting d ≠ Some (sub, err, AfterReconnect cd w)) →
  dp_reading d' = true → dp_waiting d' = None → dp_didClose d' = false →
  dp_reading d = true ∧ dp_waiting d = None ∧ ev ≠ EvClose ∧ ∀ err, ev ≠ EvReadErr err.
Proof.
  intros [Hw H0]%dispatch_event_cases Hev Hk D1 D2 D3.
  assert (∀ err k r d0, closes_to err k r d0 d' → (∀ cd w, k ≠ AfterReconnect cd w) → False) as Hdown.
  { intros err k r d0 Hc Hk'. destruct (closes_to_down _ _ _ _ _ Hc Hk') as [|[|]]; congruence. }
  destruct ev as [|msgs batch|err|cd w|op|err|op|]; cbn [dispatch_case] in H0; try (destruct Hw as [|Hw]; [done|]).
  - unfold dispatch_exit in H0. rewrite go_bind_run in H0. cbn [go_modify] in H0. rewrite go_bind_run in H0. cbn [go_get] in H0.
    destruct (dp_reading (set_closing d)); [|injection H0 as <-; done].
    apply conn_close_inv in H0 as (r & h & _ & Hc). by destruct (Hdown _ _ _ _ Hc).
  - destruct batch; [|destruct msgs; [done|]]; apply on_conn_inv in H0 as (h & _ & ->); by split_and!.
  - rewrite go_bind_run in H0. cbn [go_get] in H0.
    apply conn_close_inv in H0 as (r & h & _ & Hc). by destruct (Hdown _ _ _ _ Hc).
  - by destruct (Hev cd w).
  - rewrite go_bind_run in H0. cbn [go_modify] in H0. apply on_conn_inv in H0 as (h & _ & ->). by split_and!.
  - apply go_bind_inv in H0 as (? & d1 & E1 & E2). injection E2 as <-. destruct err; [|injection E1 as _ <-; by split_and!].
    unfold with_lastOp in E1. destruct (dp_lastOp d); [|done]. apply on_conn_inv in E1 as (h & _ & ->). by split_and!.
  - apply on_conn_inv in H0 as (h & _ & ->). by split_and!.
  - apply once_done_inv in H0. destruct (dp_waiting d) as [[[sub err] k]|] eqn:E; [|subst; by split_and!].
    destruct H0 as (r & h & _ & Hc). destruct (Hdown _ _ _ _ Hc). intros cd w ->. by apply (Hk sub err cd w).
Qed.

Lemma live_back c c' : quit_inv c → plain_inv c → client_step c c' → live c' → live c.
Proof.
  intros Q P Hs L. assert (cl_running c = true) as Hrun.
  { destruct (quit_inv_step c c' Hs Q) as [_ Hr]. destruct (cl_running c); [done|]. destruct L as [L _]. by rewrite Hr in L. }
  assert (∀ ev d c', quit_inv c' → live c' → cl_dispatch c' = d → (∀ cd w, ev ≠ EvReconnected cd w) →
    dispatch_event text ev (cl_dispatch c) = Ret ((), d) → live c) as Hev.
  { intros ev d c2 [Q2 _ _] (L1 & L2 & L3) Hd Hne He. rewrite Hd, L1 in Q2. rewrite Hd in L2, L3.
    destruct (event_live_back ev _ _ He Hne (pi_waiting _ P) L2 L3 Q2) as (? & ? & _). done. }
  pose proof (quit_inv_step c c' Hs Q) as [Q' _].
  destruct Hs as [c loc op Hf Hq|c loc id sub h Hf Hq|c loc sub h Hq Hret|c i s c' Hi Hs|c err rest d Hr Hb Hd
    |c msgs batch d Hr Hrd Hd|c err d Hr Hrd Hd|c loc d Hr Hu Hd|c d Hr Hd|c d Hr Hw Hd|c i h Hc|c loc r h Hu Hc];
    try (eapply Hev; [exact Q'|exact L| | |exact Hd]; [first [apply leave_loop_fields|done]|done]); try exact L.
  destruct Hs as [d Hp Hr Ha Hd|err Hp Hu|Hp _|retry conn Hp Hw|retry Hp Hw Hr|retry err Hp Hw Hr|retry nc w Hp Hw Hr
    |retry nc w d Hp Hr Hd|retry nc w Hp Hr|retry Hp|retry err Hp|err Hp Hlen]; try exact L.
  - by eapply Hev; [exact Q'|exact L| | |exact Hd].
  - by eapply pi_sender in Hp.
Qed.
Lemma own_ids_ne c l l' op op' id :
  own_ids c → h_ops (client_handler c) !! l = Some op → h_ops (client_handler c) !! l' = Some op' → l ≠ l' →
  op_ids op = [id] → id ∉ op_ids op'.
Proof. intros Ho H1 H2 Hne E Hin. apply Hne. eapply (Ho l l' op op' id); [done|done|rewrite E; by left|done]. Qed.

(** The loop takes a request. *)
Lemma tracked_init c i s d :
  client_inv c → tracked c → own_ids c → cl_senders c !! i = Some s → sn_pc s = SInit →
  dp_accept (cl_dispatch c) = true → dp_waiting (cl_dispatch c) = None →
  dispatch_event text (EvReqInit (sn_op s)) (cl_dispatch c) = Ret ((), d) →
  tracked (upd_sender i s (SWrite false) (upd_dispatch d c)).
Proof.
  intros I [T1 T2 T3] Hown Hi Hp Ha Hwt Hd. destruct (dispatch_event_frame text idgen _ _ _ (ci_subs _ I) Hd) as [F1 F2 F3 F4 F5].
  apply dispatch_event_cases in Hd as [_ Hd]. cbn [dispatch_case] in Hd. rewrite go_bind_run in Hd. cbn [go_modify] in Hd.
  apply on_conn_inv in Hd as (h & E & ->). cbn in E, F1, F2, F3, F4, F5.
  destruct (addRequestOp_frame _ _ _ _ E) as (A1 & A2 & A3 & A4). destruct (ci_heap _ I i s Hi) as [op Hop].
  assert (cl_reqSent c = []) as Hsent.
  { destruct (ci_lock _ I) as (L1 & _). rewrite Ha in L1. cbn in L1. destruct (cl_reqSent c); [done|cbn in L1; lia]. }
  split; cbn.
  - intros sub loc Hsub%F5. destruct (T1 sub loc Hsub) as (j & s' & Hj & El & o & id & Ho & Hid & Hc).
    destruct (decide (j = i)) as [->|Hne].
    + assert (s' = s) as -> by congruence. exists i, (mkSender (sn_op s) (SWrite false)).
      rewrite list_lookup_insert_eq by (by eapply lookup_lt_Some). split; [done|]. split; [done|].
      exists o, id. rewrite A1. split; [done|]. split; [done|]. right. right. left. rewrite <-El.
      apply (addRequestOp_ids _ op _ _ _ id Hop E). assert (op = o) as -> by congruence. rewrite Hid. by left.
    + exists j, s'. rewrite list_lookup_insert_ne by done. split; [done|]. split; [done|].
      eapply call_ok_handler; [by exists o, id|done| |].
      * by intros (o' & Ho' & ?); exists o'; rewrite A1.
      * intros id' o' Ho' Hid' Hl. left. rewrite <-Hl. apply (addRequestOp_ids _ op _ _ _ id' Hop E).
        eapply (own_ids_ne c loc (sn_op s) o' op); [done..| |done]. intros ->.
        destruct Hne. by eapply (ci_distinct _ I).
  - intros sub sub' loc H1%F5 H2%F5. by eapply T2.
  - rewrite Hsent. by intros err j s' ?%elem_of_nil.
Qed.

(** And its report. *)
Lemma tracked_sent c err rest d :
  client_inv c → tracked c → own_ids c → cl_reqSent c = err :: rest →
  dispatch_event text (EvReqSent err) (cl_dispatch c) = Ret ((), d) → tracked (set_reqSent rest (upd_dispatch d c)).
Proof.
  intros I T Hown Hsent Hd. pose proof T as [T1 T2 T3].
  destruct (dispatch_event_frame text idgen _ _ _ (ci_subs _ I) Hd) as [F1 F2 F3 F4 F5].
  assert (rest = []) as ->.
  { destruct (ci_lock _ I) as (L1 & _). rewrite Hsent in L1. cbn in L1. destruct rest; [done|cbn in L1; lia]. }
  apply dispatch_event_cases in Hd as [_ Hd]. cbn [dispatch_case] in Hd. apply go_bind_inv in Hd as (? & d1 & E1 & E2). injection E2 as <-.
  assert (h_ops (dp_conn d1) = h_ops (client_handler c)) as Hops.
  { destruct err; [|injection E1 as _ <-; done]. unfold with_lastOp in E1. destruct (dp_lastOp _); [|done].
    apply on_conn_inv in E1 as (h & E & ->). unfold removeRequestOp in E. destruct (_ !! _); [|done]. by injection E as _ <-. }
  apply (tracked_keep c); [done|done|exact F5|exact F2| | |by intros e ?%elem_of_nil|done].
  - intros loc _ (o & Ho & Ha). exists o. cbn. by rewrite Hops.
  - intros loc id op Hu Ho Hid Hl. destruct err as [e|]; [|injection E1 as _ <-; by left].
    unfold with_lastOp in E1. destruct (dp_lastOp _) as [l|] eqn:El; [|done]. apply on_conn_inv in E1 as (h & E & ->).
    destruct (client_last_heap c l I El) as [op' Hop']. destruct (decide (loc = l)) as [->|Hne].
    + right. right. destruct Hu as [sub Hsub]. destruct (T1 sub l Hsub) as (i & s & Hi & Es & _). exists i, s, e.
      split; [done|]. split; [done|]. eapply T3; [rewrite Hsent; by left|done|congruence].
    + left. cbn. rewrite (removeRequestOp_ids l op' _ _ _ id Hop' E); [done|]. by apply (own_ids_ne c loc l op op' id).
Qed.

Lemma tracked_timeout c loc d :
  client_inv c → tracked c → own_ids c → ¬ unsubscribing (client_handler c) loc →
  dispatch_event text (EvReqTimeout loc) (cl_dispatch c) = Ret ((), d) → tracked (upd_dispatch d c).
Proof.
  intros I T Hown Hn Hd. destruct (dispatch_event_frame text idgen _ _ _ (ci_subs _ I) Hd) as [F1 F2 F3 F4 F5].
  apply dispatch_event_cases in Hd as [_ Hd]. cbn [dispatch_case] in Hd. apply on_conn_inv in Hd as (h & E & ->).
  pose proof E as E'. unfold removeRequestOp in E'. destruct (h_ops (client_handler c) !! loc) as [op'|] eqn:Hop'; [|done].
  injection E' as <-. eapply (tracked_keep c); [done|done|exact F5|exact F2|auto| |auto|done].
  intros l id op Hu Ho Hid Hl. left. etrans; [|exact Hl].
  apply (removeRequestOp_ids loc op' (client_handler c) () _ id Hop' E).
  apply (own_ids_ne c l loc op op' id); [done..| |done]. by intros ->.
Qed.
(** Receiving an answer that is not for an unsubscribing goroutine, and serving calls. *)
Lemma tracked_only c h loc :
  client_inv c → tracked c → only loc (client_handler c) h → ¬ unsubscribing (client_handler c) loc →
  tracked (upd_conn h c).
Proof.
  intros I T (O1 & O2 & O3 & O4 & O5) Hn.
  apply (tracked_keep c); [done|done|by apply same_quits_refl|exact O3| | |auto|done].
  - intros l Hu (o & Ho & Ha). exists o. split; [|done]. cbn. rewrite O2; [done|]. by intros ->.
  - intros l id op Hu Ho Hid Hl. left. cbn. by rewrite O1.
Qed.

Lemma tracked_unsubscribed c sub loc h :
  tracked c → only loc (client_handler c) h → h_quits (client_handler c) !! sub = Some (QuitRunning loc) →
  tracked (upd_conn (upd_quits <[sub := QuitDone]> h) c).
Proof.
  intros [T1 T2 T3] (O1 & O2 & O3 & O4 & O5) Hq.
  assert (∀ s l, h_quits (upd_quits <[sub := QuitDone]> h) !! s = Some (QuitRunning l) →
    h_quits (client_handler c) !! s = Some (QuitRunning l) ∧ l ≠ loc) as Hold.
  { cbn. rewrite O5. intros s l [[_ [=]]|[Hne Hs]]%lookup_insert_Some. split; [done|]. intros ->.
    destruct Hne. by eapply T2. }
  split; [|by intros s s' l [? _]%Hold [? _]%Hold; eapply T2|done].
  intros s l [Hs Hne]%Hold. destruct (T1 s l Hs) as (i & sd & Hi & E & Hc). exists i, sd. split; [done|]. split; [done|].
  eapply call_ok_handler; [exact Hc|exact O3| |].
  - intros (o & Ho & Ha). exists o. split; [|done]. cbn. by rewrite O2.
  - intros id op Ho Hid Hl. left. cbn. by rewrite O1.
Qed.

Lemma tracked_send c i s c' :
  client_inv c → plain_inv c → quit_inv c → live c → own_ids c → tracked c →
  cl_senders c !! i = Some s → send_step text i s c c' → tracked c'.
Proof.
  intros I P Q L Hown T Hi Hs. destruct (ci_lock _ I) as (L1 & L2 & L3). specialize (L3 i s Hi).
  assert (∀ e, e ∈ cl_reqSent c → e ∈ cl_reqSent c ∨ e ∈ @nil (option gerror)) as Hsame by auto.
  destruct Hs as [d Hp Hr Ha Hd|err Hp Hu|Hp Hcl|retry conn Hp Hw|retry Hp Hw Hr|retry err Hp Hw Hr|retry nc w Hp Hw Hr
    |retry nc w d Hp Hr Hd|retry nc w Hp Hr|retry Hp|retry err Hp|err Hp Hlen];
    try (eapply tracked_move; [exact T|exact Hi|reflexivity|done|done|left; congruence|congruence|auto]; fail).
  - by eapply tracked_init; [..|apply L|].
  - eapply tracked_move; [exact T|exact Hi|reflexivity|done|done|by right|congruence|auto].
  - destruct Q as [_ Q _], L as (R & _ & Hw). rewrite Hcl, R in Q. unfold leaving in Q. by rewrite Hw in Q.
  - by eapply pi_sender in Hp.
  - eapply tracked_move; [exact T|exact Hi|reflexivity|done|done|left; congruence|congruence|].
    cbn. intros e [He|He]%elem_of_app; [by left|right]. apply list_elem_of_singleton in He as ->. split; [done|].
    intros j s' Hj Hl. eapply (ci_distinct _ I); [done|done|]. unfold holding in L3. rewrite Hp in L3. rewrite L3 in Hl by done. congruence.
Qed.

Lemma tracked_step c c' :
  client_inv c → plain_inv c → quit_inv c → live c → live c' → own_ids c → client_step c c' → tracked c → tracked c'.
Proof.
  intros I P Q L L' Hown Hs T.
  assert (∀ ev d, dispatch_event text ev (cl_dispatch c) = Ret ((), d) → cl_dispatch c' = d →
    (∀ cd w, ev ≠ EvReconnected cd w) → quit_inv c' → ev ≠ EvClose ∧ ∀ err, ev ≠ EvReadErr err) as Hev.
  { intros ev d Hd E Hne [Q' _ _]. destruct L' as (R1 & R2 & R3). rewrite E in Q', R2, R3. rewrite R1 in Q'.
    by destruct (event_live_back ev _ _ Hd Hne (pi_waiting _ P) R2 R3 Q') as (_ & _ & ?). }
  pose proof (quit_inv_step c c' Hs Q) as [Q' _].
  destruct Hs as [c loc op Hf Hq|c loc id sub h Hf Hq|c loc sub h Hq Hret|c i s c' Hi Hs|c err rest d Hr Hb Hd
    |c msgs batch d Hr Hrd Hd|c err d Hr Hrd Hd|c loc d Hr Hu Hd|c d Hr Hd|c d Hr Hw Hd|c i h Hc|c loc r h Hu Hc].
  - pose proof (tracked_add c loc op (λ m, m) I T Hf (or_introl eq_refl)) as Ha. by rewrite upd_quits_id in Ha.
  - apply tracked_add; [done..|]. right. by exists sub, id.
  - eapply tracked_unsubscribed; [done|by eapply call_returned_frame|done].
  - by eapply tracked_send.
  - by eapply tracked_sent.
  - destruct (dispatch_event_frame text idgen _ _ _ (ci_subs _ I) Hd) as [F1 F2 F3 F4 F5].
    apply dispatch_event_cases in Hd as [_ Hd]. cbn [dispatch_case] in Hd.
    assert (keeps_answers (client_handler c) (dp_conn d)) as [K1 K2].
    { destruct (pi_inv _ P) as [A _]. destruct batch; [|destruct msgs; [done|]]; apply on_conn_inv in Hd as (h & E & ->);
        [by eapply handleBatch_answers|by eapply handleMsg_answers]. }
    assert (dp_lastOp d = dp_lastOp (cl_dispatch c)) as El.
    { destruct batch; [|destruct msgs; [done|]]; by apply on_conn_inv in Hd as (h & E & ->). }
    apply (tracked_keep c); [done|done|exact F5|exact F2|auto| |auto|done].
    intros loc id op _ Ho Hid Hl. destruct (K2 id loc Hl); auto.
  - by destruct (Hev _ _ Hd eq_refl ltac:(done) Q') as [_ Hne]; destruct (Hne err).
  - by eapply tracked_timeout.
  - destruct (leave_loop_fields d c) as (E & _). by destruct (Hev _ _ Hd E ltac:(done) Q').
  - by destruct L as (_ & _ & ?).
  - destruct (run_call_same decode_as Zero text as_ID idgen _ _ _ _ (ci_subs _ I) Hc) as (E1 & E2 & E3 & E4 & _).
    destruct (run_call_frame decode_as Zero text as_ID idgen _ _ _ _ (ci_subs _ I) Hc) as [[F1 F2 F3 F5] F4].
    apply (tracked_keep c); [done|done|exact F5|exact F3| | |auto|done]; cbn.
    + intros loc _ (o & Ho & Ha). exists o. cbn. by rewrite E2.
    + intros loc id op _ Ho Hid Hl. left. cbn. by rewrite E1.
  - eapply tracked_only; [done|done|by eapply on_resp_only|done].
Qed.

(** At every point of the life of a client that is not reconnected, while its connection
    is up, an unsubscribing goroutine can come to its end. *)
Lemma tracked_reachable c :
  creachable c → cl_reconnectFunc c = false → live c → own_ids c → tracked c.
Proof.
  intros Hc Hr.
  assert (∀ c, creachable c → cl_reconnectFunc c = false → client_inv c ∧ plain_inv c ∧ quit_inv c) as Hinv.
  { intros c0 H0 R0. destruct (plain_reachable decode_as Zero text as_ID idgen c0 H0 R0). split_and!; [done..|by apply quit_reachable]. }
  destruct Hc as (codec & w & reg & rc & Hrtc). revert Hr.
  eapply (rtc_ind_r (λ c, cl_reconnectFunc c = false → live c → own_ids c → tracked c)); [..|exact Hrtc].
  - intros _ _ _. split; cbn; [done|done|]. by intros err i s ?%elem_of_nil.
  - intros x y Hx Hs IH Hy L' Hown'. assert (cl_reconnectFunc x = false) as Rx.
    { rewrite <-Hy. symmetry. by eapply step_reconnectFunc. }
    assert (creachable x) as Hcx by by exists codec, w, reg, rc. destruct (Hinv x Hcx Rx) as (I & P & Q).
    assert (live x) as L by by eapply live_back. assert (own_ids x) as Hown by by eapply own_ids_step.
    eapply tracked_step; [done..|]. by apply IH.
Qed.
(** ** Closing comes to its end *)

(** The loop waits in its deferred function, and every goroutine it may have to wait for
    can come to its end. *)
Record winding c : Prop := {
  wd_client : client_inv c;
  wd_plain : plain_inv c;
  wd_quit : quit_inv c;
  wd_waiting : ∃ sub, dp_waiting (cl_dispatch c) = Some (sub, EVar ErrClientQuit, AfterExit);
  wd_calls : h_callWG (client_handler c) = [];
  wd_wait : h_respWait (client_handler c) = ∅;
  wd_ends sub loc : h_quits (client_handler c) !! sub = Some (QuitRunning loc) →
    ∃ i s op, cl_senders c !! i = Some s ∧ sn_op s = loc ∧ h_ops (client_handler c) !! loc = Some op ∧
      (sn_pc s = SInit ∨ (∃ e, sn_pc s = SReturn (Some e)) ∨ answered_op op);
  wd_inj sub sub' loc : h_quits (client_handler c) !! sub = Some (QuitRunning loc) →
    h_quits (client_handler c) !! sub' = Some (QuitRunning loc) → sub = sub' }.

(** The goroutine has written its request and reported. *)
Record returned i (r : option gerror) c c' : Prop := {
  rd_steps : rtc client_step c c';
  rd_dispatch : cl_dispatch c' = cl_dispatch c;
  rd_running : cl_running c' = cl_running c;
  rd_func : cl_reconnectFunc c' = cl_reconnectFunc c;
  rd_sender : ∃ s, cl_senders c !! i = Some s ∧ cl_senders c' = <[i := mkSender (sn_op s) (SReturn r)]> (cl_senders c) }.

Lemma returned_step i s pc r c c1 c' :
  cl_senders c !! i = Some s → send_step text i s c c1 → cl_dispatch c1 = cl_dispatch c → cl_running c1 = cl_running c →
  cl_reconnectFunc c1 = cl_reconnectFunc c → cl_senders c1 = <[i := mkSender (sn_op s) pc]> (cl_senders c) →
  returned i r c1 c' → returned i r c c'.
Proof.
  intros Hi Hs E1 E2 E3 E4 [R1 R2 R3 R4 (s1 & Hs1 & R5)]. split; [|congruence..|].
  - eapply rtc_l; [by eapply cl_send|exact R1].
  - exists s. split; [done|]. rewrite E4 in Hs1, R5. rewrite list_lookup_insert_eq in Hs1 by (by eapply lookup_lt_Some).
    injection Hs1 as <-. rewrite R5. apply list_insert_insert_eq.
Qed.

Lemma returns_report c i s e :
  client_inv c → cl_senders c !! i = Some s → sn_pc s = SReport e → ∃ c' r, returned i r c c'.
Proof.
  intros I Hi Hp. destruct (ci_lock _ I) as (L1 & _).
  pose proof (holders_pos (cl_senders c) s ltac:(by eapply list_elem_of_lookup_2) ltac:(unfold holding; by rewrite Hp)) as Hh.
  exists (upd_sender i s (SReturn e) (set_reqSent (cl_reqSent c ++ [e]) c)), e. split; [|done..|by exists s].
  apply rtc_once. eapply cl_send; [exact Hi|]. apply ss_report; [done|]. lia.
Qed.

Lemma returns_emit c i s b :
  client_inv c → cl_senders c !! i = Some s → sn_pc s = SEmit b → ∃ c' r, returned i r c c'.
Proof.
  intros I Hi Hp. pose proof (ss_emitted text i s c b Hp) as Hs.
  assert (client_inv (upd_sender i s (SReport None) c)) as I1.
  { eapply (client_inv_step decode_as Zero text as_ID idgen c); [|done]. by eapply cl_send. }
  destruct (returns_report _ i (mkSender (sn_op s) (SReport None)) None I1) as (c' & r & R); [|done|].
  { cbn. rewrite list_lookup_insert_eq; [done|by eapply lookup_lt_Some]. }
  exists c', r. by eapply returned_step.
Qed.

Lemma returns_write c i s b :
  client_inv c → cl_reconnectFunc c = false → cl_senders c !! i = Some s → sn_pc s = SWrite b → ∃ c' r, returned i r c c'.
Proof.
  intros I Hf Hi Hp.
  assert (∀ pc c1, send_step text i s c c1 → cl_senders c1 = <[i := mkSender (sn_op s) pc]> (cl_senders c) →
    client_inv c1 ∧ cl_senders c1 !! i = Some (mkSender (sn_op s) pc)) as Hnext.
  { intros pc c1 Hs E. split; [eapply (client_inv_step decode_as Zero text as_ID idgen c); [by eapply cl_send|done]|].
    rewrite E. rewrite list_lookup_insert_eq; [done|by eapply lookup_lt_Some]. }
  destruct (cl_writeConn c) as [conn|] eqn:Ew.
  - pose proof (ss_have_conn text i s c b conn Hp Ew) as Hs. destruct (Hnext (SEmit b) _ Hs eq_refl) as [I1 H1].
    destruct (returns_emit _ i _ b I1 H1 eq_refl) as (c' & r & R). exists c', r. by eapply returned_step.
  - pose proof (ss_dead text i s c b Hp Ew Hf) as Hs. destruct (Hnext (SReport (Some (EVar errDead))) _ Hs eq_refl) as [I1 H1].
    destruct (returns_report _ i _ _ I1 H1 eq_refl) as (c' & r & R). exists c', r. by eapply returned_step.
Qed.

(** Once [closing] is closed, a goroutine that has not offered its request gives up, and
    any other comes to the end of [send]. *)
Lemma returns c i s :
  client_inv c → plain_inv c → dp_closing (cl_dispatch c) = true → cl_senders c !! i = Some s →
  ∃ c' r, returned i r c c' ∧ (r = None → sn_pc s ≠ SInit ∧ ∀ e, sn_pc s ≠ SReturn (Some e)).
Proof.
  intros I P Hcl Hi. destruct (sn_pc s) as [|b|b nc w|b|e|e] eqn:Hp.
  - exists (upd_sender i s (SReturn (Some (EVar ErrClientQuit))) c), (Some (EVar ErrClientQuit)). split; [|done].
    split; [|done..|by exists s]. apply rtc_once. eapply cl_send; [exact Hi|]. by apply ss_closing.
  - destruct (returns_write c i s b I (pi_reconnect _ P) Hi Hp) as (c' & r & R). by exists c', r.
  - by eapply pi_sender in Hp.
  - destruct (returns_emit c i s b I Hi Hp) as (c' & r & R). by exists c', r.
  - destruct (returns_report c i s e I Hi Hp) as (c' & r & R). by exists c', r.
  - exists c, e. split; [|by intros ->]. split; [apply rtc_refl|done..|]. exists s. split; [done|].
    rewrite list_insert_id; [done|]. rewrite Hi. destruct s; cbn in Hp; by subst.
Qed.
Lemma step_rtc (P : client → Prop) c c' :
  (∀ c c', client_step c c' → P c → P c') → rtc client_step c c' → P c → P c'.
Proof. intros Hs Hr. induction Hr; eauto. Qed.

Lemma winding_invs c c' :
  client_inv c → plain_inv c → quit_inv c → rtc client_step c c' → client_inv c' ∧ plain_inv c' ∧ quit_inv c'.
Proof.
  intros I P Q Hr. eapply (step_rtc (λ c, client_inv c ∧ plain_inv c ∧ quit_inv c)); [|done|done].
  intros c1 c2 Hs (I1 & P1 & Q1). split_and!; [by eapply client_inv_step|by eapply plain_inv_step|].
  by apply (quit_inv_step c1).
Qed.

(** What receiving an answer leaves alone. *)
Lemma on_resp_rest {A} loc (f : go (chan jsonrpcMessage) A) (h : RpcHandler.handler W V) a h' :
  on_resp loc f h = Ret (a, h') → h_callWG h' = h_callWG h ∧ h_clientSubs h' = h_clientSubs h.
Proof.
  unfold on_resp. destruct (h_ops h !! loc); [|done]. destruct (f _) as [[? ?]| |]; cbn; [|done..]. by intros [= _ <-].
Qed.
Lemma recv_answered (h : RpcHandler.handler W V) loc op :
  h_ops h !! loc = Some op → answered_op op → ∃ r h', on_resp loc chan_recv h = Ret (r, h').
Proof.
  intros Ho Ha. unfold on_resp, chan_recv. rewrite Ho. destruct (ch_buf (op_resp op)) as [|x l] eqn:Eb.
  - destruct Ha as [Ha| ->]; [done|]. cbn. eauto.
  - cbn. eauto.
Qed.

(** The goroutine that is unsubscribing comes to its end, and the others stay as they are. *)
Lemma release c sub loc :
  winding c → h_quits (client_handler c) !! sub = Some (QuitRunning loc) →
  ∃ c', rtc client_step c c' ∧ winding c' ∧ h_quits (client_handler c') !! sub = Some QuitDone ∧
    dp_waiting (cl_dispatch c') = dp_waiting (cl_dispatch c) ∧ dp_codec (cl_dispatch c') = dp_codec (cl_dispatch c) ∧
    h_clientSubs (client_handler c') = h_clientSubs (client_handler c).
Proof.
  intros [I P Q [s0 Hw] Hwg Hrw He Hinj] Hq. destruct (He sub loc Hq) as (i & s & op & Hi & El & Ho & Hc).
  assert (dp_closing (cl_dispatch c) = true) as Hcl.
  { rewrite (qk_closing _ _ Q). unfold leaving. by rewrite Hw, orb_true_r. }
  destruct (returns c i s I P Hcl Hi) as (c1 & r & [R1 R2 R3 R4 (s1 & Hs1 & R5)] & Hr).
  assert (s1 = s) as -> by congruence.
  assert (∃ h, call_returned c1 loc h ∧ only loc (client_handler c) h ∧ h_callWG h = [] ∧
    h_clientSubs h = h_clientSubs (client_handler c)) as (h & Hret & Hon & Hwg' & Hsubs).
  { assert (cl_senders c1 !! i = Some (mkSender (sn_op s) (SReturn r))) as Hi1.
    { rewrite R5, list_lookup_insert_eq; [done|by eapply lookup_lt_Some]. }
    unfold call_returned. rewrite R2. destruct r as [e|].
    - exists (client_handler c). split_and!; [|by apply only_refl|done..].
      exists i, (mkSender (sn_op s) (SReturn (Some e))). split_and!; [done|done|]. left. eauto.
    - destruct (Hr eq_refl) as [Hn1 Hn2]. assert (answered_op op) as Ha by (destruct Hc as [|[[e ?]|]]; [done|by destruct (Hn2 e)|done]).
      destruct (recv_answered _ _ _ Ho Ha) as (x & h & Hx). exists h. destruct (on_resp_rest _ _ _ _ _ Hx) as [-> ->].
      split_and!; [|by eapply on_resp_only|done..].
      exists i, (mkSender (sn_op s) (SReturn None)). split_and!; [done|done|]. right. eauto. }
  set (c2 := upd_conn (upd_quits <[sub := QuitDone]> h) c1).
  assert (rtc client_step c c2) as Hrun.
  { eapply rtc_r; [exact R1|]. eapply cl_unsubscribed; [by rewrite R2|done]. }
  destruct (winding_invs c c2 I P Q Hrun) as (I2 & P2 & Q2). destruct Hon as (O1 & O2 & O3 & O4 & O5).
  assert (∀ s l, h_quits (client_handler c2) !! s = Some (QuitRunning l) →
    h_quits (client_handler c) !! s = Some (QuitRunning l) ∧ l ≠ loc) as Hold.
  { cbn. rewrite O5. intros s2 l [[_ [=]]|[Hne Hs2]]%lookup_insert_Some. split; [done|]. intros ->.
    destruct Hne. by eapply Hinj. }
  exists c2. split; [done|]. split; [split; try done|].
  - exists s0. cbn. by rewrite R2.
  - cbn. by rewrite O1.
  - intros s2 l [Hs2 Hne]%Hold. destruct (He s2 l Hs2) as (j & sd & o & Hj & Ej & Hoj & Hcj). exists j, sd, o.
    cbn. rewrite R5, list_lookup_insert_ne, O2 by (done || (intros ->; congruence)). done.
  - intros s2 s3 l [H2 _]%Hold [H3 _]%Hold. by eapply Hinj.
  - split_and!; cbn; [apply lookup_insert_eq|by rewrite R2..|done].
Qed.

(** Where closing has ended. *)
Record closed_down (codec : nat) c : Prop := {
  cd_running : cl_running c = false;
  cd_closing : dp_closing (cl_dispatch c) = true;
  cd_didClose : dp_didClose (cl_dispatch c) = true;
  cd_codec : codec ∈ dp_closedCodecs (cl_dispatch c);
  cd_reader : dp_reader (cl_dispatch c) = None;
  cd_wait : h_respWait (client_handler c) = ∅;
  cd_clientSubs : h_clientSubs (client_handler c) = ∅;
  cd_serverSubs : h_serverSubs (client_handler c) = ∅ }.
(** The loop goes on from a subscription that is done: to the next one that somebody is
    quitting, or to its end. *)
Lemma go_on c sub :
  winding c → dp_waiting (cl_dispatch c) = Some (sub, EVar ErrClientQuit, AfterExit) → ¬ quitting (client_handler c) sub →
  ∃ c', client_step c c' ∧ (closed_down (dp_codec (cl_dispatch c)) c' ∨
    winding c' ∧ dp_codec (cl_dispatch c') = dp_codec (cl_dispatch c) ∧
    (size (h_clientSubs (client_handler c')) < size (h_clientSubs (client_handler c)))%nat).
Proof.
  intros [I P Q _ Hwg Hrw He Hinj] Hw Hnq.
  assert (cl_running c = true) as Hrun by (apply (qk_waiting _ _ Q); by rewrite Hw).
  destruct (resume_close_inv idgen (EVar ErrClientQuit) sub (client_handler c) (pi_inv _ P))
    as [[Hq _]|[[Hne _]|(r & h & E & _ & _ & _ & Hsubs & Hw' & Hops)]]; [done|done|].
  destruct (resume_close_frame idgen _ _ _ _ _ (ci_subs _ I) E) as (_ & _ & Hq & _ & Hwg').
  assert (∀ d, finish_close (EVar ErrClientQuit) AfterExit r (set_dp_conn h (cl_dispatch c)) = Ret ((), d) →
    client_step c (leave_loop d c)) as Hstep.
  { intros d Hd. apply cl_once_done; [done|by rewrite Hw|]. unfold dispatch_event. rewrite go_bind_run. cbn [go_get]. rewrite Hw.
    unfold once_done. rewrite go_bind_run. cbn [go_get]. rewrite Hw. rewrite go_bind_run. unfold on_conn. by rewrite E. }
  destruct r as [s2|]; (eexists; split; [apply Hstep; reflexivity|]); cbn.
  - right. set (c' := leave_loop _ c). assert (client_step c c') as Hs by by apply Hstep.
    destruct (winding_invs c c' I P Q (rtc_once _ _ Hs)) as (I' & P' & Q').
    destruct (leave_loop_fields (set_waiting (Some (s2, EVar ErrClientQuit, AfterExit)) (set_dp_conn h (cl_dispatch c))) c) as (F1 & F2 & _).
    fold c' in F1, F2. split; [split; try done|split]; rewrite ?F1, ?F2; cbn; try done.
    + by exists s2.
    + congruence.
    + congruence.
    + intros s3 l Hs3%Hq. destruct (He s3 l Hs3) as (i & sd & o & H1 & H2 & H3 & H4). exists i, sd, o. by rewrite Hops.
    + intros s3 s4 l H3%Hq H4%Hq. by eapply Hinj.
  - left. set (d := set_didClose _). destruct (leave_loop_fields d c) as (F1 & _ & _ & _ & _ & F6).
    destruct Hsubs as [C1 C2]. split; rewrite ?F1, ?F6; unfold d; cbn; rewrite ?andb_false_r; try done.
    + rewrite (qk_closing _ _ Q). unfold leaving. by rewrite Hw, orb_true_r.
    + by left.
    + congruence.
Qed.

Lemma wind_up n c :
  winding c → (size (h_clientSubs (client_handler c)) < n)%nat →
  ∃ c', rtc client_step c c' ∧ closed_down (dp_codec (cl_dispatch c)) c'.
Proof.
  revert c. induction n as [|n IH]; intros c Wd Hn; [lia|]. destruct (wd_waiting _ Wd) as [sub Hw].
  assert (∃ c1, rtc client_step c c1 ∧ winding c1 ∧ ¬ quitting (client_handler c1) sub ∧
    dp_waiting (cl_dispatch c1) = dp_waiting (cl_dispatch c) ∧ dp_codec (cl_dispatch c1) = dp_codec (cl_dispatch c) ∧
    h_clientSubs (client_handler c1) = h_clientSubs (client_handler c)) as (c1 & R1 & W1 & N1 & E1 & E2 & E3).
  { destruct (h_quits (client_handler c) !! sub) as [[loc|]|] eqn:Hq.
    - destruct (release c sub loc Wd Hq) as (c1 & R & W1 & D & E). exists c1. split_and!; try done; [|apply E..].
      intros [l Hl]. congruence.
    - exists c. split_and!; [apply rtc_refl|done| |done..]. intros [l Hl]. congruence.
    - exists c. split_and!; [apply rtc_refl|done| |done..]. intros [l Hl]. congruence. }
  destruct (go_on c1 sub W1 ltac:(by rewrite E1) N1) as (c2 & S2 & [C2|(W2 & D2 & Hlt)]).
  - exists c2. split; [by eapply rtc_r|]. by rewrite <-E2.
  - destruct (IH c2 W2) as (c3 & R3 & C3); [rewrite E3 in Hlt; lia|]. exists c3.
    split; [etrans; [exact R1|by eapply rtc_l]|]. by rewrite <-E2, <-D2.
Qed.
(** ** The close event *)

(** [close] on a handler without running calls: what happens to its requests. *)
Lemma close_handler_ops err inflight (h : RpcHandler.handler W V) :
  inv h → h_callWG h = [] →
  ∃ r h', close_handler err inflight h = Ret (r, h') ∧ h_respWait h' = ∅ ∧ h_callWG h' = [] ∧
    (r = None → h_clientSubs h' = ∅ ∧ h_serverSubs h' = ∅) ∧
    ((∀ id sub, h_clientSubs h !! id = Some sub → ¬ quitting h sub) → r = None) ∧
    ∀ loc, h_ops h' !! loc =
      if decide (loc ∈ (map_to_list (h_respWait h)).*2 ∧ Some loc ≠ inflight)
      then closed_op <$> (failed_op (Some err) <$> h_ops h !! loc) else h_ops h !! loc.
Proof.
  intros [A B] Hwg. destruct (cancelAllRequests_run idgen err inflight h A) as (r & h1 & E & [R C1 C2 (quit & _ & _ & _ & St)]).
  assert (inv h1) as I1.
  { split; [|by eapply same_rest_subs_ok]. intros id loc Hl. by rewrite C1 in Hl. }
  destruct R as (_ & _ & _ & R4 & _).
  destruct (close_after_inv err r h1 I1) as [(Hne & _)|(h2 & E2 & _ & D1 & _ & D2 & D3 & D4)]; [by rewrite R4, Hwg in Hne|].
  destruct (close_after_frame _ _ _ _ _ (proj2 I1) E2) as (_ & _ & _ & _ & _ & _ & D5).
  exists r, h2. unfold close_handler. rewrite go_bind_run, E, E2, D2, D5, R4, Hwg, D3. split_and!; try done.
  - intros ->. split; [|by apply D4]. rewrite D1. destruct St as [_ ->]. apply foldl_delete_all, map_to_list_keys.
  - intros Hf. eapply quit_stands_free; [exact St|]. intros [id sub] He%elem_of_map_to_list. by eapply Hf.
Qed.

(** What the event does on a connection that is being read. *)
Lemma close_event c :
  plain_inv c → dp_reading (cl_dispatch c) = true → dp_waiting (cl_dispatch c) = None → h_callWG (client_handler c) = [] →
  ∃ r h', close_handler (EVar ErrClientQuit) None (client_handler c) = Ret (r, h') ∧
    dispatch_event text EvClose (cl_dispatch c) = Ret ((), match r with
      | Some sub => set_waiting (Some (sub, EVar ErrClientQuit, AfterExit)) (set_dp_conn h' (set_closing (cl_dispatch c)))
      | None => set_didClose (set_read true None (close_codec (set_waiting None (set_dp_conn h' (set_closing (cl_dispatch c))))))
      end).
Proof.
  intros P Hrd Hw Hwg. destruct (close_handler_ops (EVar ErrClientQuit) None _ (pi_inv _ P) Hwg) as (r & h' & E & _).
  exists r, h'. split; [done|]. rewrite dispatch_event_case by done. cbn [dispatch_case]. unfold dispatch_exit.
  rewrite go_bind_run. cbn [go_modify]. rewrite go_bind_run. cbn [go_get]. cbn [set_closing dp_reading]. rewrite Hrd.
  unfold conn_close. rewrite go_bind_run. unfold on_conn. cbn [dp_conn set_closing]. rewrite E. cbn.
  destruct r; cbn; [done|]. by rewrite <-Hrd.
Qed.


(** After the event the loop can be waited for. *)
Lemma close_winding c sub h' :
  client_inv c → plain_inv c → quit_inv c → tracked c → live c → h_callWG (client_handler c) = [] →
  close_handler (EVar ErrClientQuit) None (client_handler c) = Ret (Some sub, h') →
  let d := set_waiting (Some (sub, EVar ErrClientQuit, AfterExit)) (set_dp_conn h' (set_closing (cl_dispatch c))) in
  dispatch_event text EvClose (cl_dispatch c) = Ret ((), d) → winding (leave_loop d c).
Proof.
  intros I P Q [T1 T2 _] (L1 & L2 & L3) Hwg E d Hd.
  destruct (close_handler_ops (EVar ErrClientQuit) None _ (pi_inv _ P) Hwg) as (r & h1 & E1 & C1 & C2 & _ & _ & C3).
  assert (h1 = h') as -> by congruence. clear E1 r.
  destruct (close_handler_frame idgen _ _ _ _ _ (ci_subs _ I) E) as (_ & [_ _ F3] & _).
  destruct (winding_invs c (leave_loop d c) I P Q) as (I' & P' & Q'); [apply rtc_once; by apply cl_close|].
  destruct (leave_loop_fields d c) as (D1 & D2 & _).
  split; try done; rewrite ?D1, ?D2; unfold d; cbn; [by eexists|done|done| |].
  - intros s loc Hs%F3. destruct (T1 s loc Hs) as (i & sd & Hi & El & op & id & Ho & Hid & Hc).
    assert (∃ op', h_ops h' !! loc = Some op' ∧ (h_respWait (client_handler c) !! id = Some loc ∨ answered_op op → answered_op op'))
      as (op' & Ho' & Ha).
    { rewrite C3, Ho. case_decide as Hd'; cbn; eexists; (split; [reflexivity|]).
      - intros _. by right.
      - intros [Hr|Ha]; [|done]. destruct Hd'. split; [|done]. apply list_elem_of_fmap. exists (id, loc).
        split; [done|]. by apply elem_of_map_to_list. }
    exists i, sd, op'. split_and!; [done|done|done|]. destruct Hc as [|[|Hc]]; auto.
  - intros s s' l H1%F3 H2%F3. by eapply T2.
Qed.

(** The calls of a connection come to their end, and leave everything else as it is. *)
Lemma calls_finish n c :
  client_inv c → plain_inv c → length (h_callWG (client_handler c)) = n →
  ∃ c', rtc client_step c c' ∧ h_callWG (client_handler c') = [] ∧
    ∃ h, c' = upd_conn h c ∧ h_ops h = h_ops (client_handler c) ∧ h_clientSubs h = h_clientSubs (client_handler c) ∧
      h_quits h = h_quits (client_handler c).
Proof.
  revert c. induction n as [|n IH]; intros c I P Hn.
  { exists c. split; [apply rtc_refl|]. split; [by apply nil_length_inv|]. exists (client_handler c). split; [|done].
    unfold upd_conn, upd_dispatch, set_dp_conn. by destruct c as [[]]. }
  destruct (run_call_run decode_as Zero text as_ID idgen 0 _ (pi_inv _ P)) as (h & E & _).
  destruct (run_call_same decode_as Zero text as_ID idgen _ _ _ _ (ci_subs _ I) E) as (_ & E2 & E3 & E4 & E5).
  assert (client_step c (upd_conn h c)) as Hs by by eapply cl_call.
  destruct (IH (upd_conn h c)) as (c' & R & Hwg & h2 & -> & F1 & F2 & F3).
  - by eapply client_inv_step.
  - by eapply plain_inv_step.
  - cbn. destruct (h_callWG (client_handler c)) as [|j l] eqn:El; [done|]. rewrite E5 by eauto. cbn in *. lia.
  - exists (upd_conn h2 (upd_conn h c)). split; [by eapply rtc_l|]. split; [done|]. exists h2. split; [done|].
    cbn in *. split_and!; congruence.
Qed.

(** ** [Close] *)

(** The points of [Close]: its select, waiting for [didClose], the end. *)
Inductive close_pc := ClSelect | ClWait | ClDone.

Inductive Close_step (isHTTP : bool) : close_pc → client → close_pc → client → Prop :=
| cs_http c : isHTTP = true → Close_step isHTTP ClSelect c ClDone c
| cs_close c d :                                        (* c.close <- struct{}{} *)
    isHTTP = false → cl_running c = true → dispatch_event text EvClose (cl_dispatch c) = Ret ((), d) →
    Close_step isHTTP ClSelect c ClWait (leave_loop d c)
| cs_closed c :                                         (* case <-c.didClose *)
    isHTTP = false → dp_didClose (cl_dispatch c) = true → Close_step isHTTP ClSelect c ClDone c
| cs_wait c :                                           (* <-c.didClose *)
    dp_didClose (cl_dispatch c) = true → Close_step isHTTP ClWait c ClDone c.

(** What a goroutine that offers its request to a client that has quit can do. *)
Lemma send_after_quit i s c c' : cl_running c = false → cl_senders c !! i = Some s → sn_pc s = SInit → send_step text i s c c' →
  ∃ err, c' = upd_sender i s (SReturn (Some err)) c.
Proof.
  intros Hr Hi Hp Hs. destruct Hs as [d Hp' Hr' Ha Hd|err Hp' Hu|Hp' _|? ? Hp'|? Hp'|? ? Hp'|? ? ? Hp'|? ? ? ? Hp'|? ? ? Hp'|? Hp'|? ? Hp'|? Hp'];
    try congruence; by eexists.
Qed.

(** When the loop takes the signal, [Close] gets to its end. *)
Lemma close_comes_to_end c :
  creachable c → cl_reconnectFunc c = false → cl_running c = true → dp_waiting (cl_dispatch c) = None →
  h_callWG (client_handler c) = [] → own_ids c →
  ∃ c1 c2, Close_step false ClSelect c ClWait c1 ∧ rtc client_step c1 c2 ∧ dp_didClose (cl_dispatch c2) = true ∧
    (dp_reading (cl_dispatch c) = false ∨
     (∀ id sub, h_clientSubs (client_handler c) !! id = Some sub → ¬ quitting (client_handler c) sub) → c2 = c1).
Proof.
  intros Hc Hr Hrun Hw Hwg Hown. pose proof (quit_reachable c Hc) as Q.
  destruct (plain_reachable decode_as Zero text as_ID idgen c Hc Hr) as [I P].
  destruct (dp_reading (cl_dispatch c)) eqn:Hrd.
  - destruct (close_event c P Hrd Hw Hwg) as (r & h' & E & Hd).
    destruct (close_handler_ops (EVar ErrClientQuit) None _ (pi_inv _ P) Hwg) as (r1 & h1 & E1 & _ & _ & _ & C4 & _).
    assert (r1 = r) as -> by congruence. destruct r as [sub|].
    + assert (live c) as L by done. pose proof (tracked_reachable c Hc Hr L Hown) as T.
      destruct (wind_up _ _ (close_winding c sub h' I P Q T L Hwg E Hd) (Nat.lt_succ_diag_r _)) as (c2 & R & D).
      eexists _, c2. split; [by apply cs_close|]. split; [exact R|]. split; [apply D|].
      intros [Hf|Hf]; [done|]. by specialize (C4 Hf).
    + eexists _, _. split; [by apply cs_close|]. split; [apply rtc_refl|]. split; [|done].
      rewrite (proj1 (leave_loop_fields _ _)). done.
  - eexists _, _. split; [apply cs_close; [done|done|]|].
    { rewrite dispatch_event_case by done. cbn [dispatch_case]. unfold dispatch_exit.
      rewrite go_bind_run. cbn [go_modify]. rewrite go_bind_run. cbn [go_get]. cbn [set_closing dp_reading]. rewrite Hrd. reflexivity. }
    split; [apply rtc_refl|]. split; [|done]. by rewrite (proj1 (leave_loop_fields _ _)).
Qed.

(** C11: [Close] on a client over a connection: each of its steps is a step of the
    client or none, so that all that holds of a client's life holds around it; it
    returns at once when the dispatch loop has returned before; from every state of a
    running client that is not reconnected, whose requests have IDs of their own and
    whose loop does not stand at a subscription, it can come to its end: calls that are
    running finish, the loop takes its signal, and whoever is unsubscribing is released;
    with no call running and nobody unsubscribing, or with the connection down, it takes
    its two steps and nothing else; when it has returned, both [closing] and [didClose]
    are closed, in everything that follows as well, and a request offered from then
    on is not registered but fails, with [ErrClientQuit] or the error of its context. *)
Theorem Close_spec c :
  creachable c →
  (∀ pc pc' c', Close_step false pc c pc' c' → c' = c ∨ client_step c c') ∧
  (cl_running c = false → Close_step false ClSelect c ClDone c) ∧
  (cl_running c = true → cl_reconnectFunc c = false → dp_waiting (cl_dispatch c) = None → own_ids c →
   ∃ c0 c1 c2, rtc client_step c c0 ∧ Close_step false ClSelect c0 ClWait c1 ∧ rtc client_step c1 c2 ∧
     Close_step false ClWait c2 ClDone c2 ∧
     (h_callWG (client_handler c) = [] → c0 = c) ∧
     (dp_reading (cl_dispatch c) = false ∨
      (∀ id sub, h_clientSubs (client_handler c) !! id = Some sub → ¬ quitting (client_handler c) sub) → c2 = c1)) ∧
  (∀ pc c1 c2, Close_step false pc c ClDone c1 → rtc client_step c1 c2 →
   cl_running c2 = false ∧ dp_closing (cl_dispatch c2) = true ∧ dp_didClose (cl_dispatch c2) = true ∧
   ∀ i s, cl_senders c2 !! i = Some s → sn_pc s = SInit →
     send_step text i s c2 (upd_sender i s (SReturn (Some (EVar ErrClientQuit))) c2) ∧
     ∀ c3, send_step text i s c2 c3 → ∃ err, c3 = upd_sender i s (SReturn (Some err)) c2).
Proof.
  intros Hc. pose proof (quit_reachable c Hc) as Q. split_and!.
  - intros pc pc' c' Hs. destruct Hs as [| | |]; auto. right. by constructor.
  - intros Hr. apply cs_closed; [done|]. by rewrite (qk_didClose _ _ Q), Hr.
  - intros Hr Hrc Hw Hown. destruct (plain_reachable decode_as Zero text as_ID idgen c Hc Hrc) as [I P].
    assert (∃ c0, rtc client_step c c0 ∧ h_callWG (client_handler c0) = [] ∧ (h_callWG (client_handler c) = [] → c0 = c) ∧
      ∃ h, c0 = upd_conn h c ∧ h_ops h = h_ops (client_handler c) ∧ h_clientSubs h = h_clientSubs (client_handler c) ∧
        h_quits h = h_quits (client_handler c)) as (c0 & R0 & Hwg & E0 & h & -> & F1 & F2 & F3).
    { destruct (calls_finish _ c I P eq_refl) as (c0 & R0 & Hwg & h & -> & F).
      destruct (h_callWG (client_handler c)) as [|j l] eqn:El; [|by exists (upd_conn h c); split_and!; [| | |exists h]].
      exists c. split_and!; [apply rtc_refl|done|done|]. exists (client_handler c). split; [|done].
      unfold upd_conn, upd_dispatch, set_dp_conn. by destruct c as [[]]. }
    assert (creachable (upd_conn h c)) as Hc0 by by eapply creachable_run.
    destruct (close_comes_to_end (upd_conn h c) Hc0) as (c1 & c2 & H1 & H2 & H3 & H4); try done.
    { unfold own_ids. cbn. by rewrite F1. }
    exists (upd_conn h c), c1, c2. split_and!; try done; [by apply cs_wait|].
    intros Hf. apply H4. cbn. rewrite F2. unfold quitting. by rewrite F3.
  - intros pc c1 c2 Hs Hr.
    assert (cl_running c1 = false ∧ c1 = c) as [Hrun ->].
    { pose proof (qk_didClose _ _ Q) as Q2.
      inversion Hs; subst; [done|split; [|done]..]; destruct (cl_running c1); [|done| |done]; cbn in Q2; congruence. }
    assert (cl_running c2 = false ∧ quit_inv c2) as [Hrun2 Q2].
    { clear Hs. eapply (step_rtc (λ c, cl_running c = false ∧ quit_inv c)); [|exact Hr|done].
      intros x y Hs [Rx Qx]. destruct (quit_inv_step x y Hs Qx). auto. }
    split_and!; [done|by rewrite (qk_closing _ _ Q2), Hrun2|by rewrite (qk_didClose _ _ Q2), Hrun2|]. intros i s Hi Hp. split.
    + apply ss_closing; [done|]. by rewrite (qk_closing _ _ Q2), Hrun2.
    + intros c3 Hs3. by apply (send_after_quit i s c2 c3).
Qed.
(** ** A loop that waits for ever *)

(** A call that can end neither by the loop, which takes nothing while it waits, nor by
    the channels that tell of the loop's end: its request is still to be offered, or its
    new connection, or it waits for its answer. *)
Definition hangs (h : RpcHandler.handler W V) (k : after_close (W:=W)) (pc : send_pc (W:=W)) (loc : nat) : Prop :=
  (pc = SInit ∧ k ≠ AfterExit) ∨ (∃ retry newconn w, pc = SReconnect retry newconn w) ∨
  ((pc = SReport None ∨ pc = SReturn None) ∧
   ∃ op, h_ops h !! loc = Some op ∧ ch_buf (op_resp op) = [] ∧ ch_closed (op_resp op) = false).

Record deadlocked sub loc err (k : after_close (W:=W)) c : Prop := {
  dl_waiting : dp_waiting (cl_dispatch c) = Some (sub, err, k);
  dl_quit : h_quits (client_handler c) !! sub = Some (QuitRunning loc);
  dl_call : ∃ i s, cl_senders c !! i = Some s ∧ sn_op s = loc ∧ hangs (client_handler c) k (sn_pc s) loc }.

Lemma deadlocked_blocks sub loc err k c ev :
  deadlocked sub loc err k c → dispatch_event text ev (cl_dispatch c) = Blocks "sync.Once".
Proof.
  intros [Hw Hq _]. assert (ev = EvOnceDone ∨ ev ≠ EvOnceDone) as [->|Hne] by (destruct ev; auto).
  - unfold dispatch_event. rewrite go_bind_run. cbn [go_get]. rewrite Hw. unfold once_done. rewrite go_bind_run. cbn [go_get].
    rewrite Hw, go_bind_run. unfold on_conn. rewrite resume_close_blocked; [done|]. by exists loc.
  - apply dispatch_event_waits; [by rewrite Hw|done].
Qed.

Lemma hangs_same h h' k pc loc : h_ops h' !! loc = h_ops h !! loc → hangs h k pc loc → hangs h' k pc loc.
Proof. intros E. unfold hangs. by rewrite E. Qed.

Lemma deadlocked_call sub loc err k c l h :
  client_inv c → deadlocked sub loc err k c → call_returned c l h → l ≠ loc.
Proof.
  intros I [_ _ (i & s & Hi & El & Hh)] (j & s' & Hj & Ej & Hc) ->.
  assert (j = i) as -> by (eapply (ci_distinct _ I); [done|done|congruence]).
  assert (s' = s) as -> by congruence. destruct Hc as [[[e Hp] _]|[Hp [r Hr]]]; rewrite Hp in Hh.
  - by destruct Hh as [[? _]|[(? & ? & ? & ?)|[[?|?] _]]].
  - destruct Hh as [[? _]|[(? & ? & ? & ?)|[_ (op & Ho & Hb & Hcl)]]]; [done..|].
    by rewrite (recv_empty _ _ _ Ho Hb Hcl) in Hr.
Qed.

Lemma deadlocked_keep sub loc err k c c' :
  deadlocked sub loc err k c → dp_waiting (cl_dispatch c') = dp_waiting (cl_dispatch c) →
  h_quits (client_handler c') !! sub = h_quits (client_handler c) !! sub →
  h_ops (client_handler c') !! loc = h_ops (client_handler c) !! loc →
  (∀ i s, cl_senders c !! i = Some s → sn_op s = loc →
     ∃ s', cl_senders c' !! i = Some s' ∧ sn_op s' = loc ∧ (hangs (client_handler c) k (sn_pc s) loc → hangs (client_handler c) k (sn_pc s') loc)) →
  deadlocked sub loc err k c'.
Proof.
  intros [D1 D2 (i & s & Hi & El & Hh)] E1 E2 E3 Hs. split; [congruence|congruence|].
  destruct (Hs i s Hi El) as (s' & Hi' & El' & Hh'). exists i, s'. split; [done|]. split; [done|].
  eapply hangs_same; [exact E3|auto].
Qed.

Lemma deadlocked_send i s c c' sub loc err k :
  client_inv c → quit_inv c → deadlocked sub loc err k c → cl_senders c !! i = Some s → send_step text i s c c' →
  deadlocked sub loc err k c'.
Proof.
  intros I Q D Hi Hs. pose proof D as [D1 D2 D3].
  assert (cl_running c = true) as Hrun by (apply (qk_waiting _ _ Q); by rewrite D1).
  assert (∀ c2 pc, cl_senders c2 = <[i := mkSender (sn_op s) pc]> (cl_senders c) → cl_dispatch c2 = cl_dispatch c →
    (sn_op s = loc → hangs (client_handler c) k (sn_pc s) loc → hangs (client_handler c) k pc loc) → deadlocked sub loc err k c2) as Hmove.
  { intros c2 pc Es Ed Hpc. apply (deadlocked_keep sub loc err k c); [done|by rewrite Ed..|].
    intros j s' Hj El. rewrite Es. destruct (decide (j = i)) as [->|Hne].
    - assert (s' = s) as -> by congruence. exists (mkSender (sn_op s) pc).
      rewrite list_lookup_insert_eq by (by eapply lookup_lt_Some). split_and!; [done|done|]. by apply Hpc.
    - exists s'. by rewrite list_lookup_insert_ne. }
  assert (∀ pc, sn_pc s = pc → (∀ retry nc w, pc ≠ SReconnect retry nc w) → pc ≠ SInit → pc ≠ SReport None → pc ≠ SReturn None →
    ∀ pc', hangs (client_handler c) k (sn_pc s) loc → hangs (client_handler c) k pc' loc) as Hno.
  { intros pc -> H1 H2 H3 H4 pc' [[? _]|[(? & ? & ? & E)|[[?|?] _]]]; [done| |done..]. by destruct (H1 _ _ _ E). }
  destruct Hs as [d Hp Hr Ha Hd|e Hp Hu|Hp Hcl|retry conn Hp Hw|retry Hp Hw Hr|retry e Hp Hw Hr|retry nc w Hp Hw Hr
    |retry nc w d Hp Hr Hd|retry nc w Hp Hr|retry Hp|retry e Hp|e Hp Hlen];
    try (by rewrite (deadlocked_blocks _ _ _ _ _ _ D) in Hd);
    try (eapply Hmove; [reflexivity|done|intros _; by apply (Hno _ Hp)]; fail).
  - eapply Hmove; [reflexivity|done|]. intros El. destruct Hu. rewrite El. by exists sub.
  - eapply Hmove; [reflexivity|done|]. intros El [[_ Hk]|[(? & ? & ? & ?)|[[?|?] _]]]; [|congruence..].
    exfalso. rewrite (qk_closing _ _ Q), Hrun in Hcl. unfold leaving in Hcl. rewrite D1 in Hcl. by destruct k.
  - by rewrite (qk_didClose _ _ Q), Hrun in Hr.
  - eapply Hmove; [reflexivity|done|]. intros El. rewrite Hp.
    intros [[? _]|[(? & ? & ? & ?)|[[Ee|?] Ho]]]; [done..| |done]. injection Ee as ->. right. right. auto.
Qed.

Lemma deadlocked_step c c' sub loc err k :
  client_inv c → quit_inv c → client_step c c' → deadlocked sub loc err k c → deadlocked sub loc err k c'.
Proof.
  intros I Q Hs D. pose proof D as [D1 D2 D3].
  assert (is_Some (h_ops (client_handler c) !! loc)) as Hheap.
  { destruct D3 as (i & s & Hi & <- & _). by eapply ci_heap. }
  assert (∀ i s, cl_senders c !! i = Some s → sn_op s = loc →
    ∃ s', cl_senders c !! i = Some s' ∧ sn_op s' = loc ∧ (hangs (client_handler c) k (sn_pc s) loc → hangs (client_handler c) k (sn_pc s') loc))
    as Hsame by eauto.
  assert (∀ l o f c2, h_ops (client_handler c) !! l = None → f (h_quits (client_handler c)) !! sub = h_quits (client_handler c) !! sub →
    c2 = add_sender l o (upd_conn (upd_quits f (client_handler c)) c) → deadlocked sub loc err k c2) as Hadd.
  { intros l o f c2 Hf Hq ->. apply (deadlocked_keep sub loc err k c); [done|done|exact Hq| |].
    - cbn. rewrite lookup_insert_ne; [done|]. intros ->. rewrite Hf in Hheap. by destruct Hheap.
    - intros i s Hi El. exists s. split; [by apply lookup_app_l_Some|done]. }
  destruct Hs as [c l op Hf Hq|c l id s2 h Hf Hq|c l s2 h Hq Hret|c i s c' Hi Hs|c e rest d Hr Hb Hd
    |c msgs batch d Hr Hrd Hd|c e d Hr Hrd Hd|c l d Hr Hu Hd|c d Hr Hd|c d Hr Hw Hd|c i h Hc|c l r h Hu Hc];
    try (by rewrite (deadlocked_blocks _ _ _ _ _ _ D) in Hd).
  - apply (Hadd l op (λ m, m)); [done..|]. by rewrite upd_quits_id.
  - apply (Hadd l (call_op id) <[s2 := QuitRunning l]>); [done| |done]. rewrite lookup_insert_ne; [done|]. intros ->. unfold h in Hq. congruence.
  - pose proof (deadlocked_call _ _ _ _ _ _ _ I D Hret) as Hne.
    destruct (call_returned_frame _ _ _ Hret) as (O1 & O2 & O3 & O4 & O5).
    apply (deadlocked_keep sub loc err k c); [done|done| |by apply O2|done].
    cbn. rewrite O5, lookup_insert_ne; [done|]. intros ->. congruence.
  - by eapply deadlocked_send.
  - destruct (run_call_same decode_as Zero text as_ID idgen _ _ _ _ (ci_subs _ I) Hc) as (_ & E2 & _ & E4 & _).
    apply (deadlocked_keep sub loc err k c); [done|done|cbn; by rewrite E4|cbn; by rewrite E2|done].
  - destruct (on_resp_only _ _ _ _ _ Hc) as (O1 & O2 & O3 & O4 & O5).
    apply (deadlocked_keep sub loc err k c); [done|done|cbn; by rewrite O5| |done]. apply O2. intros ->. destruct Hu. by exists sub.
Qed.
(** A read error while the only subscription of the connection is being quit. *)
Lemma read_error_waits c err id sub loc :
  plain_inv c → dp_waiting (cl_dispatch c) = None → h_callWG (client_handler c) = [] →
  h_clientSubs (client_handler c) = {[id := sub]} → h_quits (client_handler c) !! sub = Some (QuitRunning loc) →
  ∃ d, dispatch_event text (EvReadErr err) (cl_dispatch c) = Ret ((), d) ∧
    dp_waiting d = Some (sub, err, AfterReadErr) ∧ h_quits (dp_conn d) !! sub = Some (QuitRunning loc).
Proof.
  intros P Hw Hwg Hsubs Hq.
  destruct (cancelAllRequests_inv idgen err (dp_lastOp (cl_dispatch c)) _ (pi_inv _ P))
    as (r & h & E & _ & [C1 C2 C3 (quit & Q1 & Q2 & Q3 & St)]).
  assert (r = Some sub) as ->.
  { destruct r as [s|].
    - destruct St as (i & rest & El & _). assert ((i, s) ∈ map_to_list (h_clientSubs (client_handler c))) as Hin
        by (rewrite El; apply elem_of_app; right; by left).
      apply elem_of_map_to_list in Hin. rewrite Hsubs in Hin. by apply lookup_singleton_Some in Hin as [_ ->].
    - destruct St as [-> _]. destruct (Q2 (id, sub)); [|by exists loc]. apply elem_of_map_to_list. by rewrite Hsubs, lookup_singleton_eq. }
  eexists. rewrite dispatch_event_case by done. cbn [dispatch_case]. rewrite go_bind_run. cbn [go_get].
  unfold conn_close. rewrite go_bind_run. unfold on_conn, close_handler. rewrite go_bind_run, E. split; [reflexivity|]. split; [done|].
  cbn. rewrite Q1. case_decide as Hs; [|done]. apply list_elem_of_fmap in Hs as ([i s] & Es & He). cbn in Es. subst s.
  destruct (Q2 (i, sub) He). by exists loc.
Qed.

(** C32: unsubscribing can stop a client for ever.  When the dispatch loop has come to
    stand, inside [close], at a subscription that a goroutine is unsubscribing, and that
    goroutine's request was not yet accepted by the loop, or it was in flight and so is
    neither answered nor closed, or it offers a new connection, then in everything that
    follows the loop stays there and takes nothing; the goroutine does not return; a
    [Close] neither gets through its select nor sees [didClose] closed; and a request
    that is offered can only be given up by its own context. *)
Theorem unsubscribe_deadlock c c' sub err k i s :
  creachable c → dp_waiting (cl_dispatch c) = Some (sub, err, k) →
  h_quits (client_handler c) !! sub = Some (QuitRunning (sn_op s)) → cl_senders c !! i = Some s →
  hangs (client_handler c) k (sn_pc s) (sn_op s) → rtc client_step c c' →
  cl_running c' = true ∧ dp_waiting (cl_dispatch c') = Some (sub, err, k) ∧
  (∀ ev, dispatch_event text ev (cl_dispatch c') = Blocks "sync.Once") ∧
  h_quits (client_handler c') !! sub = Some (QuitRunning (sn_op s)) ∧ (∀ h, ¬ call_returned c' (sn_op s) h) ∧
  (∀ pc c2, ¬ Close_step false ClSelect c' pc c2 ∧ ¬ Close_step false ClWait c' pc c2) ∧
  (k ≠ AfterExit → ∀ j s2 c2, cl_senders c' !! j = Some s2 → sn_pc s2 = SInit → send_step text j s2 c' c2 →
     ¬ unsubscribing (client_handler c') (sn_op s2) ∧ ∃ e, c2 = upd_sender j s2 (SReturn (Some e)) c').
Proof.
  intros Hc Hw Hq Hi Hh Hr.
  assert (client_inv c' ∧ quit_inv c' ∧ deadlocked sub (sn_op s) err k c') as (I & Q & D).
  { eapply (step_rtc (λ c, client_inv c ∧ quit_inv c ∧ deadlocked sub (sn_op s) err k c)); [|exact Hr|].
    - intros x y Hs (Ix & Qx & Dx). split_and!; [by eapply client_inv_step|by apply (quit_inv_step x)|by eapply deadlocked_step].
    - split_and!; [by eapply creachable_inv|by apply quit_reachable|]. split; [done|done|]. by exists i, s. }
  pose proof (λ ev, deadlocked_blocks _ _ _ _ _ ev D) as Hb. destruct D as [D1 D2 D3].
  assert (cl_running c' = true) as Hrun by (apply (qk_waiting _ _ Q); by rewrite D1).
  assert (dp_didClose (cl_dispatch c') = false) as Hdc by by rewrite (qk_didClose _ _ Q), Hrun.
  split_and!; [done..| | |].
  - intros h Hret. by eapply (deadlocked_call sub (sn_op s) err k); [..|exact Hret|].
  - intros pc c2. split; intros Hs; inversion Hs; subst; rewrite ?Hb in *; congruence.
  - intros Hk j s2 c2 Hj Hp Hs.
    destruct Hs as [d Hp' Hr' Ha Hd|e Hp' Hu|Hp' Hcl|? ? Hp'|? Hp'|? ? Hp'|? ? ? Hp'|? ? ? ? Hp'|? ? ? Hp'|? Hp'|? ? Hp'|? Hp'];
      try congruence.
    + split; [done|]. by exists e.
    + rewrite (qk_closing _ _ Q), Hrun in Hcl. unfold leaving in Hcl. rewrite D1 in Hcl. by destruct k.
Qed.
End close_props.

(** ** Examples *)

Lemma ex_c2_subs id sub :
  h_clientSubs (dp_conn (cl_dispatch ex_c2)) !! id = Some sub → ¬ quitting (dp_conn (cl_dispatch ex_c2)) sub.
Proof.
  assert (h_clientSubs (dp_conn (cl_dispatch ex_c2)) = ∅) as -> by (vm_compute; reflexivity).
  by rewrite lookup_empty.
Qed.


Lemma ex_c2_own : own_ids ex_c2.
Proof.
  assert (∀ l op, h_ops (dp_conn (cl_dispatch ex_c2)) !! l = Some op → l = 0%nat) as Hone.
  { assert (h_ops (dp_conn (cl_dispatch ex_c2)) = {[0%nat := call_op "1"]}) as -> by (vm_compute; reflexivity).
    by intros l op [-> _]%lookup_singleton_Some. }
  intros l l' op op' id H1 H2 _ _. by rewrite (Hone l op H1), (Hone l' op' H2).
Qed.

Lemma Close_spec_witness :
  ∃ c', Close_step (λ _, "") false ClSelect ex_c2 ClWait c' ∧ Close_step (λ _, "") false ClWait c' ClDone c'.
Proof.
  destruct (Close_spec ex_decode (λ _, 0%Z) (λ _, "") (λ _, "") (λ _, "0x1") ex_c2 ex_c2_reachable) as (_ & _ & Hclose & _).
  destruct Hclose as (c0 & c1 & c2 & _ & H1 & _ & H2 & E0 & E2); [reflexivity..|exact ex_c2_own|].
  rewrite E0 in H1 by reflexivity. rewrite E2 in H2; [by exists c1|]. right. exact ex_c2_subs.
Defined.


(** A client subscribes, and unsubscribes just before its connection goes down. *)
Abbreviation ex_dispatch := (dispatch (list wireval) Z).
Definition du_op : requestOp := subscribe_op "1" 0.
Definition du_d1 : ex_dispatch := set_dp_conn (upd_ops <[0%nat := du_op]> (dp_conn (cl_dispatch ex_c0))) (cl_dispatch ex_c0).
Definition du_d2 : ex_dispatch := ex_event (EvReqInit 0) du_d1.
Definition du_d3 : ex_dispatch := ex_event (EvReqSent None) du_d2.
Definition du_answer : jsonrpcMessage := mkMsg vsn (Some "1") "" None None (Some (quote "0x5")).
Definition du_d4 : ex_dispatch := ex_event (EvReadOp [du_answer] false) du_d3.
Definition du_c (pc : send_pc) (sent : list (option gerror)) (d : ex_dispatch) : ex_client :=
  mkClient d true false (Some 0%nat) sent [mkSender 0 pc].
Definition du_c5 : ex_client :=
  let c := du_c (SReturn None) [] du_d4 in
  add_sender 1 (call_op "2") (upd_conn (upd_quits <[0%nat := QuitRunning 1]> (dp_conn du_d4)) c).
Definition du_c6 : ex_client := upd_dispatch (ex_event (EvReadErr (ENew "EOF")) (cl_dispatch du_c5)) du_c5.

(** A step of the first sender. *)
Lemma du_send pc pc' sent sent' d d' :
  send_step (λ _, "") 0 (mkSender 0 pc) (du_c pc sent d) (du_c pc' sent' d') → ex_cstep (du_c pc sent d) (du_c pc' sent' d').
Proof. intros Hs. by eapply (cl_send _ _ _ _ _ (du_c pc sent d) 0%nat (mkSender 0 pc)). Qed.

Lemma du_subscribes : rtc ex_cstep ex_c0 (du_c (SReturn None) [] du_d4).
Proof.
  eapply (rtc_l _ _ (du_c SInit [] du_d1)).
  { exact (cl_request _ _ _ _ _ ex_c0 0%nat du_op eq_refl (req_subscribe "1" 0)). }
  eapply (rtc_l _ _ (du_c (SWrite false) [] du_d2)).
  { apply du_send. refine (ss_reqInit _ 0%nat (mkSender 0 SInit) (du_c SInit [] du_d1) du_d2 eq_refl eq_refl eq_refl _).
    apply ex_event_ret. vm_compute. reflexivity. }
  eapply (rtc_l _ _ (du_c (SEmit false) [] du_d2)).
  { apply du_send. exact (ss_have_conn _ 0%nat (mkSender 0 (SWrite false)) (du_c (SWrite false) [] du_d2) false 0%nat eq_refl eq_refl). }
  eapply (rtc_l _ _ (du_c (SReport None) [] du_d2)).
  { apply du_send. exact (ss_emitted _ 0%nat (mkSender 0 (SEmit false)) (du_c (SEmit false) [] du_d2) false eq_refl). }
  eapply (rtc_l _ _ (du_c (SReturn None) [None] du_d2)).
  { apply du_send. refine (ss_report _ 0%nat (mkSender 0 (SReport None)) (du_c (SReport None) [] du_d2) None eq_refl _). cbn. lia. }
  eapply (rtc_l _ _ (du_c (SReturn None) [] du_d3)).
  { refine (cl_sent _ _ _ _ _ (du_c (SReturn None) [None] du_d2) None [] du_d3 eq_refl eq_refl _).
    apply ex_event_ret. vm_compute. reflexivity. }
  eapply rtc_once.
  refine (cl_read _ _ _ _ _ (du_c (SReturn None) [] du_d3) [du_answer] false du_d4 eq_refl _ _).
  - eexists. vm_compute. reflexivity.
  - apply ex_event_ret. vm_compute. reflexivity.
Qed.

Lemma du_reachable : ex_creachable du_c6.
Proof.
  exists 0%nat, [], ex_reg, false. etrans; [exact du_subscribes|].
  eapply (rtc_l _ _ du_c5).
  { refine (cl_unsubscribe _ _ _ _ _ (du_c (SReturn None) [] du_d4) 1%nat "2" 0%nat _ _); vm_compute; reflexivity. }
  eapply rtc_once. refine (cl_read_error _ _ _ _ _ du_c5 (ENew "EOF") _ eq_refl _ _).
  - eexists. vm_compute. reflexivity.
  - apply ex_event_ret. vm_compute. reflexivity.
Qed.

Lemma unsubscribe_deadlock_witness :
  h_clientSubs (dp_conn du_d4) = {[ "0x5" := 0%nat ]} ∧
  ∀ c', rtc ex_cstep du_c6 c' →
    (∀ ev, dispatch_event (λ _, "") ev (cl_dispatch c') = Blocks "sync.Once") ∧
    ∀ pc c2, ¬ Close_step (λ _, "") false ClSelect c' pc c2.
Proof.
  split; [vm_compute; reflexivity|]. intros c' Hr.
  destruct (unsubscribe_deadlock ex_decode (λ _, 0%Z) (λ _, "") (λ _, "") (λ _, "0x1") du_c6 c' 0%nat (ENew "EOF") AfterReadErr
    1%nat (mkSender 1 SInit) du_reachable) as (_ & _ & Hb & _ & _ & Hcl & _).
  - vm_compute. reflexivity.
  - vm_compute. reflexivity.
  - reflexivity.
  - left. by split.
  - exact Hr.
  - split; [exact Hb|]. intros pc c2. apply Hcl.
Defined.
