(* ===== verification/RpcTypes.v ===== *)
(** * Block numbers and hashes (simple_rpc/rpc/types.go)

    The JSON forms of [BlockNumber] and [BlockNumberOrHash].  [hexutil] and
    [common.Hash] are third-party: decoding a hexadecimal quantity and a hash
    from text or JSON are arguments of the definitions. *)

From S2P Require Import Prelude GoText Json.

(** ** [strings.TrimSpace] *)

(** The encodings of the space runes of one, two and three bytes. *)
Definition space1 (a : ascii) : bool := in_range 9 13 a || in_range 32 32 a.
Definition space2 (a b : ascii) : bool := in_range 194 194 a && (in_range 133 133 b || in_range 160 160 b).
Definition space3 (a b c : ascii) : bool :=
  (in_range 225 225 a && in_range 154 154 b && in_range 128 128 c) ||
  (in_range 226 226 a && in_range 128 128 b &&
     (in_range 128 138 c || in_range 168 169 c || in_range 175 175 c)) ||
  (in_range 226 226 a && in_range 129 129 b && in_range 159 159 c) ||
  (in_range 227 227 a && in_range 128 128 b && in_range 128 128 c).

Fixpoint TrimSpaceLeft (s : string) : string :=
  match s with
  | EmptyString => EmptyString
  | String a s1 =>
      if space1 a then TrimSpaceLeft s1
      else match s1 with
      | EmptyString => s
      | String b s2 =>
          if space2 a b then TrimSpaceLeft s2
          else match s2 with
          | EmptyString => s
          | String c s3 => if space3 a b c then TrimSpaceLeft s3 else s
          end
      end
  end.

(** Drops the longest suffix that consists of space runes. *)
Fixpoint TrimSpaceRight (s : string) : string :=
  match s with
  | EmptyString => EmptyString
  | String a s1 => if decide (TrimSpaceLeft s = "") then "" else String a (TrimSpaceRight s1)
  end.

Definition TrimSpace (s : string) : string := TrimSpaceRight (TrimSpaceLeft s).

(** ** Block numbers *)

Definition PendingBlockNumber : Z := -2.
Definition LatestBlockNumber : Z := -1.
Definition EarliestBlockNumber : Z := 0.
Definition MaxInt64 : Z := 2 ^ 63 - 1.

(** An error made with [fmt.Errorf], one of [hexutil] or [common.Hash], or the
    error of [json.Unmarshal] on a text. *)
Inductive typesError := TErrorf (text : string) | THex (text : string) | TJson (raw : string).

(** The quotes around a string of at least two bytes. *)
Definition strip_quotes (input : string) : string :=
  match input with
  | String c rest =>
      if (2 <=? slen input)%nat && bool_decide (c = dquote) && HasSuffix input (String dquote "")
      then str_take (slen rest - 1) rest else input
  | EmptyString => input
  end.

(** The special names of blocks. *)
Definition block_tag (input : string) : option Z :=
  if decide (input = "earliest") then Some EarliestBlockNumber
  else if decide (input = "latest") then Some LatestBlockNumber
  else if decide (input = "pending") then Some PendingBlockNumber
  else None.

(** [BlockNumber.Int64]: the conversion between two 64-bit types. *)
Definition Int64 (bn : Z) : Z := bn.

Section types.
Context {H : Type}.
Variable DecodeUint64 : string → result string Z.
Variable Hash_UnmarshalText : string → result string H.
Variable Hash_UnmarshalJSON : string → result string H.
Variable zero_hash : H.

(** [BlockNumber.UnmarshalJSON]. *)
Definition BlockNumber_UnmarshalJSON (data : string) : result typesError Z :=
  let input := strip_quotes (TrimSpace data) in
  match block_tag input with
  | Some bn => Ok bn
  | None =>
      match DecodeUint64 input with
      | Err e => Err (THex e)
      | Ok blckNum =>
          if (blckNum >? MaxInt64)%Z then Err (TErrorf "block number larger than int64")
          else Ok (wraps 64 blckNum)
      end
  end.

Record BlockNumberOrHash := mkBNH {
  bnh_BlockNumber : option Z;
  bnh_BlockHash : option H;
  bnh_RequireCanonical : bool }.

Definition zero_bnh : BlockNumberOrHash := mkBNH None None false.

(** Decoding one member of an object into [erased]: [Err] when decoding stops, or
    the value and whether an error has been put off to the end. *)
Definition erased_field (st : BlockNumberOrHash * bool) (kv : string * string) :
    result unit (BlockNumberOrHash * bool) :=
  let '(e, bad) := st in
  let key := fold_key (unquote kv.1) in
  let isnull := match shape_of kv.2 with Some JNull => true | _ => false end in
  if decide (key = "blocknumber") then
    if isnull then Ok (mkBNH None (bnh_BlockHash e) (bnh_RequireCanonical e), bad)
    else match BlockNumber_UnmarshalJSON kv.2 with
         | Err _ => Err ()
         | Ok bn => Ok (mkBNH (Some bn) (bnh_BlockHash e) (bnh_RequireCanonical e), bad)
         end
  else if decide (key = "blockhash") then
    if isnull then Ok (mkBNH (bnh_BlockNumber e) None (bnh_RequireCanonical e), bad)
    else match Hash_UnmarshalJSON kv.2 with
         | Err _ => Err ()
         | Ok h => Ok (mkBNH (bnh_BlockNumber e) (Some h) (bnh_RequireCanonical e), bad)
         end
  else if decide (key = "requirecanonical") then
    match shape_of kv.2 with
    | Some (JBool b) => Ok (mkBNH (bnh_BlockNumber e) (bnh_BlockHash e) b, bad)
    | Some JNull => Ok (e, bad)
    | _ => Ok (e, true)
    end
  else Ok (e, bad).

Fixpoint erased_fields (st : BlockNumberOrHash * bool) (l : list (string * string)) :
    result unit (BlockNumberOrHash * bool) :=
  match l with
  | [] => Ok st
  | kv :: l => match erased_field st kv with Err u => Err u | Ok st => erased_fields st l end
  end.

(** [json.Unmarshal(data, &e)] for [e] a zero [erased]; [None] for an error. *)
Definition Unmarshal_erased (data : string) : option BlockNumberOrHash :=
  if negb (valid_json data) then None
  else match shape_of (skip_ws data) with
       | Some JNull => Some zero_bnh
       | Some (JObj l) =>
           match erased_fields (zero_bnh, false) l with
           | Ok (e, false) => Some e
           | _ => None
           end
       | _ => None
       end.

(** [json.Unmarshal(data, &input)] for an empty string [input]. *)
Definition Unmarshal_string (data : string) : option string :=
  if negb (valid_json data) then None
  else match shape_of (skip_ws data) with
       | Some JNull => Some ""
       | Some (JStr lit) => Some (unquote lit)
       | _ => None
       end.

(** [BlockNumberOrHash.UnmarshalJSON] into [bnh]. *)
Definition BlockNumberOrHash_UnmarshalJSON (data : string) (bnh : BlockNumberOrHash) :
    result typesError BlockNumberOrHash :=
  match Unmarshal_erased data with
  | Some e =>
      match bnh_BlockNumber e, bnh_BlockHash e with
      | Some _, Some _ => Err (TErrorf "cannot specify both BlockHash and BlockNumber, choose one or the other")
      | _, _ => Ok e
      end
  | None =>
      match Unmarshal_string data with
      | None => Err (TJson data)
      | Some input =>
          match block_tag input with
          | Some bn => Ok (mkBNH (Some bn) (bnh_BlockHash bnh) (bnh_RequireCanonical bnh))
          | None =>
              if (slen input =? 66)%nat then
                match Hash_UnmarshalText input with
                | Err e => Err (THex e)
                | Ok hash => Ok (mkBNH (bnh_BlockNumber bnh) (Some hash) (bnh_RequireCanonical bnh))
                end
              else
                match DecodeUint64 input with
                | Err e => Err (THex e)
                | Ok blckNum =>
                    if (blckNum >? MaxInt64)%Z then Err (TErrorf "blocknumber too high")
                    else Ok (mkBNH (Some (wraps 64 blckNum)) (bnh_BlockHash bnh) (bnh_RequireCanonical bnh))
                end
          end
      end
  end.

(** [Number] and [Hash]. *)
Definition Number (bnh : BlockNumberOrHash) : Z * bool :=
  match bnh_BlockNumber bnh with Some n => (n, true) | None => (0%Z, false) end.
Definition Hash (bnh : BlockNumberOrHash) : H * bool :=
  match bnh_BlockHash bnh with Some h => (h, true) | None => (zero_hash, false) end.

Definition BlockNumberOrHashWithNumber (blockNr : Z) : BlockNumberOrHash := mkBNH (Some blockNr) None false.
Definition BlockNumberOrHashWithHash (hash : H) (canonical : bool) : BlockNumberOrHash :=
  mkBNH None (Some hash) canonical.
End types.

(** ** Lemmas *)

Lemma TrimSpaceLeft_quote s : TrimSpaceLeft (String dquote s) = String dquote s.
Proof. destruct s as [|b [|c s]]; reflexivity. Qed.

Lemma space2_quote a : space2 a dquote = false.
Proof. unfold space2. apply andb_false_r. Qed.
Lemma space3_quote a b : space3 a b dquote = false.
Proof.
  unfold space3. change (in_range 128 128 dquote) with false. change (in_range 159 159 dquote) with false.
  cbn [orb]. by rewrite !andb_false_r.
Qed.

Lemma TrimSpaceLeft_quoted s : TrimSpaceLeft (s +:+ String dquote "") ≠ "".
Proof.
  assert (∀ n s, (slen s ≤ n)%nat → TrimSpaceLeft (s +:+ String dquote "") ≠ "") as Hn; [|by eapply Hn].
  clear s. induction n as [|n IH]; intros s Hs; destruct s as [|a s1]; cbn [String.length] in Hs; try lia; [done..|].
  rewrite str_app_cons. cbn [TrimSpaceLeft]. destruct (space1 a); [apply IH; lia|].
  destruct s1 as [|b s2]; rewrite ?str_app_cons, ?str_app_nil; cbn [String.length] in Hs; [by rewrite space2_quote|].
  destruct (space2 a b); [apply IH; lia|].
  destruct s2 as [|c s3]; rewrite ?str_app_cons, ?str_app_nil; cbn [String.length] in Hs; [by rewrite space3_quote|].
  destruct (space3 a b c); [apply IH; lia|done].
Qed.

Lemma TrimSpaceRight_quoted s : TrimSpaceRight (s +:+ String dquote "") = s +:+ String dquote "".
Proof.
  induction s as [|a s IH]; [done|]. pose proof (TrimSpaceLeft_quoted (String a s)) as Hne.
  rewrite str_app_cons in *. cbn [TrimSpaceRight]. rewrite decide_False by done. by rewrite IH.
Qed.

(** A quoted text is read without its quotes. *)
Lemma strip_quotes_quoted t : strip_quotes (TrimSpace (String dquote (t +:+ String dquote ""))) = t.
Proof.
  unfold TrimSpace. rewrite TrimSpaceLeft_quote.
  change (String dquote (t +:+ String dquote "")) with (String dquote t +:+ String dquote "").
  rewrite TrimSpaceRight_quoted. unfold strip_quotes. rewrite HasSuffix_app.
  rewrite str_app_cons. cbn [String.length]. rewrite slen_app. cbn [String.length].
  rewrite (proj2 (Nat.leb_le _ _)) by lia. rewrite bool_decide_true by done. cbn [andb].
  replace (slen t + 1 - 1)%nat with (slen t) by lia. by rewrite str_take_app.
Qed.

Lemma block_tag_Some t bn : block_tag t = Some bn → (-2 ≤ bn ≤ 0)%Z.
Proof. unfold block_tag. repeat case_decide; intros [= <-]; done. Qed.

Lemma plain_char_ascii c : plain_char c = true → in_range 0 127 c = true.
Proof. by destruct c as [[] [] [] [] [] [] [] []]. Qed.

Lemma unquote_n_plain n t : (slen t ≤ n)%nat → plain t = true → unquote_n n t = t.
Proof.
  revert t. induction n as [|n IH]; intros [|c t] Hn Hp; cbn [String.length] in Hn; try done; try lia.
  unfold plain in Hp. cbn in Hp. apply andb_true_iff in Hp as [Hc Hp].
  destruct (plain_char_not c Hc) as (_ & Hb & _). cbn [unquote_n]. rewrite decide_False by done.
  rewrite plain_char_ascii by done. by rewrite IH by (lia || done).
Qed.

Section types_props.
Context {H : Type}.
Context (DecodeUint64 : string → result string Z) (Hash_UnmarshalText Hash_UnmarshalJSON : string → result string H).

(** [BlockNumber.UnmarshalJSON] ignores space around the text and quotes around
    what is left; "earliest", "latest" and "pending" give 0, -1 and -2, and any
    other text gives the quantity [hexutil] decodes, which is refused when it does
    not fit an [int64]: the number is never negative because of a wrap-around. *)
Theorem BlockNumber_UnmarshalJSON_spec data :
  (∀ s n, DecodeUint64 s = Ok n → in_u 64 n) →
  let input := strip_quotes (TrimSpace data) in
  match BlockNumber_UnmarshalJSON DecodeUint64 data with
  | Ok n => (block_tag input = Some n ∧ (-2 ≤ n ≤ 0)%Z) ∨ (block_tag input = None ∧ DecodeUint64 input = Ok n ∧ (0 ≤ n < 2 ^ 63)%Z)
  | Err (THex e) => block_tag input = None ∧ DecodeUint64 input = Err e
  | Err (TErrorf _) => block_tag input = None ∧ ∃ n, DecodeUint64 input = Ok n ∧ (2 ^ 63 ≤ n)%Z
  | Err (TJson _) => False
  end ∧
  ∀ t, strip_quotes (TrimSpace (String dquote (t +:+ String dquote ""))) = t.
Proof.
  intros Hd input. split; [|apply strip_quotes_quoted]. unfold BlockNumber_UnmarshalJSON. fold input.
  destruct (block_tag input) as [bn|] eqn:Et; [left; split; [done|by eapply block_tag_Some]|].
  destruct (DecodeUint64 input) as [n|e] eqn:E; [|done]. destruct (Z.gtb_spec n MaxInt64) as [Hgt|Hle].
  - split; [done|]. exists n. split; [done|]. unfold MaxInt64 in Hgt. lia.
  - right. apply Hd in E as Hr. unfold in_u, MaxInt64 in *.
    rewrite wraps_id by (unfold in_s; lia). split_and!; (done || lia).
Qed.

Abbreviation from_json := (BlockNumberOrHash_UnmarshalJSON DecodeUint64 Hash_UnmarshalText Hash_UnmarshalJSON).

Definition number_ok (n : option Z) : Prop := match n with Some n => (-2 ≤ n < 2 ^ 63)%Z | None => True end.

Lemma BlockNumber_range data n :
  (∀ s n, DecodeUint64 s = Ok n → in_u 64 n) → BlockNumber_UnmarshalJSON DecodeUint64 data = Ok n → (-2 ≤ n < 2 ^ 63)%Z.
Proof.
  intros Hd. unfold BlockNumber_UnmarshalJSON.
  destruct (block_tag _) as [bn|] eqn:Et; [intros [= <-]; apply block_tag_Some in Et; lia|].
  destruct (DecodeUint64 _) as [m|] eqn:E; [|done]. destruct (Z.gtb_spec m MaxInt64); [done|]. intros [= <-].
  apply Hd in E. unfold in_u, MaxInt64 in *. rewrite wraps_id by (unfold in_s; lia). lia.
Qed.

Lemma erased_fields_ok l e bad e' bad' :
  (∀ s n, DecodeUint64 s = Ok n → in_u 64 n) →
  erased_fields DecodeUint64 Hash_UnmarshalJSON (e, bad) l = Ok (e', bad') →
  number_ok (bnh_BlockNumber e) → number_ok (bnh_BlockNumber e').
Proof.
  intros Hd. revert e bad. induction l as [|kv l IH]; intros e bad; cbn [erased_fields]; [by intros [= -> ->]|].
  destruct (erased_field _ _ _ _) as [[e1 bad1]|u] eqn:E; [|done]. intros Hr Hn. eapply IH; [done|].
  revert E. unfold erased_field. repeat case_decide; try destruct (match shape_of kv.2 with Some JNull => true | _ => false end).
  - intros [= <- _]. done.
  - destruct (BlockNumber_UnmarshalJSON _ _) eqn:Eb; [|done]. intros [= <- _]. by eapply BlockNumber_range in Eb.
  - intros [= <- _]. done.
  - destruct (Hash_UnmarshalJSON _); [|done]. by intros [= <- _].
  - destruct (shape_of kv.2) as [[]|]; by intros [= <- _].
  - destruct (shape_of kv.2) as [[]|]; by intros [= <- _].
  - by intros [= <- _].
  - by intros [= <- _].
Qed.

Lemma Unmarshal_erased_ok data e :
  (∀ s n, DecodeUint64 s = Ok n → in_u 64 n) → Unmarshal_erased DecodeUint64 Hash_UnmarshalJSON data = Some e →
  number_ok (bnh_BlockNumber e).
Proof.
  intros Hd. unfold Unmarshal_erased. destruct (negb _); [done|].
  destruct (shape_of _) as [[]|]; try done; [by intros [= <-]|].
  destruct (erased_fields _ _ _ _) as [[e1 [|]]|] eqn:E; try done. intros [= <-].
  by eapply erased_fields_ok in E.
Qed.

Lemma plain_literal t : plain t = true →
  let literal := String dquote (t +:+ String dquote "") in
  valid_json literal = true ∧ skip_ws literal = literal ∧ shape_of literal = Some (JStr t).
Proof.
  intros Ht literal. pose proof (is_value_literal t Ht) as Hv. split_and!.
  - by apply is_value_valid.
  - done.
  - unfold literal. cbn [shape_of]. rewrite !decide_False by done. rewrite decide_True by done. by rewrite scan_str_plain.
Qed.

(** C29: [BlockNumberOrHash.UnmarshalJSON] into a new value never gives both a number
    and a hash, gives exactly one of them from a string, and gives numbers in the
    range of [BlockNumber]; a plain string that does not have the length of a hash
    is read as [BlockNumber.UnmarshalJSON] reads it. *)
Theorem BlockNumberOrHash_UnmarshalJSON_spec data :
  (∀ s n, DecodeUint64 s = Ok n → in_u 64 n) →
  (∀ r, from_json data zero_bnh = Ok r →
     (bnh_BlockNumber r = None ∨ bnh_BlockHash r = None) ∧ number_ok (bnh_BlockNumber r) ∧
     (Unmarshal_erased DecodeUint64 Hash_UnmarshalJSON data = None →
        bnh_RequireCanonical r = false ∧ (is_Some (bnh_BlockNumber r) ∨ is_Some (bnh_BlockHash r)))) ∧
  ∀ t, plain t = true → slen t ≠ 66%nat →
    let literal := String dquote (t +:+ String dquote "") in
    match BlockNumber_UnmarshalJSON DecodeUint64 literal, from_json literal zero_bnh with
    | Ok n, Ok r => r = BlockNumberOrHashWithNumber n
    | Err _, Err _ => True
    | _, _ => False
    end.
Proof.
  intros Hd. split.
  - intros r. unfold BlockNumberOrHash_UnmarshalJSON. destruct (Unmarshal_erased _ _ _) as [e|] eqn:Ee.
    + assert (number_ok (bnh_BlockNumber e)) as Hn by (by eapply Unmarshal_erased_ok).
      destruct (bnh_BlockNumber e) eqn:E1, (bnh_BlockHash e) eqn:E2; intros [= <-]; rewrite ?E1, ?E2; (split_and!; [auto|done|done]).
    + destruct (Unmarshal_string data) as [input|]; [|done].
      destruct (block_tag input) as [bn|] eqn:Et.
      { intros [= <-]. apply block_tag_Some in Et. cbn. split; [auto|]. split; [lia|eauto]. }
      destruct (_ =? 66)%nat; [destruct (Hash_UnmarshalText input); [|done]; intros [= <-]; cbn; eauto 10|].
      destruct (DecodeUint64 input) as [m|] eqn:E; [|done]. destruct (Z.gtb_spec m MaxInt64); [done|]. intros [= <-].
      apply Hd in E. unfold in_u, MaxInt64 in *. cbn. rewrite wraps_id by (unfold in_s; lia). split; [auto|]. split; [lia|eauto].
  - intros t Ht Hl literal. unfold BlockNumber_UnmarshalJSON, BlockNumberOrHash_UnmarshalJSON.
    rewrite (strip_quotes_quoted t : strip_quotes (TrimSpace literal) = t). destruct (plain_literal t Ht) as (Hv & Hs & Hsh). fold literal in Hv, Hs, Hsh.
    unfold Unmarshal_erased, Unmarshal_string. rewrite Hv, Hs, Hsh. cbn [negb].
    unfold unquote. rewrite unquote_n_plain by done.
    destruct (block_tag t); [done|]. rewrite (proj2 (Nat.eqb_neq _ _)) by done.
    destruct (DecodeUint64 t); [|done]. by destruct (_ >? _)%Z.
Qed.
End types_props.

(** ** Examples *)

(** Decoding of quantities that only knows small ones. *)
Definition ex_DecodeUint64 (s : string) : result string Z :=
  if decide (s = "0x10") then Ok 16%Z
  else if decide (s = "0xffffffffffffffff") then Ok (2 ^ 64 - 1)%Z else Err "invalid hex string".

Lemma ex_DecodeUint64_range s n : ex_DecodeUint64 s = Ok n → in_u 64 n.
Proof. unfold ex_DecodeUint64. repeat case_decide; intros [= <-]; done. Qed.

Lemma BlockNumber_UnmarshalJSON_spec_witness :
  BlockNumber_UnmarshalJSON ex_DecodeUint64 (quote "0x10") = Ok 16%Z ∧
  BlockNumber_UnmarshalJSON ex_DecodeUint64 "0xffffffffffffffff " = Err (TErrorf "block number larger than int64") ∧
  strip_quotes (TrimSpace (quote "0x10")) = "0x10".
Proof.
  split; [|split]; [reflexivity..|].
  apply (BlockNumber_UnmarshalJSON_spec ex_DecodeUint64 (quote "0x10") ex_DecodeUint64_range).
Defined.

Lemma BlockNumberOrHash_UnmarshalJSON_spec_witness :
  BlockNumberOrHash_UnmarshalJSON (H:=string) ex_DecodeUint64 (λ s, Ok s) (λ s, Ok s) (quote "pending") zero_bnh =
    Ok (BlockNumberOrHashWithNumber (-2)) ∧
  (bnh_BlockNumber (BlockNumberOrHashWithNumber (H:=string) (-2)) = None ∨
   bnh_BlockHash (BlockNumberOrHashWithNumber (H:=string) (-2)) = None).
Proof.
  split; [reflexivity|].
  apply (BlockNumberOrHash_UnmarshalJSON_spec (H:=string) ex_DecodeUint64 (λ s, Ok s) (λ s, Ok s) (quote "pending")
    ex_DecodeUint64_range). reflexivity.
Defined.
