(* ===== verification/RpcServer.v ===== *)
(** * The server (simple_rpc/rpc/server.go, endpoints.go, ipc.go)

    The goroutines of [ServeCodec] and [Stop] are threads over the server's run
    flag and its set of codecs.  [mapset.Set] is third-party: it is an interface
    with its laws, among them that [Each] ends when its callback returns true, as the
    callback of [Stop] does.  A request served on its own ([serveSingleRequest]), the
    listener's loop and the endpoint's start-up are functions. *)

From S2P Require Import Prelude GoText Json RpcMessage RpcArgs RpcService GoChan.
From S2P Require Import RpcSubscription RpcClientSub RpcHandler RpcHandlerProps.

(** ** The set of codecs *)

(** A thread-safe set: each operation is atomic. *)
Class CodecSet (S : Type) := {
  set_New : S;
  set_Add : nat → S → S;
  set_Remove : nat → S → S;
  set_elements : S → list nat;
  set_New_spec : set_elements set_New = [];
  set_Add_spec c d s : d ∈ set_elements (set_Add c s) ↔ d = c ∨ d ∈ set_elements s;
  set_Remove_spec c d s : d ∈ set_elements (set_Remove c s) ↔ d ≠ c ∧ d ∈ set_elements s }.

(** [Each] calls the callback on the elements, in whatever order, and stops when it
    returns true. *)
Fixpoint set_Each {X} (order : list nat) (cb : nat → X → bool * X) (x : X) : X :=
  match order with
  | [] => x
  | c :: order => let '(stop, x) := cb c x in if stop : bool then x else set_Each order cb x
  end.

Section server.
Context {S : Type} `{CodecSet S} {body : Type}.

Record Server := mkServer {
  sv_services : serviceRegistry body;
  sv_run : Z;
  sv_codecs : S }.

Definition set_run (r : Z) (s : Server) : Server := mkServer (sv_services s) r (sv_codecs s).
Definition upd_codecs (f : S → S) (s : Server) : Server := mkServer (sv_services s) (sv_run s) (f (sv_codecs s)).

(** ** Serving connections *)

(** The points of [ServeCodec]: the check of the run flag, adding the codec,
    [initClient], waiting for the codec to be closed, [c.Close()] on the client, the two
    deferred calls. *)
Inductive serve_pc := SvCheck | SvAdd | SvInit | SvWait | SvClient | SvRemove | SvClose | SvDone.
(** The points of [Stop]: the compare-and-swap, the loop over the set. *)
Inductive stop_pc := SpSwap | SpEach | SpDone.

Record serving := mkServing {
  sr_server : Server;
  sr_closed : list nat;                 (* codecs that have been closed *)
  sr_quit : list nat;                   (* codecs whose client has closed [didClose] *)
  sr_serves : list (nat * serve_pc);    (* a goroutine for each codec *)
  sr_stops : list stop_pc }.

Definition upd_server (f : Server → Server) (st : serving) : serving :=
  mkServing (f (sr_server st)) (sr_closed st) (sr_quit st) (sr_serves st) (sr_stops st).
Definition close_codecs (l : list nat) (st : serving) : serving :=
  mkServing (sr_server st) (l ++ sr_closed st) (sr_quit st) (sr_serves st) (sr_stops st).
Definition quit_client (c : nat) (st : serving) : serving :=
  mkServing (sr_server st) (sr_closed st) (c :: sr_quit st) (sr_serves st) (sr_stops st).
Definition set_serve (i c : nat) (pc : serve_pc) (st : serving) : serving :=
  mkServing (sr_server st) (sr_closed st) (sr_quit st) (<[i := (c, pc)]> (sr_serves st)) (sr_stops st).
Definition set_stop (i : nat) (pc : stop_pc) (st : serving) : serving :=
  mkServing (sr_server st) (sr_closed st) (sr_quit st) (sr_serves st) (<[i := pc]> (sr_stops st)).

(** A step of the goroutine of [ServeCodec(c)] at its point. *)
Definition ServeCodec_step (i c : nat) (pc : serve_pc) (st : serving) : option serving :=
  match pc with
  | SvCheck =>                                          (* atomic.LoadInt32(&s.run) *)
      Some (set_serve i c (if decide (sv_run (sr_server st) = 0%Z) then SvClose else SvAdd) st)
  | SvAdd => Some (set_serve i c SvInit (upd_server (upd_codecs (set_Add c)) st))
  | SvInit => Some (set_serve i c SvWait st)
  | SvWait => if decide (c ∈ sr_closed st) then Some (set_serve i c SvClient st) else None
  | SvClient => if decide (c ∈ sr_quit st) then Some (set_serve i c SvRemove st) else None
  | SvRemove => Some (set_serve i c SvClose (upd_server (upd_codecs (set_Remove c)) st))
  | SvClose => Some (set_serve i c SvDone (close_codecs [c] st))
  | SvDone => None
  end.

(** The callback of [Stop] closes the codec and returns true. *)
Definition Stop_callback (c : nat) (st : serving) : bool * serving := (true, close_codecs [c] st).

(** A step of a goroutine of [Stop]; [order] is that of [Each]. *)
Definition Stop_step (i : nat) (pc : stop_pc) (order : list nat) (st : serving) : option serving :=
  match pc with
  | SpSwap =>                                           (* atomic.CompareAndSwapInt32(&s.run, 1, 0) *)
      if decide (sv_run (sr_server st) = 1%Z) then Some (set_stop i SpEach (upd_server (set_run 0) st))
      else Some (set_stop i SpDone st)
  | SpEach => Some (set_stop i SpDone (set_Each order Stop_callback st))
  | SpDone => None
  end.

(** What the server does by itself. *)
Inductive server_step : serving → serving → Prop :=
| sv_serve st i c pc st' :
    sr_serves st !! i = Some (c, pc) → ServeCodec_step i c pc st = Some st' → server_step st st'
| sv_stop st i pc order st' :
    sr_stops st !! i = Some pc → order ≡ₚ set_elements (sv_codecs (sr_server st)) →
    Stop_step i pc order st = Some st' → server_step st st'
| sv_call_stop st :
    server_step st (mkServing (sr_server st) (sr_closed st) (sr_quit st) (sr_serves st) (sr_stops st ++ [SpSwap]))
| sv_accept st c :                                      (* go s.ServeCodec(NewCodec(conn), 0) *)
    c ∉ (sr_serves st).*1 → c ∉ sr_closed st →
    server_step st (mkServing (sr_server st) (sr_closed st) (sr_quit st) (sr_serves st ++ [(c, SvCheck)]) (sr_stops st)).

(** The client that serves a connection: when the connection goes down it closes the
    codec, and it ends when it is closed (see {!RpcClose}). *)
Inductive conn_step : serving → serving → Prop :=
| sv_down st i c : sr_serves st !! i = Some (c, SvWait) → conn_step st (close_codecs [c] st)
| sv_quit st i c : sr_serves st !! i = Some (c, SvClient) → conn_step st (quit_client c st).

Definition step st st' : Prop := server_step st st' ∨ conn_step st st'.

(** ** Services *)

(** [API]. *)
Record API := mkAPI { api_Namespace : string; api_Version : string; api_Service : receiver body; api_Public : bool }.

Variable ToLower : string → string.
(** The function value of [RPCService.Modules]. *)
Variable modules_body : body.

Definition MetadataApi : string := "rpc".

Definition RPCService : receiver body :=
  mkReceiver "*rpc.RPCService"
    [mkMethod "Modules" "" (mkFunc [TPtr (TNamed "rpc.RPCService" false)] [TNamed "map[string]string" false] modules_body)].

(** [Server.RegisterName]. *)
Definition RegisterName (name : string) (rcvr : receiver body) (s : Server) : result gerror Server :=
  match registerName ToLower name rcvr (sv_services s) with
  | Ok r => Ok (mkServer r (sv_run s) (sv_codecs s))
  | Err e => Err e
  end.

(** [NewServer] drops the result of registering. *)
Definition NewServer : Server :=
  let server := mkServer (mkRegistry ∅) 1 set_New in
  match RegisterName MetadataApi RPCService server with Ok s => s | Err _ => server end.

(** [RPCService.Modules]: a version for every registered name. *)
Definition Modules (s : Server) : gmap string string := (λ _, "1.0") <$> services (sv_services s).

(** The loop of [StartIPCEndpoint]. *)
Fixpoint register_all (apis : list API) (s : Server) : result gerror Server :=
  match apis with
  | [] => Ok s
  | api :: apis =>
      match RegisterName (api_Namespace api) (api_Service api) s with
      | Err e => Err e
      | Ok s => register_all apis s
      end
  end.

(** [StartIPCEndpoint], with [ipcListen] for the platform's listener; the
    listener's loop runs in a goroutine. *)
Definition StartIPCEndpoint {L} (ipcListen : string → result gerror L) (ipcEndpoint : string) (apis : list API) :
    result gerror (L * Server) :=
  match register_all apis NewServer with
  | Err e => Err e
  | Ok handler =>
      match ipcListen ipcEndpoint with
      | Err e => Err e
      | Ok listener => Ok (listener, handler)
      end
  end.

(** [ServeListener] on what [Accept] returns: the connections served and the error
    it ends with, if any; [netutil.IsTemporaryError] is an argument. *)
Fixpoint ServeListener {C} (IsTemporaryError : gerror → bool) (accepts : list (result gerror C)) :
    list C * option gerror :=
  match accepts with
  | [] => ([], None)
  | Err e :: accepts => if IsTemporaryError e then ServeListener IsTemporaryError accepts else ([], Some e)
  | Ok conn :: accepts => let '(l, e) := ServeListener IsTemporaryError accepts in (conn :: l, e)
  end.
End server.
Arguments Server : clear implicits.
Arguments serving : clear implicits.
Arguments API : clear implicits.

(** ** A single request *)

Section single.
Context {W : Type} `{JsonWriter W} {V : Type}.
Context (decode_as : gotype → string → result string V) (Zero : gotype → V)
  (text : decError → string) (as_ID : V → string) (idgen : nat → string).
Abbreviation handler := (handler W V).

(** The goroutines of the calls that are running, one after the other. *)
Fixpoint run_calls (n : nat) : go handler unit :=
  match n with O => mret () | S n => run_call decode_as Zero text as_ID idgen 0 ;; run_calls n end.

(** [h.close(io.EOF, nil)], which waits for the calls. *)
Definition close_single : go handler unit :=
  h ← go_get;
  run_calls (length (h_callWG h)) ;;
  standing ← close_handler EOF None;
  match standing with None => mret () | Some _ => go_block "sync.Once" end.

(** [newHandler] on a connection, with the heaps of the program. *)
Definition fresh_handler (h : handler) : handler :=
  newHandler (h_conn h) (h_reg h) (h_ops h) (h_subids h) (h_quits h) (h_next h) (h_ids h) (h_gauges h).

(** [serveSingleRequest] on a server with run flag [run]; [readBatch] returns
    [read]; the connection, the services and the heaps are those of the state. *)
Definition serveSingleRequest (run : Z) (read : result gerror (list jsonrpcMessage * bool)) : go handler unit :=
  if decide (run = 0%Z) then mret ()
  else
    go_modify fresh_handler ;;
    go_modify (set_allowSubscribe false) ;;
    match read with
    | Err err =>
        (if decide (err = EOF) then mret ()
         else go_modify (write_conn (WMsg (errorMessage (EInvalidMessage "parse error"))))) ;;
        close_single
    | Ok (reqs, batch) =>
        (if (batch : bool) then handleBatch text reqs
         else match reqs with req :: _ => handleMsg text req | [] => go_panic "index out of range" end) ;;
        close_single
    end.
End single.

(** ** Invariants of serving *)

Section server_props.
Context {S : Type} `{CodecSet S} {body : Type}.
Abbreviation serving := (serving S body).
Implicit Types st : serving.

(** The codec is in the set from [SvInit] to [SvRemove]. *)
Definition listed (pc : serve_pc) : bool := match pc with SvInit | SvWait | SvClient | SvRemove => true | _ => false end.

Record serving_inv st : Prop := {
  si_nodup i j c pc pc' : sr_serves st !! i = Some (c, pc) → sr_serves st !! j = Some (c, pc') → i = j;
  si_set c : c ∈ set_elements (sv_codecs (sr_server st)) ↔ ∃ i pc, sr_serves st !! i = Some (c, pc) ∧ listed pc = true;
  si_closed i c pc : sr_serves st !! i = Some (c, pc) → pc = SvClient ∨ pc = SvRemove ∨ pc = SvDone → c ∈ sr_closed st;
  si_run : sv_run (sr_server st) = 0%Z ∨ sv_run (sr_server st) = 1%Z;
  si_stop i : sr_stops st !! i = Some SpEach → sv_run (sr_server st) = 0%Z;
  si_one i j : sr_stops st !! i = Some SpEach → sr_stops st !! j = Some SpEach → i = j }.

(** A goroutine of [ServeCodec] moves to a point where its codec is listed or not
    as the set says. *)
Lemma serving_inv_move st i c pc pc' (f : S → S) closed :
  serving_inv st → sr_serves st !! i = Some (c, pc) →
  (∀ d, d ∈ set_elements (f (sv_codecs (sr_server st))) ↔
     (d ≠ c ∧ d ∈ set_elements (sv_codecs (sr_server st))) ∨ (d = c ∧ listed pc' = true)) →
  (pc' = SvClient ∨ pc' = SvRemove ∨ pc' = SvDone → c ∈ closed) → (∀ d, d ∈ sr_closed st → d ∈ closed) →
  serving_inv (mkServing (upd_codecs f (sr_server st)) closed (sr_quit st) (<[i := (c, pc')]> (sr_serves st)) (sr_stops st)).
Proof.
  intros [I1 I2 I3 I4 I5 I6] Hi Hset Hc Hmono. assert (i < length (sr_serves st))%nat as Hlt by (by eapply lookup_lt_Some).
  split; cbn; try done.
  - intros j k d p p' [[-> E1]|[Hj1 Hj]]%lookup_insert_cases [[-> E2]|[Hk1 Hk]]%lookup_insert_cases;
      simplify_eq; try done; by eapply I1.
  - intros d. rewrite Hset, I2. split.
    + intros [[Hne (j & p & Hj & Hp)]|[-> Hp]].
      * exists j, p. rewrite list_lookup_insert_ne; [done|]. intros <-. by simplify_eq.
      * exists i, pc'. by rewrite list_lookup_insert_eq.
    + intros (j & p & [[-> [= -> ->]]|[Hj1 Hj]]%lookup_insert_cases & Hp); [by right|]. left.
      split; [intros ->; by destruct Hj1; eapply I1|eauto].
  - intros j d p [[-> [= -> ->]]|[Hj1 Hj]]%lookup_insert_cases Hp; [by apply Hc|]. by eapply Hmono, I3.
Qed.

Lemma ServeCodec_step_inv st i c pc st' :
  sr_serves st !! i = Some (c, pc) → ServeCodec_step i c pc st = Some st' → serving_inv st → serving_inv st'.
Proof.
  intros Hi Hs I. pose proof (si_set _ I c) as Hc.
  assert (∀ d, d ∈ set_elements (sv_codecs (sr_server st)) ↔
     (d ≠ c ∧ d ∈ set_elements (sv_codecs (sr_server st))) ∨ (d = c ∧ listed pc = true)) as Hsame.
  { intros d. destruct (decide (d = c)) as [->|]; [|tauto]. rewrite Hc. split.
    - intros (j & p & Hj & Hp). right. assert (j = i) as -> by (by eapply (si_nodup _ I)). by simplify_eq.
    - intros [[? _]|[_ Hp]]; [done|eauto]. }
  assert (∀ pc' closed, listed pc' = listed pc → (pc' = SvClient ∨ pc' = SvRemove ∨ pc' = SvDone → c ∈ closed) →
    (∀ d, d ∈ sr_closed st → d ∈ closed) →
    serving_inv (mkServing (upd_codecs id (sr_server st)) closed (sr_quit st) (<[i := (c, pc')]> (sr_serves st)) (sr_stops st))) as Hmv.
  { intros pc' closed E. apply serving_inv_move with pc; [done|done|]. by rewrite E. }
  assert (upd_codecs id (sr_server st) = sr_server st) as Hid by (by destruct (sr_server st)).
  rewrite Hid in Hmv. destruct pc; cbn in Hs.
  - injection Hs as <-. apply Hmv; [by case_decide|case_decide; intros [|[]]; done|done].
  - injection Hs as <-. apply (serving_inv_move st i c SvAdd SvInit (set_Add c) (sr_closed st)); [done|done| |by intros [|[]]|done].
    intros d. rewrite set_Add_spec, Hsame. cbn. destruct (decide (d = c)); naive_solver.
  - injection Hs as <-. apply Hmv; [done|by intros [|[]]|done].
  - case_decide; [|done]. injection Hs as <-. by apply Hmv.
  - case_decide; [|done]. injection Hs as <-. apply Hmv; [done| |done]. intros _. eapply (si_closed _ I); [exact Hi|auto].
  - injection Hs as <-. apply (serving_inv_move st i c SvRemove SvClose (set_Remove c) (sr_closed st)); [done|done| |by intros [|[]]|done].
    intros d. rewrite set_Remove_spec. cbn. naive_solver.
  - injection Hs as <-. apply Hmv; [done|intros _; by left|intros d Hd; by right].
  - done.
Qed.

(** [Stop] closes the first codec that [Each] comes to. *)
Lemma set_Each_stops order st :
  set_Each order Stop_callback st = match order with [] => st | c :: _ => close_codecs [c] st end.
Proof. by destruct order. Qed.

Lemma Stop_step_fields i pc order st st' :
  Stop_step i pc order st = Some st' →
  sr_serves st' = sr_serves st ∧ sv_codecs (sr_server st') = sv_codecs (sr_server st) ∧
  (∀ c, c ∈ sr_closed st → c ∈ sr_closed st') ∧
  match pc with
  | SpSwap => sv_run (sr_server st) = 1%Z ∧ sv_run (sr_server st') = 0%Z ∧ sr_stops st' = <[i := SpEach]> (sr_stops st) ∨
              sv_run (sr_server st') = sv_run (sr_server st) ∧ sr_stops st' = <[i := SpDone]> (sr_stops st)
  | _ => sv_run (sr_server st') = sv_run (sr_server st) ∧ sr_stops st' = <[i := SpDone]> (sr_stops st)
  end.
Proof.
  destruct pc; cbn; [case_decide|rewrite set_Each_stops|done]; intros [= <-]; cbn; auto 10.
  destruct order; cbn; split_and!; try done. intros c. by right.
Qed.

Lemma Stop_step_inv st i pc order st' :
  sr_stops st !! i = Some pc → Stop_step i pc order st = Some st' → serving_inv st → serving_inv st'.
Proof.
  intros Hi (E1 & E2 & E3 & E4)%Stop_step_fields [I1 I2 I3 I4 I5 I6]. split; rewrite ?E1, ?E2; try done.
  - intros j c p Hj Hp. by eapply E3, I3.
  - destruct pc; [destruct E4 as [(_ & -> & _)|[-> _]]|destruct E4 as [-> _]..]; auto.
  - destruct pc; [destruct E4 as [(_ & -> & ->)|[-> ->]]|destruct E4 as [-> ->]..]; [done|..];
      intros j [[_ ?]|[_ Hj]]%lookup_insert_cases; try done; by eapply I5.
  - destruct pc; [destruct E4 as [(R & _ & ->)|[_ ->]]|destruct E4 as [_ ->]..];
      intros j k [[E ?]|[_ Hj]]%lookup_insert_cases [[E' ?]|[_ Hk]]%lookup_insert_cases; try done; try (by eapply I6); try congruence.
    + apply I5 in Hk. congruence.
    + apply I5 in Hj. congruence.
Qed.

Lemma step_inv st st' : step st st' → serving_inv st → serving_inv st'.
Proof.
  intros [[? i c pc ? Hi Hs|? i pc order ? Hi Ho Hs|?|? c Hf Hc]|[? i c Hi|? i c Hi]] I.
  - by eapply ServeCodec_step_inv.
  - by eapply Stop_step_inv.
  - destruct I as [I1 I2 I3 I4 I5 I6]. split; cbn; try done.
    + intros i [Hi|[_ [_ ?]%list_lookup_singleton_Some]]%lookup_app_Some; [by eapply I5|done].
    + intros i j [Hi|[_ [_ ?]%list_lookup_singleton_Some]]%lookup_app_Some; [|done].
      intros [Hj|[_ [_ ?]%list_lookup_singleton_Some]]%lookup_app_Some; [by eapply I6|done].
  - destruct I as [I1 I2 I3 I4 I5 I6].
    assert (∀ i pc, sr_serves st0 !! i ≠ Some (c, pc)) as Hn.
    { intros i pc Hi. apply Hf. apply list_elem_of_fmap. exists (c, pc). split; [done|]. by eapply list_elem_of_lookup_2. }
    split; cbn; try done.
    + intros i j d p p' [Hi|[Hi1 [Hi2 E1]%list_lookup_singleton_Some]]%lookup_app_Some
        [Hj|[Hj1 [Hj2 E2]%list_lookup_singleton_Some]]%lookup_app_Some; simplify_eq.
      * by eapply I1.
      * by apply Hn in Hi.
      * by apply Hn in Hj.
      * lia.
    + intros d. rewrite I2. split.
      * intros (i & p & Hi & Hp). exists i, p. split; [by apply lookup_app_l_Some|done].
      * intros (i & p & [Hi|[_ [_ [= <- <-]]%list_lookup_singleton_Some]]%lookup_app_Some & Hp); [eauto|done].
    + intros i d p [Hi|[_ [_ [= <- <-]]%list_lookup_singleton_Some]]%lookup_app_Some Hp; [by eapply I3|].
      by destruct Hp as [|[]].
  - destruct I as [I1 I2 I3 I4 I5 I6]. split; cbn; try done. intros j d p Hj Hp. right. by eapply I3.
  - destruct I as [I1 I2 I3 I4 I5 I6]. by split.
Qed.

(** A server with services, before it serves. *)
Definition initial (s : Server S body) : serving := mkServing s [] [] [] [].
Definition sreachable st : Prop := ∃ reg, rtc step (initial (mkServer reg 1 set_New)) st.

Lemma sreachable_inv st : sreachable st → serving_inv st.
Proof.
  intros [reg Hr]. eapply (rtc_ind_r serving_inv); [|intros x y _ Hs Hx; by eapply step_inv|exact Hr].
  split; cbn; [done| |done|by right|done|done]. intros c. rewrite set_New_spec. split; [by intros ?%elem_of_nil|].
  by intros (i & pc & Hi & _).
Qed.

(** A codec offered to a stopped server is never served. *)
Definition refused (i c : nat) st : Prop :=
  sv_run (sr_server st) = 0%Z ∧ ∃ pc, sr_serves st !! i = Some (c, pc) ∧ (pc = SvCheck ∨ pc = SvClose ∨ pc = SvDone).

Lemma serve_other st st' i j c pc d pc' :
  sr_serves st !! i = Some (c, pc) → ServeCodec_step i c pc st = Some st' → j ≠ i → sr_serves st !! j = Some (d, pc') →
  sr_serves st' !! j = Some (d, pc').
Proof.
  intros Hi Hs Hne Hj. assert (sr_serves st' = sr_serves st ∨ ∃ p, sr_serves st' = <[i := (c, p)]> (sr_serves st)) as [->|[p ->]].
  - destruct pc; cbn in Hs; try case_decide; try done; injection Hs as <-; eauto.
  - done.
  - by rewrite list_lookup_insert_ne.
Qed.

(** Once the flag is zero it stays zero. *)
Lemma run_stays st st' : step st st' → sv_run (sr_server st) = 0%Z → sv_run (sr_server st') = 0%Z.
Proof.
  intros [[? i c pc ? Hi Hs|? i pc order ? Hi Ho Hs|?|? c Hf Hc]|[? i c Hi|? i c Hi]] Hr; try done.
  - destruct pc; cbn in Hs; try case_decide; try done; by injection Hs as <-.
  - apply Stop_step_fields in Hs as (_ & _ & _ & E). destruct pc; [destruct E as [(_ & -> & _)|[-> _]]|destruct E as [-> _]..]; done.
Qed.

Lemma refused_step i c st st' : step st st' → refused i c st → refused i c st'.
Proof.
  intros Hst Href. split; [eapply run_stays; [done|apply Href]|].
  destruct Href as (Hr & pc & Hi & Hpc). revert Hr Hi.
  destruct Hst as [[st1 j d p st2 Hj Hs|st1 j p order st2 Hj Ho Hs|st1|st1 d Hf Hc]|[st1 j d Hj|st1 j d Hj]]; intros Hr Hi.
  - destruct (decide (i = j)) as [->|Hne]; [|exists pc; split; [by apply (serve_other st1 st2 j i d p c pc)|done]].
    simplify_eq. assert (j < length (sr_serves st1))%nat as Hlt by (by eapply lookup_lt_Some).
    destruct Hpc as [->|[->| ->]]; cbn in Hs; [|..|done].
    + rewrite decide_True in Hs by done. injection Hs as <-. exists SvClose. cbn. rewrite list_lookup_insert_eq; auto.
    + injection Hs as <-. exists SvDone. cbn. rewrite list_lookup_insert_eq; auto.
  - exists pc. split; [|done]. apply Stop_step_fields in Hs as (-> & _). done.
  - by exists pc.
  - exists pc. split; [by apply lookup_app_l_Some|done].
  - by exists pc.
  - by exists pc.
Qed.

(** A codec that is served by a stopped server. *)
Definition missed (i c : nat) st : Prop :=
  sv_run (sr_server st) = 0%Z ∧ sr_serves st !! i = Some (c, SvWait) ∧ (c ∉ sr_closed st) ∧
  (∀ j, sr_stops st !! j ≠ Some SpEach) ∧ (∀ j d pc, sr_serves st !! j = Some (d, pc) → d = c → j = i).

Lemma missed_step i c st st' : server_step st st' → missed i c st → missed i c st'.
Proof.
  intros Hst (Hr & Hi & Hc & Hsp & Hu).
  assert (sv_run (sr_server st') = 0%Z) as Hr' by (eapply run_stays; [by left|done]).
  revert Hr Hi Hc Hsp Hu Hr'.
  destruct Hst as [st1 j d p st2 Hj Hs|st1 j p order st2 Hj Ho Hs|st1|st1 d Hf Hcl]; intros Hr Hi Hc Hsp Hu Hr'.
  - assert (j ≠ i) as Hne.
    { intros ->. simplify_eq. cbn in Hs. by rewrite decide_False in Hs. }
    assert (d ≠ c) as Hdc by (intros ->; apply Hne; by eapply Hu).
    split_and!; [done|by apply (serve_other st1 st2 j i d p c SvWait)| | |].
    + destruct p; cbn in Hs; try case_decide; try done; injection Hs as <-; try done. cbn.
      by intros [?|?]%elem_of_cons.
    + destruct p; cbn in Hs; try case_decide; try done; by injection Hs as <-.
    + intros k e q Hk ->. destruct (decide (k = j)) as [->|Hkj].
      * destruct p; cbn in Hs; try case_decide; try done; injection Hs as <-; cbn in Hk;
          rewrite list_lookup_insert_eq in Hk by (by eapply lookup_lt_Some); by simplify_eq.
      * eapply Hu; [|done]. destruct p; cbn in Hs; try case_decide; try done; injection Hs as <-; cbn in Hk;
          by rewrite list_lookup_insert_ne in Hk by done.
  - destruct p; cbn in Hs; [rewrite decide_False in Hs by (rewrite Hr; done)| |done].
    + injection Hs as <-. split_and!; try done. intros k [[_ ?]|[_ Hk]]%lookup_insert_cases; [done|by eapply Hsp].
    + by apply Hsp in Hj.
  - split_and!; try done. intros k [Hk|[_ [_ ?]%list_lookup_singleton_Some]]%lookup_app_Some; [by eapply Hsp|done].
  - split_and!; try done; [by apply lookup_app_l_Some|].
    intros k e q [Hk|[_ [_ E]%list_lookup_singleton_Some]]%lookup_app_Some ->; [by eapply Hu|].
    simplify_eq. destruct Hf. apply list_elem_of_fmap. exists (c, SvWait). split; [done|]. by eapply list_elem_of_lookup_2.
Qed.

Lemma missed_stays i c st st' : missed i c st → rtc server_step st st' → sr_serves st' !! i = Some (c, SvWait) ∧ c ∉ sr_closed st'.
Proof.
  intros Hm Hs. assert (missed i c st') as (_ & ? & ? & _); [|done].
  eapply (rtc_ind_r (missed i c)); [exact Hm|intros x y _ Hxy; by apply missed_step|exact Hs].
Qed.

(** After the loop of [Stop]. *)
Lemma Stop_leaves st j order st' i d :
  serving_inv st → sr_stops st !! j = Some SpEach → Stop_step j SpEach order st = Some st' →
  sr_serves st !! i = Some (d, SvWait) → d ∉ sr_closed st' → missed i d st'.
Proof.
  intros I Hj Hs Hi Hd. pose proof Hs as (E1 & E2 & E3 & E4 & E5)%Stop_step_fields.
  split_and!; [rewrite E4; by eapply si_stop|by rewrite E1|done| |].
  - intros k. rewrite E5. intros [[_ ?]|[Hne Hk]]%lookup_insert_cases; [done|]. by destruct Hne; eapply (si_one _ I).
  - intros k e pc. rewrite E1. intros Hk ->. by eapply (si_nodup _ I).
Qed.

(** C19: every [ServeCodec] that has returned has closed its codec and taken it out
    of the set; a codec that is offered when the server is already stopped is
    never served, whatever happens afterwards; and the loop of [Stop], whose callback
    tells [Each] to stop, closes one codec of those in the set, the first that it comes
    to, so that the [ServeCodec] that waits for it goes on, and no other: each other
    codec that is being served then is served by the stopped server from then on, and
    nothing the server does, further calls of [Stop] among it, closes it. *)
Theorem ServeCodec_closes st :
  sreachable st →
  (∀ i c, sr_serves st !! i = Some (c, SvDone) → c ∈ sr_closed st ∧ c ∉ set_elements (sv_codecs (sr_server st))) ∧
  (∀ i c st', sv_run (sr_server st) = 0%Z → sr_serves st !! i = Some (c, SvCheck) → rtc step st st' →
     ∃ pc, sr_serves st' !! i = Some (c, pc) ∧ (pc = SvCheck ∨ pc = SvClose ∨ pc = SvDone)) ∧
  (∀ j order, sr_stops st !! j = Some SpEach → order ≡ₚ set_elements (sv_codecs (sr_server st)) →
     sv_run (sr_server st) = 0%Z ∧
     ∃ st', Stop_step j SpEach order st = Some st' ∧ sr_closed st' = match order with [] => sr_closed st | c :: _ => c :: sr_closed st end ∧
       ∀ i d, sr_serves st !! i = Some (d, SvWait) →
         (∃ c rest, order = c :: rest ∧ (d = c → is_Some (ServeCodec_step i d SvWait st')) ∧
            (d ≠ c → d ∉ sr_closed st → ∀ st2, rtc server_step st' st2 →
               sr_serves st2 !! i = Some (d, SvWait) ∧ d ∉ sr_closed st2))).
Proof.
  intros Hr. pose proof (sreachable_inv st Hr) as I. split_and!.
  - intros i c Hi. split; [eapply si_closed; eauto|]. rewrite (si_set _ I). intros (j & pc & Hj & Hp).
    assert (j = i) as -> by (by eapply (si_nodup _ I)). by simplify_eq.
  - intros i c st' H0 Hi Hs.
    assert (refused i c st') as [_ ?]; [|done].
    eapply (rtc_ind_r (refused i c)); [split; [done|]; by eauto| |exact Hs]. intros x y _ Hxy. by apply refused_step.
  - intros j order Hj Hp. split; [by eapply si_stop|]. eexists. split; [reflexivity|]. cbn. rewrite set_Each_stops.
    split; [by destruct order|]. intros i d Hi.
    assert (d ∈ order) as Hd by (rewrite Hp, (si_set _ I); by exists i, SvWait).
    destruct order as [|c rest]; [by apply elem_of_nil in Hd|]. exists c, rest. split; [done|]. split.
    + intros ->. unfold ServeCodec_step. rewrite decide_True by by left. eauto.
    + intros Hne Hncl st2 Hs. eapply missed_stays; [|exact Hs].
      apply (Stop_leaves st j (c :: rest)); [done|done|by cbn; rewrite ?set_Each_stops|done|].
      cbn. by intros [?|?]%elem_of_cons.
Qed.

(** a connection that is accepted while the server stops can be missed: a
    [ServeCodec] that has checked the flag before [Stop] clears it, and adds its
    codec after [Stop] has gone through the set, serves a stopped server, and
    nothing the server does, further calls of [Stop] among it, closes the codec. *)
Theorem Stop_misses_codec (reg : serviceRegistry body) :
  ∃ st : serving, sreachable st ∧ sr_stops st = [SpDone] ∧ sv_run (sr_server st) = 0%Z ∧
    ∀ st', rtc server_step st st' → sr_serves st' !! 0%nat = Some (0%nat, SvWait) ∧ 0%nat ∉ sr_closed st'.
Proof.
  set (srv (r : Z) (s : S) := mkServer reg r s).
  set (st1 := mkServing (srv 1%Z set_New) [] [] [(0%nat, SvCheck)] []).
  set (st2 := mkServing (srv 1%Z set_New) [] [] [(0%nat, SvAdd)] []).
  set (st3 := mkServing (srv 1%Z set_New) [] [] [(0%nat, SvAdd)] [SpSwap]).
  set (st4 := mkServing (srv 0%Z set_New) [] [] [(0%nat, SvAdd)] [SpEach]).
  set (st5 := mkServing (srv 0%Z set_New) [] [] [(0%nat, SvAdd)] [SpDone]).
  set (st6 := mkServing (srv 0%Z (set_Add 0%nat set_New)) [] [] [(0%nat, SvInit)] [SpDone]).
  set (st7 := mkServing (srv 0%Z (set_Add 0%nat set_New)) [] [] [(0%nat, SvWait)] [SpDone]).
  exists st7. split; [|split; [done|split; [done|]]].
  - exists reg. apply (rtc_l _ _ st1); [left; apply (sv_accept (initial (srv 1%Z set_New)) 0%nat); by intros ?%elem_of_nil|].
    apply (rtc_l _ _ st2); [left; by apply (sv_serve st1 0%nat 0%nat SvCheck)|].
    apply (rtc_l _ _ st3); [left; exact (sv_call_stop st2)|].
    apply (rtc_l _ _ st4); [left; by apply (sv_stop st3 0%nat SpSwap (set_elements set_New))|].
    apply (rtc_l _ _ st5); [left; apply (sv_stop st4 0%nat SpEach []); [done|cbn; by rewrite set_New_spec|done]|].
    apply (rtc_l _ _ st6); [left; by apply (sv_serve st5 0%nat 0%nat SvAdd)|].
    apply rtc_once. left. by apply (sv_serve st6 0%nat 0%nat SvInit).
  - intros st' Hs. eapply missed_stays; [|exact Hs].
    split_and!; try done; [by intros ?%elem_of_nil|by intros [|[]]|]. by intros [|j] d pc.
Qed.
End server_props.
