(* ===== verification/RpcServerProps.v ===== *)
(** * Properties of single requests and of endpoints

    What [serveSingleRequest] writes, and the services of a server that
    [StartIPCEndpoint] has started. *)

From S2P Require Import Prelude GoText Json RpcMessage RpcArgs RpcService GoChan.
From S2P Require Import RpcSubscription RpcClientSub RpcHandler RpcHandlerProps RpcServer.

Section single_props.
Context {W : Type} `{JsonWriter W} {V : Type}.
Context (decode_as : gotype → string → result string V) (Zero : gotype → V)
  (text : decError → string) (as_ID : V → string) (idgen : nat → string).
Abbreviation handler := (handler W V).
Implicit Types h : handler.

(** Closing a handler writes nothing. *)
Lemma cancel_server_subs_conn err l h u h' :
  go_for l (cancel_server_sub err) h = Ret (u, h') → h_conn h' = h_conn h.
Proof.
  revert h. induction l as [|e l IH]; intros h; cbn [go_for]; [by intros [= _ <-]|].
  intros (x & h1 & E1 & E2)%go_bind_inv. rewrite (IH _ E2). unfold cancel_server_sub in E1.
  apply go_bind_inv in E1 as (y & h2 & E1 & E3). apply go_bind_inv in E3 as (z & h3 & E3 & E4).
  assert (∀ A (f : go (chan gerror) A) g a g', on_subErr (W:=W) (V:=V) (sub_err e.2) f g = Ret (a, g') → h_conn g' = h_conn g) as Hs.
  { intros A f g a g'. unfold on_subErr. destruct (h_subErrs g !! _); [|done].
    destruct (f _) as [[a' c']| |]; cbn; [|done..]. by intros [= _ <-]. }
  injection E4; intros; subst. cbn. by rewrite (Hs _ _ _ _ _ E3), (Hs _ _ _ _ _ E1).
Qed.

Lemma close_idle err infl h :
  inv h → h_callWG h = [] → h_clientSubs h = ∅ →
  ∃ h', close_handler err infl h = Ret (None, h') ∧ h_conn h' = h_conn h.
Proof.
  intros [A B] Hwg Hsubs. destruct (cancelAllRequests_run idgen err infl h A) as (r & h1 & E & [R _ _ (quit & _ & _ & _ & St)]).
  assert (r = None) as ->.
  { eapply quit_stands_free; [exact St|]. rewrite Hsubs. intros [i s] Hin%elem_of_map_to_list. by rewrite lookup_empty in Hin. }
  destruct R as (R1 & R2 & R3 & R4 & R5). unfold close_handler. rewrite go_bind_run, E. unfold close_after, close_rest.
  rewrite go_bind_run, go_bind_run. cbn [go_get]. rewrite R4, Hwg, go_bind_run. cbn [go_modify].
  destruct (cancelServerSubscriptions_run err (cancelRoot h1)) as (h2 & E2 & _); [by apply (subs_ok_same h)|].
  exists h2. rewrite E2. split; [done|]. rewrite <-R5. unfold cancelServerSubscriptions in E2.
  rewrite go_bind_run in E2. cbn [go_get] in E2. by apply cancel_server_subs_conn in E2.
Qed.

(** The output of the calls that are running. *)
Definition jobs_output (j : option job) (out : list wireval) : Prop :=
  match j with
  | None => out = []
  | Some j => ∃ expected, job_output j expected ∧ call_output (W:=W) expected out
  end.

Lemma close_single_run j h :
  inv h → h_callWG h = option_list j → h_clientSubs h = ∅ →
  ∃ h', close_single decode_as Zero text as_ID idgen h = Ret ((), h') ∧ wrote (jobs_output j) (h_conn h) (h_conn h').
Proof.
  intros I Hwg Hsubs. unfold close_single. rewrite go_bind_run. cbn [go_get]. rewrite Hwg.
  destruct j as [j|].
  - change (length (option_list (Some j))) with 1%nat. cbn [run_calls]. rewrite go_bind_run, go_bind_run. unfold RpcHandler.run_call. rewrite go_bind_run. cbn [go_get]. rewrite Hwg.
    change (option_list (Some j) !! 0%nat) with (Some j). cbv beta iota. rewrite go_bind_run. cbn [go_modify].
    set (h1 := upd_callWG _ h). assert (inv h1) as [A1 B1] by (by apply inv_callWG).
    destruct (run_job_run decode_as Zero text as_ID idgen j h1 B1) as (h2 & exp & -> & C1 & C2 & C3 & C4).
    cbn [mret outcome_ret go_ret].
    destruct (close_idle EOF None h2) as (h' & E & Hc); [split; [by eapply same_client_ops_ok|done]| | |].
    { destruct C2 as (_ & _ & _ & _ & -> & _). cbn. by rewrite Hwg. }
    { by destruct C2 as (_ & _ & -> & _). }
    exists h'. rewrite go_bind_run, E. split; [done|]. rewrite Hc. intros l Hl. destruct (C4 l Hl) as (out & Ho & Hs).
    exists out. split; [|done]. by exists exp.
  - change (length (option_list None)) with 0%nat. cbn [run_calls]. rewrite go_bind_run.
    destruct (close_idle EOF None h I Hwg Hsubs) as (h' & E & Hc). exists h'. cbn [mret outcome_ret go_ret].
    rewrite go_bind_run, E. split; [done|]. rewrite Hc. intros l Hl. exists []. by rewrite app_nil_r.
Qed.

(** The goroutine that requests start: none when they were handled at once. *)
Definition started_job (reqs : list jsonrpcMessage) (batch : bool) (j : option job) : Prop :=
  match batch, reqs with
  | true, [] => j = Some JEmptyBatch
  | true, _ => ∃ calls, calls `sublist_of` reqs ∧ j = match calls with [] => None | _ => Some (JBatch calls) end
  | false, req :: _ =>
      (j = None ∨ j = Some (JMsg req)) ∧
      (isNotification req = false → j = if isResponse req then None else Some (JMsg req))
  | false, [] => False
  end.

(** No request waits on a new handler, so that no response finds one. *)
Lemma handleImmediate_fresh msg h b h' :
  h_respWait h = ∅ → handleImmediate text msg h = Ret (b, h') → h_respWait h' = ∅ ∧ h_clientSubs h' = h_clientSubs h.
Proof.
  intros Hw. unfold handleImmediate. destruct (isNotification msg).
  - destruct (HasSuffix _ _); [|by intros [= _ <-]]. intros (u & h1 & E1 & E2)%go_bind_inv.
    injection E2; intros; subst. unfold handleSubscriptionResult in E1.
    destruct (decode_subscriptionResult _) as [r|]; [|by injection E1; intros; subst].
    rewrite go_bind_run in E1. cbn [go_get] in E1. by destruct (h_clientSubs h !! _); injection E1; intros; subst.
  - destruct (isResponse msg); [|by intros [= _ <-]]. intros (u & h1 & E1 & E2)%go_bind_inv. injection E2; intros; subst.
    unfold handleResponse in E1. rewrite go_bind_run in E1. cbn [go_get] in E1. rewrite Hw, lookup_empty in E1.
    by injection E1; intros; subst.
Qed.

Lemma immediate_all_fresh msgs h l h' :
  h_respWait h = ∅ → immediate_all text msgs h = Ret (l, h') → h_clientSubs h' = h_clientSubs h.
Proof.
  revert h l h'. induction msgs as [|msg msgs IH]; intros h l h' Hw; cbn [immediate_all]; [by intros [= _ <-]|].
  intros (b & h1 & E1 & (l1 & h2 & E2 & E3)%go_bind_inv)%go_bind_inv. injection E3; intros; subst.
  apply handleImmediate_fresh in E1 as [Hw1 <-]; [|done]. by eapply IH.
Qed.

Lemma handle_started reqs batch h :
  inv h → h_callWG h = [] → h_respWait h = ∅ → (batch = false → reqs ≠ []) →
  ∃ j h', (if batch then handleBatch text reqs
           else match reqs with req :: _ => handleMsg text req | [] => go_panic "index out of range" end) h = Ret ((), h') ∧
    started_job reqs batch j ∧ inv h' ∧ h_callWG h' = option_list j ∧ h_conn h' = h_conn h ∧ h_clientSubs h' = h_clientSubs h.
Proof.
  intros [A B] Hwg Hrw Hne. destruct batch, reqs as [|req reqs]; [| |by destruct Hne|].
  - exists (Some JEmptyBatch). eexists. split; [reflexivity|]. split; [done|]. split; [by apply inv_callWG|].
    cbn. by rewrite Hwg.
  - unfold handleBatch. destruct (immediate_all_run text (req :: reqs) h A) as (calls & h1 & E & A1 & B1 & Hsub).
    pose proof (immediate_all_fresh _ _ _ _ Hrw E) as Hcs. rewrite go_bind_run, E. assert (inv h1) as I1 by (split; [done|by eapply same_rest_subs_ok]).
    destruct B1 as (_ & _ & _ & B4 & B5). destruct calls as [|call calls].
    + exists None, h1. split; [done|]. split; [by exists []|]. by rewrite B4, B5.
    + exists (Some (JBatch (call :: calls))). eexists. split; [reflexivity|].
      split; [by exists (call :: calls)|]. split; [by apply inv_callWG|]. cbn. by rewrite B4, Hwg.
  - unfold handleMsg. destruct (handleImmediate_run text req h A) as (b & h1 & E & A1 & B1 & _ & Hb).
    destruct (handleImmediate_fresh _ _ _ _ Hrw E) as [_ Hcs]. rewrite go_bind_run, E. assert (inv h1) as I1 by (split; [done|by eapply same_rest_subs_ok]).
    destruct B1 as (_ & _ & _ & B4 & B5). destruct b.
    + exists None, h1. split; [done|]. split; [|by rewrite B4, B5]. split; [by left|]. intros Hn. by rewrite <-Hb.
    + exists (Some (JMsg req)). eexists. split; [reflexivity|]. split; [|split; [by apply inv_callWG|cbn; by rewrite B4, Hwg]].
      split; [by right|]. intros Hn. by rewrite <-Hb.
Qed.

(** What [serveSingleRequest] has to write. *)
Definition single_output (run : Z) (read : result gerror (list jsonrpcMessage * bool)) (out : list wireval) : Prop :=
  if decide (run = 0%Z) then out = []
  else match read with
       | Err e =>
           if decide (e = EOF) then out = []
           else out = [WMsg (errorMessage (EInvalidMessage "parse error"))] ∨
                out = [] ∧ ¬ ∀ d v w, (jw_writeJSON (W:=W) d v w).1 = None
       | Ok (reqs, batch) => ∃ j, started_job reqs batch j ∧ jobs_output j out
       end.

(** C20: [serveSingleRequest] always returns, with a new handler on the connection,
    whatever the program has on its heaps: it waits for the goroutine of its call, and
    for nothing else.  A stopped server and a connection that ends write nothing, any
    other read error is answered with one invalid-message error (code -32600) with a
    null ID, and the requests read are answered as on a connection. *)
Theorem serveSingleRequest_spec run read h :
  read ≠ Ok ([], false) →
  ∃ h', serveSingleRequest decode_as Zero text as_ID idgen run read h = Ret ((), h') ∧
    wrote (single_output run read) (h_conn h) (h_conn h').
Proof.
  intros Hread. unfold serveSingleRequest, single_output. destruct (decide (run = 0%Z)).
  { exists h. split; [done|]. intros l Hl. exists []. by rewrite app_nil_r. }
  rewrite go_bind_run. cbn [go_modify]. rewrite go_bind_run. cbn [go_modify].
  set (h0 := set_allowSubscribe false (fresh_handler h)).
  assert (inv h0) as I0.
  { pose proof (inv_newHandler (h_conn h) (h_reg h) (h_ops h) (h_subids h) (h_quits h) (h_next h) (h_ids h) (h_gauges h)) as I.
    split; [by apply (ops_ok_same (fresh_handler h)), I|by apply (subs_ok_same (fresh_handler h)), I]. }
  destruct read as [[reqs batch]|e].
  - destruct (handle_started reqs batch h0 I0) as (j & h1 & E & Hj & I1 & W1 & C1 & Hs1); [done|done|by intros -> ->|].
    destruct (close_single_run j h1 I1 W1 Hs1) as (h' & E' & Hw).
    exists h'. rewrite go_bind_run, E. split; [exact E'|]. intros l Hl. rewrite C1 in Hw.
    destruct (Hw l Hl) as (out & Ho & Hs). eauto.
  - destruct (decide (e = EOF)); rewrite go_bind_run; cbn [mret go_ret go_modify].
    + destruct (close_single_run None h0 I0) as (h' & E' & Hw); [done..|]. exists h'. split; [exact E'|exact Hw].
    + set (v := WMsg (errorMessage (EInvalidMessage "parse error"))).
      destruct (close_single_run None (write_conn v h0)) as (h' & E' & Hw); [|done..|].
      { split; [by apply (ops_ok_same h0), I0|by apply (subs_ok_same h0), I0]. }
      exists h'. split; [exact E'|]. intros l Hl. destruct (write_conn_wrote v h0 l Hl) as (out & Ho & Hs).
      destruct (Hw _ Hs) as (out2 & -> & Hs2). rewrite app_nil_r in Hs2. exists out. split; [|done].
      destruct Ho as [->|[-> Hn]]; auto.
Qed.
End single_props.

Lemma serveSingleRequest_spec_witness :
  ∃ h', serveSingleRequest ex_decode (λ _, 0%Z) (λ _, "") (λ _, "") (λ _, "0x1") 1
          (Ok ([ex_call_msg], false)) ex_h = Ret ((), h') ∧ h_conn h' = [WMsg ex_answer].
Proof.
  destruct (serveSingleRequest_spec ex_decode (λ _, 0%Z) (λ _, "") (λ _, "") (λ _, "0x1") 1
    (Ok ([ex_call_msg], false)) ex_h) as (h' & E & _); [discriminate|].
  exists h'. split; [exact E|]. vm_compute in E. injection E as <-. reflexivity.
Defined.

(** ** Endpoints *)

Section endpoint.
Context {S : Type} `{CodecSet S} {body : Type}.
Context (ToLower : string → string) (modules_body : body).

Lemma NewServer_services :
  ∃ svc, services (sv_services (NewServer (S:=S) ToLower modules_body)) = {[ MetadataApi := svc ]} ∧
    callbacks svc !! "modules" =
      Some (mkCallback (mkFunc [TPtr (TNamed "rpc.RPCService" false)] [TNamed "map[string]string" false] modules_body)
              true [] false (-1) false).
Proof. eexists. split; [reflexivity|]. reflexivity. Qed.

Lemma registerName_services name rcvr (r : serviceRegistry body) :
  match registerName ToLower name rcvr r with
  | Ok r' => ∃ svc, services r' = <[name := svc]> (services r)
  | Err _ => name = "" ∨ suitableCallbacks ToLower rcvr = ∅
  end.
Proof. unfold registerName. case_decide; [by left|]. case_decide; [by right|]. by eexists. Qed.

(** A name under which nothing is registered any more keeps its methods. *)
Definition not_among (ns : string) (apis : list (API body)) : Prop := ns ∉ (api_Namespace <$> apis).

Lemma register_all_spec apis (s : Server S body) :
  match register_all ToLower apis s with
  | Ok s' =>
      sv_run s' = sv_run s ∧ sv_codecs s' = sv_codecs s ∧
      dom (services (sv_services s')) = list_to_set (api_Namespace <$> apis) ∪ dom (services (sv_services s)) ∧
      (∀ ns, not_among ns apis → services (sv_services s') !! ns = services (sv_services s) !! ns) ∧
      ∀ before api after m cb, apis = before ++ api :: after → not_among (api_Namespace api) after →
        reachable_name (api_Namespace api) → suitableCallbacks ToLower (api_Service api) !! m = Some cb →
        RpcService.isSubscribe cb = false → reg_callback (sv_services s') (api_Namespace api +:+ "_" +:+ m) = Some cb
  | Err _ => ∃ api, api ∈ apis ∧ (api_Namespace api = "" ∨ suitableCallbacks ToLower (api_Service api) = ∅)
  end.
Proof.
  revert s. induction apis as [|api apis IH]; intros s; cbn [register_all].
  { split_and!; [done|done|cbn; set_solver|done|]. intros before api after m cb Ha. by destruct before. }
  unfold RegisterName. pose proof (registerName_services (api_Namespace api) (api_Service api) (sv_services s)) as Hreg.
  destruct (registerName _ _ _ _) as [r|e] eqn:E; [|exists api; split; [by left|done]].
  destruct Hreg as [svc Hsvc]. specialize (IH (mkServer r (sv_run s) (sv_codecs s))).
  destruct (register_all _ _ _) as [s'|e']; [|destruct IH as (a & Ha & Hb); exists a; split; [by right|done]].
  destruct IH as (I1 & I2 & I3 & I4 & I5). cbn in I1, I2, I3, I4. split_and!; [done|done| | |].
  - rewrite I3, Hsvc, dom_insert_L. cbn. set_solver.
  - intros ns Hns. unfold not_among in *. cbn in Hns. apply not_elem_of_cons in Hns as [Hne Hns].
    rewrite I4, Hsvc by done. by rewrite lookup_insert_ne.
  - intros before a after m cb Ha Hlast Hname Hm Hs. destruct before as [|b before]; injection Ha as <- ->.
    + pose proof (registerName_callback ToLower _ _ _ _ m cb E Hname Hm Hs) as Hcb.
      unfold reg_callback in *. rewrite SplitN2_cons_spec in * by done. by rewrite I4.
    + by eapply I5.
Qed.

(** C21: a server that [StartIPCEndpoint] has started lists exactly the "rpc" service
    and the namespaces of the APIs in [Modules]; every suitable method of an API is
    reached by its namespace and name, unless a later API has the same namespace;
    and [rpc_modules] is reached unless an API takes the name.  It fails only when
    the listener does, or for an API with no namespace or no suitable method. *)
Theorem StartIPCEndpoint_spec {L} (ipcListen : string → result gerror L) ipcEndpoint (apis : list (API body)) :
  match StartIPCEndpoint (S:=S) ToLower modules_body ipcListen ipcEndpoint apis with
  | Ok (l, s) =>
      ipcListen ipcEndpoint = Ok l ∧ sv_run s = 1%Z ∧ set_elements (sv_codecs s) = [] ∧
      dom (Modules s) = list_to_set (api_Namespace <$> apis) ∪ {[ MetadataApi ]} ∧
      (not_among MetadataApi apis → cb_fn <$> reg_callback (sv_services s) "rpc_modules" =
         Some (mkFunc [TPtr (TNamed "rpc.RPCService" false)] [TNamed "map[string]string" false] modules_body)) ∧
      ∀ before api after m cb, apis = before ++ api :: after → not_among (api_Namespace api) after →
        reachable_name (api_Namespace api) → suitableCallbacks ToLower (api_Service api) !! m = Some cb →
        RpcService.isSubscribe cb = false → reg_callback (sv_services s) (api_Namespace api +:+ "_" +:+ m) = Some cb
  | Err e =>
      ipcListen ipcEndpoint = Err e ∨
      ∃ api, api ∈ apis ∧ (api_Namespace api = "" ∨ suitableCallbacks ToLower (api_Service api) = ∅)
  end.
Proof.
  unfold StartIPCEndpoint. pose proof (register_all_spec apis (NewServer ToLower modules_body)) as Hall.
  destruct (register_all _ _ _) as [s|e]; [|by right]. destruct Hall as (I1 & I2 & I3 & I4 & I5).
  destruct (ipcListen ipcEndpoint) as [l|e]; [|by left].
  destruct NewServer_services as (svc & Hsvc & Hcb). split_and!; [done|by rewrite I1|by rewrite I2; apply set_New_spec| | |done].
  - unfold Modules. rewrite dom_fmap_L, I3, Hsvc, dom_singleton_L. done.
  - intros Hn. change "rpc_modules" with ("rpc" +:+ "_" +:+ "modules"). unfold reg_callback.
    rewrite (SplitN2_cons_spec "rpc" "modules") by done. cbv iota beta. change "rpc" with MetadataApi. rewrite (I4 MetadataApi Hn), Hsvc, lookup_singleton_eq. cbn. by rewrite Hcb.
Qed.
End endpoint.

(** ** Stopping *)

#[export] Instance list_codecs : CodecSet (list nat).
Proof.
  refine {| set_New := []; set_Add c s := c :: s; set_Remove c s := filter (λ d, d ≠ c) s; set_elements s := s |}.
  - done.
  - intros c d s. apply elem_of_cons.
  - intros c d s. rewrite list_elem_of_filter. tauto.
Defined.

(** A server that is stopping while it serves two codecs. *)
Definition ex_serving : serving (list nat) unit :=
  mkServing (mkServer (mkRegistry ∅) 0 [8%nat; 7%nat]) [] [] [(7%nat, SvWait); (8%nat, SvWait)] [SpEach].

Lemma ex_serving_reachable : sreachable ex_serving.
Proof.
  set (srv r s := mkServer (mkRegistry (∅ : gmap string (service unit))) r (s : list nat)).
  set (st r s l := mkServing (srv r s) [] [] l []). exists (mkRegistry ∅).
  apply (rtc_l _ _ (st 1%Z [] [(7%nat, SvCheck)])); [left; apply (sv_accept (initial (srv 1%Z [])) 7%nat); by intros ?%elem_of_nil|].
  apply (rtc_l _ _ (st 1%Z [] [(7%nat, SvAdd)])); [left; by eapply (sv_serve _ 0%nat 7%nat SvCheck)|].
  apply (rtc_l _ _ (st 1%Z [7%nat] [(7%nat, SvInit)])); [left; by eapply (sv_serve _ 0%nat 7%nat SvAdd)|].
  apply (rtc_l _ _ (st 1%Z [7%nat] [(7%nat, SvWait)])); [left; by eapply (sv_serve _ 0%nat 7%nat SvInit)|].
  apply (rtc_l _ _ (st 1%Z [7%nat] [(7%nat, SvWait); (8%nat, SvCheck)])).
  { left. apply (sv_accept (st 1%Z [7%nat] [(7%nat, SvWait)]) 8%nat); [by intros ?%list_elem_of_singleton|by intros ?%elem_of_nil]. }
  apply (rtc_l _ _ (st 1%Z [7%nat] [(7%nat, SvWait); (8%nat, SvAdd)])); [left; by eapply (sv_serve _ 1%nat 8%nat SvCheck)|].
  apply (rtc_l _ _ (st 1%Z [8%nat; 7%nat] [(7%nat, SvWait); (8%nat, SvInit)])); [left; by eapply (sv_serve _ 1%nat 8%nat SvAdd)|].
  apply (rtc_l _ _ (st 1%Z [8%nat; 7%nat] [(7%nat, SvWait); (8%nat, SvWait)])); [left; by eapply (sv_serve _ 1%nat 8%nat SvInit)|].
  apply (rtc_l _ _ (mkServing (srv 1%Z [8%nat; 7%nat]) [] [] [(7%nat, SvWait); (8%nat, SvWait)] [SpSwap]));
    [left; exact (sv_call_stop (st 1%Z [8%nat; 7%nat] [(7%nat, SvWait); (8%nat, SvWait)]))|].
  apply rtc_once. left. by eapply (sv_stop _ 0%nat SpSwap [8%nat; 7%nat]).
Qed.

Lemma ServeCodec_closes_witness :
  ∃ st', Stop_step 0 SpEach [8%nat; 7%nat] ex_serving = Some st' ∧ sr_closed st' = [8%nat] ∧
    is_Some (ServeCodec_step 1 8 SvWait st') ∧
    ∀ st2, rtc server_step st' st2 → sr_serves st2 !! 0%nat = Some (7%nat, SvWait) ∧ 7%nat ∉ sr_closed st2.
Proof.
  destruct (ServeCodec_closes ex_serving ex_serving_reachable) as (_ & _ & Hs).
  destruct (Hs 0%nat [8%nat; 7%nat] eq_refl (Permutation_refl _)) as (_ & st' & E & Ecl & Hc).
  exists st'. split; [exact E|]. split; [exact Ecl|].
  destruct (Hc 1%nat 8%nat eq_refl) as (c & rest & [= <- <-] & H8 & _).
  destruct (Hc 0%nat 7%nat eq_refl) as (c & rest2 & [= <- <-] & _ & H7).
  split; [by apply H8|]. apply H7; [done|]. by intros ?%elem_of_nil.
Defined.
