(* ===== verification/RpcClientApi.v ===== *)
(** * The client's other methods (simple_rpc/rpc/client.go, ipc.go, inproc.go)

    Making a client over a connection, its services, and [SupportedModules], whose
    answer comes from the [Modules] method that every server of {!RpcServer} has. *)

From stdpp Require Import sorting.
From S2P Require Import Prelude GoText Json RpcMessage RpcArgs RpcService GoChan.
From S2P Require Import RpcSubscription RpcClientSub RpcHandler RpcHandlerProps RpcFrame.
From S2P Require Import RpcClient RpcWire RpcClientProps RpcDispatch RpcServer RpcServerProps.

(** ** Contexts *)

(** The keys that the package puts into a context, each a type of its own, and the
    pointers it finds there. *)
Inductive ctxKey := clientContextKey | notifierKey.
Inductive ctxVal := CtxClient (c : nat) | CtxNotifier (n : nat).
#[export] Instance ctxKey_eq_dec : EqDecision ctxKey.
Proof. solve_decision. Defined.

(** The innermost value first. *)
Abbreviation Context := (list (ctxKey * ctxVal)).
Definition Background : Context := [].
Definition WithValue (ctx : Context) (k : ctxKey) (v : ctxVal) : Context := (k, v) :: ctx.
Fixpoint Value (ctx : Context) (k : ctxKey) : option ctxVal :=
  match ctx with
  | [] => None
  | (k', v) :: ctx => if decide (k = k') then Some v else Value ctx k
  end.

Definition ClientFromContext (ctx : Context) : option nat * bool :=
  match Value ctx clientContextKey with Some (CtxClient c) => (Some c, true) | _ => (None, false) end.
Definition NotifierFromContext (ctx : Context) : option nat * bool :=
  match Value ctx notifierKey with Some (CtxNotifier n) => (Some n, true) | _ => (None, false) end.

(** The context of the handler that [newClientConn] makes for the client at [c], and
    the one [handleSubscribe] runs a callback with. *)
Definition client_ctx (c : nat) : Context := WithValue Background clientContextKey (CtxClient c).
Definition subscribe_ctx (ctx : Context) (n : nat) : Context := WithValue ctx notifierKey (CtxNotifier n).

(** A callback of a connection finds the connection's client, for calls in the other
    direction; it finds a notifier only in a subscribe call. *)
Lemma callback_context c n :
  ClientFromContext (client_ctx c) = (Some c, true) ∧ NotifierFromContext (client_ctx c) = (None, false) ∧
  ClientFromContext (subscribe_ctx (client_ctx c) n) = (Some c, true) ∧
  NotifierFromContext (subscribe_ctx (client_ctx c) n) = (Some n, true) ∧
  ClientFromContext (subscribe_ctx Background n) = (None, false).
Proof. by split_and!. Qed.

(** ** Timeouts *)

(** Nanoseconds of [time.Duration]. *)
Definition Second : Z := 1000000000.
Definition defaultDialTimeout : Z := 10 * Second.
Definition subscribeTimeout : Z := 5 * Second.

(** The deadline of the context that [reconnect] dials with. *)
Definition reconnect_deadline (deadline : option Z) (now : Z) : Z := default (now + defaultDialTimeout)%Z deadline.

(** ** Making a client *)

Section api.
Context {W : Type} `{JsonWriter W} {V : Type}.
Abbreviation client := (client W V).

(** [newClient], from what [connect] returns; it is [reconnectFunc] from then on. *)
Definition newClient (connect : result gerror (nat * W)) : result gerror client :=
  match connect with
  | Err err => Err err
  | Ok (conn, w) => Ok (initClient conn w (mkRegistry ∅) true)
  end.

(** [DialIPC], with [newIPCConnection] dialing the endpoint and the codec over the
    connection. *)
Definition DialIPC {C} (newIPCConnection : string → result gerror C) (NewCodec : C → nat * W) (endpoint : string) :
    result gerror client :=
  newClient (match newIPCConnection endpoint with Err err => Err err | Ok conn => Ok (NewCodec conn) end).

(** [Dial]. *)
Definition Dial {C} (Parse : string → result gerror string) (newIPCConnection : string → result gerror C)
    (NewCodec : C → nat * W) (rawurl : string) : result gerror client :=
  DialContext Parse (DialIPC newIPCConnection NewCodec) rawurl.

(** The connection function of [DialInProc]: the two ends of a pipe, one of which the
    server serves. *)
Definition inproc_connect {S body} (p1 p2 : nat) (w : W) (st : serving S body) : result gerror (nat * W) * serving S body :=
  (Ok (p2, w), mkServing (sr_server st) (sr_closed st) (sr_quit st) (sr_serves st ++ [(p1, SvCheck)]) (sr_stops st)).
(** [DialInProc] drops the error of [newClient]. *)
Definition DialInProc {S body} (p1 p2 : nat) (w : W) (st : serving S body) : option client * serving S body :=
  let '(conn, st) := inproc_connect p1 p2 w st in
  (match newClient conn with Ok c => Some c | Err _ => None end, st).

Lemma DialInProc_serves {S body} `{CodecSet S} p1 p2 w (st : serving S body) :
  p1 ∉ (sr_serves st).*1 → p1 ∉ sr_closed st →
  ∃ c st', DialInProc p1 p2 w st = (Some c, st') ∧ server_step st st' ∧ cl_writeConn c = Some p2 ∧
    cl_reconnectFunc c = true.
Proof. intros Hs Hc. do 2 eexists. split; [reflexivity|]. split_and!; [by constructor|done|done]. Qed.

(** ** Services of the client's side *)

(** [Client.RegisterName]: the registry is shared with the connection's handler. *)
Definition set_reg (r : serviceRegistry (list V → script)) (h : handler W V) : handler W V :=
  mkHandler r (h_respWait h) (h_clientSubs h) (h_callWG h) (h_rootCanceled h) (h_conn h)
    (h_allowSubscribe h) (h_serverSubs h) (h_ops h) (h_subids h) (h_quits h) (h_subErrs h) (h_next h) (h_ids h)
    (h_subLog h) (h_gauges h).
Definition client_RegisterName (ToLower : string → string) (name : string) (rcvr : receiver (list V → script)) (c : client) :
    option gerror * client :=
  let d := cl_dispatch c in
  match registerName ToLower name rcvr (h_reg (dp_conn d)) with
  | Err e => (Some e, c)
  | Ok r => (None, upd_dispatch (set_dp_conn (set_reg r (dp_conn d)) d) c)
  end.

(** [SetHeader] does nothing, for HTTP too: no transport of the package is HTTP. *)
Definition SetHeader (isHTTP : bool) (key value : string) (c : client) : client := if negb isHTTP then c else c.

(** [EthSubscribe] and [ShhSubscribe]. *)
Definition EthSubscribe (isHTTP : bool) (idCounter : Z) (channel : chanArg) (params : option gval) :=
  Subscribe_message isHTTP idCounter "eth" channel params.
Definition ShhSubscribe (isHTTP : bool) (idCounter : Z) (channel : chanArg) (params : option gval) :=
  Subscribe_message isHTTP idCounter "shh" channel params.

Context (decode_as : gotype → string → result string V) (Zero : gotype → V)
  (text : decError → string) (as_ID : V → string) (idgen : nat → string).

(** A service registered before or after the connection was set up anew is reached by
    the calls of the other side. *)
Lemma client_RegisterName_reverse ToLower name rcvr m cb (c c' : client) codec w d msg l :
  client_RegisterName ToLower name rcvr c = (None, c') → reachable_name name →
  suitableCallbacks ToLower rcvr !! m = Some cb → RpcService.isSubscribe cb = false →
  d = cl_dispatch c' ∨ d = newClientConn codec w (cl_dispatch c') →
  Method msg = name +:+ "_" +:+ m → RpcMessage.isSubscribe msg = false → isUnsubscribe msg = false → params_are (Params msg) l →
  ∃ h', handleCall decode_as Zero text as_ID idgen msg (dp_conn d) =
    (match positional_spec isPtr decode_as Zero (length (argTypes cb)) 0 (argTypes cb) l with
     | Err e => errorResponse msg (EInvalidParams (error_text e))
     | Ok args =>
         match call_results cb (run_script idgen None (fn_body (cb_fn cb) args) (dp_conn d)).1.1 with
         | Err err => errorResponse msg err
         | Ok v => response msg v
         end
     end, [], h').
Proof.
  unfold client_RegisterName. destruct (registerName _ _ _ _) as [r|e] eqn:E; [|done]. intros [= <-] Hn Hm Hs Hd Hmeth H1 H2 Hp.
  rewrite (handleCall_registered decode_as Zero text as_ID idgen _ msg cb l); [|by destruct Hd as [-> | ->];
    cbn; rewrite Hmeth; exact (registerName_callback ToLower _ _ _ _ m cb E Hn Hm Hs)|done..].
  destruct (positional_spec _ _ _ _ _ _ _) as [args|e]; [|by eexists].
  destruct (run_script _ _ _ _) as [[results n] h']. cbn [fst]. by eexists.
Qed.

End api.

(** ** The modules of a server *)

(** [json.Marshal] of a [map[string]string], its keys sorted. *)
Definition Marshal_map (m : gmap string string) : string :=
  print_object (map (λ k, (quote_n (slen k) k, quote (default "" (m !! k)))) (merge_sort String.le (elements (dom m)))).

(** [json.Unmarshal] into one: null sets an element to the empty string, and so does
    another value, whose error is returned at the end. *)
Definition type_error (sh : shape) (ty : string) : string :=
  "json: cannot unmarshal " +:+
  match sh with JNull => "null" | JBool _ => "bool" | JNum _ => "number" | JStr _ => "string" | JArr _ => "array" | JObj _ => "object" end
  +:+ " into Go value of type " +:+ ty.
Definition map_element (st : gmap string string * option string) (kv : string * string) : gmap string string * option string :=
  let '(m, e) := st in
  let set v := <[unquote kv.1 := v]> m in
  match shape_of kv.2 with
  | Some (JStr lit) => (set (unquote lit), e)
  | Some JNull | None => (set "", e)
  | Some sh => (set "", Some (default (type_error sh "string") e))
  end.
Definition Unmarshal_map (raw : string) : gmap string string * option string :=
  match shape_of raw with
  | Some (JObj l) => foldl map_element (∅, None) l
  | Some JNull => (∅, None)
  | Some sh => (∅, Some (type_error sh "map[string]string"))
  | None => (∅, Some "unexpected end of JSON input")
  end.

Definition bare_map (m : gmap string string) : Prop := map_Forall (λ k v, bare k = true ∧ bare v = true) m.

Lemma bare_plain k : bare k = true → Json.plain k = true.
Proof. unfold bare, Json.plain. apply str_forall_impl. intros c. unfold bare_char. by intros [? _]%andb_true_iff. Qed.
Lemma quote_n_bare k : bare k = true → quote_n (slen k) k = k.
Proof.
  intros Hk. pose proof (quote_bare k Hk) as E. unfold quote in E. injection E as E.
  by apply (str_app_inj_r _ _ _ _ eq_refl) in E as [? _].
Qed.
Lemma unquote_bare k : bare k = true → unquote k = k.
Proof.
  intros Hk. rewrite <-(quote_n_bare k Hk) at 1. unfold unquote. rewrite (quote_n_bare k Hk) at 1.
  apply unquote_quote_n; [done|done|by apply bare_ascii].
Qed.

(** The keys in the order of the text. *)
Definition sorted_keys (m : gmap string string) : list string := merge_sort String.le (elements (dom m)).
Lemma elem_of_sorted_keys m k : k ∈ sorted_keys m ↔ is_Some (m !! k).
Proof. unfold sorted_keys. by rewrite merge_sort_Permutation, elem_of_elements, elem_of_dom. Qed.

Lemma Marshal_map_members m : bare_map m →
  Marshal_map m = print_object (map (λ k, (k, quote (default "" (m !! k)))) (sorted_keys m)) ∧
  Forall (λ k, bare k = true ∧ bare (default "" (m !! k)) = true) (sorted_keys m).
Proof.
  intros Hm. assert (Forall (λ k, bare k = true ∧ bare (default "" (m !! k)) = true) (sorted_keys m)) as Hk.
  { apply Forall_forall. intros k [v Hv]%elem_of_sorted_keys. rewrite Hv. exact (Hm k v Hv). }
  split; [|done]. unfold Marshal_map. fold (sorted_keys m). f_equal. apply map_ext_in. intros k Hin%list_elem_of_In.
  rewrite Forall_forall in Hk. by rewrite quote_n_bare by (by apply Hk).
Qed.

Lemma Marshal_map_canonical m : bare_map m → canonical (Marshal_map m).
Proof.
  intros Hm. destruct (Marshal_map_members m Hm) as [-> Hk]. split.
  - apply is_value_print_object, Forall_map. eapply Forall_impl; [exact Hk|]. intros k [H1 H2].
    split; [by apply bare_plain|by apply is_value_quote, bare_ascii].
  - apply tight_compact, tight_print_object, Forall_map. eapply Forall_impl; [exact Hk|]. intros k [H1 H2].
    split; [done|]. cbn. rewrite quote_bare by done. by apply tight_literal.
Qed.

Lemma map_elements (f : string → string) ks m0 : Forall (λ k, bare k = true ∧ bare (f k) = true) ks →
  foldl map_element (m0, None) (map (λ k, (k, quote (f k))) ks) = (foldl (λ m k, <[k := f k]> m) m0 ks, None).
Proof.
  intros Hk. revert m0. induction Hk as [|k ks [H1 H2] Hk IH]; intros m0; [done|]. cbn [map foldl].
  destruct (shape_of_quote (f k)) as (lit & E & Eu); [by apply bare_ascii|]. cbn [map_element fst snd].
  rewrite E, Eu, unquote_bare by done. apply IH.
Qed.

Lemma foldl_insert_lookup (f : string → string) ks (m0 : gmap string string) k :
  foldl (λ m k, <[k := f k]> m) m0 ks !! k = if decide (k ∈ ks) then Some (f k) else m0 !! k.
Proof.
  revert m0. induction ks as [|k' ks IH]; intros m0; [done|]. cbn [foldl]. rewrite IH.
  destruct (decide (k ∈ ks)) as [Hin|Hin]; [by rewrite decide_True by (by right)|].
  destruct (decide (k = k')) as [->|Hne]; [rewrite lookup_insert_eq, decide_True by (by left); done|].
  rewrite lookup_insert_ne, decide_False by (done || set_solver). done.
Qed.

Lemma Unmarshal_Marshal_map m : bare_map m → Unmarshal_map (Marshal_map m) = (m, None).
Proof.
  intros Hm. destruct (Marshal_map_members m Hm) as [-> Hk]. unfold Unmarshal_map. rewrite shape_of_print_object.
  - rewrite (map_elements (λ k, default "" (m !! k))) by done. f_equal. apply map_eq. intros k.
    rewrite foldl_insert_lookup, lookup_empty. destruct (decide (k ∈ sorted_keys m)) as [[v Hv]%elem_of_sorted_keys|Hn].
    + by rewrite Hv.
    + destruct (m !! k) eqn:E; [|done]. destruct Hn. apply elem_of_sorted_keys. by rewrite E.
  - apply Forall_map. eapply Forall_impl; [exact Hk|]. intros k [H1 H2].
    split; [by apply bare_plain|by apply is_value_quote, bare_ascii].
Qed.

Section modules.
Context {V V' S L : Type} `{CodecSet S}.
Context (ToLower : string → string) (modules_body : list V → script).
Context (reencode syntax_text : string → string) (remote : option string) (now : Z).
Context (decode_as : gotype → string → result string V) (Zero : gotype → V).
Context (text : decError → string) (as_ID : V → string) (idgen : nat → string).
Abbreviation codec := (jsonCodec (C := streamConn)).
#[local] Instance modules_writer : JsonWriter codec := codec_JsonWriter reencode syntax_text remote now.

(** What [RPCService.Modules] returns to its caller. *)
Definition Modules_results (s : Server S (list V → script)) : list goresult := [RVal (Ok (Marshal_map (Modules s)))].

(** [SupportedModules] from its message to its result, for the end of [CallContext]. *)
Definition SupportedModules_message (idCounter : Z) : Prelude.result gerror jsonrpcMessage * Z :=
  CallContext_message (Some (true, "")) idCounter "rpc_modules" None.
Definition SupportedModules_result (send_err : option gerror) (w : waited) : outcome (gmap string string * option gerror) :=
  e ← CallContext_result (λ t, ENew <$> (Unmarshal_map t).2) send_err w;
  Ret (match send_err, w with
       | None, WaitResp (Some resp) None =>
           match Error resp, Result resp with None, Some t => if decide (t = "") then ∅ else (Unmarshal_map t).1 | _, _ => ∅ end
       | _, _ => ∅
       end, e).

(** [SupportedModules] over a connection to a server. *)
Definition SupportedModules (idCounter : Z) (loc : nat) (hc : handler codec V') (hs : handler codec V) :
    outcome (gmap string string * option gerror) :=
  match (SupportedModules_message idCounter).1 with
  | Err e => Ret (∅, Some e)
  | Ok msg =>
      '(send_err, w, _, _) ← exchange reencode syntax_text remote now decode_as Zero text as_ID idgen msg loc hc hs;
      SupportedModules_result send_err w
  end.

Definition modules_callback : callback (list V → script) :=
  mkCallback (mkFunc [TPtr (TNamed "rpc.RPCService" false)] [TNamed "map[string]string" false] modules_body) true [] false (-1) false.

Lemma endpoint_modules (ipcListen : string → Prelude.result gerror L) ep (apis : list (API (list V → script))) l (s : Server S (list V → script)) :
  StartIPCEndpoint ToLower modules_body ipcListen ep apis = Ok (l, s) → not_among MetadataApi apis →
  reg_callback (sv_services s) "rpc_modules" = Some modules_callback ∧
  Modules s = gset_to_gmap "1.0" (list_to_set (api_Namespace <$> apis) ∪ {[ MetadataApi ]}).
Proof.
  unfold StartIPCEndpoint. intros Hs Hn. pose proof (register_all_spec ToLower apis (NewServer ToLower modules_body)) as Hall.
  destruct (register_all _ _ _) as [s'|e]; [|done]. destruct (ipcListen ep) as [l'|e]; [|done]. injection Hs as <- <-.
  destruct Hall as (_ & _ & I3 & I4 & _). destruct (NewServer_services ToLower modules_body) as (svc & Hsvc & Hcb). split.
  - change "rpc_modules" with ("rpc" +:+ "_" +:+ "modules"). unfold reg_callback.
    rewrite (SplitN2_cons_spec "rpc" "modules") by done. cbv iota beta. change "rpc" with MetadataApi.
    rewrite (I4 MetadataApi Hn), Hsvc, lookup_singleton_eq. cbn. by rewrite Hcb.
  - unfold Modules. apply map_eq. intros k. rewrite lookup_fmap, lookup_gset_to_gmap.
    assert (is_Some (services (sv_services s') !! k) ↔ k ∈ (list_to_set (api_Namespace <$> apis) ∪ {[ MetadataApi ]} : gmap.gset string)) as Hk.
    { rewrite <-elem_of_dom, I3, Hsvc, dom_singleton_L. done. }
    destruct (services (sv_services s') !! k) as [v|]; cbn.
    + rewrite option_guard_True; [done|]. by apply Hk.
    + rewrite option_guard_False; [done|]. intros Hin. by apply Hk, is_Some_None in Hin.
Qed.

(** C15: [SupportedModules] on a connection with nothing unread, to a server that
    [StartIPCEndpoint] has started with APIs whose namespaces are plain words other
    than "rpc": the call goes out without parameters, [Modules] answers it with the
    JSON text of its map, and the client decodes the map of version "1.0" for "rpc"
    and for each namespace, and no error. *)
Theorem SupportedModules_over_connection (ipcListen : string → Prelude.result gerror L) ep apis l (s : Server S (list V → script))
    idCounter loc (hc : handler codec V') (hs : handler codec V) :
  StartIPCEndpoint ToLower modules_body ipcListen ep apis = Ok (l, s) → h_reg hs = sv_services s →
  (∀ args, modules_body args = RpcHandler.SReturn (Modules_results s)) →
  not_among MetadataApi apis → Forall (λ a, bare (api_Namespace a) = true) apis →
  inv hc → h_ops hc !! loc = None → idle (h_conn hc) → idle (h_conn hs) →
  SupportedModules idCounter loc hc hs =
    Ret (gset_to_gmap "1.0" (list_to_set (api_Namespace <$> apis) ∪ {[ "rpc" ]}), None).
Proof.
  intros Hstart Hreg Hbody Hn Hbare Hinv Hloc Hic His. destruct (endpoint_modules _ _ _ _ _ Hstart Hn) as [Hcb Hmods].
  change "rpc" with MetadataApi. rewrite <-Hmods. assert (bare_map (Modules s)) as Hbm.
  { intros k v Hk. rewrite Hmods, lookup_gset_to_gmap_Some in Hk. destruct Hk as [Hk <-]. split; [|done].
    apply elem_of_union in Hk as [(a & -> & Ha)%elem_of_list_to_set%list_elem_of_fmap| ->%elem_of_singleton]; [|done].
    rewrite Forall_forall in Hbare. by apply Hbare. }
  unfold SupportedModules, SupportedModules_message. destruct (newMessage_ok idCounter "rpc_modules" None) as (msg & c & E).
  unfold CallContext_message. change (newMessage idCounter "rpc_modules" None) with (newMessage idCounter "rpc_modules" (params_text None)).
  rewrite E.
  destruct (newMessage_call reencode _ _ None _ _ E) as (Hcall & Hok & Hmeth & Hp & Hrecv & id & Hid & Hvid & Hidc); [done..|].
  pose proof (Marshal_map_canonical _ Hbm) as Hcan.
  assert (answer_of decode_as Zero modules_callback (λ _, Modules_results s) msg [] =
            mkMsg vsn (Some id) "" None None (Some (Marshal_map (Modules s)))) as Hans.
  { unfold answer_of. change (args_of decode_as Zero modules_callback []) with (@Ok gerror (list V) []). cbn. unfold response. by rewrite Hid. }
  destruct (exchange_answers reencode syntax_text remote now decode_as Zero text as_ID idgen msg id [] modules_callback
    (λ _, Modules_results s) loc hc hs) as (hc' & hs' & E' & _); try done.
  - unfold RpcMessage.isSubscribe. by rewrite Hmeth.
  - unfold isUnsubscribe. by rewrite Hmeth.
  - by rewrite Hp.
  - by rewrite Hmeth, Hreg.
  - rewrite Hans. by split_and!.
  - cbn [fst]. rewrite E', Hans. cbn [mbind outcome_bind]. unfold SupportedModules_result, CallContext_result.
    cbn [Error Result received fmap option_fmap option_map].
    assert (Marshal_map (Modules s) ≠ "") as Hne by (unfold Marshal_map; by rewrite print_object_cons).
    rewrite decide_False by done. destruct (Marshal_map (Modules s)) as [|ch rest] eqn:Em; [done|]. rewrite <-Em.
    cbn [mbind outcome_bind]. by rewrite Unmarshal_Marshal_map.
Qed.
End modules.

(** ** Examples *)

(** A server with the API of {!RpcHandlerProps} under the name "calc". *)
Definition ex_modules : gmap string string := {[ "calc" := "1.0"; "rpc" := "1.0" ]}.
Definition ex_modules_body : list Z → script := λ _, RpcHandler.SReturn [RVal (Ok (Marshal_map ex_modules))].
Definition ex_apis : list (API (list Z → script)) := [mkAPI "calc" "1.0" ex_rcvr true].

Lemma SupportedModules_over_connection_witness :
  match StartIPCEndpoint (S := list nat) (λ s, s) ex_modules_body (λ _, Ok tt) "/tmp/x.ipc" ex_apis with
  | Ok (_, s) =>
      SupportedModules id id None 0 ex_decode (λ _, 0%Z) (λ _, "") (λ _, "") (λ _, "") 6 0
        (demo_end (U := unit) (mkRegistry ∅)) (demo_end (sv_services s)) = Ret (ex_modules, None)
  | Err _ => False
  end.
Proof.
  destruct (StartIPCEndpoint _ _ _ _ _) as [[l s]|e] eqn:E; [|by vm_compute in E].
  assert (Modules s = ex_modules) as Hm.
  { destruct (endpoint_modules (λ s, s) ex_modules_body (λ _, Ok tt) "/tmp/x.ipc" ex_apis l s E) as [_ ->]; [|reflexivity].
    by intros ?%list_elem_of_singleton. }
  refine (eq_trans (SupportedModules_over_connection (V' := unit) (λ s, s) ex_modules_body id id None 0 ex_decode (λ _, 0%Z) (λ _, "") (λ _, "")
    (λ _, "") (λ _, Ok tt) "/tmp/x.ipc" ex_apis l s 6 0 (demo_end (mkRegistry ∅)) (demo_end (sv_services s)) E eq_refl _ _ _ _ eq_refl _ _) _).
  - intros args. unfold Modules_results. by rewrite Hm.
  - by intros ?%list_elem_of_singleton.
  - by repeat constructor.
  - apply inv_newHandler.
  - split; reflexivity.
  - split; reflexivity.
  - reflexivity.
Defined.
