(* ===== verification/EpochExtractor.v ===== *)
(** * The epoch extractor (epoch-extractor/main.go)

    The client's state, one turn of its loop for a tick of the clock, and what is
    logged, and [main] from its flags to the client.  The answers of the beacon node are arguments; [Slot.DivSlot] of
    eth2-types is third-party and an argument too.  Slots, epochs and validator
    indices are 64-bit unsigned. *)

From S2P Require Import Prelude GoText.
From stdpp Require Import sorting.

(** [ethpb.ValidatorAssignments_CommitteeAssignment], as far as it is used. *)
Record assignment := mkAssignment {
  as_PublicKey : list Z;
  as_ProposerSlots : list Z;
  as_ValidatorIndex : Z }.

(** The entries of the log that the client writes. *)
Inductive entry :=
| LHead (curEpoch curSlot : Z)
| LHeadFailed (err : string)
| LNextFailed (err : string)
| LAssignmentsFailed (err : string)
| LEpoch (epoch : Z)
| LSchedule (slot epoch : Z) (proposerPubKey : string)
| LNotMatched (slot curEpoch : Z) (giveProposerPubKey storedProposerPubKey : string)
| LDefault (flag : string).

Record Client := mkClient {
  curSlot : Z;
  curEpoch : Z;
  prevEpoch : Z;
  nextEpochProposerIndexToPubKey : gmap Z string;
  nextEpochSlotToProposerIndex : gmap Z Z;
  curEpochProposerIndexToPubKey : gmap Z string;
  curEpochSlotToProposerIndex : gmap Z Z;
  grpcRetries : Z;
  grpcRetryDelay : Z;
  maxCallRecvMsgSize : Z;
  endpoint : string;
  SlotsPerEpoch : Z;
  firsTime : bool;                  (* the local variable of runner *)
  c_log : list entry }.

(** Five seconds, in nanoseconds. *)
Definition dialInterval : Z := 5 * 1000000000.

Definition NewClient (vanguardRPCEndpoint : string) (slotsPerEpoch : Z) (log : list entry) : Client :=
  mkClient 0 0 0 ∅ ∅ ∅ ∅ 5 dialInterval 4194304 vanguardRPCEndpoint slotsPerEpoch true log.

Definition set_slot (s : Z) (c : Client) : Client :=
  mkClient s (curEpoch c) (prevEpoch c) (nextEpochProposerIndexToPubKey c) (nextEpochSlotToProposerIndex c)
    (curEpochProposerIndexToPubKey c) (curEpochSlotToProposerIndex c) (grpcRetries c) (grpcRetryDelay c)
    (maxCallRecvMsgSize c) (endpoint c) (SlotsPerEpoch c) (firsTime c) (c_log c).
Definition set_epochs (cur prev : Z) (c : Client) : Client :=
  mkClient (curSlot c) cur prev (nextEpochProposerIndexToPubKey c) (nextEpochSlotToProposerIndex c)
    (curEpochProposerIndexToPubKey c) (curEpochSlotToProposerIndex c) (grpcRetries c) (grpcRetryDelay c)
    (maxCallRecvMsgSize c) (endpoint c) (SlotsPerEpoch c) (firsTime c) (c_log c).
Definition set_next (pubs : gmap Z string) (slots : gmap Z Z) (c : Client) : Client :=
  mkClient (curSlot c) (curEpoch c) (prevEpoch c) pubs slots
    (curEpochProposerIndexToPubKey c) (curEpochSlotToProposerIndex c) (grpcRetries c) (grpcRetryDelay c)
    (maxCallRecvMsgSize c) (endpoint c) (SlotsPerEpoch c) (firsTime c) (c_log c).
Definition set_cur (pubs : gmap Z string) (slots : gmap Z Z) (c : Client) : Client :=
  mkClient (curSlot c) (curEpoch c) (prevEpoch c) (nextEpochProposerIndexToPubKey c) (nextEpochSlotToProposerIndex c)
    pubs slots (grpcRetries c) (grpcRetryDelay c)
    (maxCallRecvMsgSize c) (endpoint c) (SlotsPerEpoch c) (firsTime c) (c_log c).
Definition set_first (b : bool) (c : Client) : Client :=
  mkClient (curSlot c) (curEpoch c) (prevEpoch c) (nextEpochProposerIndexToPubKey c) (nextEpochSlotToProposerIndex c)
    (curEpochProposerIndexToPubKey c) (curEpochSlotToProposerIndex c) (grpcRetries c) (grpcRetryDelay c)
    (maxCallRecvMsgSize c) (endpoint c) (SlotsPerEpoch c) b (c_log c).
Definition log_entry (e : entry) (c : Client) : Client :=
  mkClient (curSlot c) (curEpoch c) (prevEpoch c) (nextEpochProposerIndexToPubKey c) (nextEpochSlotToProposerIndex c)
    (curEpochProposerIndexToPubKey c) (curEpochSlotToProposerIndex c) (grpcRetries c) (grpcRetryDelay c)
    (maxCallRecvMsgSize c) (endpoint c) (SlotsPerEpoch c) (firsTime c) (c_log c ++ [e]).

(** ** Schedules *)

(** One turn of the loop of [processNextEpochAssignments]. *)
Definition process_assignment (m : gmap Z string * gmap Z Z) (a : assignment) : gmap Z string * gmap Z Z :=
  let '(proposerIndexToPubKey, slotToProposerIndex) := m in
  (match as_ProposerSlots a with
   | [] => proposerIndexToPubKey
   | _ => <[as_ValidatorIndex a := HexEncode (as_PublicKey a)]> proposerIndexToPubKey
   end,
   foldl (λ m proposerSlot, <[proposerSlot := as_ValidatorIndex a]> m) slotToProposerIndex (as_ProposerSlots a)).

Definition processNextEpochAssignments (assignments : list assignment) : gmap Z string * gmap Z Z :=
  foldl process_assignment (∅, ∅) assignments.

(** The sorted keys, as [int]s. *)
Definition sorted_keys (slotToProposerIndex : gmap Z Z) : list Z :=
  merge_sort Z.le (map (wraps 64) (map_to_list slotToProposerIndex).*1).

Definition logProposerSchedule (epoch : Z) (proposerIndexToPubKey : gmap Z string)
    (slotToProposerIndex : gmap Z Z) : go Client unit :=
  go_modify (log_entry (LEpoch epoch)) ;;
  go_for (sorted_keys slotToProposerIndex) (λ k,
    let slot := wrapu 64 k in
    let proposerIndex := default 0%Z (slotToProposerIndex !! slot) in
    go_modify (log_entry (LSchedule slot epoch ("0x" +:+ default "" (proposerIndexToPubKey !! proposerIndex))))).

(** [s[:12]] *)
Definition slice12 (s : string) : outcome string :=
  if (12 <=? slen s)%nat then Ret (str_take 12 s) else Panic "slice bounds out of range".

(** The loops of [checkCompatibility]; [true] when it has returned. *)
Fixpoint check_slots (a : assignment) (slots : list Z) : go Client bool :=
  match slots with
  | [] => mret false
  | slot :: slots =>
      c ← go_get;
      let stored := default "" (nextEpochProposerIndexToPubKey c !!
                      default 0%Z (nextEpochSlotToProposerIndex c !! slot)) in
      if (0 <? slen stored)%nat && negb (default 0%Z (curEpochSlotToProposerIndex c !! slot) =? as_ValidatorIndex a)%Z
      then
        match slice12 (HexEncode (as_PublicKey a)), slice12 stored with
        | Ret given, Ret stored =>
            go_modify (log_entry (LNotMatched slot (curEpoch c) ("0x" +:+ given) ("0x" +:+ stored))) ;; mret true
        | _, _ => go_panic "slice bounds out of range"
        end
      else check_slots a slots
  end.
Fixpoint check_assignments (curAssignments : list assignment) : go Client unit :=
  match curAssignments with
  | [] => mret ()
  | a :: l => returned ← check_slots a (as_ProposerSlots a); if returned : bool then mret () else check_assignments l
  end.
Definition checkCompatibility (curAssignments : list assignment) : go Client unit :=
  check_assignments curAssignments.

(** ** The loop *)

(** What the beacon node answers during a tick. *)
Record answers := mkAnswers {
  GetChainHead : result string Z;
  NextEpochProposerList : result string (list assignment);
  ListValidatorAssignments : Z → result string (list assignment) }.

(** [CanonicalHeadSlot]; [true] for no error. *)
Definition CanonicalHeadSlot (r : answers) : go Client bool :=
  match GetChainHead r with
  | Err e => go_modify (log_entry (LHeadFailed e)) ;; mret false
  | Ok headSlot => go_modify (set_slot headSlot) ;; mret true
  end.

Section runner.
Variable DivSlot : Z → Z → outcome Z.

(** Refreshing the schedules; [true] when [runner] returns. *)
Definition refresh (r : answers) : go Client bool :=
  c ← go_get;
  match NextEpochProposerList r with
  | Err e => go_modify (log_entry (LNextFailed e)) ;; mret true
  | Ok nextAssignments =>
      let '(proposerIndexToPubKey, slotToProposerIndex) := processNextEpochAssignments nextAssignments in
      go_modify (set_cur (nextEpochProposerIndexToPubKey c) (nextEpochSlotToProposerIndex c)) ;;
      go_modify (set_next proposerIndexToPubKey slotToProposerIndex) ;;
      match ListValidatorAssignments r (curEpoch c) with
      | Err e => go_modify (log_entry (LAssignmentsFailed e)) ;; mret true
      | Ok curAssignments =>
          (if firsTime c then
             go_modify (set_first false) ;;
             let '(pubs, slots) := processNextEpochAssignments curAssignments in
             go_modify (set_cur pubs slots)
           else mret ()) ;;
          c ← go_get;
          logProposerSchedule (curEpoch c) (curEpochProposerIndexToPubKey c) (curEpochSlotToProposerIndex c) ;;
          logProposerSchedule (wrapu 64 (curEpoch c + 1)) (nextEpochProposerIndexToPubKey c) (nextEpochSlotToProposerIndex c) ;;
          checkCompatibility curAssignments ;;
          mret false
      end
  end.

(** One tick of [runner]; [true] when it returns. *)
Definition tick (r : answers) : go Client bool :=
  ok ← CanonicalHeadSlot r;
  if negb ok then mret false
  else
    c ← go_get;
    match DivSlot (curSlot c) (SlotsPerEpoch c) with
    | Panic e => go_panic e
    | Blocks e => go_block e
    | Ret epoch =>
        go_modify (set_epochs epoch (prevEpoch c)) ;;
        go_modify (log_entry (LHead epoch (curSlot c))) ;;
        if firsTime c || (wrapu 64 (prevEpoch c + 1) <=? epoch)%Z then
          go_modify (set_epochs epoch epoch) ;;
          refresh r
        else mret false
    end.

Fixpoint runner (ticks : list answers) : go Client unit :=
  match ticks with
  | [] => mret ()
  | r :: ticks => stop ← tick r; if stop : bool then mret () else runner ticks
  end.
End runner.

(** The start of [main], from the values of the two flags. *)
Definition main_client (vanguardRPCEndpoint : string) (slotsPerEpoch : Z) : Client :=
  let log1 := if (slotsPerEpoch =? 0)%Z
              then [LDefault "No --slots-per-epoch specified, defaulting 32"] else [] in
  let log2 := if decide (vanguardRPCEndpoint = "")
              then [LDefault "No --vangurad-rpc-endpoint specified, defaulting 127.0.0.1:4000"] else [] in
  NewClient vanguardRPCEndpoint slotsPerEpoch (log1 ++ log2).

(** ** Dialing *)

(** The dial options that [ConstructDialOptions] makes: transport credentials,
    none for an insecure connection, and the default call options. *)
Record dialOptions (Creds Option : Type) := mkDialOptions {
  do_creds : option Creds;
  do_maxCallRecvMsgSize : Z;
  do_grpcRetries : Z;
  do_backoff : Z;
  do_extra : list Option }.
Arguments mkDialOptions {Creds Option}.

Definition ConstructDialOptions {Creds Option} (NewClientTLSFromFile : string → result string Creds)
    (maxCallRecvMsgSize : Z) (withCert : string) (grpcRetries grpcRetryDelay : Z) (extraOpts : list Option) :
    option (dialOptions Creds Option) :=
  let size := if (maxCallRecvMsgSize =? 0)%Z then Z.shiftl (10 * 5) 20 else maxCallRecvMsgSize in
  if decide (withCert ≠ "") then
    match NewClientTLSFromFile withCert with
    | Err _ => None
    | Ok creds => Some (mkDialOptions (Some creds) size grpcRetries grpcRetryDelay extraOpts)
    end
  else Some (mkDialOptions None size grpcRetries grpcRetryDelay extraOpts).

(** ** The program *)

(** The flags, with their names and defaults. *)
Record flags := mkFlags { vanguardRPCEndpoint : string; slotsPerEpoch : Z }.
Definition default_flags : flags := mkFlags "127.0.0.1:4000" 32.

(** [main] on the ticks of a run: the error of dialing that it logs, if any, and the
    client at the end. *)
Definition main {Creds} (DivSlot : Z → Z → outcome Z) (NewClientTLSFromFile : string → result string Creds)
    (DialContext : string → dialOptions Creds unit → option string) (f : flags) (ticks : list answers) :
    outcome (option string * Client) :=
  let c := main_client (vanguardRPCEndpoint f) (slotsPerEpoch f) in
  match ConstructDialOptions NewClientTLSFromFile (maxCallRecvMsgSize c) "" (grpcRetries c) (grpcRetryDelay c) [] with
  | None => Ret (None, c)
  | Some dialOpts =>
      match DialContext (endpoint c) dialOpts with
      | Some err => Ret (Some err, c)
      | None => '(_, c) ← runner DivSlot ticks c; Ret (None, c)
      end
  end.

(** The dial options of the program are those of an insecure connection with five
    retries, five seconds apart, and messages of up to four megabytes; with its
    default flags it logs no default and dials the local node. *)
Lemma main_dials {Creds} DivSlot NewTLS DialContext f ticks :
  main (Creds:=Creds) DivSlot NewTLS DialContext f ticks =
    let c := main_client (vanguardRPCEndpoint f) (slotsPerEpoch f) in
    match DialContext (vanguardRPCEndpoint f) (mkDialOptions None 4194304 5 dialInterval []) with
    | Some err => Ret (Some err, c)
    | None => '(_, c) ← runner DivSlot ticks c; Ret (None, c)
    end.
Proof. done. Qed.
Lemma main_default : main_client (vanguardRPCEndpoint default_flags) (slotsPerEpoch default_flags) = NewClient "127.0.0.1:4000" 32 [].
Proof. done. Qed.

(** ** Schedules: lemmas *)

Lemma lookup_foldl_slots (slots : list Z) (v : Z) (m : gmap Z Z) s :
  foldl (λ m slot, <[slot := v]> m) m slots !! s = if decide (s ∈ slots) then Some v else m !! s.
Proof.
  revert m. induction slots as [|x slots IH]; intros m; cbn [foldl].
  { by rewrite decide_False by apply not_elem_of_nil. }
  rewrite IH. destruct (decide (s = x)) as [->|Hne].
  - rewrite lookup_insert_eq. rewrite (decide_True (P:=x ∈ x :: slots)) by left. by case_decide.
  - rewrite lookup_insert_ne by done. apply decide_ext. rewrite elem_of_cons. tauto.
Qed.

Lemma processNextEpochAssignments_snoc l a :
  processNextEpochAssignments (l ++ [a]) = process_assignment (processNextEpochAssignments l) a.
Proof. unfold processNextEpochAssignments. by rewrite foldl_app. Qed.

(** the schedule made from a list of assignments gives every slot to the last
    validator that is assigned to it, and no other slot to anyone; it knows the
    public key, in hexadecimal, of exactly the validators with a slot, that of
    their last assignment with one; so every slot of the schedule has a key. *)
Theorem processNextEpochAssignments_spec l :
  let '(pubs, slots) := processNextEpochAssignments l in
  (∀ s, slots !! s = as_ValidatorIndex <$> last (filter (λ a, s ∈ as_ProposerSlots a) l)) ∧
  (∀ v, pubs !! v = (λ a, HexEncode (as_PublicKey a)) <$>
          last (filter (λ a, as_ValidatorIndex a = v ∧ as_ProposerSlots a ≠ []) l)) ∧
  (∀ s v, slots !! s = Some v → is_Some (pubs !! v)).
Proof.
  destruct (processNextEpochAssignments l) as [pubs slots] eqn:E.
  assert (∀ s, slots !! s = as_ValidatorIndex <$> last (filter (λ a, s ∈ as_ProposerSlots a) l) ∧
          ∀ v, pubs !! v = (λ a, HexEncode (as_PublicKey a)) <$>
            last (filter (λ a, as_ValidatorIndex a = v ∧ as_ProposerSlots a ≠ []) l)) as Hall.
  { revert pubs slots E. induction l as [|a l IH] using rev_ind; intros pubs slots.
    { intros [= <- <-] s. by rewrite !lookup_empty. }
    rewrite processNextEpochAssignments_snoc. destruct (processNextEpochAssignments l) as [pubs0 slots0].
    intros [= <- <-] s. destruct (IH _ _ eq_refl s) as [IHs IHv]. rewrite lookup_foldl_slots. split.
    - rewrite filter_app, filter_cons, filter_nil. case_decide; [by rewrite last_snoc|by rewrite app_nil_r].
    - intros v. rewrite filter_app, filter_cons, filter_nil. case_decide as Hd.
      + destruct Hd as [<- Hne]. rewrite last_snoc. destruct (as_ProposerSlots a); [done|]. by rewrite lookup_insert_eq.
      + rewrite app_nil_r, <-IHv. destruct (as_ProposerSlots a) eqn:Ea; [done|].
        rewrite lookup_insert_ne; [done|]. intros E0. by destruct Hd. }
  split_and!; [apply Hall|intros v; by apply (Hall 0%Z)|].
  intros s v Hs. rewrite (proj1 (Hall s)) in Hs. apply fmap_Some in Hs as (a & Ha & ->).
  rewrite (proj2 (Hall 0%Z) (as_ValidatorIndex a)), fmap_is_Some. apply last_is_Some.
  assert (a ∈ l ∧ s ∈ as_ProposerSlots a) as [Hin Hsl].
  { apply last_Some_elem_of, list_elem_of_filter in Ha. tauto. }
  intros Hnil. apply (not_elem_of_nil (A:=assignment) a). rewrite <-Hnil. apply list_elem_of_filter.
  split; [|done]. split; [done|]. intros E0. rewrite E0 in Hsl. by apply elem_of_nil in Hsl.
Qed.

(** ** Logging keeps the schedules *)

(** Only the log differs, by entries at its end. *)
Definition logged (c c' : Client) : Prop := ∃ es, c' = foldl (λ c e, log_entry e c) c es.

Lemma logged_refl c : logged c c.
Proof. by exists []. Qed.
Lemma logged_trans c1 c2 c3 : logged c1 c2 → logged c2 c3 → logged c1 c3.
Proof. intros [es ->] [es' ->]. exists (es ++ es'). by rewrite foldl_app. Qed.
Lemma logged_entry e c : logged c (log_entry e c).
Proof. by exists [e]. Qed.

(** What the schedules and the epochs are. *)
Definition view (c : Client) :=
  (curSlot c, curEpoch c, prevEpoch c, firsTime c, SlotsPerEpoch c,
   (nextEpochProposerIndexToPubKey c, nextEpochSlotToProposerIndex c),
   (curEpochProposerIndexToPubKey c, curEpochSlotToProposerIndex c)).

Lemma logged_view c c' : logged c c' → view c' = view c.
Proof. intros [es ->]. revert c. induction es as [|e es IH]; intros c; [done|]. cbn [foldl]. by rewrite IH. Qed.

Lemma log_for_logged {A} (l : list A) (f : A → entry) c :
  ∃ c', go_for l (λ x, go_modify (log_entry (f x))) c = Ret ((), c') ∧ logged c c'.
Proof.
  revert c. induction l as [|x l IH]; intros c; cbn [go_for]; [exists c; split; [done|apply logged_refl]|].
  rewrite go_bind_run. cbn [go_modify]. destruct (IH (log_entry (f x) c)) as (c' & E & L). exists c'.
  split; [done|]. by eapply logged_trans; [apply logged_entry|].
Qed.

Lemma logProposerSchedule_logged epoch pubs slots c :
  ∃ c', logProposerSchedule epoch pubs slots c = Ret ((), c') ∧ logged c c'.
Proof.
  unfold logProposerSchedule. rewrite go_bind_run. cbn [go_modify].
  destruct (log_for_logged (sorted_keys slots) (λ k, LSchedule (wrapu 64 k) epoch
    ("0x" +:+ default "" (pubs !! default 0%Z (slots !! wrapu 64 k)))) (log_entry (LEpoch epoch) c)) as (c' & E & L).
  exists c'. split; [exact E|]. by eapply logged_trans; [apply logged_entry|].
Qed.

(** Keys of at least six bytes, and a table of their texts. *)
Definition keys_ok (l : list assignment) : Prop := ∀ a, a ∈ l → (6 ≤ length (as_PublicKey a))%nat.
Definition texts_ok (pubs : gmap Z string) : Prop := ∀ v t, pubs !! v = Some t → (12 ≤ slen t)%nat.

Lemma texts_ok_process l : keys_ok l → texts_ok (processNextEpochAssignments l).1.
Proof.
  intros Hk. induction l as [|a l IH] using rev_ind; [done|].
  rewrite processNextEpochAssignments_snoc. unfold process_assignment.
  destruct (processNextEpochAssignments l) as [pubs slots] eqn:E. cbn [fst].
  assert (texts_ok pubs) as Hp by (apply IH; intros b Hb; apply Hk, elem_of_app; by left).
  destruct (as_ProposerSlots a); [done|]. intros v t [[_ <-]|[_ Ht]]%lookup_insert_Some; [|by eapply Hp].
  rewrite slen_HexEncode. specialize (Hk a ltac:(apply elem_of_app; right; by left)). lia.
Qed.

Lemma check_slots_logged a slots c :
  (6 ≤ length (as_PublicKey a))%nat → texts_ok (nextEpochProposerIndexToPubKey c) →
  ∃ b c', check_slots a slots c = Ret (b, c') ∧ logged c c'.
Proof.
  intros Ha Ht. induction slots as [|s slots IH]; cbn [check_slots]; [exists false, c; split; [done|apply logged_refl]|].
  rewrite go_bind_run. cbn [go_get]. set (stored := default "" _). destruct (_ && _) eqn:Ec; [|done].
  apply andb_true_iff in Ec as [Hs%Nat.ltb_lt _].
  assert (12 <= slen stored)%nat as H12.
  { unfold stored in *. destruct (nextEpochProposerIndexToPubKey c !! _) as [t|] eqn:E; cbn in *; [by eapply Ht|lia]. }
  unfold slice12. rewrite slen_HexEncode, (proj2 (Nat.leb_le 12 (2 * _))) by lia.
  rewrite (proj2 (Nat.leb_le 12 (slen stored))) by done. eexists true, _. split; [reflexivity|apply logged_entry].
Qed.

Lemma checkCompatibility_logged l c :
  keys_ok l → texts_ok (nextEpochProposerIndexToPubKey c) →
  ∃ c', checkCompatibility l c = Ret ((), c') ∧ logged c c'.
Proof.
  unfold checkCompatibility. intros Hk Ht. revert c Ht. induction l as [|a l IH]; intros c Ht; cbn [check_assignments].
  { exists c. split; [done|apply logged_refl]. }
  destruct (check_slots_logged a (as_ProposerSlots a) c) as (b & c1 & E & L); [apply Hk; by left|done|].
  rewrite go_bind_run, E. destruct b; [by exists c1|].
  destruct (IH ltac:(intros x Hx; apply Hk; by right) c1) as (c' & E' & L').
  { pose proof (logged_view _ _ L) as Hv. unfold view in Hv. injection Hv as _ _ _ _ _ -> _ _ _. done. }
  exists c'. split; [done|]. by eapply logged_trans.
Qed.

(** ** One refresh, one tick *)

Abbreviation next_maps c := (nextEpochProposerIndexToPubKey c, nextEpochSlotToProposerIndex c).
Abbreviation cur_maps c := (curEpochProposerIndexToPubKey c, curEpochSlotToProposerIndex c).

Lemma refresh_run r c nx cu :
  NextEpochProposerList r = Ok nx → ListValidatorAssignments r (curEpoch c) = Ok cu → keys_ok nx → keys_ok cu →
  ∃ c', refresh r c = Ret (false, c') ∧
    view c' = (curSlot c, curEpoch c, prevEpoch c, false, SlotsPerEpoch c, processNextEpochAssignments nx,
               if firsTime c then processNextEpochAssignments cu else next_maps c).
Proof.
  intros Hn Hc Hkn Hkc. unfold refresh. rewrite go_bind_run. cbn [go_get]. rewrite Hn.
  pose proof (texts_ok_process nx Hkn) as Ht. destruct (processNextEpochAssignments nx) as [pubs slots].
  rewrite go_bind_run. cbn [go_modify]. rewrite go_bind_run. cbn [go_modify]. rewrite Hc, go_bind_run.
  set (c2 := set_next _ _ _).
  assert (∃ c3, (if firsTime c then
                   go_modify (set_first false) ;;
                   let '(pubs, slots) := processNextEpochAssignments cu in go_modify (set_cur pubs slots)
                 else mret ()) c2 = Ret ((), c3) ∧
    view c3 = (curSlot c, curEpoch c, prevEpoch c, false, SlotsPerEpoch c, (pubs, slots),
               if firsTime c then processNextEpochAssignments cu else next_maps c)) as (c3 & E3 & V3).
  { destruct (firsTime c) eqn:Ef.
    - rewrite go_bind_run. cbn [go_modify]. destruct (processNextEpochAssignments cu) as [p s].
      eexists. split; [reflexivity|done].
    - exists c2. split; [done|]. unfold view. cbn. by rewrite Ef. }
  rewrite E3, go_bind_run. cbn [go_get]. rewrite go_bind_run.
  destruct (logProposerSchedule_logged (curEpoch c3) (curEpochProposerIndexToPubKey c3) (curEpochSlotToProposerIndex c3) c3)
    as (c4 & E4 & L4). rewrite E4, go_bind_run.
  destruct (logProposerSchedule_logged (wrapu 64 (curEpoch c3 + 1)) (nextEpochProposerIndexToPubKey c3)
    (nextEpochSlotToProposerIndex c3) c4) as (c5 & E5 & L5). rewrite E5, go_bind_run.
  pose proof (logged_trans _ _ _ L4 L5) as L. pose proof (logged_view _ _ L) as V5. rewrite V3 in V5.
  destruct (checkCompatibility_logged cu c5 Hkc) as (c6 & E6 & L6).
  { unfold view in V5. injection V5 as _ _ _ _ _ -> _ _. exact Ht. }
  exists c6. rewrite E6. split; [done|]. by rewrite (logged_view _ _ L6).
Qed.

Section node.
Context (DivSlot : Z → Z → outcome Z) (A : Z → list assignment) (spe : Z).

(** An answer of a node whose head is in epoch [e] and whose assignments are [A]. *)
Definition truthful (e : Z) (r : answers) : Prop :=
  (∃ s, GetChainHead r = Ok s ∧ DivSlot s spe = Ret e) ∧
  NextEpochProposerList r = Ok (A (e + 1)%Z) ∧ ListValidatorAssignments r e = Ok (A e) ∧
  (0 ≤ e < 2 ^ 64 - 1)%Z.

(** What holds between ticks, after a tick of epoch [o] if there was one. *)
Definition scheduled (o : option Z) (c : Client) : Prop :=
  SlotsPerEpoch c = spe ∧
  match o with
  | None => firsTime c = true
  | Some e =>
      (0 ≤ e)%Z ∧ firsTime c = false ∧ curEpoch c = e ∧ prevEpoch c = e ∧
      cur_maps c = processNextEpochAssignments (A e) ∧ next_maps c = processNextEpochAssignments (A (e + 1))
  end.

(** A tick whose head is in an epoch that is not processed yet. *)
Lemma tick_new r c e :
  (∀ e, keys_ok (A e)) → truthful e r → SlotsPerEpoch c = spe →
  firsTime c = true ∨ (0 ≤ prevEpoch c < e)%Z →
  ∃ c', tick DivSlot r c = Ret (false, c') ∧ ∃ s,
    view c' = (s, e, e, false, spe, processNextEpochAssignments (A (e + 1)),
               if firsTime c then processNextEpochAssignments (A e) else next_maps c).
Proof.
  intros Hk ((s & Hs & Hd) & Hn & Hc & He) Hspe Hnew. unfold tick, CanonicalHeadSlot.
  rewrite go_bind_run, Hs, go_bind_run. cbn [go_modify mret go_ret negb]. rewrite go_bind_run. cbn [go_get].
  cbn [curSlot SlotsPerEpoch set_slot]. rewrite Hspe, Hd. do 2 (rewrite go_bind_run; cbn [go_modify]).
  replace (firsTime _ || _) with true.
  2: { cbn [firsTime prevEpoch set_slot]. destruct (firsTime c); [done|]. cbn [orb]. symmetry. apply Z.leb_le.
       destruct Hnew as [|Hnew]; [done|]. unfold wrapu. rewrite Z.mod_small; lia. }
  rewrite go_bind_run. cbn [go_modify].
  destruct (refresh_run r (set_epochs e e (log_entry (LHead e s) (set_epochs e (prevEpoch c) (set_slot s c))))
    (A (e + 1)%Z) (A e)) as (c' & E & V); [done|done|done|done|].
  exists c'. split; [exact E|]. exists s. rewrite V. cbn. by rewrite Hspe.
Qed.

Lemma tick_same r c e :
  truthful e r → SlotsPerEpoch c = spe → firsTime c = false → prevEpoch c = e →
  ∃ c', tick DivSlot r c = Ret (false, c') ∧ ∃ s,
    view c' = (s, e, e, false, spe, next_maps c, cur_maps c).
Proof.
  intros ((s & Hs & Hd) & Hn & Hc & He) Hspe Hf Hp. unfold tick, CanonicalHeadSlot.
  rewrite go_bind_run, Hs, go_bind_run. cbn [go_modify mret go_ret negb]. rewrite go_bind_run. cbn [go_get].
  cbn [curSlot SlotsPerEpoch set_slot]. rewrite Hspe, Hd. do 2 (rewrite go_bind_run; cbn [go_modify]).
  cbn [firsTime prevEpoch set_slot]. rewrite Hf, Hp. cbn [orb].
  rewrite (proj2 (Z.leb_gt _ _)) by (unfold wrapu; rewrite Z.mod_small; lia).
  eexists. split; [reflexivity|]. exists s. unfold view. cbn. by rewrite Hf, Hspe.
Qed.

(** Ticks of a node whose head never moves back and never jumps over an epoch, from
    the last epoch seen to the new one; calls of [GetChainHead] may fail. *)
Inductive follows : option Z → list answers → option Z → Prop :=
| fo_nil o : follows o [] o
| fo_failed o r e rs o' : GetChainHead r = Err e → follows o rs o' → follows o (r :: rs) o'
| fo_tick o r e rs o' :
    truthful e r → (∀ p, o = Some p → (p ≤ e ≤ p + 1)%Z) → follows (Some e) rs o' → follows o (r :: rs) o'.

Lemma view_scheduled c s e n cu :
  view c = (s, e, e, false, spe, n, cu) → n = processNextEpochAssignments (A (e + 1)%Z) →
  cu = processNextEpochAssignments (A e) → (0 ≤ e)%Z → scheduled (Some e) c.
Proof. unfold view. intros E -> -> He. injection E; intros. unfold scheduled. split_and!; (done || congruence). Qed.

Lemma tick_scheduled o r e c :
  (∀ e, keys_ok (A e)) → truthful e r → (∀ p, o = Some p → (p ≤ e ≤ p + 1)%Z) → scheduled o c →
  ∃ c', tick DivSlot r c = Ret (false, c') ∧ scheduled (Some e) c'.
Proof.
  intros Hk Hr Ho [Hspe Hs]. pose proof Hr as (_ & _ & _ & He). destruct o as [p|].
  - destruct Hs as (Hp0 & Hfirst & Hce & Hpe & Hcur & Hnext). specialize (Ho p eq_refl).
    destruct (decide (e = p)) as [->|Hne].
    + destruct (tick_same r c p Hr Hspe Hfirst Hpe) as (c1 & E & s & V). exists c1.
      split; [done|]. eapply view_scheduled; [exact V|done..].
    + destruct (tick_new r c e Hk Hr Hspe) as (c1 & E & s & V); [right; lia|].
      exists c1. split; [done|]. rewrite Hfirst in V. eapply view_scheduled; [exact V|done| |lia].
      rewrite Hnext. do 2 f_equal. lia.
  - destruct (tick_new r c e Hk Hr Hspe) as (c1 & E & s & V); [by left|].
    exists c1. split; [done|]. rewrite Hs in V. eapply view_scheduled; [exact V|done|done|lia].
Qed.

Lemma runner_scheduled o rs o' c :
  (∀ e, keys_ok (A e)) → follows o rs o' → scheduled o c →
  ∃ c', runner DivSlot rs c = Ret ((), c') ∧ scheduled o' c'.
Proof.
  intros Hk Hf. revert c. induction Hf as [o|o r e rs o' Hr _ IH|o r e rs o' Hr Ho _ IH]; intros c Hs; cbn [runner].
  - by exists c.
  - rewrite go_bind_run. unfold tick, CanonicalHeadSlot. rewrite go_bind_run, Hr, go_bind_run.
    cbn [go_modify mret go_ret negb]. by apply (IH (log_entry (LHeadFailed e) c)).
  - destruct (tick_scheduled o r e c) as (c1 & E1 & S1); [done..|]. rewrite go_bind_run, E1. by apply IH.
Qed.

(** C22: against a node that answers truthfully and whose head never jumps over an
    epoch, the loop never panics or stops, and after every tick since the first
    successful one the current and the next schedule are those of the head's epoch
    and of the epoch after it. *)
Theorem schedules_current ep log rs e :
  (∀ e, keys_ok (A e)) → follows None rs (Some e) →
  ∃ c, runner DivSlot rs (NewClient ep spe log) = Ret ((), c) ∧ curEpoch c = e ∧
    cur_maps c = processNextEpochAssignments (A e) ∧ next_maps c = processNextEpochAssignments (A (e + 1)).
Proof.
  intros Hk Hf. destruct (runner_scheduled None rs (Some e) (NewClient ep spe log) Hk Hf) as (c & E & _ & S); [done|].
  exists c. tauto.
Qed.

(** when the head jumps over epochs between two ticks, the client reports the
    schedule of the epoch after the first tick's as that of the new epoch. *)
Theorem skipped_epoch_stale ep log r1 r2 e1 e2 :
  (∀ e, keys_ok (A e)) → truthful e1 r1 → truthful e2 r2 → (e1 < e2)%Z →
  ∃ c, runner DivSlot [r1; r2] (NewClient ep spe log) = Ret ((), c) ∧ curEpoch c = e2 ∧
    cur_maps c = processNextEpochAssignments (A (e1 + 1)) ∧ next_maps c = processNextEpochAssignments (A (e2 + 1)).
Proof.
  intros Hk H1 H2 Hlt. pose proof H1 as (_ & _ & _ & He1). cbn [runner].
  destruct (tick_new r1 (NewClient ep spe log) e1 Hk H1 eq_refl) as (c1 & E1 & s1 & V1); [by left|].
  injection V1; intros. rewrite go_bind_run, E1.
  destruct (tick_new r2 c1 e2 Hk H2) as (c2 & E2 & s2 & V2); [done|right; lia|].
  replace (firsTime c1) with false in V2 by done. injection V2; intros.
  exists c2. rewrite go_bind_run, E2. split; [done|]. split; [done|]. split; congruence.
Qed.
End node.

(** with no slots per epoch given, the client says that it defaults to 32, but
    keeps 0: where dividing by zero slots panics, the first answer of the node
    about its head makes the program panic. *)
Theorem slots_per_epoch_zero DivSlot ep r s :
  (∀ s, ∃ msg, DivSlot s 0%Z = Panic msg) → GetChainHead r = Ok s →
  LDefault "No --slots-per-epoch specified, defaulting 32" ∈ c_log (main_client ep 0) ∧
  SlotsPerEpoch (main_client ep 0) = 0%Z ∧
  ∃ msg, runner DivSlot [r] (main_client ep 0) = Panic msg.
Proof.
  intros Hd Hs. split; [unfold main_client; cbn; by left|]. split; [done|]. destruct (Hd s) as [msg Hm]. exists msg.
  cbn [runner]. rewrite go_bind_run. unfold tick, CanonicalHeadSlot. rewrite go_bind_run, Hs, go_bind_run.
  cbn [go_modify mret go_ret negb]. rewrite go_bind_run. cbn [go_get main_client NewClient set_slot curSlot SlotsPerEpoch].
  by rewrite Hm.
Qed.

(** [checkCompatibility] looks up the slots of the current assignments in the
    schedule of the next epoch: when that schedule has none of them and validator 0
    proposes nothing in it, no mismatch with the stored current schedule is ever
    reported. *)
Theorem checkCompatibility_inert l c :
  (∀ a s, a ∈ l → s ∈ as_ProposerSlots a → nextEpochSlotToProposerIndex c !! s = None) →
  nextEpochProposerIndexToPubKey c !! 0%Z = None → checkCompatibility l c = Ret ((), c).
Proof.
  intros Hl H0. unfold checkCompatibility. induction l as [|a l IH]; [done|]. cbn [check_assignments].
  assert (∀ slots, (∀ s, s ∈ slots → nextEpochSlotToProposerIndex c !! s = None) → check_slots a slots c = Ret (false, c)) as Hs.
  { clear IH. intros slots Hn. induction slots as [|s slots IHs]; [done|]. cbn [check_slots]. rewrite go_bind_run. cbn [go_get].
    rewrite (Hn s) by (by left). cbn [default]. rewrite H0. cbn [default String.length Nat.ltb Nat.leb andb].
    apply IHs. intros s' Hs'. apply Hn. by right. }
  rewrite go_bind_run, Hs by (intros s; by apply (Hl a s); left). apply IH. intros a' s Ha. apply Hl. by right.
Qed.

Lemma log_for_entries {B} (l : list B) (f : B → entry) c :
  ∃ c', go_for l (λ x, go_modify (log_entry (f x))) c = Ret ((), c') ∧ c_log c' = c_log c ++ map f l.
Proof.
  revert c. induction l as [|x l IH]; intros c; cbn [go_for]; [exists c; by rewrite app_nil_r|].
  rewrite go_bind_run. cbn [go_modify]. destruct (IH (log_entry (f x) c)) as (c' & E & L). exists c'.
  split; [done|]. rewrite L. cbn. by rewrite <-app_assoc.
Qed.

Lemma StronglySorted_lt (l : list Z) : StronglySorted Z.le l → NoDup l → StronglySorted Z.lt l.
Proof.
  induction 1 as [|x l _ IH Hx]; intros Hnd; [constructor|]. apply NoDup_cons in Hnd as [Hn Hnd].
  constructor; [by apply IH|]. apply Forall_forall. intros y Hy. rewrite Forall_forall in Hx. specialize (Hx y Hy).
  assert (x ≠ y) by (intros ->; done). lia.
Qed.

(** the schedule of an epoch is logged once per slot, in increasing order of the
    slots, each with the key of its proposer. *)
Theorem logProposerSchedule_sorted epoch pubs (slots : gmap Z Z) c :
  (∀ s, is_Some (slots !! s) → (0 ≤ s < 2 ^ 63)%Z) →
  ∃ c' ks, logProposerSchedule epoch pubs slots c = Ret ((), c') ∧
    c_log c' = c_log c ++ LEpoch epoch ::
      map (λ s, LSchedule s epoch ("0x" +:+ default "" (pubs !! default 0%Z (slots !! s)))) ks ∧
    StronglySorted Z.lt ks ∧ ∀ s, s ∈ ks ↔ is_Some (slots !! s).
Proof.
  intros Hs. set (keys := (map_to_list slots).*1).
  assert (∀ s, s ∈ keys ↔ is_Some (slots !! s)) as Hkeys.
  { intros s. unfold keys. rewrite list_elem_of_fmap. split.
    - intros ([s' v] & -> & Hin). apply elem_of_map_to_list in Hin. eauto.
    - intros [v Hv]. exists (s, v). split; [done|]. by apply elem_of_map_to_list. }
  assert (map (wraps 64) keys = keys) as Hw.
  { transitivity (map id keys); [|apply list_fmap_id]. apply map_ext_Forall, Forall_forall. intros s Hin%Hkeys%Hs.
    change (id s) with s. apply wraps_id; [lia|unfold in_s; lia]. }
  unfold logProposerSchedule, sorted_keys. rewrite go_bind_run. cbn [go_modify]. fold keys. rewrite Hw.
  set (ks := merge_sort Z.le keys). pose proof (merge_sort_Permutation Z.le keys) as Hp. fold ks in Hp.
  destruct (log_for_entries ks (λ k, LSchedule (wrapu 64 k) epoch
    ("0x" +:+ default "" (pubs !! default 0%Z (slots !! wrapu 64 k)))) (log_entry (LEpoch epoch) c)) as (c' & E & L).
  assert (∀ s, s ∈ ks ↔ is_Some (slots !! s)) as Hin by (intros s; by rewrite Hp).
  exists c', ks. split; [exact E|]. split; [|split; [|done]].
  - rewrite L. cbn [c_log log_entry]. rewrite <-app_assoc. apply (f_equal (λ l, c_log c ++ LEpoch epoch :: l)).
    apply map_ext_Forall, Forall_forall.
    intros s Hk%Hin%Hs. unfold wrapu. by rewrite Z.mod_small by lia.
  - apply StronglySorted_lt; [apply (StronglySorted_merge_sort Z.le)|].
    rewrite Hp. apply NoDup_fst_map_to_list.
Qed.

(** ** Examples *)

Definition ex_DivSlot (s x : Z) : outcome Z := if (x =? 0)%Z then Panic "divbyzero" else Ret (s / x)%Z.
(** In epoch [e] validator [e + 1] proposes the first slot. *)
Definition ex_A (e : Z) : list assignment := [mkAssignment (replicate 48 7%Z) [(32 * e)%Z] (e + 1)%Z].
Definition ex_node (s : Z) : answers := mkAnswers (Ok s) (Ok (ex_A (s / 32 + 1))) (λ e, Ok (ex_A e)).

Lemma ex_keys e : keys_ok (ex_A e).
Proof. intros a ->%list_elem_of_singleton. cbn. lia. Qed.
Lemma ex_truthful s : (0 ≤ s < 2 ^ 64)%Z → truthful ex_DivSlot ex_A 32 (s / 32) (ex_node s).
Proof.
  intros Hs. split; [by exists s|]. split; [done|]. split; [done|].
  split; [apply Z.div_pos; lia|]. apply Z.div_lt_upper_bound; lia.
Qed.

Lemma schedules_current_witness :
  ∃ c, runner ex_DivSlot [ex_node 5; ex_node 40] (NewClient "" 32 []) = Ret ((), c) ∧ curEpoch c = 1%Z ∧
    curEpochSlotToProposerIndex c !! 32%Z = Some 2%Z.
Proof.
  destruct (schedules_current ex_DivSlot ex_A 32 "" [] [ex_node 5; ex_node 40] 1) as (c & E & Hc & Hcur & _).
  - apply ex_keys.
  - apply (fo_tick _ _ _ _ _ 0); [apply (ex_truthful 5); lia|done|].
    apply (fo_tick _ _ _ _ _ 1); [apply (ex_truthful 40); lia|intros p [= <-]; lia|]. apply fo_nil.
  - exists c. split; [exact E|]. split; [exact Hc|]. injection Hcur as _ ->. reflexivity.
Defined.

Lemma skipped_epoch_stale_witness :
  ∃ c, runner ex_DivSlot [ex_node 5; ex_node 100] (NewClient "" 32 []) = Ret ((), c) ∧ curEpoch c = 3%Z ∧
    curEpochSlotToProposerIndex c !! 96%Z = None ∧ curEpochSlotToProposerIndex c !! 32%Z = Some 2%Z.
Proof.
  destruct (skipped_epoch_stale ex_DivSlot ex_A 32 "" [] (ex_node 5) (ex_node 100) 0 3) as (c & E & Hc & Hcur & _).
  - apply ex_keys.
  - apply (ex_truthful 5). lia.
  - apply (ex_truthful 100). lia.
  - lia.
  - exists c. split; [exact E|]. split; [exact Hc|]. injection Hcur as _ ->. split; reflexivity.
Defined.

Lemma slots_per_epoch_zero_witness :
  SlotsPerEpoch (main_client "" 0) = 0%Z ∧ ∃ msg, runner ex_DivSlot [ex_node 5] (main_client "" 0) = Panic msg.
Proof.
  destruct (slots_per_epoch_zero ex_DivSlot "" (ex_node 5) 5) as (_ & H1 & H2); [intros s; by eexists|done|by split].
Defined.

(** The stored schedule gives slot 5 to validator 1, the node to validator 2. *)
Definition ex_stored : Client := set_cur {[ 1%Z := HexEncode (replicate 48 1%Z) ]} {[ 5%Z := 1%Z ]} (NewClient "" 32 []).
Lemma checkCompatibility_inert_witness :
  curEpochSlotToProposerIndex ex_stored !! 5%Z = Some 1%Z ∧
  checkCompatibility [mkAssignment (replicate 48 2%Z) [5%Z] 2] ex_stored = Ret ((), ex_stored).
Proof. split; [reflexivity|]. apply checkCompatibility_inert; [|reflexivity]. intros a s _ _. reflexivity. Defined.

Lemma logProposerSchedule_sorted_witness :
  ∃ c' ks, logProposerSchedule 1 ∅ {[ 33%Z := 1%Z; 32%Z := 2%Z ]} (NewClient "" 32 []) = Ret ((), c') ∧
    StronglySorted Z.lt ks ∧ 32%Z ∈ ks.
Proof.
  destruct (logProposerSchedule_sorted 1 ∅ {[ 33%Z := 1%Z; 32%Z := 2%Z ]} (NewClient "" 32 [])) as (c' & ks & E & _ & Hs & Hk).
  - intros s [v Hv]. apply lookup_insert_Some in Hv as [[<- _]|[_ Hv]]; [lia|].
    apply lookup_singleton_Some in Hv as [<- _]. lia.
  - exists c', ks. split; [exact E|]. split; [exact Hs|]. apply Hk. by eexists.
Defined.
