(* ===== verification/GoPath.v ===== *)
(** * Paths of the Go standard library

    [path.Clean] and its relatives, which are the same function in [path] and, on
    Unix, in [path/filepath], and [os.ExpandEnv].  A key is the list of the names
    of an absolute path without [.] and [..], the last one first; [abs_path] prints
    it and is what [Clean] gives for every absolute path. *)

From S2P Require Import Prelude GoText.

Definition slash : ascii := "/"%char.

(** [strings.Split(s, c)] for a separator of one byte. *)
Fixpoint split_on (c : ascii) (s : string) : list string :=
  match s with
  | EmptyString => [""]
  | String d s =>
      if decide (d = c) then "" :: split_on c s
      else match split_on c s with [] => [] | a :: l => String d a :: l end
  end.

Definition rooted (p : string) : bool := HasPrefix p "/".

(** One element of a path against the elements kept so far, the last one first. *)
Definition clean_elem (root : bool) (out : list string) (e : string) : list string :=
  if decide (e = "" ∨ e = ".") then out
  else if decide (e = "..") then
    match out with
    | top :: out' => if decide (top = "..") then e :: out else out'
    | [] => if root then [] else [e]
    end
  else e :: out.
Definition clean_elems (root : bool) (l : list string) : list string := foldl (clean_elem root) [] l.

Definition Clean (p : string) : string :=
  let out := Join "/" (reverse (clean_elems (rooted p) (split_on slash p))) in
  if rooted p then "/" +:+ out else if decide (out = "") then "." else out.

(** [filepath.Join]. *)
Definition JoinPath (elems : list string) : string :=
  match filter (λ e, e ≠ "") elems with [] => "" | l => Clean (Join "/" l) end.

Fixpoint last_slash (p : string) : option (string * string) :=
  match p with
  | EmptyString => None
  | String c p =>
      match last_slash p with
      | Some (a, b) => Some (String c a, b)
      | None => if decide (c = slash) then Some (String c "", p) else None
      end
  end.
Fixpoint trim_right_slash (p : string) : string :=
  match p with
  | EmptyString => ""
  | String c p' => match trim_right_slash p' with
                   | EmptyString => if decide (c = slash) then "" else String c ""
                   | q => String c q
                   end
  end.
Definition Base (p : string) : string :=
  if decide (p = "") then "."
  else let q := trim_right_slash p in
       let q := match last_slash q with Some (_, b) => b | None => q end in
       if decide (q = "") then "/" else q.

(** [filepath.Abs], from the working directory. *)
Definition Abs (wd p : string) : string := if rooted p then Clean p else JoinPath [wd; p].

(** ** [os.ExpandEnv] *)

Definition special_var (c : ascii) : bool :=
  bool_decide (c ∈ ["*"; "#"; "$"; "@"; "!"; "?"; "-"]%char) || in_range 48 57 c.
Definition alpha_num (c : ascii) : bool :=
  bool_decide (c = "_"%char) || in_range 48 57 c || in_range 97 122 c || in_range 65 90 c.
Fixpoint span (f : ascii → bool) (s : string) : string * string :=
  match s with
  | EmptyString => ("", "")
  | String c s' => if f c then let '(a, b) := span f s' in (String c a, b) else ("", s)
  end.

(** [getShellName]: the name after a dollar and what follows it; no name with the
    text of a bad syntax dropped, or no name at all. *)
Inductive shell_name := SName (name rest : string) | SBad (rest : string) | SNone.
Definition getShellName (s : string) : shell_name :=
  match s with
  | EmptyString => SNone
  | String c t =>
      if decide (c = "{"%char) then
        match cut "}" t with
        | Some ("", rest) => SBad rest
        | Some (name, rest) => SName name rest
        | None => SBad t
        end
      else if special_var c then SName (String c "") t
      else match span alpha_num s with
           | ("", _) => SNone
           | (name, rest) => SName name rest
           end
  end.

(** Each round takes at least one byte off the text, so its length is enough fuel. *)
Fixpoint Expand (fuel : nat) (mapping : string → string) (s : string) : string :=
  match fuel, s with
  | S fuel, String c t =>
      if decide (c = "$"%char ∧ t ≠ "") then
        match getShellName t with
        | SName name rest => mapping name +:+ Expand fuel mapping rest
        | SBad rest => Expand fuel mapping rest
        | SNone => String c (Expand fuel mapping t)
        end
      else String c (Expand fuel mapping t)
  | _, _ => ""
  end.
Definition ExpandEnv (getenv : string → string) (s : string) : string := Expand (slen s) getenv s.

(** ** Keys *)

Abbreviation key := (list string).

Definition no_slash (n : string) : bool := str_forall (λ d, negb (bool_decide (d = slash))) n.
Definition name_ok (n : string) : Prop := n ≠ "" ∧ n ≠ "." ∧ n ≠ ".." ∧ no_slash n = true.
Definition key_ok (k : key) : Prop := Forall name_ok k.
Definition abs_path (k : key) : string := "/" +:+ Join "/" (reverse k).
(** No dollar: nothing for [ExpandEnv] to do. *)
Definition plain (s : string) : bool := str_forall (λ d, negb (bool_decide (d = "$"%char))) s.

Lemma ExpandEnv_plain getenv s : plain s = true → ExpandEnv getenv s = s.
Proof.
  unfold ExpandEnv. induction s as [|c s IH]; [done|]. cbn [slen plain str_forall]. intros [Hc Hs]%andb_true_iff.
  cbn [Expand]. rewrite decide_False; [by rewrite IH|].
  intros [-> _]. by rewrite bool_decide_eq_true_2 in Hc.
Qed.

Lemma plain_app a b : plain (a +:+ b) = plain a && plain b.
Proof. apply str_forall_app. Qed.

Lemma plain_Join l : Forall (λ n, plain n = true) l → plain (Join "/" l) = true.
Proof.
  induction 1 as [|n l Hn Hl IH]; [done|]. destruct l as [|m l]; [done|].
  change (Join "/" (n :: m :: l)) with (n +:+ "/" +:+ Join "/" (m :: l)). by rewrite !plain_app, Hn, IH.
Qed.

Lemma split_on_free c a : str_forall (λ d, negb (bool_decide (d = c))) a = true → split_on c a = [a].
Proof.
  induction a as [|d a IH]; [done|]. cbn. intros [Hd Ha]%andb_true_iff.
  rewrite decide_False, IH by (done || by apply negb_true_iff, bool_decide_eq_false_1 in Hd). done.
Qed.

Lemma split_on_app c a b : str_forall (λ d, negb (bool_decide (d = c))) a = true →
  split_on c (a +:+ String c b) = a :: split_on c b.
Proof.
  induction a as [|d a IH]; [rewrite str_app_nil; cbn [split_on]; by rewrite decide_True|].
  rewrite str_app_cons. cbn [split_on str_forall]. intros [Hd Ha]%andb_true_iff.
  rewrite decide_False, IH by (done || by apply negb_true_iff, bool_decide_eq_false_1 in Hd). done.
Qed.

Lemma split_on_cons c s : ∃ a l, split_on c s = a :: l.
Proof.
  induction s as [|d s (a & l & IH)]; [by do 2 eexists|]. cbn. case_decide; [by do 2 eexists|]. rewrite IH. by do 2 eexists.
Qed.

Lemma split_on_parts c s : Forall (λ a, str_forall (λ d, negb (bool_decide (d = c))) a = true) (split_on c s).
Proof.
  induction s as [|d s IH]; cbn; [by constructor|]. case_decide as Hd; [by constructor|].
  destruct (split_on c s) as [|a l]; [done|]. apply Forall_cons in IH as [Ha Hl]. constructor; [|done].
  cbn. by rewrite bool_decide_eq_false_2.
Qed.

Lemma split_Join l : Forall (λ n, no_slash n = true) l → l ≠ [] → split_on slash (Join "/" l) = l.
Proof.
  induction 1 as [|n l Hn Hl IH]; [done|]. intros _. destruct l as [|m l]; [by apply split_on_free|].
  change (Join "/" (n :: m :: l)) with (n +:+ String slash (Join "/" (m :: l))).
  rewrite split_on_app by done. by rewrite IH.
Qed.

Lemma clean_elems_snoc root l e : clean_elems root (l ++ [e]) = clean_elem root (clean_elems root l) e.
Proof. apply foldl_snoc. Qed.

Lemma clean_elems_names root l k : key_ok l → foldl (clean_elem root) k l = reverse l ++ k.
Proof.
  intros Hl. revert k. induction Hl as [|n l (Hn1 & Hn2 & Hn3 & _) Hl IH]; intros k; [done|].
  cbn [foldl]. unfold clean_elem at 2. rewrite decide_False by naive_solver. rewrite decide_False by done.
  rewrite IH, reverse_cons. by rewrite <-app_assoc.
Qed.

Lemma key_ok_no_slash k : key_ok k → Forall (λ n, no_slash n = true) k.
Proof. intros Hk. eapply Forall_impl; [exact Hk|]. by intros n (_ & _ & _ & ?). Qed.

Lemma reverse_ne {A} (l : list A) : l ≠ [] → reverse l ≠ [].
Proof. intros Hl H. apply Hl. by rewrite <-(reverse_involutive l), H. Qed.

Lemma split_abs_path k : key_ok k → split_on slash (abs_path k) = "" :: match k with [] => [""] | _ => reverse k end.
Proof.
  intros Hk. unfold abs_path. rewrite str_app_cons, str_app_nil. cbn [split_on]. rewrite decide_True by done. f_equal.
  destruct k as [|n k]; [done|].
  apply split_Join; [apply Forall_reverse, key_ok_no_slash, Hk|by apply reverse_ne].
Qed.

Lemma clean_elem_empty root k : clean_elem root k "" = k.
Proof. unfold clean_elem. rewrite decide_True; [done|by left]. Qed.

Lemma rooted_abs_path k : rooted (abs_path k) = true.
Proof. unfold abs_path, rooted, HasPrefix. rewrite str_app_cons, str_app_nil. cbn. by destruct (Join "/" (reverse k)). Qed.

(** A key is printed to a path that [Clean] leaves alone. *)
Lemma Clean_abs_path k : key_ok k → Clean (abs_path k) = abs_path k.
Proof.
  intros Hk. unfold Clean. rewrite split_abs_path by done. rewrite rooted_abs_path. cbv iota.
  unfold abs_path, clean_elems. do 2 f_equal. destruct k as [|n k]; cbn [foldl];
    rewrite !clean_elem_empty; [done|].
  rewrite clean_elems_names by (by apply Forall_reverse). by rewrite app_nil_r, reverse_involutive.
Qed.

Lemma clean_elem_root k e : key_ok k → no_slash e = true → key_ok (clean_elem true k e).
Proof.
  intros Hk He. unfold clean_elem. case_decide as H1; [done|]. case_decide as H2.
  - destruct k as [|n k]; [done|]. apply Forall_cons in Hk as [(_ & _ & Hn & _) Hk]. by rewrite decide_False.
  - apply Forall_cons. split; [|done]. unfold name_ok. naive_solver.
Qed.

Lemma clean_elems_root l k : key_ok k → Forall (λ n, no_slash n = true) l → key_ok (foldl (clean_elem true) k l).
Proof.
  intros Hk Hl. revert k Hk. induction Hl as [|n l Hn Hl IH]; intros k Hk; [done|]. apply IH. by apply clean_elem_root.
Qed.

(** An absolute path is cleaned to the print of a key. *)
Lemma Clean_rooted p : rooted p = true → ∃ k, key_ok k ∧ Clean p = abs_path k.
Proof.
  intros Hp. unfold Clean. rewrite Hp. eexists. split; [|done].
  apply clean_elems_root; [constructor|]. apply split_on_parts.
Qed.

Lemma rooted_app a b : rooted a = true → rooted (a +:+ b) = true.
Proof. by destruct a as [|c [|]], b. Qed.

Lemma abs_path_ne k : abs_path k ≠ "".
Proof. unfold abs_path. by rewrite str_app_cons. Qed.

Lemma Abs_abs_path kw p : ∃ k, key_ok k ∧ Abs (abs_path kw) p = abs_path k.
Proof.
  unfold Abs. destruct (rooted p) eqn:Hp; [by apply Clean_rooted|].
  unfold JoinPath. rewrite filter_cons, decide_True by apply abs_path_ne.
  rewrite filter_cons. case_decide; apply Clean_rooted; [|apply rooted_abs_path]. apply rooted_app, rooted_abs_path.
Qed.

Lemma Abs_key wd k : key_ok k → Abs wd (abs_path k) = abs_path k.
Proof. unfold Abs. rewrite rooted_abs_path. apply Clean_abs_path. Qed.

Lemma reverse_cons_ne {A} (x : A) l : ∃ y l', reverse (x :: l) = y :: l'.
Proof. destruct (reverse (x :: l)) eqn:E; [by apply (reverse_ne (x :: l)) in E|eauto]. Qed.

Lemma Join_snoc l n : l ≠ [] → Join "/" (l ++ [n]) = Join "/" l +:+ "/" +:+ n.
Proof.
  induction l as [|m l IH]; [done|]. intros _. destruct l as [|m' l]; [done|].
  change (Join "/" ((m :: m' :: l) ++ [n])) with (m +:+ "/" +:+ Join "/" ((m' :: l) ++ [n])).
  rewrite IH by done. change (Join "/" (m :: m' :: l)) with (m +:+ "/" +:+ Join "/" (m' :: l)).
  by rewrite !str_app_assoc.
Qed.

(** Joining a name to the print of a key. *)
Lemma JoinPath_name k n : key_ok (n :: k) → JoinPath [abs_path k; n] = abs_path (n :: k).
Proof.
  intros Hk. pose proof Hk as [(Hn & _) Hk']%Forall_cons. unfold JoinPath.
  rewrite filter_cons, decide_True by apply abs_path_ne. rewrite filter_cons, decide_True by done. rewrite filter_nil.
  change (Join "/" [abs_path k; n]) with (abs_path k +:+ "/" +:+ n).
  unfold Clean. assert (rooted (abs_path k +:+ "/" +:+ n) = true) as -> by (apply rooted_app, rooted_abs_path). unfold abs_path at 2. do 3 f_equal.
  destruct k as [|m k].
  - unfold abs_path. rewrite !str_app_cons, !str_app_nil. cbn [split_on]. rewrite !decide_True by done.
    rewrite split_on_free by (by apply Forall_cons in Hk as [(_ & _ & _ & ?) _]).
    unfold clean_elems. cbn [foldl]. rewrite !clean_elem_empty.
    exact (clean_elems_names true [n] [] Hk).
  - assert (abs_path (m :: k) +:+ "/" +:+ n = abs_path (n :: m :: k)) as ->.
    { unfold abs_path. rewrite (reverse_cons (m :: k) n), Join_snoc by (by apply reverse_ne). by rewrite str_app_assoc. }
    rewrite split_abs_path by done. unfold clean_elems. cbn [foldl]. rewrite clean_elem_empty.
    rewrite clean_elems_names by (by apply Forall_reverse). by rewrite app_nil_r, reverse_involutive.
Qed.

Lemma plain_abs_path k : Forall (λ n, plain n = true) k → plain (abs_path k) = true.
Proof.
  intros Hk. unfold abs_path. rewrite str_app_cons, str_app_nil. cbn. apply plain_Join. by apply Forall_reverse.
Qed.

Lemma abs_path_cons n k : k ≠ [] → abs_path (n :: k) = abs_path k +:+ "/" +:+ n.
Proof.
  intros Hk. unfold abs_path. rewrite reverse_cons, Join_snoc by (by apply reverse_ne). by rewrite str_app_assoc.
Qed.

Lemma abs_path_inj k k' : key_ok k → key_ok k' → abs_path k = abs_path k' → k = k'.
Proof.
  intros Hk Hk' E. apply (f_equal (split_on slash)) in E. rewrite !split_abs_path in E by done.
  injection E as E. destruct k as [|n k], k' as [|n' k']; [done|..].
  - apply (f_equal reverse) in E. rewrite reverse_involutive in E. injection E as <- <-.
    by apply Forall_cons in Hk' as [(? & _) _].
  - apply (f_equal reverse) in E. rewrite reverse_involutive in E. injection E as -> ->.
    by apply Forall_cons in Hk as [(? & _) _].
  - by apply (inj reverse) in E.
Qed.

Lemma Join_app l l' : l ≠ [] → l' ≠ [] → Join "/" (l ++ l') = Join "/" l +:+ "/" +:+ Join "/" l'.
Proof.
  intros Hl. revert l' . induction l as [|m l IH]; [done|]. intros l' Hl'. destruct l as [|m' l].
  - destruct l' as [|n l']; [done|]. done.
  - change (Join "/" ((m :: m' :: l) ++ l')) with (m +:+ "/" +:+ Join "/" ((m' :: l) ++ l')).
    rewrite IH by done. change (Join "/" (m :: m' :: l)) with (m +:+ "/" +:+ Join "/" (m' :: l)).
    by rewrite !str_app_assoc.
Qed.

Lemma abs_path_app q k : q ≠ [] → k ≠ [] → abs_path (q ++ k) = abs_path k +:+ "/" +:+ Join "/" (reverse q).
Proof.
  intros Hq Hk. unfold abs_path. rewrite reverse_app, Join_app by (by apply reverse_ne). by rewrite str_app_assoc.
Qed.

Lemma Join_ne l : key_ok l → l ≠ [] → Join "/" l ≠ "".
Proof.
  intros Hl Hne. destruct l as [|n l]; [done|]. apply Forall_cons in Hl as [(Hn & _) _].
  destruct n as [|c n]; [done|]. destruct l as [|m l]; [done|].
  change (Join "/" (String c n :: m :: l)) with (String c n +:+ "/" +:+ Join "/" (m :: l)). by rewrite str_app_cons.
Qed.

(** Joining a relative path to the print of a key. *)
Lemma JoinPath_rel q k : key_ok (q ++ k) → q ≠ [] → k ≠ [] → JoinPath [abs_path k; Join "/" (reverse q)] = abs_path (q ++ k).
Proof.
  intros Hk Hq Hne. unfold JoinPath.
  pose proof Hk as [Hkq _]%Forall_app. apply Forall_reverse in Hkq.
  rewrite filter_cons, decide_True by apply abs_path_ne.
  rewrite filter_cons, decide_True by (apply Join_ne; [done|by apply reverse_ne]). rewrite filter_nil.
  change (Join "/" [abs_path k; ?x]) with (abs_path k +:+ "/" +:+ x). rewrite <-abs_path_app by done.
  by apply Clean_abs_path.
Qed.

Example Clean_ex : Clean "/a/b/../c/./d//" = "/a/c/d" ∧ Clean "../x/../.." = "../.." ∧ Clean "" = "." ∧
  JoinPath ["a"; ""; "../b"] = "b" ∧ Base "/x/y/" = "y" ∧ Base "//" = "/" ∧
  ExpandEnv (λ n, "<" +:+ n +:+ ">") "$HOME/${A}b$1x$$ $" = "<HOME>/<A>b<1>x<$> $".
Proof. repeat split. Qed.
