(* ===== verification/GoFs.v ===== *)
(** * Files and directories of the Go standard library

    A file system without symbolic links, whose entries have modes, used by a
    process with all rights: calls fail when a name or a directory is missing or an
    entry has the wrong kind.  There is no limit on the length of names and paths, on
    space or on open files.  Entries are found at the key of their path. *)

From S2P Require Import Prelude GoText GoPath.
From stdpp Require Import sorting.

Inductive errno := ENOENT | ENOTDIR | EISDIR.

(** Go errors: of a system call on a path, a text, and another error wrapped. *)
Inductive err :=
| EPath (op path : string) (e : errno)
| EText (msg : string)
| EWrap (msg : string) (e : err).

Definition strerror (e : errno) : string :=
  match e with
  | ENOENT => "no such file or directory"
  | ENOTDIR => "not a directory"
  | EISDIR => "is a directory"
  end.
Fixpoint Error (e : err) : string :=
  match e with
  | EPath op path e => op +:+ " " +:+ path +:+ ": " +:+ strerror e
  | EText msg => msg
  | EWrap msg e => msg +:+ ": " +:+ Error e
  end.
Definition IsNotExist (e : err) : bool := match e with EPath _ _ ENOENT => true | _ => false end.

Inductive entry := EFile (mode : Z) (data : string) | EDir (mode : Z).
Abbreviation fs := (gmap key entry).

Record world := mkWorld {
  w_fs : fs;
  w_wd : key;
  w_env : gmap string string;
  w_user : option string;
  w_umask : Z }.
Definition set_fs (f : fs) (w : world) : world := mkWorld f (w_wd w) (w_env w) (w_user w) (w_umask w).

Definition Getenv (w : world) (n : string) : string := default "" (w_env w !! n).
Definition Getwd (w : world) : string := abs_path (w_wd w).

(** How the kernel follows a path: what it goes through has to be a directory. *)
Fixpoint walk (f : fs) (cur : key) (l : list string) : result errno key :=
  match l with
  | [] => Ok cur
  | e :: l =>
      match f !! cur with
      | Some (EDir _) =>
          walk f (if decide (e = "" ∨ e = ".") then cur else if decide (e = "..") then tail cur else e :: cur) l
      | Some (EFile _ _) => Err ENOTDIR
      | None => Err ENOENT
      end
  end.
Definition resolve (w : world) (p : string) : result errno key :=
  if decide (p = "") then Err ENOENT
  else walk (w_fs w) (if rooted p then [] else w_wd w) (split_on slash p).

Definition find_entry (op : string) (w : world) (p : string) : result err (key * entry) :=
  match resolve w p with
  | Err e => Err (EPath op p e)
  | Ok k => match w_fs w !! k with Some e => Ok (k, e) | None => Err (EPath op p ENOENT) end
  end.

Definition Stat (w : world) (p : string) : result err entry :=
  match find_entry "stat" w p with Ok (_, e) => Ok e | Err e => Err e end.
Definition IsDir (e : entry) : bool := match e with EDir _ => true | EFile _ _ => false end.
Definition Mode (e : entry) : Z := match e with EDir m => m | EFile m _ => m end.
Definition Perm (m : Z) : Z := Z.land m 511.

(** [ioutil.ReadFile]. *)
Definition ReadFile (w : world) (p : string) : result err string :=
  match find_entry "open" w p with
  | Ok (_, EFile _ d) => Ok d
  | Ok (_, EDir _) => Err (EPath "read" p EISDIR)
  | Err e => Err e
  end.

(** [ioutil.WriteFile]: truncates a file and leaves its mode, or makes a new one. *)
Definition WriteFile (w : world) (p data : string) (perm : Z) : result err world :=
  match resolve w p with
  | Err e => Err (EPath "open" p e)
  | Ok k =>
      match w_fs w !! k with
      | Some (EDir _) => Err (EPath "open" p EISDIR)
      | Some (EFile m _) => Ok (set_fs (<[k := EFile m data]> (w_fs w)) w)
      | None => Ok (set_fs (<[k := EFile (Z.ldiff perm (w_umask w)) data]> (w_fs w)) w)
      end
  end.

(** The names in a directory, in the order of [ioutil.ReadDir]. *)
Definition names (f : fs) (k : key) : list string :=
  merge_sort String.le (omap (λ ke, match ke.1 with n :: k' => if decide (k' = k) then Some n else None | [] => None end)
                          (map_to_list f)).
Definition entries (f : fs) (k : key) : list (string * entry) :=
  omap (λ n, e ← f !! (n :: k); Some (n, e)) (names f k).

(** [ioutil.ReadDir]; reading the names of a file is refused. *)
Definition ReadDir (w : world) (p : string) : result err (list (string * entry)) :=
  match find_entry "open" w p with
  | Ok (k, EDir _) => Ok (entries (w_fs w) k)
  | Ok (_, EFile _ _) => Err (EPath "readdirent" p ENOTDIR)
  | Err e => Err e
  end.

(** [os.MkdirAll] of the directory with key [k], a clean absolute path. *)
Fixpoint mkdir_all (f : fs) (k : key) (mode : Z) : result err fs :=
  match f !! k with
  | Some (EDir _) => Ok f
  | Some (EFile _ _) => Err (EPath "mkdir" (abs_path k) ENOTDIR)
  | None =>
      match k with
      | [] => Err (EPath "mkdir" (abs_path k) ENOENT)
      | n :: k' => f' ← mkdir_all f k' mode; Ok (<[n :: k' := EDir mode]> f')
      end
  end.
(** The key of a clean absolute path. *)
Definition key_of (p : string) : key := clean_elems true (split_on slash p).
Definition MkdirAll (w : world) (p : string) (perm : Z) : result err world :=
  f ← mkdir_all (w_fs w) (key_of p) (Z.ldiff perm (w_umask w)); Ok (set_fs f w).

(** ** Well-formed file systems *)

Definition dir_at (f : fs) (k : key) : bool := match f !! k with Some (EDir _) => true | _ => false end.

Record fs_ok (f : fs) : Prop := {
  fo_root : dir_at f [] = true;
  fo_up n k : is_Some (f !! (n :: k)) → dir_at f k = true ∧ name_ok n }.

Lemma fs_ok_key f k : fs_ok f → is_Some (f !! k) → key_ok k.
Proof.
  intros Hf. induction k as [|n k IH]; intros Hk; [constructor|]. destruct (fo_up f Hf n k Hk) as [Hd Hn].
  constructor; [done|]. apply IH. unfold dir_at in Hd. by destruct (f !! k).
Qed.

Lemma walk_app f cur l l' : walk f cur (l ++ l') = (k ← walk f cur l; walk f k l').
Proof.
  revert cur. induction l as [|e l IH]; intros cur; [done|]. cbn [walk app]. destruct (f !! cur) as [[|]|]; cbn; auto.
Qed.

Lemma walk_names f k : fs_ok f → key_ok k → dir_at f (tail k) = true → walk f [] (reverse k) = Ok k.
Proof.
  intros Hf. induction k as [|n k IH]; intros Hk Hd; [done|].
  apply Forall_cons in Hk as [(Hn1 & Hn2 & Hn3 & _) Hk]. cbn [tail] in Hd. rewrite reverse_cons, walk_app.
  rewrite IH; [|done|].
  - cbn. unfold dir_at in Hd. destruct (f !! k) as [[|]|]; try done.
    rewrite decide_False by naive_solver. by rewrite decide_False.
  - destruct k as [|m k]; [apply (fo_root f Hf)|]. cbn. apply (fo_up f Hf m).
    unfold dir_at in Hd. by destruct (f !! (m :: k)).
Qed.

(** A path printed from a key is found at the key when its parent is a directory. *)
Lemma resolve_key w k : fs_ok (w_fs w) → key_ok k → dir_at (w_fs w) (tail k) = true → resolve w (abs_path k) = Ok k.
Proof.
  intros Hf Hk Hd. unfold resolve. rewrite decide_False by apply abs_path_ne.
  rewrite rooted_abs_path, split_abs_path by done. cbn [walk].
  pose proof (fo_root _ Hf) as Hroot. unfold dir_at in Hroot. destruct (w_fs w !! []) as [[|]|] eqn:E; try done.
  rewrite decide_True by (by left). destruct k as [|n k]; [cbn; by rewrite E|].
  by apply walk_names.
Qed.

(** No file is in the way of the directory with key [k]. *)
Definition no_file (f : fs) (k : key) : Prop := ∀ j m d, j `suffix_of` k → f !! j ≠ Some (EFile m d).

Lemma no_file_tail f n k : no_file f (n :: k) → no_file f k.
Proof. intros H j m d Hj. apply H. by apply suffix_cons_r. Qed.

Lemma dir_at_up f n k : fs_ok f → is_Some (f !! (n :: k)) → dir_at f k = true.
Proof. intros Hf H. by apply (fo_up f Hf n). Qed.

Lemma dir_at_Some f k : dir_at f k = true → ∃ m, f !! k = Some (EDir m).
Proof. unfold dir_at. destruct (f !! k) as [[|m]|]; [done|by exists m|done]. Qed.

(** Everything above an entry is a directory. *)
Lemma dir_above f q k : fs_ok f → is_Some (f !! (q ++ k)) → q ≠ [] → dir_at f k = true.
Proof.
  intros Hf. induction q as [|n q IH]; [done|]. intros H _. apply dir_at_up in H; [|done].
  destruct q as [|m q]; [done|]. apply IH; [|done]. apply dir_at_Some in H as [x Hx]. by exists (EDir x).
Qed.

Lemma dir_no_file f k : fs_ok f → dir_at f k = true → no_file f k.
Proof.
  intros Hf Hd j m d [q ->] Hj. destruct q as [|n q]; [cbn in Hd; unfold dir_at in Hd; by rewrite Hj in Hd|].
  apply dir_at_Some in Hd as [m' Hd].
  assert (dir_at f j = true) as Hj' by (eapply (dir_above f (n :: q)); [done|by eexists|done]).
  unfold dir_at in Hj'. by rewrite Hj in Hj'.
Qed.

Lemma walk_missing f k : fs_ok f → key_ok k → no_file f (tail k) → dir_at f (tail k) = false →
  walk f [] (reverse k) = Err ENOENT.
Proof.
  intros Hf. induction k as [|n k IH]; intros Hk Hno Hd.
  { cbn in Hd. pose proof (fo_root f Hf) as Hr. congruence. }
  cbn [tail] in *. pose proof Hk as [_ Hk']%Forall_cons. rewrite reverse_cons, walk_app.
  destruct (dir_at f (tail k)) eqn:Ht.
  - rewrite walk_names by done. cbn. unfold dir_at in Hd. destruct (f !! k) as [[m d|]|] eqn:E; [|done..].
    by apply Hno in E; [|].
  - rewrite IH; [done|done| |done]. destruct k as [|m k]; [done|]. by eapply no_file_tail.
Qed.

Lemma resolve_missing w k : fs_ok (w_fs w) → key_ok k → no_file (w_fs w) (tail k) → dir_at (w_fs w) (tail k) = false →
  resolve w (abs_path k) = Err ENOENT.
Proof.
  intros Hf Hk Hno Hd. unfold resolve. rewrite decide_False by apply abs_path_ne.
  rewrite rooted_abs_path, split_abs_path by done. cbn [walk].
  destruct (dir_at_Some _ _ (fo_root _ Hf)) as [m E]. rewrite E, decide_True by (by left).
  destruct k as [|n k]; [pose proof (fo_root _ Hf) as Hr; cbn in Hd; congruence|]. by apply walk_missing.
Qed.

(** [Stat] of the print of a key. *)
Lemma find_entry_key op w k : fs_ok (w_fs w) → key_ok k → no_file (w_fs w) (tail k) →
  find_entry op w (abs_path k) =
  match w_fs w !! k with Some e => Ok (k, e) | None => Err (EPath op (abs_path k) ENOENT) end.
Proof.
  intros Hf Hk Hno. unfold find_entry. destruct (dir_at (w_fs w) (tail k)) eqn:Hd.
  - by rewrite resolve_key.
  - rewrite resolve_missing by done. destruct (w_fs w !! k) eqn:E; [|done].
    destruct k as [|n k]; [pose proof (fo_root _ Hf); cbn in Hd; congruence|].
    rewrite (dir_at_up _ n) in Hd; [done..|by eexists].
Qed.

Lemma key_of_abs_path k : key_ok k → key_of (abs_path k) = k.
Proof.
  intros Hk. unfold key_of, clean_elems. rewrite split_abs_path by done. destruct k as [|n k]; cbn [foldl];
    rewrite !clean_elem_empty; [done|].
  rewrite clean_elems_names by (by apply Forall_reverse). by rewrite app_nil_r, reverse_involutive.
Qed.

(** [mkdir_all] makes the missing directories of the key and nothing else. *)
Definition with_dirs (f : fs) (k : key) (mode : Z) (j : key) : option entry :=
  match f !! j with
  | Some e => Some e
  | None => if bool_decide (j `suffix_of` k) then Some (EDir mode) else None
  end.

Lemma mkdir_all_ok f k mode : fs_ok f → key_ok k → no_file f k →
  ∃ f', mkdir_all f k mode = Ok f' ∧ fs_ok f' ∧ ∀ j, f' !! j = with_dirs f k mode j.
Proof.
  intros Hf. induction k as [|n k IH]; intros Hk Hno.
  { destruct (dir_at_Some _ _ (fo_root f Hf)) as [m E]. exists f. cbn. rewrite E. split_and!; [done..|].
    intros j. unfold with_dirs. destruct (f !! j) eqn:Ej; [done|].
    rewrite bool_decide_eq_false_2; [done|]. intros ->%suffix_nil_inv. congruence. }
  pose proof Hk as [Hn Hk']%Forall_cons. cbn [mkdir_all]. destruct (f !! (n :: k)) as [[m d|m]|] eqn:E.
  - by apply Hno in E.
  - exists f. split_and!; [done..|]. intros j. unfold with_dirs. destruct (f !! j) eqn:Ej; [done|].
    rewrite bool_decide_eq_false_2; [done|]. intros [q Hq]. rewrite Hq in E.
    destruct q as [|x q]; [cbn in E; congruence|].
    destruct (dir_at_Some _ _ (dir_above f (x :: q) j Hf ltac:(by eexists) ltac:(done))). congruence.
  - destruct IH as (f' & -> & Hf' & Hl); [done|by eapply no_file_tail|]. cbn. eexists. split; [done|].
    assert (dir_at f' k = true) as Hdk.
    { unfold dir_at. rewrite Hl. unfold with_dirs. rewrite bool_decide_eq_true_2 by done.
      destruct (f !! k) as [[m d|]|] eqn:Ek; [|done..]. by apply Hno in Ek; [|by apply suffix_cons_r]. }
    split.
    + split.
      * unfold dir_at. rewrite lookup_insert_ne by done. apply (fo_root f' Hf').
      * intros m j [e Hj]. destruct (decide (m :: j = n :: k)) as [[= -> ->]|Hne].
        { split; [|done]. unfold dir_at. rewrite lookup_insert_ne by (intros Hc; apply (f_equal length) in Hc; cbn in Hc; lia).
          exact Hdk. }
        rewrite lookup_insert_ne in Hj by done. destruct (fo_up f' Hf' m j ltac:(by eexists)) as [Hd Hm]. split; [|done].
        unfold dir_at in *. destruct (decide (j = n :: k)) as [->|]; [by rewrite lookup_insert_eq|].
        by rewrite lookup_insert_ne.
    + intros j. destruct (decide (j = n :: k)) as [->|Hne].
      * rewrite lookup_insert_eq. unfold with_dirs. by rewrite E, bool_decide_eq_true_2.
      * rewrite lookup_insert_ne, Hl by done. unfold with_dirs. destruct (f !! j); [done|].
        replace (bool_decide (j `suffix_of` n :: k)) with (bool_decide (j `suffix_of` k)); [done|].
        apply bool_decide_ext. split; [apply suffix_cons_r|]. intros [[|x q] Hq]; [by rewrite Hq in Hne|]. injection Hq as _ ->. by eexists.
Qed.

Lemma elem_of_names f k n : n ∈ names f k ↔ is_Some (f !! (n :: k)).
Proof.
  unfold names. rewrite merge_sort_Permutation, list_elem_of_omap. split.
  - intros ([[|m j] e] & Hin & Hm); cbn in Hm; [done|]. case_decide; [|done]. simplify_eq.
    apply elem_of_map_to_list in Hin. by eexists.
  - intros [e He]. exists (n :: k, e). split; [by apply elem_of_map_to_list|]. cbn. by rewrite decide_True.
Qed.

Lemma NoDup_omap_inj {A B} (g : A → option B) (l : list A) :
  (∀ x y b, x ∈ l → y ∈ l → g x = Some b → g y = Some b → x = y) → NoDup l → NoDup (omap g l).
Proof.
  intros Hinj. induction 1 as [|x l Hx Hl IH]; [constructor|]. cbn.
  assert (NoDup (omap g l)) as Hl' by (apply IH; intros y z b Hy Hz; apply Hinj; by right).
  destruct (g x) as [b|] eqn:E; [|done]. constructor; [|done].
  intros (y & Hy & Hyb)%list_elem_of_omap. apply Hx. rewrite (Hinj x y b); [done|by left|by right|done|done].
Qed.

Lemma NoDup_names f k : NoDup (names f k).
Proof.
  unfold names. rewrite merge_sort_Permutation. apply NoDup_omap_inj; [|apply NoDup_map_to_list].
  intros [j e] [j' e'] n Hj Hj' H H'. apply elem_of_map_to_list in Hj, Hj'.
  destruct j as [|m j], j' as [|m' j']; cbn in *; try done. repeat case_decide; simplify_eq. done.
Qed.

Lemma names_sorted f k : StronglySorted String.le (names f k).
Proof. apply StronglySorted_merge_sort; apply _. Qed.

(** A new file in a directory. *)
Lemma fs_ok_file f n k m d :
  fs_ok f → name_ok n → dir_at f k = true → dir_at f (n :: k) = false → fs_ok (<[n :: k := EFile m d]> f).
Proof.
  intros Hf Hn Hd Hnd. split; [unfold dir_at; rewrite lookup_insert_ne by done; apply (fo_root f Hf)|].
  intros x j Hj. assert (dir_at f j = true ∧ name_ok x) as [Hdj Hx].
  { destruct (decide (x :: j = n :: k)) as [[= -> ->]|Hne]; [done|].
    rewrite lookup_insert_ne in Hj by done. by apply (fo_up f Hf). }
  split; [|done]. unfold dir_at in *. destruct (decide (j = n :: k)) as [->|]; [congruence|].
  by rewrite lookup_insert_ne.
Qed.

Lemma WriteFile_new w n k d perm :
  fs_ok (w_fs w) → key_ok (n :: k) → dir_at (w_fs w) k = true → w_fs w !! (n :: k) = None →
  WriteFile w (abs_path (n :: k)) d perm =
    Ok (set_fs (<[n :: k := EFile (Z.ldiff perm (w_umask w)) d]> (w_fs w)) w).
Proof. intros Hf Hk Hd Hn. unfold WriteFile. rewrite resolve_key by done. by rewrite Hn. Qed.

Lemma ReadFile_key w k : fs_ok (w_fs w) → key_ok k → no_file (w_fs w) (tail k) →
  ReadFile w (abs_path k) =
  match w_fs w !! k with
  | Some (EFile _ d) => Ok d
  | Some (EDir _) => Err (EPath "read" (abs_path k) EISDIR)
  | None => Err (EPath "open" (abs_path k) ENOENT)
  end.
Proof. intros Hf Hk Hno. unfold ReadFile. rewrite find_entry_key by done. by destruct (w_fs w !! k) as [[|]|]. Qed.

Lemma ReadDir_key w k : fs_ok (w_fs w) → key_ok k → dir_at (w_fs w) k = true →
  ReadDir w (abs_path k) = Ok (entries (w_fs w) k).
Proof.
  intros Hf Hk Hd. unfold ReadDir. rewrite find_entry_key.
  - apply dir_at_Some in Hd as [m ->]. done.
  - done.
  - done.
  - apply dir_no_file; [done|]. destruct k as [|n k]; [done|]. apply (dir_at_up _ n); [done|].
    apply dir_at_Some in Hd as [m Hd]. by exists (EDir m).
Qed.

Lemma elem_of_entries f k n e : (n, e) ∈ entries f k ↔ f !! (n :: k) = Some e.
Proof.
  unfold entries. rewrite list_elem_of_omap. split.
  - intros (m & Hm & H). destruct (f !! (m :: k)) eqn:E; [|done]. cbn in H. by simplify_eq.
  - intros H. exists n. split; [apply elem_of_names; by eexists|]. by rewrite H.
Qed.

Lemma walk_names_inv f k j : key_ok k → walk f [] (reverse k) = Ok j → j = k.
Proof.
  revert j. induction k as [|n k IH]; intros j Hk; [by intros [= <-]|].
  apply Forall_cons in Hk as [(Hn1 & Hn2 & Hn3 & _) Hk]. rewrite reverse_cons, walk_app.
  destruct (walk f [] (reverse k)) as [k'|]; [|done]. rewrite (IH k') by done. cbn.
  destruct (f !! k) as [[|]|]; [done| |done]. rewrite decide_False by naive_solver. rewrite decide_False by done.
  by intros [= <-].
Qed.

Lemma resolve_key_inv w k j : key_ok k → resolve w (abs_path k) = Ok j → j = k.
Proof.
  intros Hk. unfold resolve. rewrite decide_False by apply abs_path_ne.
  rewrite rooted_abs_path, split_abs_path by done. cbn [walk]. destruct (w_fs w !! []) as [[|]|] eqn:E; [done| |done].
  rewrite decide_True by (by left). destruct k as [|n k]; [cbn; rewrite E; by intros [= <-]|]. by apply walk_names_inv.
Qed.

Lemma mkdir_all_file f k mode j m d : fs_ok f → j `suffix_of` k → f !! j = Some (EFile m d) → ∃ e, mkdir_all f k mode = Err e.
Proof.
  intros Hf Hj Hfile. assert (dir_at f k = false) as Hd.
  { destruct (dir_at f k) eqn:Hd; [|done]. exfalso. by apply (dir_no_file f k Hf Hd j m d). }
  induction k as [|n k IH].
  - pose proof (fo_root f Hf). congruence.
  - cbn [mkdir_all]. unfold dir_at in Hd. destruct (f !! (n :: k)) as [[|]|] eqn:E; [by eexists|done|].
    destruct Hj as [[|x q] Hq]; [cbn in Hq; congruence|]. injection Hq as _ Hq.
    assert (j `suffix_of` k) as Hjk by (by exists q).
    destruct IH as [e ->]; [done| |by eexists]. destruct (dir_at f k) eqn:Hdk; [|done]. exfalso.
    by apply (dir_no_file f k Hf Hdk j m d).
Qed.

(** A check of well-formedness, for file systems that are given. *)
#[export] Instance name_ok_dec n : Decision (name_ok n).
Proof. unfold name_ok. apply _. Defined.
Definition fs_okb (f : fs) : bool :=
  dir_at f [] &&
  forallb (λ ke, match ke.1 with n :: k => dir_at f k && bool_decide (name_ok n) | [] => true end) (map_to_list f).

Lemma fs_okb_ok f : fs_okb f = true → fs_ok f.
Proof.
  intros [Hr Hf]%andb_true_iff. split; [done|]. intros n k [e He]. rewrite forallb_forall in Hf.
  specialize (Hf (n :: k, e)). cbn in Hf. rewrite <-list_elem_of_In, elem_of_map_to_list in Hf.
  specialize (Hf He). apply andb_true_iff in Hf as [Hd Hn]. by apply bool_decide_eq_true in Hn.
Qed.
