(* ===== verification/Ipc.v ===== *)
(** * Unix sockets (simple_rpc/rpc/ipc_unix.go)

    The listener's socket in the file system of {!GoFs}: an entry with a mode and no
    content.  What goes over a connection is in {!RpcWire}. *)

From S2P Require Import Prelude GoText GoPath GoFs.

(** ** Paths and the system calls *)

(** [filepath.Dir]. *)
Definition Dir (p : string) : string := Clean (match last_slash p with Some (a, _) => a | None => "" end).

(** [os.Remove], whose error the code drops: a file or an empty directory goes. *)
Definition Remove (w : world) (p : string) : world :=
  match resolve w p with
  | Err _ => w
  | Ok k =>
      match w_fs w !! k with
      | Some (EFile _ _) => set_fs (delete k (w_fs w)) w
      | Some (EDir _) => if decide (names (w_fs w) k = [] ∧ k ≠ []) then set_fs (delete k (w_fs w)) w else w
      | None => w
      end
  end.

(** [os.Chmod], whose error the code drops. *)
Definition Chmod (w : world) (p : string) (mode : Z) : world :=
  match resolve w p with
  | Err _ => w
  | Ok k =>
      match w_fs w !! k with
      | Some (EFile _ d) => set_fs (<[k := EFile mode d]> (w_fs w)) w
      | Some (EDir _) => set_fs (<[k := EDir mode]> (w_fs w)) w
      | None => w
      end
  end.

(** [net.Listen("unix", p)]: binding makes the socket, where nothing may be; the
    kernel's address holds 107 bytes and a zero. *)
Definition sun_path : nat := 108.
Definition bind_error (p why : string) : err := EText ("listen unix " +:+ p +:+ ": bind: " +:+ why).
Definition Listen_unix (w : world) (p : string) : result err world :=
  if (sun_path <=? slen p)%nat then Err (bind_error p "invalid argument")
  else match resolve w p with
       | Err e => Err (bind_error p (strerror e))
       | Ok k =>
           match w_fs w !! k with
           | Some _ => Err (bind_error p "address already in use")
           | None => Ok (set_fs (<[k := EFile (Z.ldiff 511 (w_umask w)) ""]> (w_fs w)) w)
           end
       end.

(** ** ipc_unix.go *)

(** [max_path_size] on Unix; a longer endpoint is only warned of. *)
Definition max_path_size : nat := 100.
Definition ipc_warning (endpoint : string) : bool := (max_path_size <? slen endpoint)%nat.

(** [ipcListen]: what it leaves behind, and its error. *)
Definition ipcListen (w : world) (endpoint : string) : world * option err :=
  match MkdirAll w (Abs (Getwd w) (Dir endpoint)) 489 with
  | Err e => (w, Some e)
  | Ok w =>
      let w := Remove w endpoint in
      match Listen_unix w endpoint with
      | Err e => (w, Some e)
      | Ok w => (Chmod w endpoint 384, None)
      end
  end.

(** [newIPCConnection]: the connection is the operating system's, so that the dialer, a
    function of the network and the address, is given. *)
Definition newIPCConnection {conn : Type} (DialContext : string → string → result err conn) (endpoint : string) : result err conn :=
  DialContext "unix" endpoint.

(** ** The other platforms *)

(** [ipc_js.go]: there are none. *)
Definition errNotSupported : err := EText "rpc: not supported".
Definition ipcListen_js {listener : Type} (endpoint : string) : result err listener := Err errNotSupported.
Definition newIPCConnection_js {conn : Type} (endpoint : string) : result err conn := Err errNotSupported.

(** [ipc_windows.go]: named pipes of a package; a deadline that has passed is no time at
    all.  Times and durations in nanoseconds, [Time.Sub] keeping to 64 bits. *)
Definition defaultPipeDialTimeout : Z := 2000000000.
Definition time_Sub (t u : Z) : Z := (Z.max (- 2 ^ 63) (Z.min (2 ^ 63 - 1) (t - u)))%Z.
Definition pipe_timeout (deadline : option Z) (now : Z) : Z :=
  match deadline with
  | Some d => let timeout := time_Sub d now in if (timeout <? 0)%Z then 0%Z else timeout
  | None => defaultPipeDialTimeout
  end.
Definition newIPCConnection_windows {conn : Type} (DialTimeout : string → Z → result err conn)
    (deadline : option Z) (now : Z) (endpoint : string) : result err conn :=
  DialTimeout endpoint (pipe_timeout deadline now).

(** ** Lemmas *)

(** Every endpoint that is too long for the kernel has been warned of. *)
Lemma bind_too_long w p : (sun_path ≤ slen p)%nat →
  ipc_warning p = true ∧ Listen_unix w p = Err (bind_error p "invalid argument").
Proof.
  intros H. unfold ipc_warning, Listen_unix, max_path_size, sun_path in *.
  split; [apply Nat.ltb_lt; lia|]. by rewrite (proj2 (Nat.leb_le _ _)).
Qed.

(** A pipe is dialled for at most the time up to the deadline, and never for a negative one. *)
Lemma pipe_timeout_bound deadline now : in_s 64 (pipe_timeout deadline now) ∧ (0 ≤ pipe_timeout deadline now)%Z ∧
  (∀ d, deadline = Some d → (now ≤ d)%Z → (pipe_timeout deadline now ≤ d - now)%Z).
Proof.
  unfold pipe_timeout, time_Sub, in_s, defaultPipeDialTimeout. destruct deadline as [d|]; [|split_and!; [lia|lia|lia|done]].
  destruct (Z.ltb_spec (Z.max (- 2 ^ 63) (Z.min (2 ^ 63 - 1) (d - now))) 0); split_and!; try lia; intros ? [= <-]; lia.
Qed.

Lemma last_slash_app a n : no_slash n = true → last_slash (a +:+ String slash n) = Some (a +:+ String slash "", n).
Proof.
  intros Hn. assert (last_slash n = None) as Hnone.
  { unfold no_slash in Hn. induction n as [|c n IH]; [done|]. cbn in Hn. apply andb_true_iff in Hn as [Hc Hn].
    cbn [last_slash]. rewrite IH by done. rewrite decide_False; [done|]. by apply negb_true_iff, bool_decide_eq_false in Hc. }
  induction a as [|c a IH]; rewrite ?str_app_nil, ?str_app_cons; cbn [last_slash].
  - by rewrite Hnone, decide_True.
  - by rewrite IH.
Qed.

Lemma split_on_trailing c s : split_on c (s +:+ String c "") = split_on c s ++ [""].
Proof.
  induction s as [|d s IH]; rewrite ?str_app_nil, ?str_app_cons; cbn [split_on].
  - by rewrite decide_True.
  - rewrite IH. destruct (split_on_cons c s) as (a & l & ->). cbn. by destruct (decide _).
Qed.

Lemma Clean_trailing p : rooted p = true → Clean (p +:+ String slash "") = Clean p.
Proof.
  intros Hr. unfold Clean. rewrite (rooted_app p _ Hr), Hr, split_on_trailing, clean_elems_snoc. done.
Qed.

Lemma Dir_abs_path n k : key_ok (n :: k) → Dir (abs_path (n :: k)) = abs_path k.
Proof.
  intros Hk. pose proof Hk as [(_ & _ & _ & Hn) Hk']%Forall_cons. unfold Dir. destruct k as [|m k].
  - change (abs_path [n]) with ("" +:+ String slash n). by rewrite last_slash_app.
  - rewrite abs_path_cons by done. change ("/" +:+ n) with (String slash n). rewrite last_slash_app by done.
    rewrite Clean_trailing by apply rooted_abs_path. by apply Clean_abs_path.
Qed.

(** What is in the way of a socket: [Remove] takes a file or an empty directory away. *)
Definition in_the_way (f : fs) (k : key) : Prop := ∃ m x, f !! k = Some (EDir m) ∧ is_Some (f !! (x :: k)).

Lemma Remove_key w k : fs_ok (w_fs w) → key_ok k → dir_at (w_fs w) (tail k) = true → k ≠ [] →
  (in_the_way (w_fs w) k → Remove w (abs_path k) = w) ∧
  (¬ in_the_way (w_fs w) k → w_fs (Remove w (abs_path k)) = delete k (w_fs w) ∧ w_umask (Remove w (abs_path k)) = w_umask w).
Proof.
  intros Hf Hk Hd Hne. unfold Remove. rewrite resolve_key by done. split.
  - intros (m & x & -> & Hx). rewrite decide_False; [done|]. intros [Hnil _]. apply elem_of_names in Hx.
    rewrite Hnil in Hx. by apply elem_of_nil in Hx.
  - intros Hno. destruct (w_fs w !! k) as [[m d|m]|] eqn:E; [done| |by rewrite delete_id].
    rewrite decide_True; [done|]. split; [|done]. destruct (names (w_fs w) k) as [|x l] eqn:En; [done|].
    destruct Hno. exists m, x. split; [done|]. apply elem_of_names. rewrite En. by left.
Qed.

Lemma fs_ok_delete f n k : fs_ok f → ¬ in_the_way f (n :: k) → fs_ok (delete (n :: k) f).
Proof.
  intros Hf Hno. split; [unfold dir_at; rewrite lookup_delete_ne by done; apply (fo_root f Hf)|].
  intros m j [e [Hne Hj]%lookup_delete_Some]. destruct (fo_up f Hf m j ltac:(by eexists)) as [Hd Hm]. split; [|done].
  unfold dir_at in *. rewrite lookup_delete_ne; [done|]. intros E. destruct Hno. subst j.
  apply dir_at_Some in Hd as [x Hx]. exists x, m. split; [done|]. by eexists.
Qed.

(** Listening where nothing is, in a directory that is there. *)
Lemma Listen_Chmod w n k : fs_ok (w_fs w) → key_ok (n :: k) → dir_at (w_fs w) k = true → w_fs w !! (n :: k) = None →
  (slen (abs_path (n :: k)) < sun_path)%nat →
  ∃ w1, Listen_unix w (abs_path (n :: k)) = Ok w1 ∧
    w_fs (Chmod w1 (abs_path (n :: k)) 384) = <[n :: k := EFile 384 ""]> (w_fs w).
Proof.
  intros Hf Hk Hd Hn Hlen. unfold Listen_unix. rewrite (proj2 (Nat.leb_gt _ _)) by done.
  rewrite resolve_key, Hn by done. eexists. split; [done|]. unfold Chmod.
  rewrite resolve_key; [|apply fs_ok_file; [done|by apply Forall_cons in Hk as [? _]|done|by unfold dir_at; rewrite Hn]|done|].
  - cbn. rewrite lookup_insert_eq. cbn. by rewrite insert_insert_eq.
  - cbn. unfold dir_at in *. rewrite lookup_insert_ne; [done|]. by intros E%(f_equal length)%Nat.neq_succ_diag_l.
Qed.

(** [ipcListen] on an endpoint whose path fits a socket's address, in a well-formed
    file system with no file among the directories above it: it makes the missing
    directories, takes away what a server before it has left there, or any other file,
    and leaves a socket that only its owner can use, with mode 0600 whatever the umask
    is, and every other entry as it was; it fails exactly when the endpoint is a
    directory that is not empty, and then nothing has changed. *)
Theorem ipcListen_spec w n k :
  fs_ok (w_fs w) → key_ok (n :: k) → no_file (w_fs w) k → (slen (abs_path (n :: k)) < sun_path)%nat →
  (in_the_way (w_fs w) (n :: k) →
     (ipcListen w (abs_path (n :: k))).2 = Some (bind_error (abs_path (n :: k)) "address already in use") ∧
     ∀ j, w_fs (ipcListen w (abs_path (n :: k))).1 !! j = w_fs w !! j) ∧
  (¬ in_the_way (w_fs w) (n :: k) →
     (ipcListen w (abs_path (n :: k))).2 = None ∧
     ∀ j, w_fs (ipcListen w (abs_path (n :: k))).1 !! j =
       if decide (j = n :: k) then Some (EFile 384 "") else with_dirs (w_fs w) k (Z.ldiff 489 (w_umask w)) j).
Proof.
  intros Hf Hk Hno Hlen. pose proof Hk as [Hname Hk']%Forall_cons. unfold ipcListen, MkdirAll. rewrite Dir_abs_path, Abs_key, key_of_abs_path by done.
  destruct (mkdir_all_ok (w_fs w) k (Z.ldiff 489 (w_umask w)) Hf Hk' Hno) as (f' & -> & Hf' & Hl). cbn [mbind result_bind].
  set (w1 := set_fs f' w).
  assert (dir_at f' k = true) as Hdk.
  { unfold dir_at. rewrite Hl. unfold with_dirs. rewrite bool_decide_eq_true_2 by done.
    destruct (w_fs w !! k) as [[m d|]|] eqn:Ek; [|done..]. by apply Hno in Ek. }
  assert (∀ j, n :: k `suffix_of` j → f' !! j = w_fs w !! j) as Hsame.
  { intros j [q ->]. rewrite Hl. unfold with_dirs. destruct (w_fs w !! _); [done|]. rewrite bool_decide_eq_false_2; [done|].
    intros Hs%suffix_length. rewrite length_app in Hs. cbn in Hs. lia. }
  assert (in_the_way f' (n :: k) ↔ in_the_way (w_fs w) (n :: k)) as Hway.
  { unfold in_the_way. rewrite Hsame by done. by setoid_rewrite Hsame; [|by eexists [_]]. }
  destruct (Remove_key w1 (n :: k) Hf' Hk Hdk) as [R1 R2]; [done|]. split; intros Hw; rewrite <-Hway in Hw.
  - rewrite R1 by done. destruct Hw as (m & x & Hm & Hx). unfold Listen_unix. rewrite (proj2 (Nat.leb_gt _ _)) by done.
    rewrite resolve_key by done. cbn [w1 w_fs set_fs]. rewrite Hm. split; [done|]. intros j. cbn. rewrite Hl. unfold with_dirs.
    destruct (w_fs w !! j) eqn:Ej; [done|]. rewrite bool_decide_eq_false_2; [done|]. intros Hj. apply (suffix_cons_r _ _ n) in Hj.
    rewrite Hsame in Hm by done. destruct (decide (j = n :: k)) as [->|Hne]; [congruence|]. destruct Hj as [[|y q] Hq]; [done|].
    rewrite Hq in Hm. destruct (dir_at_Some _ _ (dir_above _ (y :: q) j Hf ltac:(by eexists) ltac:(done))). congruence.
  - destruct (R2 Hw) as [F U]. cbn [w1 w_fs set_fs] in F.
    assert (fs_ok (delete (n :: k) f')) as Hok by (by apply fs_ok_delete).
    destruct (Listen_Chmod (Remove w1 (abs_path (n :: k))) n k) as (w2 & -> & Hfs); rewrite ?F; try done.
    { unfold dir_at in *. rewrite lookup_delete_ne; [done|]. by intros E%(f_equal length)%Nat.neq_succ_diag_l. }
    { apply lookup_delete_eq. }
    split; [done|]. intros j. cbn [fst]. rewrite Hfs, F, insert_delete_eq. case_decide as Hj; [subst; apply lookup_insert_eq|].
    by rewrite lookup_insert_ne, Hl.
Qed.

(** A server that did not take its socket away, and another one after it. *)
Definition ex_socket : world := mkWorld
  {[ [] := EDir 493; ["tmp"] := EDir 511; ["orchestrator.ipc"; "tmp"] := EFile 384 "" ]} [] ∅ None 63.
Lemma ipcListen_spec_witness :
  (ipcListen ex_socket "/tmp/orchestrator.ipc").2 = None ∧
  w_fs (ipcListen ex_socket "/tmp/orchestrator.ipc").1 !! ["orchestrator.ipc"; "tmp"] = Some (EFile 384 "").
Proof.
  destruct (ipcListen_spec ex_socket "orchestrator.ipc" ["tmp"]) as [_ H].
  - apply fs_okb_ok. reflexivity.
  - repeat constructor; discriminate.
  - intros j m d Hj. destruct j as [|x [|y j]]; [discriminate| |by apply suffix_length in Hj; cbn in Hj; lia].
    destruct Hj as [[|z [|? q]] E]; [injection E as <-; discriminate|discriminate..].
  - vm_compute. lia.
  - destruct H as [H1 H2].
    + intros (m & x & E & _). discriminate.
    + split; [exact H1|]. exact (H2 ["orchestrator.ipc"; "tmp"]).
Defined.
