(* ===== verification/RouteGuide.v ===== *)
(** * The route guide server (route_guide/server/server.go)

    Features and routes as functions of what the streams deliver and accept, and
    the chat as threads that share the notes under a mutex.  [proto.Equal] is
    third-party and an argument; the distance of two points, which is
    {!RouteDistance}'s [calcDistance], is an argument too. *)

From S2P Require Import Prelude GoText Json.

Record Point := mkPoint { Latitude : Z; Longitude : Z }.
Record Rectangle := mkRectangle { Lo : option Point; Hi : option Point }.
Record Feature := mkFeature { Name : string; Location : option Point }.
Record RouteNote := mkNote { rn_Location : option Point; rn_Message : string }.
Record RouteSummary := mkSummary { PointCount : Z; FeatureCount : Z; Distance : Z; ElapsedTime : Z }.

#[export] Instance Point_eq_dec : EqDecision Point.
Proof. solve_decision. Defined.

#[export] Instance Feature_eq_dec : EqDecision Feature.
Proof. solve_decision. Defined.

Definition nil_deref {A} : outcome A := Panic "invalid memory address or nil pointer dereference".

(** [inRange]: the comparisons of [int32]s converted to [float64] are exact. *)
Definition inRange (point : option Point) (rect : Rectangle) : outcome bool :=
  match Lo rect, Hi rect with
  | Some lo, Some hi =>
      let left := Z.min (Longitude lo) (Longitude hi) in
      let right := Z.max (Longitude lo) (Longitude hi) in
      let top := Z.max (Latitude lo) (Latitude hi) in
      let bottom := Z.min (Latitude lo) (Latitude hi) in
      match point with
      | Some p =>
          Ret ((left <=? Longitude p)%Z && (Longitude p <=? right)%Z &&
               (bottom <=? Latitude p)%Z && (Latitude p <=? top)%Z)
      | None => nil_deref
      end
  | _, _ => nil_deref
  end.

(** [serialize]: [fmt.Sprintf] of two numbers. *)
Definition serialize (point : option Point) : outcome string :=
  match point with
  | Some p => Ret (FormatInt (Latitude p) +:+ " " +:+ FormatInt (Longitude p))
  | None => nil_deref
  end.

(** What [stream.Recv] returns in the end. *)
Inductive stream_end := EndEOF | EndErr (err : string).

Section route_guide.
Variable proto_Equal : option Point → option Point → bool.
Variable calcDistance : Point → Point → Z.

(** [GetFeature].  The features are pointers, which can be nil. *)
Fixpoint GetFeature (savedFeatures : list (option Feature)) (point : Point) : outcome Feature :=
  match savedFeatures with
  | [] => Ret (mkFeature "" (Some point))
  | Some f :: fs => if proto_Equal (Location f) (Some point) then Ret f else GetFeature fs point
  | None :: _ => nil_deref
  end.

(** [ListFeatures]; [send] is the error of the [n]-th [stream.Send], and the result
    is what was sent and the error returned. *)
Fixpoint ListFeatures (send : nat → option string) (savedFeatures : list (option Feature)) (rect : Rectangle) (n : nat) :
    outcome (list Feature * option string) :=
  match savedFeatures with
  | [] => Ret ([], None)
  | None :: _ => nil_deref
  | Some f :: fs =>
      match inRange (Location f) rect with
      | Panic e => Panic e
      | Blocks e => Blocks e
      | Ret false => ListFeatures send fs rect n
      | Ret true =>
          match send n with
          | Some err => Ret ([], Some err)
          | None => '(l, e) ← ListFeatures send fs rect (S n); Ret (f :: l, e)
          end
      end
  end.

(** The features at a point. *)
Fixpoint count_features (savedFeatures : list (option Feature)) (point : Point) (featureCount : Z) : outcome Z :=
  match savedFeatures with
  | [] => Ret featureCount
  | None :: _ => nil_deref
  | Some f :: fs =>
      count_features fs point
        (if proto_Equal (Location f) (Some point) then wraps 32 (featureCount + 1) else featureCount)
  end.

(** The loop of [RecordRoute] over the points of the stream. *)
Fixpoint record_loop (savedFeatures : list (option Feature)) (points : list Point)
    (st : Z * Z * Z * option Point) : outcome (Z * Z * Z * option Point) :=
  match points with
  | [] => Ret st
  | point :: points =>
      let '(pointCount, featureCount, distance, lastPoint) := st in
      featureCount ← count_features savedFeatures point featureCount;
      record_loop savedFeatures points
        (wraps 32 (pointCount + 1), featureCount,
         match lastPoint with Some p => wraps 32 (distance + calcDistance p point) | None => distance end,
         Some point)
  end.

(** [RecordRoute]: the summary sent, or the error; [seconds] is the time it took. *)
Definition RecordRoute (savedFeatures : list (option Feature)) (points : list Point) (e : stream_end) (seconds : Z) :
    outcome (result string RouteSummary) :=
  '(pointCount, featureCount, distance, _) ← record_loop savedFeatures points (0%Z, 0%Z, 0%Z, None);
  Ret (match e with
       | EndEOF => Ok (mkSummary pointCount featureCount distance (wraps 32 seconds))
       | EndErr err => Err err
       end).

(** ** The chat *)

(** The points of a [RouteChat] goroutine: receiving, holding a note before the
    lock, in the critical section before the append and before the copy, before
    the unlock, sending the notes of its copy, and the end. *)
Inductive chat_pc :=
| CRecv
| CLock (note : RouteNote) (key : string)
| CAppend (note : RouteNote) (key : string)
| CCopy (note : RouteNote) (key : string)
| CUnlock (rn : list RouteNote)
| CSend (rn : list RouteNote)
| CEnd.

(** A goroutine with the notes its stream still delivers and what it has sent. *)
Record chat := mkChat { ch_in : list RouteNote; ch_pc : chat_pc; ch_sent : list RouteNote }.

Record server := mkServer {
  routeNotes : gmap string (list RouteNote);
  mu : option nat;
  chats : list chat }.

(** The process goes on, or a goroutine has panicked and ended it. *)
Inductive process := Running (s : server) | Crashed.

(** One step of a goroutine.  The end of the stream, an error of [Recv] and a failing
    [Send] all make it return. *)
Inductive chat_step : server → process → Prop :=
| ch_recv s i c note key notes :
    chats s !! i = Some c → ch_pc c = CRecv → ch_in c = note :: notes → serialize (rn_Location note) = Ret key →
    chat_step s (Running (mkServer (routeNotes s) (mu s) (<[i := mkChat notes (CLock note key) (ch_sent c)]> (chats s))))
| ch_crash s i c note notes msg :
    chats s !! i = Some c → ch_pc c = CRecv → ch_in c = note :: notes → serialize (rn_Location note) = Panic msg →
    chat_step s Crashed
| ch_lock s i c note key :
    chats s !! i = Some c → ch_pc c = CLock note key → mu s = None →
    chat_step s (Running (mkServer (routeNotes s) (Some i) (<[i := mkChat (ch_in c) (CAppend note key) (ch_sent c)]> (chats s))))
| ch_append s i c note key :
    chats s !! i = Some c → ch_pc c = CAppend note key →
    chat_step s (Running (mkServer (<[key := default [] (routeNotes s !! key) ++ [note]]> (routeNotes s)) (mu s)
                            (<[i := mkChat (ch_in c) (CCopy note key) (ch_sent c)]> (chats s))))
| ch_copy s i c note key :
    chats s !! i = Some c → ch_pc c = CCopy note key →
    chat_step s (Running (mkServer (routeNotes s) (mu s)
                            (<[i := mkChat (ch_in c) (CUnlock (default [] (routeNotes s !! key))) (ch_sent c)]> (chats s))))
| ch_unlock s i c rn :
    chats s !! i = Some c → ch_pc c = CUnlock rn →
    chat_step s (Running (mkServer (routeNotes s) None (<[i := mkChat (ch_in c) (CSend rn) (ch_sent c)]> (chats s))))
| ch_send s i c note rn :
    chats s !! i = Some c → ch_pc c = CSend (note :: rn) →
    chat_step s (Running (mkServer (routeNotes s) (mu s) (<[i := mkChat (ch_in c) (CSend rn) (ch_sent c ++ [note])]> (chats s))))
| ch_sent_all s i c :
    chats s !! i = Some c → ch_pc c = CSend [] →
    chat_step s (Running (mkServer (routeNotes s) (mu s) (<[i := mkChat (ch_in c) CRecv (ch_sent c)]> (chats s))))
| ch_return s i c :
    chats s !! i = Some c → (ch_pc c = CRecv ∨ ∃ note rn, ch_pc c = CSend (note :: rn)) →
    chat_step s (Running (mkServer (routeNotes s) (mu s) (<[i := mkChat (ch_in c) CEnd (ch_sent c)]> (chats s)))).

(** A server with a goroutine for each stream. *)
Definition newServer (streams : list (list RouteNote)) : server :=
  mkServer ∅ None (map (λ notes, mkChat notes CRecv []) streams).
End route_guide.

(** ** Routes and rectangles *)

Section streams.
Context (proto_Equal : option Point → option Point → bool) (calcDistance : Point → Point → Z).

(** A point in the box of two corners, whichever way they are given. *)
Definition between (a b x : Z) : Prop := (a ≤ x ≤ b ∨ b ≤ x ≤ a)%Z.
#[export] Instance between_dec a b x : Decision (between a b x).
Proof. unfold between. apply _. Defined.
Definition inside (lo hi : Point) (f : Feature) : Prop :=
  match Location f with
  | Some p => between (Longitude lo) (Longitude hi) (Longitude p) ∧ between (Latitude lo) (Latitude hi) (Latitude p)
  | None => False
  end.
#[export] Instance inside_dec lo hi f : Decision (inside lo hi f).
Proof. unfold inside. destruct (Location f); apply _. Defined.

Lemma inRange_inside lo hi f :
  is_Some (Location f) → inRange (Location f) (mkRectangle (Some lo) (Some hi)) = Ret (bool_decide (inside lo hi f)).
Proof.
  destruct f as [name [p|]]; [intros _|by intros [? ?]]. unfold inRange. cbn [Lo Hi Location]. f_equal.
  apply eq_true_iff_eq. rewrite bool_decide_eq_true, !andb_true_iff, !Z.leb_le. unfold inside, between. cbn. lia.
Qed.

Lemma ListFeatures_all send fs lo hi k :
  Forall (λ f, is_Some (Location f)) fs → (∀ n, send n = None) →
  ListFeatures send (map Some fs) (mkRectangle (Some lo) (Some hi)) k = Ret (filter (inside lo hi) fs, None).
Proof.
  intros Hfs Hs. revert k. induction Hfs as [|f fs Hf _ IH]; intros k; [done|].
  cbn [ListFeatures map]. rewrite inRange_inside, filter_cons by done. case_bool_decide as Hin.
  - by rewrite decide_True, Hs, IH by done.
  - by rewrite decide_False, IH by done.
Qed.

(** for a rectangle with both corners [ListFeatures] sends exactly the features
    inside it, in their order, or those before the one for which [Send] fails; for
    a rectangle that lacks a corner, as a client may send it, it panics as soon as
    there is a feature. *)
Theorem ListFeatures_spec send fs rect :
  Forall (λ f, is_Some (Location f)) fs →
  match Lo rect, Hi rect with
  | Some lo, Some hi =>
      let matching := filter (inside lo hi) fs in
      ((∀ n, send n = None) → ListFeatures send (map Some fs) rect 0 = Ret (matching, None)) ∧
      ∀ n err, (n < length matching)%nat → send n = Some err → (∀ m, (m < n)%nat → send m = None) →
        ListFeatures send (map Some fs) rect 0 = Ret (take n matching, Some err)
  | _, _ => fs ≠ [] → ∃ msg, ListFeatures send (map Some fs) rect 0 = Panic msg
  end.
Proof.
  intros Hfs. destruct rect as [[lo|] [hi|]]; cbn [Lo Hi];
    [|intros Hne; destruct fs as [|f fs]; [done|by eexists]..].
  split; [by apply ListFeatures_all|]. change send with (λ m, send (0 + m)%nat) at 1 2. generalize 0%nat as k.
  induction Hfs as [|f fs Hf _ IH]; intros k n err Hn; [cbn in Hn; lia|].
  cbn [ListFeatures map]. rewrite inRange_inside by done. rewrite filter_cons in *. case_bool_decide as Hin.
  - rewrite decide_True in * by done. destruct n as [|n]; intros Hs Hm; [by rewrite Nat.add_0_r in Hs; rewrite Hs|].
    pose proof (Hm 0%nat ltac:(lia)) as Hm0. rewrite Nat.add_0_r in Hm0. rewrite Hm0.
    rewrite (IH (S k) n err); [done|cbn in Hn; lia|by rewrite Nat.add_succ_comm|].
    intros m Hlt. rewrite Nat.add_succ_comm. apply Hm. lia.
  - rewrite decide_False in * by done. by apply IH.
Qed.

(** The total of a route: the distances of consecutive points. *)
Fixpoint route_length (points : list Point) : Z :=
  match points with
  | p :: ((q :: _) as rest) => (calcDistance p q + route_length rest)%Z
  | _ => 0%Z
  end.
(** The features visited, counted once for each point they are at. *)
Definition visited (fs : list Feature) (points : list Point) : Z :=
  Z.of_nat (length (concat (map (λ p, List.filter (λ f, proto_Equal (Location f) (Some p)) fs) points))).

Lemma count_features_spec fs p n : count_features proto_Equal (map Some fs) p (wraps 32 n) =
  Ret (wraps 32 (n + Z.of_nat (length (List.filter (λ f, proto_Equal (Location f) (Some p)) fs)))).
Proof.
  revert n. induction fs as [|f fs IH]; intros n; cbn [count_features map List.filter]; [by rewrite Z.add_0_r|].
  destruct (proto_Equal _ _); [|apply IH]. rewrite wraps_add_l, IH by lia. do 2 f_equal. cbn [length]. lia.
Qed.

Lemma record_loop_spec fs points a b c lastPoint :
  record_loop proto_Equal calcDistance (map Some fs) points (wraps 32 a, wraps 32 b, wraps 32 c, lastPoint) =
  Ret (wraps 32 (a + Z.of_nat (length points)), wraps 32 (b + visited fs points),
   wraps 32 (c + route_length (match lastPoint with Some p => p :: points | None => points end)),
   match last points with Some p => Some p | None => lastPoint end).
Proof.
  revert a b c lastPoint. induction points as [|p points IH]; intros a b c lastPoint.
  { cbn. unfold visited. cbn. rewrite !Z.add_0_r. by destruct lastPoint; rewrite ?Z.add_0_r. }
  cbn [record_loop]. rewrite count_features_spec. cbn [mbind outcome_bind]. rewrite wraps_add_l by lia.
  replace (match lastPoint with Some p0 => wraps 32 (wraps 32 c + calcDistance p0 p) | None => wraps 32 c end)
    with (wraps 32 (c + match lastPoint with Some p0 => calcDistance p0 p | None => 0 end)).
  2: { destruct lastPoint; [by rewrite wraps_add_l by lia|by rewrite Z.add_0_r]. }
  rewrite IH. f_equal. f_equal; [f_equal; [f_equal|]|].
  - f_equal. cbn [length]. lia.
  - f_equal. unfold visited. cbn [map concat]. rewrite length_app. lia.
  - f_equal. destruct lastPoint; cbn [route_length]; lia.
  - destruct points as [|q points]; [done|]. rewrite last_cons_cons.
    by destruct (proj2 (last_is_Some (q :: points)) ltac:(done)) as [? ->].
Qed.

Lemma RecordRoute_summary fs points seconds :
  RecordRoute proto_Equal calcDistance (map Some fs) points EndEOF seconds =
  Ret (Ok (mkSummary (wraps 32 (Z.of_nat (length points))) (wraps 32 (visited fs points))
             (wraps 32 (route_length points)) (wraps 32 seconds))).
Proof.
  unfold RecordRoute. pose proof (record_loop_spec fs points 0 0 0 None) as E.
  change (wraps 32 0) with 0%Z in E. by rewrite E, !Z.add_0_l.
Qed.

(** C24: [RecordRoute] answers a route with the number of its points, of the features
    at them and the sum of the distances between consecutive points, each modulo
    [2^32] as an [int32]; an error of the stream is returned and nothing sent. *)
Theorem RecordRoute_spec fs points e seconds :
  RecordRoute proto_Equal calcDistance (map Some fs) points e seconds =
  Ret match e with
      | EndErr err => Err err
      | EndEOF => Ok (mkSummary (wraps 32 (Z.of_nat (length points))) (wraps 32 (visited fs points))
                        (wraps 32 (route_length points)) (wraps 32 seconds))
      end.
Proof.
  destruct e; [apply RecordRoute_summary|]. unfold RecordRoute.
  pose proof (record_loop_spec fs points 0 0 0 None) as E. change (wraps 32 0) with 0%Z in E. by rewrite E.
Qed.

End streams.

(** ** The chat as a room

    The abstract room is the sequence of the notes posted, with who posted them: a
    note posted is at once answered with all notes at its point so far. *)

Abbreviation posts := (list (nat * RouteNote)).

Definition at_point (loc : option Point) (h : posts) : list RouteNote :=
  filter (λ n, rn_Location n = loc) (map snd h).
Definition posted (i : nat) (h : posts) : list RouteNote := map snd (filter (λ p, p.1 = i) h).

(** What member [i] is answered for the posts [h] after the posts [seen]. *)
Fixpoint replies (i : nat) (seen h : posts) : list RouteNote :=
  match h with
  | [] => []
  | p :: h =>
      (if decide (p.1 = i) then at_point (rn_Location p.2) (seen ++ [p]) else []) ++ replies i (seen ++ [p]) h
  end.

Lemma replies_snoc i seen h p : replies i seen (h ++ [p]) =
  replies i seen h ++ (if decide (p.1 = i) then at_point (rn_Location p.2) (seen ++ h ++ [p]) else []).
Proof.
  revert seen. induction h as [|q h IH]; intros seen; cbn [replies app]; [by rewrite app_nil_r|].
  by rewrite IH, <-!app_assoc.
Qed.

Lemma at_point_snoc loc h i n :
  at_point loc (h ++ [(i, n)]) = at_point loc h ++ (if decide (rn_Location n = loc) then [n] else []).
Proof. unfold at_point. by rewrite map_app, filter_app. Qed.

Lemma posted_snoc i h j n : posted i (h ++ [(j, n)]) = posted i h ++ (if decide (j = i) then [n] else []).
Proof.
  unfold posted. rewrite filter_app, map_app. f_equal. rewrite filter_cons. cbn. by case_decide.
Qed.

Lemma FormatInt_no_space z : str_forall (λ d, negb (bool_decide (d = " "%char))) (FormatInt z) = true.
Proof.
  assert (∀ n, str_forall (λ d, negb (bool_decide (d = " "%char))) (FormatUint n) = true) as Hpos.
  { intros n. unfold FormatUint, pretty, pretty_N. case_decide; [done|].
    destruct (pretty_N_go_digits n ltac:(lia)) as (c & d & -> & Hc & Hd & _). rewrite str_app_nil_r.
    assert (∀ c, is_digit c = true → negb (bool_decide (c = " "%char)) = true) as Hdig.
    { intros c' Hc'. apply negb_true_iff, bool_decide_eq_false. by intros ->. }
    cbn. rewrite Hdig by (by apply in_range_19). clear Hc. induction d as [|e d IH]; [done|].
    cbn in *. apply andb_true_iff in Hd as [? ?]. rewrite Hdig by done. auto. }
  destruct z as [|p|p]; [done|apply (Hpos (N.pos p))|].
  change (FormatInt (Z.neg p)) with (String "-" (FormatUint (N.pos p))). cbn. apply Hpos.
Qed.

(** Different points have different keys. *)
Lemma serialize_inj p q key : serialize p = Ret key → serialize q = Ret key → p = q.
Proof.
  destruct p as [[a b]|], q as [[a' b']|]; cbn; try done. intros [= <-] [= E].
  apply (f_equal (cut " "%char)) in E. rewrite ?str_app_assoc, ?str_app_cons, ?str_app_nil in E.
  rewrite !cut_app in E by apply FormatInt_no_space. injection E as Ea Eb.
  by apply (inj pretty) in Ea as ->; apply (inj pretty) in Eb as ->.
Qed.

(** What goroutine [i] is about in the room with the posts [h]. *)
Definition chat_ok (streams : list (list RouteNote)) (h : posts) (notes : gmap string (list RouteNote)) (i : nat) (c : chat) : Prop :=
  let all := replies i [] h in
  match ch_pc c with
  | CRecv => posted i h ++ ch_in c = default [] (streams !! i) ∧ ch_sent c = all
  | CLock note key | CAppend note key =>
      posted i h ++ note :: ch_in c = default [] (streams !! i) ∧ ch_sent c = all ∧
      serialize (rn_Location note) = Ret key
  | CCopy note key =>
      posted i h ++ ch_in c = default [] (streams !! i) ∧ ch_sent c ++ default [] (notes !! key) = all
  | CUnlock rn | CSend rn => posted i h ++ ch_in c = default [] (streams !! i) ∧ ch_sent c ++ rn = all
  | CEnd => posted i h `prefix_of` default [] (streams !! i) ∧ ch_sent c `prefix_of` all
  end.

Definition critical (pc : chat_pc) : bool :=
  match pc with CAppend _ _ | CCopy _ _ | CUnlock _ => true | _ => false end.

Record room_inv (streams : list (list RouteNote)) (h : posts) (s : server) : Prop := {
  ri_notes : ∀ loc key, serialize loc = Ret key → default [] (routeNotes s !! key) = at_point loc h;
  ri_holder : ∀ i, mu s = Some i → is_Some (chats s !! i);
  ri_lock : ∀ i c, chats s !! i = Some c → critical (ch_pc c) = bool_decide (mu s = Some i);
  ri_chat : ∀ i c, chats s !! i = Some c → chat_ok streams h (routeNotes s) i c;
  ri_who : Forall (λ p, (p.1 < length streams)%nat) h }.

(** A step of goroutine [i] that posts nothing and leaves the notes alone. *)
Lemma room_inv_local streams h s i c m c' :
  room_inv streams h s → chats s !! i = Some c →
  (∀ j, j ≠ i → m = Some j ↔ mu s = Some j) → critical (ch_pc c') = bool_decide (m = Some i) →
  (chat_ok streams h (routeNotes s) i c → chat_ok streams h (routeNotes s) i c') →
  room_inv streams h (mkServer (routeNotes s) m (<[i := c']> (chats s))).
Proof.
  intros [Hn Hh Hl Hc Hw] Hi Hm Hcr Hok. split; cbn; [done| | | |done].
  { intros j Hj. destruct (decide (j = i)) as [->|Hne]; [by rewrite list_lookup_insert_eq by (by eapply lookup_lt_Some)|].
    rewrite list_lookup_insert_ne by done. apply Hh. by apply Hm. }
  all: intros j d Hj;
    (destruct (decide (j = i)) as [->|Hne];
     [rewrite list_lookup_insert_eq in Hj by (by eapply lookup_lt_Some); injection Hj as <-
     |rewrite list_lookup_insert_ne in Hj by done]); eauto.
  rewrite (Hl j d Hj). apply bool_decide_ext. by rewrite Hm.
Qed.

(** The append under the lock is the post. *)
Lemma room_inv_post streams h s i c note key :
  room_inv streams h s → chats s !! i = Some c → ch_pc c = CAppend note key →
  room_inv streams (h ++ [(i, note)])
    (mkServer (<[key := default [] (routeNotes s !! key) ++ [note]]> (routeNotes s)) (mu s)
       (<[i := mkChat (ch_in c) (CCopy note key) (ch_sent c)]> (chats s))).
Proof.
  intros [Hn Hh Hl Hc Hw] Hi Hpc. pose proof (Hc i c Hi) as Hok. pose proof (Hl i c Hi) as Hmu.
  unfold chat_ok in Hok. rewrite Hpc in Hok, Hmu. destruct Hok as (Hin & Hsent & Hkey). cbn in Hmu.
  symmetry in Hmu. apply bool_decide_eq_true in Hmu.
  split; cbn.
  - intros loc key' Hser. rewrite at_point_snoc. destruct (decide (key' = key)) as [->|Hne].
    + rewrite lookup_insert_eq. cbn. rewrite (Hn _ _ Hser).
      by rewrite decide_True by (by eapply serialize_inj).
    + rewrite lookup_insert_ne by done. rewrite decide_False by congruence. rewrite app_nil_r. auto.
  - intros j Hj. rewrite Hmu in Hj. injection Hj as <-.
    rewrite list_lookup_insert_eq by (by eapply lookup_lt_Some). done.
  - intros j d Hj. destruct (decide (j = i)) as [->|Hne].
    + rewrite list_lookup_insert_eq in Hj by (by eapply lookup_lt_Some). injection Hj as <-. cbn.
      by rewrite bool_decide_eq_true_2.
    + rewrite list_lookup_insert_ne in Hj by done. auto.
  - intros j d Hj. destruct (decide (j = i)) as [->|Hne].
    + rewrite list_lookup_insert_eq in Hj by (by eapply lookup_lt_Some). injection Hj as <-.
      unfold chat_ok. cbn [ch_pc ch_in ch_sent]. rewrite posted_snoc, replies_snoc, !decide_True by done.
      rewrite <-app_assoc. split; [done|]. rewrite lookup_insert_eq, Hsent. cbn [default app fst snd from_option].
      by rewrite (Hn _ _ Hkey), at_point_snoc, decide_True by done.
    + rewrite list_lookup_insert_ne in Hj by done. pose proof (Hc j d Hj) as Hok.
      pose proof (Hl j d Hj) as Hcr. rewrite bool_decide_eq_false_2 in Hcr by (rewrite Hmu; congruence).
      unfold chat_ok in *. rewrite posted_snoc, replies_snoc, !decide_False by done.
      rewrite !app_nil_r. by destruct (ch_pc d).
  - apply Forall_app. split; [done|]. apply Forall_singleton. destruct (streams !! i) eqn:E; [by eapply lookup_lt_Some|].
    by destruct (posted i h).
Qed.

Lemma room_step streams h s s' :
  room_inv streams h s → chat_step s (Running s') → ∃ h', room_inv streams (h ++ h') s'.
Proof.
  intros Hinv Hstep. remember (Running s') as p eqn:Ep. destruct Hstep; try discriminate Ep; injection Ep as <-;
    match goal with H : chats _ !! _ = Some _ |- _ => rename H into Hi end;
    match goal with H : ch_pc _ = _ |- _ => rename H into Hpc | H : ch_pc _ = _ ∨ _ |- _ => rename H into Hpc end;
    pose proof (ri_lock _ _ _ Hinv _ _ Hi) as Hmu; try (rewrite Hpc in Hmu; cbn in Hmu).
  3: { eexists. by eapply room_inv_post. }
  all: exists []; rewrite app_nil_r; eapply room_inv_local; [done..| | |]; cbn;
    try (unfold chat_ok; rewrite Hpc; cbn); try done.
  - intros [<- ->]. split; [congruence|done].
  - intros j Hj. split; congruence.
  - by rewrite bool_decide_eq_true_2.
  - symmetry in Hmu. apply bool_decide_eq_true in Hmu. intros j Hj. split; congruence.
  - intros [<- <-]. split; [done|]. by rewrite <-app_assoc.
  - intros [<- <-]. split; [done|]. by rewrite app_nil_r.
  - destruct Hpc as [Hpc|(? & ? & Hpc)]; by rewrite Hpc in Hmu.
  - unfold chat_ok. destruct Hpc as [Hpc|(note & rn & Hpc)]; rewrite Hpc; intros [<- <-]; (split; [by eexists|]);
      [done|by eexists].
Qed.

Lemma room_inv_init streams : room_inv streams [] (newServer streams).
Proof.
  split; cbn; [intros; by rewrite lookup_empty|done| | |constructor]; intros i c (notes & -> & Hi)%list_lookup_fmap_Some;
    [done|]. unfold chat_ok. cbn. by rewrite Hi.
Qed.

Lemma chat_ok_prefix streams h notes i c : chat_ok streams h notes i c →
  posted i h `prefix_of` default [] (streams !! i) ∧ ch_sent c `prefix_of` replies i [] h ∧
  (ch_pc c = CRecv → posted i h ++ ch_in c = default [] (streams !! i) ∧ ch_sent c = replies i [] h).
Proof.
  unfold chat_ok. intros Hok. destruct (ch_pc c); [|destruct Hok as (Hp & Hs & _)..|destruct Hok as [Hp Hs]|
    destruct Hok as [Hp Hs]|destruct Hok as [Hp Hs]|naive_solver].
  - destruct Hok as [<- ->]. split_and!; [by eexists|done..].
  - rewrite <-Hp, Hs. split_and!; [by eexists|done..].
  - rewrite <-Hp, Hs. split_and!; [by eexists|done..].
  - rewrite <-Hp, <-Hs. split_and!; [by eexists..|done].
  - rewrite <-Hp, <-Hs. split_and!; [by eexists..|done].
  - rewrite <-Hp, <-Hs. split_and!; [by eexists..|done].
Qed.

#[export] Instance returned_dec c : Decision (ch_pc c = CEnd).
Proof. destruct (ch_pc c); first [by left|by right]. Defined.

(** Some goroutine can go on unless all have returned. *)
Lemma room_progress streams h s : room_inv streams h s →
  Forall (λ c, ch_pc c = CEnd) (chats s) ∨ ∃ p, chat_step s p.
Proof.
  intros [_ Hh Hl _ _]. destruct (mu s) as [i|] eqn:Hmu.
  - destruct (Hh i eq_refl) as [c Hc]. specialize (Hl i c Hc). rewrite bool_decide_eq_true_2 in Hl by done.
    right. destruct (ch_pc c) eqn:Hpc; try discriminate Hl; eexists; [by eapply ch_append|by eapply ch_copy|by eapply ch_unlock].
  - destruct (decide (Forall (λ c, ch_pc c = CEnd) (chats s))) as [|Hn]; [by left|]. right.
    apply not_Forall_Exists, Exists_exists in Hn as (c & Hc & Hpc); [|apply _].
    apply list_elem_of_lookup in Hc as [i Hc]. specialize (Hl i c Hc). rewrite bool_decide_eq_false_2 in Hl by done.
    destruct (ch_pc c) as [| | | | |[|note rn]|] eqn:E; try done; eexists;
      [by eapply ch_return; [|left]|by eapply ch_lock|by eapply ch_sent_all|by eapply ch_send].
Qed.

Definition running (s s' : server) : Prop := chat_step s (Running s').

Lemma room_reach streams s : rtc running (newServer streams) s → ∃ h, room_inv streams h s.
Proof.
  assert (∀ s' h, room_inv streams h s' → rtc running s' s → ∃ h', room_inv streams h' s) as Hall.
  { intros s' h Hinv Hrtc. revert h Hinv.
    induction Hrtc as [|s1 s2 s3 Hs _ IH]; intros h Hinv; [by eexists|].
    destruct (room_step _ _ _ _ Hinv Hs) as [h' Hinv']. eauto. }
  apply (Hall _ []), room_inv_init.
Qed.

(** C23: the chat implements the room: whatever the interleaving of the goroutines,
    there is an order [h] of posts in which each client's notes come in its order,
    and each client has been sent a prefix of what the room answers it - for each
    of its notes all notes at that point up to and including it - and all of it when
    it waits for its next note.  Unless all have returned one can go on, and only a
    note without location ends the process. *)
Theorem RouteChat_refines_room streams s :
  rtc running (newServer streams) s →
  (∃ h, (∀ loc key, serialize loc = Ret key → default [] (routeNotes s !! key) = at_point loc h) ∧
    ∀ i c, chats s !! i = Some c →
      posted i h `prefix_of` default [] (streams !! i) ∧ ch_sent c `prefix_of` replies i [] h ∧
      (ch_pc c = CRecv → posted i h ++ ch_in c = default [] (streams !! i) ∧ ch_sent c = replies i [] h)) ∧
  (Forall (λ c, ch_pc c = CEnd) (chats s) ∨ ∃ p, chat_step s p) ∧
  (Forall (Forall (λ n, is_Some (rn_Location n))) streams → ¬ chat_step s Crashed).
Proof.
  intros [h Hinv]%room_reach. split_and!.
  - exists h. split; [apply Hinv|]. intros i c Hi.
    by eapply chat_ok_prefix, ri_chat.
  - by eapply room_progress.
  - intros Hall Hcrash. inversion_clear Hcrash as [|? i c note notes msg Hi Hpc Hin Hser| | | | | | |].
    destruct (chat_ok_prefix _ _ _ _ _ (ri_chat _ _ _ Hinv i c Hi)) as (_ & _ & Hst).
    destruct (Hst Hpc) as [E _]. rewrite Hin in E. destruct (streams !! i) as [l|] eqn:El; [|by destruct (posted i h)].
    eapply Forall_lookup_1 in Hall; [|done]. cbn in E. rewrite <-E in Hall.
    apply Forall_app in Hall as [_ [[loc Hloc] _]%Forall_cons_1]. by rewrite Hloc in Hser.
Qed.

Definition demo_streams : list (list RouteNote) :=
  [[mkNote (Some (mkPoint 1 2)) "a"; mkNote (Some (mkPoint 1 2)) "b"]; [mkNote (Some (mkPoint 12 0)) "c"]].

Lemma RouteChat_refines_room_witness :
  ∃ s, rtc running (newServer demo_streams) s ∧ map ch_sent (chats s) = [[mkNote (Some (mkPoint 1 2)) "a"]; []] ∧
    ¬ chat_step s Crashed.
Proof.
  assert (∃ s, rtc running (newServer demo_streams) s ∧ map ch_sent (chats s) = [[mkNote (Some (mkPoint 1 2)) "a"]; []])
    as (s & Hs & Hsent).
  { eexists. split; [|shelve].
    eapply rtc_l; [by eapply (ch_recv _ 0)|]. eapply rtc_l; [by eapply (ch_recv _ 1)|].
    eapply rtc_l; [by eapply (ch_lock _ 0)|]. eapply rtc_l; [by eapply (ch_append _ 0)|].
    eapply rtc_l; [by eapply (ch_copy _ 0)|]. eapply rtc_l; [by eapply (ch_unlock _ 0)|].
    eapply rtc_l; [by eapply (ch_send _ 0)|]. apply rtc_refl.
    Unshelve. vm_compute. reflexivity. }
  exists s. split_and!; [done..|].
  destruct (RouteChat_refines_room _ _ Hs) as (_ & _ & Hnc). apply Hnc.
  repeat constructor; by eexists.
Defined.

Lemma ListFeatures_spec_witness :
  let f x := mkFeature "" (Some (mkPoint x x)) in
  ListFeatures (λ n, if decide (n = 1)%nat then Some "closed" else None) (map Some [f 3; f 9; f 4; f 5]%Z)
    (mkRectangle (Some (mkPoint 6 6)) (Some (mkPoint 2 2))) 0 = Ret ([f 3]%Z, Some "closed").
Proof.
  pose proof (ListFeatures_spec (λ n, if decide (n = 1)%nat then Some "closed" else None)
    (map (λ x, mkFeature "" (Some (mkPoint x x))) [3; 9; 4; 5]%Z)
    (mkRectangle (Some (mkPoint 6 6)) (Some (mkPoint 2 2)))) as H.
  cbn [Lo Hi map] in *. destruct H as [_ H]; [repeat constructor; by eexists|].
  refine (H 1%nat "closed" _ _ _); [vm_compute; lia|done|].
  intros m Hm. by destruct m as [|m]; [|exfalso; clear H; lia].
Defined.
