(* ===== verification/RouteDistance.v ===== *)
(** * Distances of the route guide (route_guide/server/server.go)

    [calcDistance] in the binary64 arithmetic of [SpecFloat], one rounding for each
    operation of the code; sine, cosine and arc tangent are those of package [math],
    a class with what it documents of them.  A conversion to [int32] of a number that
    has no [int32] is up to the implementation, hence an argument. *)

From Stdlib Require Import SpecFloat.
From S2P Require Import Prelude RouteGuide.

Local Open Scope Z_scope.

Abbreviation float64 := spec_float.
Abbreviation fadd := (SFadd 53 1024).
Abbreviation fsub := (SFsub 53 1024).
Abbreviation fmul := (SFmul 53 1024).
Abbreviation fdiv := (SFdiv 53 1024).
Abbreviation Sqrt := (SFsqrt 53 1024).

Definition zero : float64 := S754_zero false.

(** [float64(z)]. *)
Definition of_int (z : Z) : float64 := binary_normalize 53 1024 z 0 false.

(** The digits before the point of a number of sign [s]. *)
Definition trunc (s : bool) (m : positive) (e : Z) : Z := cond_Zopp s (Z.shiftl (Z.pos m) e).

(** Functions of package [math], and what their documentation promises: a sine is odd,
    a cosine of a number is a number up to one. *)
Class GoMath := { Sin : float64 → float64; Cos : float64 → float64; Atan2 : float64 → float64 → float64 }.

Definition is_num (x : float64) : bool := match x with S754_zero _ | S754_finite _ _ _ => true | _ => false end.

Class MathLaws (M : GoMath) := {
  Sin_opp x : Sin (SFopp x) = SFopp (Sin x);
  Sin_zero s : Sin (S754_zero s) = S754_zero s;
  Cos_range x : is_num x = true →
    valid_binary 53 1024 (Cos x) = true ∧ SFleb (SFabs (Cos x)) (of_int 1) = true;
  Atan2_zero m e : Atan2 zero (S754_finite false m e) = zero }.

(** ** server.go *)

(** [math.Pi] as a [float64]. *)
Definition Pi : float64 := S754_finite false 7074237752028440 (-51).

Definition toRadians (num : float64) : float64 := fdiv (fmul num Pi) (of_int 180).

Section distance.
Context {M : GoMath} (unrepresentable : float64 → Z).

(** [int32(x)]. *)
Definition to_int32 (x : float64) : Z :=
  match x with
  | S754_zero _ => 0
  | S754_finite s m e =>
      if decide (in_s 32 (trunc s m e)) then trunc s m e else unrepresentable x
  | _ => unrepresentable x
  end.

Definition calcDistance (p1 p2 : Point) : Z :=
  let CordFactor := of_int 10000000 in
  let R := of_int 6371000 in
  let lat1 := toRadians (fdiv (of_int (Latitude p1)) CordFactor) in
  let lat2 := toRadians (fdiv (of_int (Latitude p2)) CordFactor) in
  let lng1 := toRadians (fdiv (of_int (Longitude p1)) CordFactor) in
  let lng2 := toRadians (fdiv (of_int (Longitude p2)) CordFactor) in
  let dlat := fsub lat2 lat1 in
  let dlng := fsub lng2 lng1 in
  let two := of_int 2 in
  let a := fadd (fmul (Sin (fdiv dlat two)) (Sin (fdiv dlat two)))
             (fmul (fmul (fmul (Cos lat1) (Cos lat2)) (Sin (fdiv dlng two))) (Sin (fdiv dlng two))) in
  let c := fmul two (Atan2 (Sqrt a) (Sqrt (fsub (of_int 1) a))) in
  let distance := fmul R c in
  to_int32 distance.
End distance.

(** ** Signs in binary64 arithmetic *)

Lemma round_aux_opp s m e l : binary_round_aux 53 1024 (negb s) m e l = SFopp (binary_round_aux 53 1024 s m e l).
Proof.
  unfold binary_round_aux. destruct (shr_fexp _ _ m e l) as [mrs' e'].
  destruct (shr_fexp _ _ (round_nearest_even _ _) e' loc_Exact) as [mrs'' e''].
  destruct (shr_m mrs''); [done| |done]. by destruct (_ <=? _).
Qed.

Lemma normalize_opp m e s : m ≠ 0 → binary_normalize 53 1024 (- m) e s = SFopp (binary_normalize 53 1024 m e s).
Proof.
  destruct m as [|m|m]; [done|intros _..]; [change (- Z.pos m) with (Z.neg m)|change (- Z.neg m) with (Z.pos m)];
    unfold binary_normalize, binary_round; destruct (shl_align _ _ _) as [mz ez];
    [apply (round_aux_opp false)|apply (round_aux_opp true)].
Qed.

Lemma SFopp_involutive x : SFopp (SFopp x) = x.
Proof. by destruct x as [[]|[]| |[]]. Qed.

Lemma mul_opp_r x y : fmul x (SFopp y) = SFopp (fmul x y).
Proof.
  destruct x as [s|s| |s m e], y as [s'|s'| |s' m' e']; try done; cbn [SFmul SFopp];
    rewrite <-?round_aux_opp; by destruct s, s'.
Qed.

Lemma mul_opp_l x y : fmul (SFopp x) y = SFopp (fmul x y).
Proof.
  destruct x as [s|s| |s m e], y as [s'|s'| |s' m' e']; try done; cbn [SFmul SFopp];
    rewrite <-?round_aux_opp; by destruct s, s'.
Qed.

Lemma mul_comm x y : fmul x y = fmul y x.
Proof.
  destruct x as [s|s| |s m e], y as [s'|s'| |s' m' e']; try done; cbn [SFmul]; rewrite (xorb_comm s' s); try done.
  by rewrite Pos.mul_comm, Z.add_comm.
Qed.

Lemma div_opp_l x y : fdiv (SFopp x) y = SFopp (fdiv x y).
Proof.
  destruct x as [s|s| |s m e], y as [s'|s'| |s' m' e']; try done; cbn [SFdiv SFopp];
    [by destruct s, s'..|]. destruct (SFdiv_core_binary _ _ _ _ _ _) as [[mz ez] lz].
  rewrite <-round_aux_opp. by destruct s, s'.
Qed.

(** A difference of two numbers changes its sign with their order, except that it
    is the positive zero both ways for equal ones. *)
Lemma sub_swap x y : fsub y x = SFopp (fsub x y) ∨ (fsub y x = zero ∧ fsub x y = zero).
Proof.
  destruct x as [s|s| |s m e], y as [s'|s'| |s' m' e']; cbn [SFsub];
    try (destruct s, s'; cbn; auto; fail); try (by left).
  rewrite (Z.min_comm e e').
  set (a := cond_Zopp s _). set (b := cond_Zopp s' _).
  destruct (decide (a - b = 0)) as [E|E].
  - right. assert (b - a = 0) as -> by lia. by rewrite E.
  - left. rewrite <-normalize_opp by done. f_equal. lia.
Qed.

(** The square of the sine of half a difference. *)
Lemma sin_half_swap `{L : !MathLaws M} c x y :
  let s := λ d, Sin (fdiv d (of_int 2)) in
  fmul (fmul c (s (fsub y x))) (s (fsub y x)) = fmul (fmul c (s (fsub x y))) (s (fsub x y)).
Proof.
  intros s. subst s. cbv beta. destruct (sub_swap x y) as [->|[-> ->]]; [|done].
  by rewrite div_opp_l, Sin_opp, !mul_opp_r, mul_opp_l, SFopp_involutive.
Qed.
Lemma sin_half_sq_swap `{L : !MathLaws M} x y :
  let s := λ d, Sin (fdiv d (of_int 2)) in
  fmul (s (fsub y x)) (s (fsub y x)) = fmul (s (fsub x y)) (s (fsub x y)).
Proof.
  intros s. subst s. cbv beta. destruct (sub_swap x y) as [->|[-> ->]]; [|done].
  by rewrite div_opp_l, Sin_opp, mul_opp_r, mul_opp_l, SFopp_involutive.
Qed.

Lemma calcDistance_comm `{L : !MathLaws M} un p q : calcDistance un p q = calcDistance un q p.
Proof.
  unfold calcDistance. cbv zeta.
  rewrite (mul_comm (Cos _) (Cos (toRadians (fdiv (of_int (Latitude p)) _)))).
  rewrite (sin_half_sq_swap (toRadians (fdiv (of_int (Latitude p)) _))).
  by rewrite (sin_half_swap _ (toRadians (fdiv (of_int (Longitude p)) _))).
Qed.

(** ** Magnitudes

    A number below [2^K], as far as its digits tell. *)
Definition small (K : Z) (x : float64) : Prop :=
  match x with
  | S754_zero _ => True
  | S754_finite _ m e => Zdigits2 (Z.pos m) + e ≤ K ∧ e ≤ K
  | _ => False
  end.

Lemma small_num K x : small K x → is_num x = true.
Proof. by destruct x. Qed.

Lemma Zdigits2_log2 z : 0 < z → Zdigits2 z = Z.log2 z + 1.
Proof.
  destruct z as [|p|p]; try lia. intros _. cbn [Zdigits2].
  induction p as [p IH|p IH|]; cbn [digits2_pos]; [..|done]; rewrite Pos2Z.inj_succ, IH;
    [rewrite (Pos2Z.inj_xI p), Z.log2_succ_double by lia|rewrite (Pos2Z.inj_xO p), Z.log2_double by lia]; lia.
Qed.

Lemma Zdigits2_le a b : 0 ≤ a → a ≤ b → Zdigits2 a ≤ Zdigits2 b.
Proof.
  intros Ha Hab. destruct (decide (a = 0)) as [->|Hne].
  - destruct b; cbn; lia.
  - rewrite !Zdigits2_log2 by lia. pose proof (Z.log2_le_mono a b). lia.
Qed.

Lemma Zdigits2_succ a : 0 ≤ a → Zdigits2 (a + 1) ≤ Zdigits2 a + 1.
Proof.
  intros Ha. destruct (decide (a = 0)) as [->|Hne]; [done|]. rewrite !Zdigits2_log2 by lia.
  pose proof (Z.log2_succ_le a) as H. rewrite <-Z.add_1_r in H. lia.
Qed.

Lemma round_even_digits m l : 0 ≤ m →
  0 ≤ round_nearest_even m l ∧ Zdigits2 (round_nearest_even m l) ≤ Zdigits2 m + 1.
Proof.
  intros Hm. pose proof (Zdigits2_succ m Hm). unfold round_nearest_even.
  destruct l as [|[]]; [lia| |lia|lia]. destruct (Z.even m); lia.
Qed.

(** Shifting right by [n] takes [n] digits. *)
Lemma iter_shr n x : 0 ≤ shr_m x →
  let m' := shr_m (SpecFloat.iter_pos shr_1 n x) in
  0 ≤ m' ∧ (0 < m' → 0 < shr_m x ∧ Zdigits2 m' + Z.pos n = Zdigits2 (shr_m x)).
Proof.
  revert x. assert (∀ x, 0 ≤ shr_m x → 0 ≤ shr_m (shr_1 x) ∧
    (0 < shr_m (shr_1 x) → 0 < shr_m x ∧ Zdigits2 (shr_m (shr_1 x)) + 1 = Zdigits2 (shr_m x))) as H1.
  { intros [[|[p|p|]|p] r s]; cbn [shr_1 shr_m Zdigits2 digits2_pos]; lia. }
  induction n as [n IH|n IH|]; intros x Hx; cbn [SpecFloat.iter_pos]; [| |exact (H1 x Hx)].
  - destruct (H1 x Hx) as [Ha Hb], (IH _ Ha) as [Hc Hd], (IH _ Hc) as [He Hf]. split; [done|]. lia.
  - destruct (IH _ Hx) as [Hc Hd], (IH _ Hc) as [He Hf]. split; [done|]. lia.
Qed.

Lemma shr_fexp_small K m e l : 0 ≤ m → -1074 ≤ K → Zdigits2 m + e ≤ K → e ≤ K →
  let '(x, e') := shr_fexp 53 1024 m e l in 0 ≤ shr_m x ∧ Zdigits2 (shr_m x) + e' ≤ K ∧ e' ≤ K.
Proof.
  intros Hm HK Hd He. assert (shr_m (shr_record_of_loc m l) = m) as E by (by destruct l as [|[]]).
  unfold shr_fexp, shr. assert (fexp 53 1024 (Zdigits2 m + e) ≤ K) as Hf by (unfold fexp, emin; lia).
  destruct (_ - e) as [|n|n] eqn:En; [by rewrite E..| |by rewrite E].
  pose proof (iter_shr n (shr_record_of_loc m l)) as H. rewrite E in H. specialize (H Hm) as [H0 H].
  split_and!; [done| |lia]. destruct (decide (0 < shr_m (SpecFloat.iter_pos shr_1 n (shr_record_of_loc m l)))) as [Hp|Hp]; [lia|].
  assert (shr_m (SpecFloat.iter_pos shr_1 n (shr_record_of_loc m l)) = 0) as -> by lia. cbn. lia.
Qed.

Lemma round_small K s m e l : 0 ≤ m → -1074 ≤ K ≤ 900 → Zdigits2 m + e ≤ K → e ≤ K →
  small (K + 1) (binary_round_aux 53 1024 s m e l).
Proof.
  intros Hm HK Hd He. unfold binary_round_aux. pose proof (shr_fexp_small K m e l) as H1.
  destruct (shr_fexp 53 1024 m e l) as [x e1]. destruct H1 as (Hx & Hdx & He1); [lia..|].
  destruct (round_even_digits (shr_m x) (loc_of_shr_record x) Hx) as [Hr Hdr].
  pose proof (shr_fexp_small (K + 1) (round_nearest_even (shr_m x) (loc_of_shr_record x)) e1 loc_Exact) as H2.
  destruct (shr_fexp 53 1024 _ e1 loc_Exact) as [y e2]. destruct H2 as (Hy & Hdy & He2); [lia..|].
  destruct (shr_m y) as [|p|p]; [done| |lia].
  destruct (e2 <=? 1024 - 53) eqn:El; [cbn in *; lia|]. apply Z.leb_gt in El. lia.
Qed.

Lemma mul_small K L x y : small K x → small L y → -1074 ≤ K + L ≤ 900 → small (K + L + 1) (fmul x y).
Proof.
  destruct x as [s|s| |s m e], y as [s'|s'| |s' m' e']; try done. intros [H1 H2] [H3 H4] HK. cbn [SFmul].
  apply round_small; [lia..| |lia]. rewrite (Zdigits2_log2 (Z.pos _)) by lia.
  rewrite (Zdigits2_log2 (Z.pos m)) in H1 by lia. rewrite (Zdigits2_log2 (Z.pos m')) in H3 by lia.
  pose proof (Z.log2_mul_above (Z.pos m) (Z.pos m')) as Hl. rewrite Pos2Z.inj_mul. lia.
Qed.

(** Division by a number with exponent [e']. *)
Lemma div_small K x s' m' e' : small K x → -1074 ≤ K - e' ≤ 900 → small (K - e' + 1) (fdiv x (S754_finite s' m' e')).
Proof.
  destruct x as [s|s| |s m e]; try done. intros [H1 H2] HK. cbn [SFdiv].
  unfold SFdiv_core_binary. set (e0 := Z.min _ (e - e')). assert (e0 ≤ e - e') as He0 by lia. clearbody e0.
  assert (match e - e' - e0 with 0 => Z.pos m | Z.pos _ => Z.shiftl (Z.pos m) (e - e' - e0) | Z.neg _ => 0 end =
    Z.shiftl (Z.pos m) (e - e' - e0)) as -> by (destruct (e - e' - e0) eqn:E; [done|done|lia]).
  pose proof (Z_div_mod (Z.shiftl (Z.pos m) (e - e' - e0)) (Z.pos m') ltac:(lia)) as Hq.
  pose proof (Z.log2_shiftl (Z.pos m) (e - e' - e0) ltac:(lia) ltac:(lia)) as Hl.
  assert (0 < Z.shiftl (Z.pos m) (e - e' - e0)) as Hpos by (rewrite Z.shiftl_mul_pow2 by lia; lia).
  destruct (Z.div_eucl _ _) as [q r]. destruct Hq as [Hq Hr].
  assert (0 ≤ q ≤ Z.shiftl (Z.pos m) (e - e' - e0)) as [Hq0 Hq1] by nia.
  apply Zdigits2_le in Hq1; [|done]. rewrite (Zdigits2_log2 (_ ≪ _)) in Hq1 by lia.
  rewrite Zdigits2_log2 in H1 by lia. apply round_small; lia.
Qed.

Lemma of_int_small z : in_s 32 z → small 33 (of_int z).
Proof.
  assert (∀ s p, Z.pos p ≤ 2 ^ 31 → small 33 (binary_round 53 1024 s p 0)) as H.
  { intros s p Hp. unfold binary_round, shl_align. rewrite Z.add_0_r, Z.sub_0_r.
    assert (Zdigits2 (Z.pos p) ≤ 32) as Hd by (apply (Zdigits2_le _ (2 ^ 31)); lia).
    change (Z.pos (digits2_pos p)) with (Zdigits2 (Z.pos p)).
    destruct (fexp 53 1024 (Zdigits2 (Z.pos p))) as [|n|n] eqn:E; [apply (round_small 32); lia..|].
    apply (round_small 32); [lia|lia| |lia]. assert (Z.pos (Pos.iter xO p n) = Z.shiftl (Z.pos p) (Z.pos n)) as ->.
    { cbn. apply (Pos.iter_swap_gen _ _ Z.pos). by intros []. }
    rewrite Zdigits2_log2 by (rewrite Z.shiftl_mul_pow2 by lia; lia). rewrite Z.log2_shiftl by lia.
    rewrite Zdigits2_log2 in Hd by lia. lia. }
  unfold in_s. intros Hz. unfold of_int. destruct z as [|p|p]; cbn [binary_normalize]; [done|apply H; lia..].
Qed.

Lemma radians_num z : in_s 32 z → is_num (toRadians (fdiv (of_int z) (of_int 10000000))) = true.
Proof.
  intros Hz%of_int_small. apply (small_num 112).
  assert (of_int 10000000 = S754_finite false 5368709120000000 (-29)) as -> by (by vm_compute).
  apply (div_small _ _ false 5368709120000000 (-29)) in Hz; [|lia]. unfold toRadians.
  assert (of_int 180 = S754_finite false 6333186975989760 (-45)) as -> by (by vm_compute).
  apply (div_small 66); [|lia]. refine (mul_small 63 2 _ _ Hz _ _); [by vm_compute|lia].
Qed.

Lemma sub_self x : is_num x = true → fsub x x = zero.
Proof.
  destruct x as [[]|s| |s m e]; try done. intros _. cbn [SFsub]. cbv zeta. by rewrite Z.sub_diag.
Qed.
Lemma mul_zero x : is_num x = true → ∃ s, fmul x zero = S754_zero s.
Proof. destruct x as [s|s| |s m e]; try done; intros _; by eexists. Qed.

Lemma Cos_small `{L : !MathLaws M} x : is_num x = true → small 1 (Cos x).
Proof.
  intros Hx. destruct (Cos_range x Hx) as [Hv Hle].
  assert (of_int 1 = S754_finite false 4503599627370496 (-52)) as E by (by vm_compute). rewrite E in Hle.
  destruct (Cos x) as [s|[]| |s m e]; [done..|]. unfold SFleb in Hle. cbn [SFabs SFcompare] in Hle.
  cbn [valid_binary] in Hv. unfold bounded, canonical_mantissa, fexp, emin in Hv.
  apply andb_true_iff in Hv as [Hv%Z.eqb_eq _]. cbn [small Zdigits2].
  destruct (Z.compare_spec e (-52)); [lia|lia|done].
Qed.

(** A point is at distance zero from itself. *)
Lemma calcDistance_self `{L : !MathLaws M} un p :
  in_s 32 (Latitude p) → in_s 32 (Longitude p) → calcDistance un p p = 0.
Proof.
  intros Hlat%radians_num Hlng%radians_num. unfold calcDistance. cbv zeta.
  rewrite !sub_self by done. change (fdiv zero (of_int 2)) with zero. rewrite (Sin_zero false : Sin zero = zero).
  pose proof (Cos_small _ Hlat) as Hc. pose proof (mul_small _ _ _ _ Hc Hc ltac:(lia)) as Hcc.
  destruct (mul_zero _ (small_num _ _ Hcc)) as [s ->].
  assert (fadd (fmul zero zero) (fmul (S754_zero s) zero) = zero) as -> by (by destruct s).
  change (Sqrt zero) with zero.
  assert (Sqrt (fsub (of_int 1) zero) = S754_finite false 4503599627370496 (-52)) as -> by (by vm_compute).
  by rewrite Atan2_zero.
Qed.

(** ** Routes *)

Section routes.
Context `{L : !MathLaws M} (unrepresentable : float64 → Z) (proto_Equal : option Point → option Point → bool).

Lemma route_length_snoc l p q :
  route_length (calcDistance unrepresentable) (l ++ [p; q]) =
  route_length (calcDistance unrepresentable) (l ++ [p]) + calcDistance unrepresentable p q.
Proof.
  induction l as [|a [|b l] IH]; [cbn; lia|cbn; lia|].
  change ((a :: b :: l) ++ [p; q]) with (a :: (b :: l) ++ [p; q]).
  change ((a :: b :: l) ++ [p]) with (a :: (b :: l) ++ [p]).
  cbn [route_length app] in *. rewrite IH. lia.
Qed.

Lemma route_length_reverse l :
  route_length (calcDistance unrepresentable) (reverse l) = route_length (calcDistance unrepresentable) l.
Proof.
  induction l as [|p [|q l] IH]; [done..|]. rewrite !reverse_cons, <-app_assoc in *. cbn [app].
  rewrite route_length_snoc, IH. cbn [route_length]. rewrite (calcDistance_comm unrepresentable q p). lia.
Qed.

Lemma route_length_stay p n : in_s 32 (Latitude p) → in_s 32 (Longitude p) →
  route_length (calcDistance unrepresentable) (repeat p n) = 0.
Proof.
  intros Hlat Hlng. induction n as [|[|n] IH]; [done..|]. cbn [repeat route_length] in *.
  by rewrite calcDistance_self, IH.
Qed.

Lemma visited_reverse fs l : visited proto_Equal fs (reverse l) = visited proto_Equal fs l.
Proof.
  unfold visited. induction l as [|p l IH]; [done|].
  rewrite reverse_cons, map_app, concat_app, length_app. cbn [map concat]. rewrite !length_app. cbn [concat length]. lia.
Qed.

(** C25: a route and the same route walked backwards have the same summary, since the
    distance of the code, with every rounding of its formula, is symmetric; a
    route that stays at a point has length zero. *)
Theorem RecordRoute_backwards fs points seconds :
  RecordRoute proto_Equal (calcDistance unrepresentable) (map Some fs) (reverse points) EndEOF seconds =
    RecordRoute proto_Equal (calcDistance unrepresentable) (map Some fs) points EndEOF seconds ∧
  ∀ p n, in_s 32 (Latitude p) → in_s 32 (Longitude p) →
    ∃ pc fc, RecordRoute proto_Equal (calcDistance unrepresentable) (map Some fs) (repeat p n) EndEOF seconds =
      Ret (Ok (mkSummary pc fc 0 (wraps 32 seconds))).
Proof.
  split.
  - by rewrite !RecordRoute_summary, length_reverse, route_length_reverse, visited_reverse.
  - intros p n Hlat Hlng. rewrite RecordRoute_summary, route_length_stay by done. by do 2 eexists.
Qed.
End routes.

(** Functions with the laws, for witnesses. *)
Definition demo_math : GoMath := {| Sin x := x; Cos _ := of_int 1; Atan2 y x := fdiv y x |}.
#[export] Instance demo_laws : MathLaws demo_math.
Proof. split; [done|done|by vm_compute|done]. Defined.

Lemma RecordRoute_backwards_witness :
  let route := RecordRoute (λ p q, bool_decide (p = q)) (@calcDistance demo_math (λ _, 0))
    [Some (mkFeature "here" (Some (mkPoint 3 4)))] in
  (∃ pc fc, route (repeat (mkPoint 3 4) 3) EndEOF 9 = Ret (Ok (mkSummary pc fc 0 9))) ∧
  route [mkPoint 3 4; mkPoint 50000000 4] EndEOF 9 = Ret (Ok (mkSummary 2 1 556504 9)).
Proof.
  split; [|vm_compute; reflexivity].
  destruct (@RecordRoute_backwards demo_math demo_laws (λ _, 0) (λ p q, bool_decide (p = q))
    [mkFeature "here" (Some (mkPoint 3 4))] [] 9) as [_ H].
  apply (H (mkPoint 3 4) 3%nat); vm_compute; split; discriminate || reflexivity.
Defined.
