(* ===== verification/RouteData.v ===== *)
(** * The features of the route guide (route_guide/server/server.go)

    The embedded database, how it or a file is loaded, and the server that [newServer]
    makes of it.  A nil feature, which a [null] of the file gives, is [None].  In the
    texts below a quote is written as a backquote, which a raw string of Go cannot
    contain. *)

From S2P Require Import Prelude GoText Json GoPath GoFs RouteGuide.

Fixpoint quoted (s : string) : string :=
  match s with
  | EmptyString => EmptyString
  | String c s => String (if decide (c = "`"%char) then dquote else c) (quoted s)
  end.

Definition exampleData1 : string := quoted "[{
    `location`: {
        `latitude`: 407838351,
        `longitude`: -746143763
    },
    `name`: `Patriots Path, Mendham, NJ 07945, USA`
}, {
    `location`: {
        `latitude`: 408122808,
        `longitude`: -743999179
    },
    `name`: `101 New Jersey 10, Whippany, NJ 07981, USA`
}, {
    `location`: {
        `latitude`: 413628156,
        `longitude`: -749015468
    },
    `name`: `U.S. 6, Shohola, PA 18458, USA`
}, {
    `location`: {
        `latitude`: 419999544,
        `longitude`: -740371136
    },
    `name`: `5 Conners Road, Kingston, NY 12401, USA`
}, {
    `location`: {
        `latitude`: 414008389,
        `longitude`: -743951297
    },
    `name`: `Mid Hudson Psychiatric Center, New Hampton, NY 10958, USA`
}, {
    `location`: {
        `latitude`: 419611318,
        `longitude`: -746524769
    },
    `name`: `287 Flugertown Road, Livingston Manor, NY 12758, USA`
}, {
    `location`: {
        `latitude`: 406109563,
        `longitude`: -742186778
    },
    `name`: `4001 Tremley Point Road, Linden, NJ 07036, USA`
}, {
    `location`: {
        `latitude`: 416802456,
        `longitude`: -742370183
    },
    `name`: `352 South Mountain Road, Wallkill, NY 12589, USA`
}, {
    `location`: {
        `latitude`: 412950425,
        `longitude`: -741077389
    },
    `name`: `Bailey Turn Road, Harriman, NY 10926, USA`
}, {
    `location`: {
        `latitude`: 412144655,
        `longitude`: -743949739
    },
    `name`: `193-199 Wawayanda Road, Hewitt, NJ 07421, USA`
}, {
    `location`: {
        `latitude`: 415736605,
        `longitude`: -742847522
    },
    `name`: `406-496 Ward Avenue, Pine Bush, NY 12566, USA`
}, {
    `location`: {
        `latitude`: 413843930,
        `longitude`: -740501726
    },
    `name`: `162 Merrill Road, Highland Mills, NY 10930, USA`
}, {
    `location`: {
        `latitude`: 410873075,
        `longitude`: -744459023
    },
    `name`: `Clinton Road, West Milford, NJ 07480, USA`
}, {
    `location`: {
        `latitude`: 412346009,
        `longitude`: -744026814
    },
    `name`: `16 Old Brook Lane, Warwick, NY 10990, USA`
}, {
    `location`: {
        `latitude`: 402948455,
        `longitude`: -747903913
    },
    `name`: `3 Drake Lane, Pennington, NJ 08534, USA`
}, {
    `location`: {
        `latitude`: 406337092,
        `longitude`: -740122226
    },
    `name`: `6324 8th Avenue, Brooklyn, NY 11220, USA`
}, {
    `location`: {
        `latitude`: 406421967,
        `longitude`: -747727624
    },
    `name`: `1 Merck Access Road, Whitehouse Station, NJ 08889, USA`
}, {
    `location`: {
        `latitude`: 416318082,
        `longitude`: -749677716
    },
    `name`: `78-98 Schalck Road, Narrowsburg, NY 12764, USA`
}, {
    `location`: {
        `latitude`: 415301720,
        `longitude`: -748416257
    },
    `name`: `282 Lakeview Drive Road, Highland Lake, NY 12743, USA`
}, {
    `location`: {
        `latitude`: 402647019,
        `longitude`: -747071791
    },
    `name`: `330 Evelyn Avenue, Hamilton Township, NJ 08619, USA`
}, {
    `location`: {
        `latitude`: 412567807,
        `longitude`: -741058078
    },
    `name`: `New York State Reference Route 987E, Southfields, NY 10975, USA`
}, {
    `location`: {
        `latitude`: 416855156,
        `longitude`: -744420597
    },
    `name`: `103-271 Tempaloni Road, Ellenville, NY 12428, USA`
}, {
    `location`: {
        `latitude`: 404663628,
        `longitude`: -744820157
    },
    `name`: `1300 Airport Road, North Brunswick Township, NJ 08902, USA`
}, {
    `location`: {
        `latitude`: 407113723,
        `longitude`: -749746483
    },
    `name`: ``
}, {
    `location`: {
        `latitude`: 402133926,
        `longitude`: -743613249
    },
    `name`: ``
".

Definition exampleData2 : string := quoted "}, {
    `location`: {
        `latitude`: 400273442,
        `longitude`: -741220915
    },
    `name`: ``
}, {
    `location`: {
        `latitude`: 411236786,
        `longitude`: -744070769
    },
    `name`: ``
}, {
    `location`: {
        `latitude`: 411633782,
        `longitude`: -746784970
    },
    `name`: `211-225 Plains Road, Augusta, NJ 07822, USA`
}, {
    `location`: {
        `latitude`: 415830701,
        `longitude`: -742952812
    },
    `name`: ``
}, {
    `location`: {
        `latitude`: 413447164,
        `longitude`: -748712898
    },
    `name`: `165 Pedersen Ridge Road, Milford, PA 18337, USA`
}, {
    `location`: {
        `latitude`: 405047245,
        `longitude`: -749800722
    },
    `name`: `100-122 Locktown Road, Frenchtown, NJ 08825, USA`
}, {
    `location`: {
        `latitude`: 418858923,
        `longitude`: -746156790
    },
    `name`: ``
}, {
    `location`: {
        `latitude`: 417951888,
        `longitude`: -748484944
    },
    `name`: `650-652 Willi Hill Road, Swan Lake, NY 12783, USA`
}, {
    `location`: {
        `latitude`: 407033786,
        `longitude`: -743977337
    },
    `name`: `26 East 3rd Street, New Providence, NJ 07974, USA`
}, {
    `location`: {
        `latitude`: 417548014,
        `longitude`: -740075041
    },
    `name`: ``
}, {
    `location`: {
        `latitude`: 410395868,
        `longitude`: -744972325
    },
    `name`: ``
}, {
    `location`: {
        `latitude`: 404615353,
        `longitude`: -745129803
    },
    `name`: ``
}, {
    `location`: {
        `latitude`: 406589790,
        `longitude`: -743560121
    },
    `name`: `611 Lawrence Avenue, Westfield, NJ 07090, USA`
}, {
    `location`: {
        `latitude`: 414653148,
        `longitude`: -740477477
    },
    `name`: `18 Lannis Avenue, New Windsor, NY 12553, USA`
}, {
    `location`: {
        `latitude`: 405957808,
        `longitude`: -743255336
    },
    `name`: `82-104 Amherst Avenue, Colonia, NJ 07067, USA`
}, {
    `location`: {
        `latitude`: 411733589,
        `longitude`: -741648093
    },
    `name`: `170 Seven Lakes Drive, Sloatsburg, NY 10974, USA`
}, {
    `location`: {
        `latitude`: 412676291,
        `longitude`: -742606606
    },
    `name`: `1270 Lakes Road, Monroe, NY 10950, USA`
}, {
    `location`: {
        `latitude`: 409224445,
        `longitude`: -748286738
    },
    `name`: `509-535 Alphano Road, Great Meadows, NJ 07838, USA`
}, {
    `location`: {
        `latitude`: 406523420,
        `longitude`: -742135517
    },
    `name`: `652 Garden Street, Elizabeth, NJ 07202, USA`
}, {
    `location`: {
        `latitude`: 401827388,
        `longitude`: -740294537
    },
    `name`: `349 Sea Spray Court, Neptune City, NJ 07753, USA`
}, {
    `location`: {
        `latitude`: 410564152,
        `longitude`: -743685054
    },
    `name`: `13-17 Stanley Street, West Milford, NJ 07480, USA`
}, {
    `location`: {
        `latitude`: 408472324,
        `longitude`: -740726046
    },
    `name`: `47 Industrial Avenue, Teterboro, NJ 07608, USA`
}, {
    `location`: {
        `latitude`: 412452168,
        `longitude`: -740214052
    },
    `name`: `5 White Oak Lane, Stony Point, NY 10980, USA`
}, {
    `location`: {
        `latitude`: 409146138,
        `longitude`: -746188906
    },
    `name`: `Berkshire Valley Management Area Trail, Jefferson, NJ, USA`
}, {
    `location`: {
        `latitude`: 404701380,
        `longitude`: -744781745
    },
    `name`: `1007 Jersey Avenue, New Brunswick, NJ 08901, USA`
".

Definition exampleData3 : string := quoted "}, {
    `location`: {
        `latitude`: 409642566,
        `longitude`: -746017679
    },
    `name`: `6 East Emerald Isle Drive, Lake Hopatcong, NJ 07849, USA`
}, {
    `location`: {
        `latitude`: 408031728,
        `longitude`: -748645385
    },
    `name`: `1358-1474 New Jersey 57, Port Murray, NJ 07865, USA`
}, {
    `location`: {
        `latitude`: 413700272,
        `longitude`: -742135189
    },
    `name`: `367 Prospect Road, Chester, NY 10918, USA`
}, {
    `location`: {
        `latitude`: 404310607,
        `longitude`: -740282632
    },
    `name`: `10 Simon Lake Drive, Atlantic Highlands, NJ 07716, USA`
}, {
    `location`: {
        `latitude`: 409319800,
        `longitude`: -746201391
    },
    `name`: `11 Ward Street, Mount Arlington, NJ 07856, USA`
}, {
    `location`: {
        `latitude`: 406685311,
        `longitude`: -742108603
    },
    `name`: `300-398 Jefferson Avenue, Elizabeth, NJ 07201, USA`
}, {
    `location`: {
        `latitude`: 419018117,
        `longitude`: -749142781
    },
    `name`: `43 Dreher Road, Roscoe, NY 12776, USA`
}, {
    `location`: {
        `latitude`: 412856162,
        `longitude`: -745148837
    },
    `name`: `Swan Street, Pine Island, NY 10969, USA`
}, {
    `location`: {
        `latitude`: 416560744,
        `longitude`: -746721964
    },
    `name`: `66 Pleasantview Avenue, Monticello, NY 12701, USA`
}, {
    `location`: {
        `latitude`: 405314270,
        `longitude`: -749836354
    },
    `name`: ``
}, {
    `location`: {
        `latitude`: 414219548,
        `longitude`: -743327440
    },
    `name`: ``
}, {
    `location`: {
        `latitude`: 415534177,
        `longitude`: -742900616
    },
    `name`: `565 Winding Hills Road, Montgomery, NY 12549, USA`
}, {
    `location`: {
        `latitude`: 406898530,
        `longitude`: -749127080
    },
    `name`: `231 Rocky Run Road, Glen Gardner, NJ 08826, USA`
}, {
    `location`: {
        `latitude`: 407586880,
        `longitude`: -741670168
    },
    `name`: `100 Mount Pleasant Avenue, Newark, NJ 07104, USA`
}, {
    `location`: {
        `latitude`: 400106455,
        `longitude`: -742870190
    },
    `name`: `517-521 Huntington Drive, Manchester Township, NJ 08759, USA`
}, {
    `location`: {
        `latitude`: 400066188,
        `longitude`: -746793294
    },
    `name`: ``
}, {
    `location`: {
        `latitude`: 418803880,
        `longitude`: -744102673
    },
    `name`: `40 Mountain Road, Napanoch, NY 12458, USA`
}, {
    `location`: {
        `latitude`: 414204288,
        `longitude`: -747895140
    },
    `name`: ``
}, {
    `location`: {
        `latitude`: 414777405,
        `longitude`: -740615601
    },
    `name`: ``
}, {
    `location`: {
        `latitude`: 415464475,
        `longitude`: -747175374
    },
    `name`: `48 North Road, Forestburgh, NY 12777, USA`
}, {
    `location`: {
        `latitude`: 404062378,
        `longitude`: -746376177
    },
    `name`: ``
}, {
    `location`: {
        `latitude`: 405688272,
        `longitude`: -749285130
    },
    `name`: ``
}, {
    `location`: {
        `latitude`: 400342070,
        `longitude`: -748788996
    },
    `name`: ``
}, {
    `location`: {
        `latitude`: 401809022,
        `longitude`: -744157964
    },
    `name`: ``
}, {
    `location`: {
        `latitude`: 404226644,
        `longitude`: -740517141
    },
    `name`: `9 Thompson Avenue, Leonardo, NJ 07737, USA`
".

Definition exampleData4 : string := quoted "}, {
    `location`: {
        `latitude`: 410322033,
        `longitude`: -747871659
    },
    `name`: ``
}, {
    `location`: {
        `latitude`: 407100674,
        `longitude`: -747742727
    },
    `name`: ``
}, {
    `location`: {
        `latitude`: 418811433,
        `longitude`: -741718005
    },
    `name`: `213 Bush Road, Stone Ridge, NY 12484, USA`
}, {
    `location`: {
        `latitude`: 415034302,
        `longitude`: -743850945
    },
    `name`: ``
}, {
    `location`: {
        `latitude`: 411349992,
        `longitude`: -743694161
    },
    `name`: ``
}, {
    `location`: {
        `latitude`: 404839914,
        `longitude`: -744759616
    },
    `name`: `1-17 Bergen Court, New Brunswick, NJ 08901, USA`
}, {
    `location`: {
        `latitude`: 414638017,
        `longitude`: -745957854
    },
    `name`: `35 Oakland Valley Road, Cuddebackville, NY 12729, USA`
}, {
    `location`: {
        `latitude`: 412127800,
        `longitude`: -740173578
    },
    `name`: ``
}, {
    `location`: {
        `latitude`: 401263460,
        `longitude`: -747964303
    },
    `name`: ``
}, {
    `location`: {
        `latitude`: 412843391,
        `longitude`: -749086026
    },
    `name`: ``
}, {
    `location`: {
        `latitude`: 418512773,
        `longitude`: -743067823
    },
    `name`: ``
}, {
    `location`: {
        `latitude`: 404318328,
        `longitude`: -740835638
    },
    `name`: `42-102 Main Street, Belford, NJ 07718, USA`
}, {
    `location`: {
        `latitude`: 419020746,
        `longitude`: -741172328
    },
    `name`: ``
}, {
    `location`: {
        `latitude`: 404080723,
        `longitude`: -746119569
    },
    `name`: ``
}, {
    `location`: {
        `latitude`: 401012643,
        `longitude`: -744035134
    },
    `name`: ``
}, {
    `location`: {
        `latitude`: 404306372,
        `longitude`: -741079661
    },
    `name`: ``
}, {
    `location`: {
        `latitude`: 403966326,
        `longitude`: -748519297
    },
    `name`: ``
}, {
    `location`: {
        `latitude`: 405002031,
        `longitude`: -748407866
    },
    `name`: ``
}, {
    `location`: {
        `latitude`: 409532885,
        `longitude`: -742200683
    },
    `name`: ``
}, {
    `location`: {
        `latitude`: 416851321,
        `longitude`: -742674555
    },
    `name`: ``
}, {
    `location`: {
        `latitude`: 406411633,
        `longitude`: -741722051
    },
    `name`: `3387 Richmond Terrace, Staten Island, NY 10303, USA`
}, {
    `location`: {
        `latitude`: 413069058,
        `longitude`: -744597778
    },
    `name`: `261 Van Sickle Road, Goshen, NY 10924, USA`
}, {
    `location`: {
        `latitude`: 418465462,
        `longitude`: -746859398
    },
    `name`: ``
}, {
    `location`: {
        `latitude`: 411733222,
        `longitude`: -744228360
    },
    `name`: ``
}, {
    `location`: {
        `latitude`: 410248224,
        `longitude`: -747127767
    },
    `name`: `3 Hasta Way, Newton, NJ 07860, USA`
}]".

Definition exampleData : string := exampleData1 +:+ exampleData2 +:+ exampleData3 +:+ exampleData4.

(** ** [json.Unmarshal] into features

    A value of the wrong type is an error that the decoder reports at its end; null
    leaves a number or a string alone and makes a pointer nil; an object that comes
    again is read into the value that is already there. *)

Definition decode_int32 (raw : string) (old : Z) : option Z :=
  match shape_of raw with
  | Some JNull => Some old
  | Some (JNum lit) => z ← parse_int64 lit; if decide (in_s 32 z) then Some z else None
  | _ => None
  end.

Definition point_field (p : option Point) (kv : string * string) : option Point :=
  p ← p;
  let key := fold_key (unquote kv.1) in
  if decide (key = "latitude") then z ← decode_int32 kv.2 (Latitude p); Some (mkPoint z (Longitude p))
  else if decide (key = "longitude") then z ← decode_int32 kv.2 (Longitude p); Some (mkPoint (Latitude p) z)
  else Some p.

Definition decode_location (raw : string) (old : option Point) : option (option Point) :=
  match shape_of raw with
  | Some JNull => Some None
  | Some (JObj l) => Some <$> foldl point_field (Some (default (mkPoint 0 0) old)) l
  | _ => None
  end.

Definition decode_name (raw old : string) : option string :=
  match shape_of raw with
  | Some JNull => Some old
  | Some (JStr lit) => Some (unquote lit)
  | _ => None
  end.

Definition feature_field (f : option Feature) (kv : string * string) : option Feature :=
  f ← f;
  let key := fold_key (unquote kv.1) in
  if decide (key = "name") then n ← decode_name kv.2 (Name f); Some (mkFeature n (Location f))
  else if decide (key = "location") then l ← decode_location kv.2 (Location f); Some (mkFeature (Name f) l)
  else Some f.

Definition decode_feature (raw : string) : option (option Feature) :=
  match shape_of raw with
  | Some JNull => Some None
  | Some (JObj l) => Some <$> foldl feature_field (Some (mkFeature "" None)) l
  | _ => None
  end.

(** [json.Unmarshal(data, &s.savedFeatures)] of a server without features; [None] for
    an error. *)
Definition Unmarshal_features (data : string) : option (list (option Feature)) :=
  if negb (valid_json data) then None
  else match shape_of (skip_ws data) with
       | Some JNull => Some []
       | Some (JArr l) => mapM decode_feature l
       | _ => None
       end.

(** ** [loadFeatures] and [newServer]; [None] is the end of the process by [log.Fatalf] *)

Definition loadFeatures (w : world) (filePath : string) : option (list (option Feature)) :=
  data ← (if decide (filePath ≠ "") then match ReadFile w filePath with Ok d => Some d | Err _ => None end
          else Some exampleData);
  Unmarshal_features data.

(** The features and the notes of a new server. *)
Definition newServer_ (w : world) (jsonDBFile : string) :
    option (list (option Feature) * gmap string (list RouteNote)) :=
  fs ← loadFeatures w jsonDBFile; Some (fs, ∅).

(** ** Lookups *)

Section lookups.
Variable proto_Equal : option Point → option Point → bool.
Hypothesis proto_Equal_points : ∀ l p, proto_Equal l (Some p) = bool_decide (l = Some p).

Lemma GetFeature_found fs f p : NoDup (map Location fs) → f ∈ fs → Location f = Some p →
  GetFeature proto_Equal (map Some fs) p = Ret f.
Proof.
  induction fs as [|g fs IH]; intros Hnd Hf Hp; [by apply not_elem_of_nil in Hf|].
  cbn [map] in Hnd. apply NoDup_cons in Hnd as [Hg Hnd]. cbn [map GetFeature]. rewrite proto_Equal_points.
  apply elem_of_cons in Hf as [->|Hf]; [by rewrite bool_decide_eq_true_2|].
  rewrite bool_decide_eq_false_2; [by apply IH|]. intros E. apply Hg. rewrite E, <-Hp. by apply list_elem_of_fmap_2.
Qed.

Lemma GetFeature_missing fs p : (∀ f, f ∈ fs → Location f ≠ Some p) →
  GetFeature proto_Equal (map Some fs) p = Ret (mkFeature "" (Some p)).
Proof.
  induction fs as [|g fs IH]; intros H; [done|]. cbn [map GetFeature]. rewrite proto_Equal_points.
  rewrite bool_decide_eq_false_2 by (apply H; by left). apply IH. intros f Hf. apply H. by right.
Qed.
End lookups.

(** The features of the embedded text. *)
Definition example_features : list Feature := omap id (default [] (Unmarshal_features exampleData)).

Lemma exampleData_loads : Unmarshal_features exampleData = Some (map Some example_features).
Proof. vm_compute. reflexivity. Qed.

Lemma example_features_distinct : NoDup (map Location example_features).
Proof. apply (bool_decide_unpack _). vm_compute. exact I. Qed.

(** Points of the world, in units of [10^-7] degrees. *)
Definition on_globe (p : Point) : Prop :=
  (- 900000000 ≤ Latitude p ≤ 900000000)%Z ∧ (- 1800000000 ≤ Longitude p ≤ 1800000000)%Z.
#[export] Instance on_globe_dec p : Decision (on_globe p).
Proof. unfold on_globe. apply _. Defined.

Lemma example_features_located :
  Forall (λ f, bool_decide (is_Some (Location f)) && bool_decide (on_globe (default (mkPoint 0 0) (Location f))) = true)
    example_features.
Proof. apply (bool_decide_unpack _). vm_compute. exact I. Qed.

Lemma example_features_all_located : Forall (λ f, is_Some (Location f)) example_features.
Proof.
  eapply Forall_impl; [apply example_features_located|]. by intros f [H%bool_decide_eq_true _]%andb_true_iff.
Qed.

(** C26: without a file the server starts with the hundred features of the embedded
    text, all at points of the world and no two at the same: a request for a point
    finds the feature there, or else an unnamed one, a request for a rectangle gets
    the features in it, and no request for a point or a proper rectangle panics.  A
    file that cannot be read or decoded ends the process instead. *)
Theorem newServer_serves (proto_Equal : option Point → option Point → bool) w :
  (∀ l p, proto_Equal l (Some p) = bool_decide (l = Some p)) →
  (∃ fs, newServer_ w "" = Some (map Some fs, ∅) ∧ length fs = 100%nat ∧
    (∀ f, f ∈ fs → ∃ p, Location f = Some p ∧ on_globe p ∧ GetFeature proto_Equal (map Some fs) p = Ret f) ∧
    (∀ p, (∀ f, f ∈ fs → Location f ≠ Some p) →
       GetFeature proto_Equal (map Some fs) p = Ret (mkFeature "" (Some p))) ∧
    (∀ lo hi, ListFeatures (λ _, None) (map Some fs) (mkRectangle (Some lo) (Some hi)) 0 =
       Ret (filter (inside lo hi) fs, None))) ∧
  (∀ path, path ≠ "" → newServer_ w path = match ReadFile w path with
    | Ok d => (λ fs, (fs, ∅)) <$> Unmarshal_features d
    | Err _ => None
    end).
Proof.
  intros Heq. pose proof (proj1 (Forall_forall _ _) example_features_located) as Hloc.
  assert (∀ f, f ∈ example_features → ∃ p, Location f = Some p ∧ on_globe p) as Hp.
  { intros f Hf. specialize (Hloc f Hf). apply andb_true_iff in Hloc as [[p Hp]%bool_decide_eq_true Hg].
    rewrite Hp in *. exists p. split; [done|]. by apply bool_decide_eq_true in Hg. }
  split.
  - exists example_features. split_and!.
    + unfold newServer_, loadFeatures. rewrite decide_False by (intros E; by apply E). cbn [mbind option_bind].
      by rewrite exampleData_loads.
    + by vm_compute.
    + intros f Hf. destruct (Hp f Hf) as (p & E & Hg). exists p. split_and!; [done..|].
      apply GetFeature_found; [done|apply example_features_distinct|done..].
    + intros p. by apply GetFeature_missing.
    + intros lo hi. apply ListFeatures_all; [apply example_features_all_located|done].
  - intros path Hne. unfold newServer_, loadFeatures. rewrite decide_True by done. cbn [mbind option_bind].
    destruct (ReadFile w path) as [d|e]; [|done]. cbn [mbind option_bind]. by destruct (Unmarshal_features d).
Qed.

Lemma newServer_serves_witness :
  let proto_Equal l r := bool_decide (l = r) in
  ∃ fs, newServer_ (mkWorld ∅ [] ∅ None 0) "" = Some (map Some fs, ∅) ∧ length fs = 100%nat ∧
    ∀ f, f ∈ fs → ∃ p, Location f = Some p ∧ GetFeature proto_Equal (map Some fs) p = Ret f.
Proof.
  intros proto_Equal.
  destruct (newServer_serves proto_Equal (mkWorld ∅ [] ∅ None 0)) as [(fs & Hfs & Hlen & Hfound & _) _]; [done|].
  exists fs. split; [exact Hfs|]. split; [exact Hlen|]. intros f Hf.
  destruct (Hfound f Hf) as (p & Hp & _ & Hget). exists p. split; [exact Hp|exact Hget].
Defined.

(** A database with a null element loads, and then a request that reaches it ends the
    process. *)
Theorem null_feature_panics proto_Equal w path point : path ≠ "" → ReadFile w path = Ok "[null]" →
  ∃ fs, loadFeatures w path = Some fs ∧ ∃ msg, GetFeature proto_Equal fs point = Panic msg.
Proof.
  intros Hne Hr. unfold loadFeatures. rewrite decide_True, Hr by done. exists [None]. split; [by vm_compute|by eexists].
Qed.

(** ** data.Path and [main]; the directory of the package is found at run time *)

Definition Path (basepath rel : string) : string := if rooted rel then rel else JoinPath [basepath; rel].

Record server_flags := mkServerFlags {
  tls : bool; certFile : string; keyFile : string; jsonDBFile : string; port : Z }.
Definition default_server_flags : server_flags := mkServerFlags false "" "" "" 10000.

Section server_main.
Context {L C : Type} (net_Listen : string → result string L) (NewServerTLSFromFile : string → string → result string C).
Context (basepath : string) (w : world).

(** The files of the credentials. *)
Definition tls_files (f : server_flags) : string * string :=
  (if decide (certFile f = "") then Path basepath "x509/server_cert.pem" else certFile f,
   if decide (keyFile f = "") then Path basepath "x509/server_key.pem" else keyFile f).

(** What [main] serves: its listener, its credentials, and the server; [None] when a
    step fails, which ends the process. *)
Definition server_main (f : server_flags) :
    option (L * option C * (list (option Feature) * gmap string (list RouteNote))) :=
  match net_Listen ("localhost:" +:+ FormatInt (port f)) with
  | Err _ => None
  | Ok lis =>
      creds ← (if tls f then
                 let '(cert, key) := tls_files f in
                 match NewServerTLSFromFile cert key with Err _ => None | Ok c => Some (Some c) end
               else Some None);
      s ← newServer_ w (jsonDBFile f);
      Some (lis, creds, s)
  end.

(** Without arguments the program listens on port 10000, without credentials, for the
    embedded features. *)
Theorem server_main_default lis : net_Listen "localhost:10000" = Ok lis →
  server_main default_server_flags = Some (lis, None, (map Some example_features, ∅)).
Proof.
  intros H. unfold server_main. cbn [port default_server_flags tls jsonDBFile].
  change ("localhost:" +:+ FormatInt 10000) with "localhost:10000". rewrite H. cbn [mbind option_bind].
  unfold newServer_, loadFeatures. rewrite decide_False by (intros E; by apply E). cbn [mbind option_bind].
  by rewrite exampleData_loads.
Qed.

(** With credentials those of the package unless others are named. *)
Theorem server_main_tls lis f : tls f = true → certFile f = "" → keyFile f = "" →
  net_Listen ("localhost:" +:+ FormatInt (port f)) = Ok lis →
  server_main f =
    match NewServerTLSFromFile (JoinPath [basepath; "x509/server_cert.pem"]) (JoinPath [basepath; "x509/server_key.pem"]) with
    | Ok c => (λ s, (lis, Some c, s)) <$> newServer_ w (jsonDBFile f)
    | Err _ => None
    end.
Proof.
  intros Ht Hc Hk Hl. unfold server_main, tls_files. rewrite Hl, Ht, Hc, Hk, !decide_True by done.
  change (Path basepath ?r) with (JoinPath [basepath; r]).
  destruct (NewServerTLSFromFile _ _); [|done]. cbn [mbind option_bind]. by destruct (newServer_ w _).
Qed.
End server_main.
