(* ===== verification/RouteClient.v ===== *)
(** * The route guide client (route_guide/client/client.go)

    The requests of the program as functions of what the gRPC client, third-party and
    so an argument, returns for them, with the lines they log; and [runRouteChat] as a
    goroutine that sends and one that receives, in a system with the chat server at
    the other end of the stream. *)

From S2P Require Import Prelude RouteGuide RouteData.

(** What is logged. *)
Inductive log_line :=
| LGetting (point : Point)
| LFeature (f : Feature)
| LLooking (rect : Rectangle)
| LListed (name : string) (latitude longitude : Z)
| LTraversing (n : Z)
| LSummary (s : RouteSummary).

(** What a function of the client logs, and the message of [log.Fatalf] that ends the
    process or none. *)
Definition logged : Type := list log_line * option string.
Definition then_ (a b : logged) : logged :=
  match a with
  | (l, Some e) => (l, Some e)
  | (l, None) => (l ++ b.1, b.2)
  end.

(** The stream of [RecordRoute]: the error of the [n]-th [Send], and the answer. *)
Record RecordStream := mkRecordStream {
  rs_Send : nat → option string;
  rs_CloseAndRecv : list Point → result string RouteSummary }.

(** [pb.RouteGuideClient] without the chat; of a stream that is received, what [Recv]
    delivers and its end. *)
Record RouteGuideClient := mkClient {
  c_GetFeature : Point → result string Feature;
  c_ListFeatures : Rectangle → result string (list Feature * stream_end);
  c_RecordRoute : result string RecordStream }.

Definition GetLatitude (p : option Point) : Z := default 0%Z (Latitude <$> p).
Definition GetLongitude (p : option Point) : Z := default 0%Z (Longitude <$> p).

Definition printFeature (client : RouteGuideClient) (point : Point) : logged :=
  match c_GetFeature client point with
  | Err e => ([LGetting point], Some e)
  | Ok feature => ([LGetting point; LFeature feature], None)
  end.

Fixpoint print_loop (features : list Feature) (e : stream_end) : logged :=
  match features with
  | [] => ([], match e with EndEOF => None | EndErr err => Some err end)
  | f :: fs =>
      then_ ([LListed (Name f) (GetLatitude (Location f)) (GetLongitude (Location f))], None) (print_loop fs e)
  end.
Definition printFeatures (client : RouteGuideClient) (rect : Rectangle) : logged :=
  then_ ([LLooking rect], None)
    (match c_ListFeatures client rect with
     | Err e => ([], Some e)
     | Ok (features, e) => print_loop features e
     end).

Section random.
(** A [rand.Rand] and its [Int31n]. *)
Context {Rand : Type} (Int31n : Rand → Z → Z * Rand).

Definition randomPoint (r : Rand) : Point * Rand :=
  let '(a, r) := Int31n r 180 in
  let lat := wraps 32 (wraps 32 (a - 90) * 10000000) in
  let '(b, r) := Int31n r 360 in
  let long := wraps 32 (wraps 32 (b - 180) * 10000000) in
  (mkPoint lat long, r).

Fixpoint random_points (pointCount : nat) (r : Rand) : list Point :=
  match pointCount with
  | O => []
  | S n => let '(p, r) := randomPoint r in p :: random_points n r
  end.

(** The points of [runRecordRoute] for a new generator. *)
Definition record_points (r : Rand) : list Point :=
  let '(n, r) := Int31n r 100 in
  random_points (Z.to_nat (n + 2)) r.

Fixpoint send_loop (stream : RecordStream) (points : list Point) (n : nat) : option string :=
  match points with
  | [] => None
  | _ :: points => match rs_Send stream n with Some err => Some err | None => send_loop stream points (S n) end
  end.

Definition runRecordRoute (client : RouteGuideClient) (r : Rand) : logged :=
  let points := record_points r in
  then_ ([LTraversing (Z.of_nat (length points))], None)
    (match c_RecordRoute client with
     | Err e => ([], Some e)
     | Ok stream =>
         match send_loop stream points 0 with
         | Some err => ([], Some err)
         | None =>
             match rs_CloseAndRecv stream points with
             | Err e => ([], Some e)
             | Ok reply => ([LSummary reply], None)
             end
         end
     end).

(** The requests of [main] before the chat. *)
Definition main_requests (client : RouteGuideClient) (r : Rand) : logged :=
  then_ (printFeature client (mkPoint 409146138 (-746188906)))
    (then_ (printFeature client (mkPoint 0 0))
       (then_ (printFeatures client (mkRectangle (Some (mkPoint 400000000 (-750000000))) (Some (mkPoint 420000000 (-730000000)))))
          (runRecordRoute client r))).
End random.

(** How [main] connects: the flags, and credentials or an insecure connection; the
    error of a step ends the process. *)
Record client_flags := mkClientFlags { cl_tls : bool; caFile : string; serverAddr : string; serverHostOverride : string }.
Definition default_client_flags : client_flags := mkClientFlags false "" "localhost:10000" "x.test.youtube.com".

Definition client_connect {C K : Type} (NewClientTLSFromFile : string → string → result string C)
    (grpc_Dial : string → option C → result string K) (basepath : string) (f : client_flags) : result string K :=
  if cl_tls f then
    match NewClientTLSFromFile (if decide (caFile f = "") then Path basepath "x509/ca_cert.pem" else caFile f)
            (serverHostOverride f) with
    | Err e => Err ("Failed to create TLS credentials " +:+ e)
    | Ok creds => match grpc_Dial (serverAddr f) (Some creds) with Err e => Err ("fail to dial: " +:+ e) | Ok c => Ok c end
    end
  else match grpc_Dial (serverAddr f) None with Err e => Err ("fail to dial: " +:+ e) | Ok c => Ok c end.

(** ** [runRouteChat] *)

Definition chat_notes : list RouteNote :=
  [mkNote (Some (mkPoint 0 1)) "First message"; mkNote (Some (mkPoint 0 2)) "Second message";
   mkNote (Some (mkPoint 0 3)) "Third message"; mkNote (Some (mkPoint 0 1)) "Fourth message";
   mkNote (Some (mkPoint 0 2)) "Fifth message"; mkNote (Some (mkPoint 0 3)) "Sixth message"].

(** Where the goroutine of [main] is: sending, at [<-waitc], returned. *)
Inductive main_pc := MSend | MWait | MDone.

(** The client and the server, of whose goroutines number [i] serves the stream: how
    many notes have been sent, whether [CloseSend] was called, whether the handler has
    returned nil, [waitc], and the notes that the receiving goroutine has logged. *)
Record system := mkSystem {
  sy_server : server;
  sy_sent : nat;
  sy_closed : bool;
  sy_eof : bool;
  sy_main : main_pc;
  sy_waitc : bool;
  sy_got : list RouteNote }.

Definition set_server (x : server) (s : system) : system :=
  mkSystem x (sy_sent s) (sy_closed s) (sy_eof s) (sy_main s) (sy_waitc s) (sy_got s).

(** The system goes on, or the client ends by [log.Fatalf], or by a panic. *)
Inductive chat_proc := Up (s : system) | Fatal | ClientPanic.

(** The goroutine [i] of the server has got no more notes than were sent and has not
    returned in a step. *)
Definition within (i sent : nat) (x y : server) : Prop :=
  ∀ c c', chats x !! i = Some c → chats y !! i = Some c' →
    (length chat_notes ≤ sent + length (ch_in c'))%nat ∧ (ch_pc c' = CEnd → ch_pc c = CEnd).

Definition ended (i : nat) (c : chat) (x : server) : server :=
  mkServer (routeNotes x) (mu x) (<[i := mkChat (ch_in c) CEnd (ch_sent c)]> (chats x)).

Inductive sys_step (i : nat) : system → chat_proc → Prop :=
| sy_serve s x : chat_step (sy_server s) (Running x) → within i (sy_sent s) (sy_server s) x →
    sys_step i s (Up (set_server x s))
| sy_return s c : chats (sy_server s) !! i = Some c → ch_pc c = CRecv → ch_in c = [] → sy_closed s = true →
    sys_step i s (Up (mkSystem (ended i c (sy_server s)) (sy_sent s) true true (sy_main s) (sy_waitc s) (sy_got s)))
| sy_return_err s c : chats (sy_server s) !! i = Some c → (ch_pc c = CRecv ∨ ∃ note rn, ch_pc c = CSend (note :: rn)) →
    sys_step i s (Up (set_server (ended i c (sy_server s)) s))
| sy_send s : sy_main s = MSend → (sy_sent s < length chat_notes)%nat →
    sys_step i s (Up (mkSystem (sy_server s) (S (sy_sent s)) (sy_closed s) (sy_eof s) MSend (sy_waitc s) (sy_got s)))
| sy_close s : sy_main s = MSend → sy_sent s = length chat_notes →
    sys_step i s (Up (mkSystem (sy_server s) (sy_sent s) true (sy_eof s) MWait (sy_waitc s) (sy_got s)))
| sy_recv s c note : sy_waitc s = false → chats (sy_server s) !! i = Some c →
    ch_sent c !! length (sy_got s) = Some note → is_Some (rn_Location note) →
    sys_step i s (Up (mkSystem (sy_server s) (sy_sent s) (sy_closed s) (sy_eof s) (sy_main s) false (sy_got s ++ [note])))
| sy_recv_panic s c note : sy_waitc s = false → chats (sy_server s) !! i = Some c →
    ch_sent c !! length (sy_got s) = Some note → rn_Location note = None →
    sys_step i s ClientPanic
| sy_recv_eof s c : sy_waitc s = false → chats (sy_server s) !! i = Some c → sy_eof s = true →
    length (sy_got s) = length (ch_sent c) →
    sys_step i s (Up (mkSystem (sy_server s) (sy_sent s) (sy_closed s) true (sy_main s) true (sy_got s)))
| sy_wait s : sy_main s = MWait → sy_waitc s = true →
    sys_step i s (Up (mkSystem (sy_server s) (sy_sent s) (sy_closed s) (sy_eof s) MDone true (sy_got s)))
| sy_fatal s : sy_main s = MSend ∨ sy_waitc s = false → sys_step i s Fatal.

Definition sys_running (i : nat) (s s' : system) : Prop := sys_step i s (Up s').

Definition newSystem (streams : list (list RouteNote)) : system :=
  mkSystem (RouteGuide.newServer streams) 0 false false MSend false [].

(** ** The requests against the server *)

Section served.
Context {Rand : Type} (Int31n : Rand → Z → Z * Rand).
Hypothesis Int31n_range : ∀ r n, (0 < n)%Z → (0 ≤ (Int31n r n).1 < n)%Z.
Context (proto_Equal : option Point → option Point → bool) (calcDistance : Point → Point → Z).
Hypothesis proto_Equal_points : ∀ l p, proto_Equal l (Some p) = bool_decide (l = Some p).

(** A client of a server with the features [fs], when the connection holds; a handler
    that panics ends the server, and the client gets an error. *)
Definition dial (fs : list (option Feature)) (seconds : Z) : RouteGuideClient :=
  {| c_GetFeature point := match GetFeature proto_Equal fs point with Ret f => Ok f | _ => Err "Unavailable" end;
     c_ListFeatures rect :=
       match ListFeatures (λ _, None) fs rect 0 with
       | Ret (l, None) => Ok (l, EndEOF)
       | Ret (l, Some e) => Ok (l, EndErr e)
       | _ => Err "Unavailable"
       end;
     c_RecordRoute := Ok
       {| rs_Send _ := None;
          rs_CloseAndRecv points :=
            match RecordRoute proto_Equal calcDistance fs points EndEOF seconds with Ret r => r | _ => Err "Unavailable" end |} |}.

(** Random points are points of the world: nothing overflows. *)
Lemma randomPoint_on_globe r : on_globe (randomPoint Int31n r).1.
Proof.
  unfold randomPoint. pose proof (Int31n_range r 180 ltac:(lia)) as Ha. destruct (Int31n r 180) as [a r1].
  pose proof (Int31n_range r1 360 ltac:(lia)) as Hb. destruct (Int31n r1 360) as [b r2]. cbn in *.
  unfold on_globe. cbn. rewrite !(wraps_id 32) by (unfold in_s; rewrite ?wraps_id by (unfold in_s; lia); lia). lia.
Qed.

Lemma random_points_spec n r : length (random_points Int31n n r) = n ∧ Forall on_globe (random_points Int31n n r).
Proof.
  revert r. induction n as [|n IH]; intros r; [done|]. cbn [random_points].
  pose proof (randomPoint_on_globe r) as Hp. destruct (randomPoint Int31n r) as [p r'].
  destruct (IH r') as [Hl Hf]. cbn [length]. by rewrite Hl; split; [|constructor].
Qed.

Lemma record_points_spec r :
  (2 ≤ length (record_points Int31n r) ≤ 101)%nat ∧ Forall on_globe (record_points Int31n r).
Proof.
  unfold record_points. pose proof (Int31n_range r 100 ltac:(lia)) as Hn. destruct (Int31n r 100) as [n r']. cbn in Hn.
  destruct (random_points_spec (Z.to_nat (n + 2)) r') as [Hl Hf]. rewrite Hl. split; [lia|done].
Qed.

Lemma send_loop_ok stream points n : (∀ k, rs_Send stream k = None) → send_loop stream points n = None.
Proof. intros H. revert n. induction points as [|p points IH]; intros n; [done|]. cbn. by rewrite H. Qed.

Lemma print_loop_all fs :
  print_loop fs EndEOF = (map (λ f, LListed (Name f) (GetLatitude (Location f)) (GetLongitude (Location f))) fs, None).
Proof. induction fs as [|f fs IH]; [done|]. cbn [print_loop map]. by rewrite IH. Qed.

Lemma runRecordRoute_served fs seconds r : runRecordRoute Int31n (dial (map Some fs) seconds) r =
  ([LTraversing (Z.of_nat (length (record_points Int31n r)));
    LSummary (mkSummary (Z.of_nat (length (record_points Int31n r))) (wraps 32 (visited proto_Equal fs (record_points Int31n r)))
                (wraps 32 (route_length calcDistance (record_points Int31n r))) (wraps 32 seconds))], None).
Proof.
  unfold runRecordRoute. cbn [dial c_RecordRoute rs_CloseAndRecv then_ app fst snd].
  rewrite send_loop_ok by done. rewrite RecordRoute_summary. cbn [fst snd].
  rewrite (wraps_id 32 (Z.of_nat _)); [done|lia|]. destruct (record_points_spec r) as [Hn _]. unfold in_s. lia.
Qed.

Lemma printFeature_served fs seconds point f : GetFeature proto_Equal (map Some fs) point = Ret f →
  printFeature (dial (map Some fs) seconds) point = ([LGetting point; LFeature f], None).
Proof. intros H. unfold printFeature. cbn [dial c_GetFeature]. by rewrite H. Qed.

Definition main_rect : Rectangle :=
  mkRectangle (Some (mkPoint 400000000 (-750000000))) (Some (mkPoint 420000000 (-730000000))).
Definition trail : Point := mkPoint 409146138 (-746188906).
Definition listed (f : Feature) : log_line := LListed (Name f) (GetLatitude (Location f)) (GetLongitude (Location f)).

Lemma main_requests_run fs f g seconds r :
  GetFeature proto_Equal (map Some fs) trail = Ret f → GetFeature proto_Equal (map Some fs) (mkPoint 0 0) = Ret g →
  Forall (λ f, is_Some (Location f)) fs →
  filter (inside (mkPoint 400000000 (-750000000)) (mkPoint 420000000 (-730000000))) fs = fs →
  let n := Z.of_nat (length (record_points Int31n r)) in
  ∃ fc d, main_requests Int31n (dial (map Some fs) seconds) r =
    ([LGetting trail; LFeature f; LGetting (mkPoint 0 0); LFeature g; LLooking main_rect] ++
     map listed fs ++ [LTraversing n; LSummary (mkSummary n fc d (wraps 32 seconds))], None).
Proof.
  intros Hf Hg Hloc Hin n. do 2 eexists. unfold main_requests.
  rewrite runRecordRoute_served, (printFeature_served _ _ _ _ Hf), (printFeature_served _ _ _ _ Hg).
  unfold printFeatures. cbn [dial c_ListFeatures]. rewrite ListFeatures_all, Hin by done.
  rewrite print_loop_all. cbn [then_ app fst snd]. reflexivity.
Qed.

Lemma example_trail : mkFeature "Berkshire Valley Management Area Trail, Jefferson, NJ, USA" (Some trail) ∈ example_features.
Proof. apply (bool_decide_unpack _). vm_compute. exact I. Qed.
Lemma example_nowhere f : f ∈ example_features → Location f ≠ Some (mkPoint 0 0).
Proof. revert f. apply Forall_forall. apply (bool_decide_unpack _). vm_compute. exact I. Qed.
Lemma example_inside :
  filter (inside (mkPoint 400000000 (-750000000)) (mkPoint 420000000 (-730000000))) example_features = example_features.
Proof. vm_compute. reflexivity. Qed.
Lemma example_length : length example_features = 100%nat.
Proof. vm_compute. reflexivity. Qed.

(** C27: against the server with the embedded features the requests of [main] end
    without an error: the first finds the feature it looks for and the second an
    unnamed one, the rectangle has all hundred features in their order, and the route
    is one of 2 to 101 points of the world, of which the summary has the number. *)
Theorem main_requests_served seconds r :
  ∃ points fc d,
    main_requests Int31n (dial (map Some example_features) seconds) r =
      ([LGetting trail; LFeature (mkFeature "Berkshire Valley Management Area Trail, Jefferson, NJ, USA" (Some trail));
        LGetting (mkPoint 0 0); LFeature (mkFeature "" (Some (mkPoint 0 0))); LLooking main_rect] ++
       map listed example_features ++ [LTraversing points; LSummary (mkSummary points fc d (wraps 32 seconds))], None) ∧
    (2 ≤ points ≤ 101)%Z ∧ length example_features = 100%nat ∧ Forall on_globe (record_points Int31n r).
Proof.
  destruct (record_points_spec r) as [Hn Hg]. exists (Z.of_nat (length (record_points Int31n r))).
  destruct (main_requests_run example_features _ _ seconds r
    (GetFeature_found _ proto_Equal_points _ _ _ example_features_distinct example_trail eq_refl)
    (GetFeature_missing _ proto_Equal_points _ _ example_nowhere)
    example_features_all_located example_inside) as (fc & d & E).
  exists fc, d. split; [exact E|]. split; [lia|]. split; [exact example_length|exact Hg].
Qed.
End served.

(** A generator for witnesses. *)
Definition demo_rand (r n : Z) : Z * Z := (r mod n, r * 7919 + 13)%Z.

Lemma main_requests_served_witness :
  ∃ points fc d l,
    main_requests demo_rand (dial (λ p q, bool_decide (p = q)) (λ _ _, 1%Z) (map Some example_features) 4) 17%Z =
      (l ++ [LTraversing points; LSummary (mkSummary points fc d 4)], None) ∧ (2 ≤ points ≤ 101)%Z.
Proof.
  assert (∀ r n, (0 < n)%Z → (0 ≤ (demo_rand r n).1 < n)%Z) as Hr by (intros r n Hn; apply Z.mod_pos_bound, Hn).
  destruct (main_requests_served demo_rand Hr (λ p q, bool_decide (p = q)) (λ _ _, 1%Z) (λ _ _, eq_refl) 4 17%Z)
    as (points & fc & d & E & Hp & _).
  exists points, fc, d. eexists. rewrite app_assoc in E. split; [exact E|exact Hp].
Defined.

(** ** The chat against the server *)

Lemma chat_step_sent s s' i c : chat_step s (Running s') → chats s !! i = Some c →
  ∃ c', chats s' !! i = Some c' ∧ ch_sent c `prefix_of` ch_sent c' ∧ (ch_pc c = CEnd → c' = c).
Proof.
  intros Hstep Hc. remember (Running s') as p eqn:Ep. destruct Hstep as [s j d note key notes Hd Hpc|
    |s j d note key Hd Hpc|s j d note key Hd Hpc|s j d note key Hd Hpc|s j d rn Hd Hpc|s j d note rn Hd Hpc|
    s j d Hd Hpc|s j d Hd Hpc]; try discriminate Ep; injection Ep as <-; cbn [chats];
    (destruct (decide (j = i)) as [->|Hne];
     [rewrite Hc in Hd; injection Hd as <-; rewrite list_lookup_insert_eq by (by eapply lookup_lt_Some);
      eexists; split; [done|]; split; [first [done|by eexists]|intros Hend; first [congruence|destruct Hpc as [?|(? & ? & ?)]; congruence]]
     |rewrite list_lookup_insert_ne by done; by exists c]).
Qed.

(** Posts of others are not answered to [i]. *)
Lemma replies_others i seen h h' : posted i h' = [] → replies i seen (h ++ h') = replies i seen h.
Proof.
  induction h' as [|p h' IH] using rev_ind; [by rewrite app_nil_r|]. destruct p as [j n].
  rewrite posted_snoc. intros [Hp Hn]%app_eq_nil. rewrite app_assoc, replies_snoc, IH by done.
  cbn [fst]. case_decide; [done|]. by rewrite app_nil_r.
Qed.

(** The answers to [i] are about the points of its posts. *)
Lemma replies_points i seen h n : n ∈ replies i seen h → ∃ n', n' ∈ posted i h ∧ rn_Location n = rn_Location n'.
Proof.
  induction h as [|[j m] h IH] using rev_ind; intros Hn; [by apply not_elem_of_nil in Hn|].
  rewrite replies_snoc in Hn. rewrite posted_snoc. cbn [fst snd] in Hn. apply elem_of_app in Hn as [Hn|Hn].
  - destruct (IH Hn) as (n' & Hn' & E). exists n'. split; [|done]. apply elem_of_app. by left.
  - case_decide as Hj; [|by apply not_elem_of_nil in Hn]. unfold at_point in Hn.
    apply list_elem_of_filter in Hn as [E _]. exists m. split; [|done]. apply elem_of_app. right. by apply list_elem_of_singleton.
Qed.

(** Alone in the room, all posts are ours. *)
Lemma posts_alone h : Forall (λ p : nat * RouteNote, (p.1 < 1)%nat) h → h = map (pair 0%nat) (posted 0 h).
Proof.
  induction 1 as [|[j n] h Hj _ IH]; [done|]. cbn in Hj. assert (j = 0%nat) as -> by lia.
  unfold posted in *. rewrite filter_cons_True by done. cbn [map snd]. by f_equal.
Qed.
Lemma alone_replies h s : room_inv [chat_notes] h s → posted 0 h = chat_notes →
  replies 0 [] h = omap (λ n, chat_notes !! n) [0; 1; 2; 0; 3; 1; 4; 2; 5]%nat.
Proof.
  intros Hr Hp. pose proof (posts_alone _ (ri_who _ _ _ Hr)) as Hw.
  rewrite Hp in Hw. rewrite Hw. by vm_compute.
Qed.

Section chatting.
Context (streams : list (list RouteNote)) (i : nat).
Hypothesis ours : streams !! i = Some chat_notes.

(** The server is at the posts [h], and the client has what the server sent. *)
Record sys_inv (h : posts) (s : system) : Prop := {
  si_room : room_inv streams h (sy_server s);
  si_chat : ∃ c, chats (sy_server s) !! i = Some c ∧
    (length chat_notes ≤ sy_sent s + length (ch_in c))%nat ∧ sy_got s `prefix_of` ch_sent c ∧
    (sy_eof s = true → ch_pc c = CEnd ∧ posted i h = chat_notes ∧ ch_sent c = replies i [] h) ∧
    (sy_waitc s = true → sy_eof s = true ∧ sy_got s = ch_sent c);
  si_sent : (sy_sent s ≤ length chat_notes)%nat;
  si_main : match sy_main s with
            | MSend => sy_closed s = false ∧ sy_eof s = false
            | MWait => sy_closed s = true ∧ sy_sent s = length chat_notes
            | MDone => sy_waitc s = true
            end;
  si_closed : sy_eof s = true → sy_closed s = true }.

Lemma sys_inv_init : sys_inv [] (newSystem streams).
Proof.
  split; cbn; [apply room_inv_init| |lia|done|done].
  exists (mkChat chat_notes CRecv []). split; [by apply list_lookup_fmap_Some; eexists|]. cbn.
  split_and!; [lia|done..].
Qed.

(** A step of the server keeps what is known of the stream. *)
Lemma sys_inv_serve h s x : sys_inv h s → chat_step (sy_server s) (Running x) → within i (sy_sent s) (sy_server s) x →
  ∃ h', sys_inv (h ++ h') (set_server x s).
Proof.
  intros [Hr (c & Hc & Hin & Hgot & Heof & Hw) Hs Hm Hcl] Hstep Hwithin.
  destruct (room_step _ _ _ _ Hr Hstep) as [h' Hr']. exists h'.
  destruct (chat_step_sent _ _ _ _ Hstep Hc) as (c' & Hc' & Hsent & Hsame).
  destruct (Hwithin c c' Hc Hc') as [Hlen Hnoend].
  split; [exact Hr'| |exact Hs|exact Hm|exact Hcl]. exists c'. cbn. split_and!; [done|done|by etrans| |].
  - intros He. destruct (Heof He) as (Hpc & Hp & Hrep). rewrite (Hsame Hpc).
    destruct (chat_ok_prefix _ _ _ _ _ (ri_chat _ _ _ Hr' i c' Hc')) as (Hpre & _ & _).
    rewrite ours in Hpre. cbn in Hpre. unfold posted in Hpre. rewrite filter_app, map_app in Hpre.
    fold (posted i h) (posted i h') in Hpre. rewrite Hp in Hpre.
    assert (posted i h' = []) as Hnil.
    { destruct Hpre as [k Hk]. rewrite <-app_assoc, <-(app_nil_r chat_notes) in Hk at 1.
      apply app_inv_head in Hk. symmetry in Hk. by apply app_eq_nil in Hk as [? ?]. }
    split_and!; [done| |by rewrite replies_others].
    unfold posted. rewrite filter_app, map_app. fold (posted i h) (posted i h'). by rewrite Hnil, app_nil_r.
  - intros Hwc. destruct (Hw Hwc) as [He Hg]. split; [done|]. destruct (Heof He) as (Hpc & _). by rewrite (Hsame Hpc).
Qed.

(** The handler of the stream returns. *)
Lemma room_ended h x c : room_inv streams h x → chats x !! i = Some c →
  (ch_pc c = CRecv ∨ ∃ note rn, ch_pc c = CSend (note :: rn)) → room_inv streams h (ended i c x).
Proof.
  intros Hr Hc Hpc. pose proof (ri_lock _ _ _ Hr _ _ Hc) as Hmu. unfold ended.
  eapply room_inv_local; [exact Hr|exact Hc|done| |]; cbn.
  - destruct Hpc as [Hpc|(? & ? & Hpc)]; by rewrite Hpc in Hmu.
  - intros Hok. destruct (chat_ok_prefix _ _ _ _ _ Hok) as (? & ? & _). by split.
Qed.

Lemma ended_lookup c x : chats x !! i = Some c → chats (ended i c x) !! i = Some (mkChat (ch_in c) CEnd (ch_sent c)).
Proof. intros Hc. unfold ended. cbn. by rewrite list_lookup_insert_eq by (by eapply lookup_lt_Some). Qed.

Lemma sys_inv_step h s s' : sys_inv h s → sys_running i s s' → ∃ h', sys_inv (h ++ h') s'.
Proof.
  intros Hinv Hstep. unfold sys_running in Hstep. inversion Hstep as [? x Hx Hwi|? c Hc Hpc Hnil Hclosed|? c Hc Hpc|? Hm Hlt|
    ? Hm Hall|? c note Hw Hc Hn Hloc| |? c Hw Hc He Hlen|? Hm Hw|]; subst; [by eapply sys_inv_serve|..];
    exists []; rewrite app_nil_r; destruct Hinv as [Hr (d & Hd & Hin & Hgot & Heof & Hwait) Hs Hmain Hcl].
  - rewrite Hc in Hd. injection Hd as <-. split; cbn; [apply room_ended; auto| |done| |done].
    + eexists. split; [by apply ended_lookup|]. cbn. split_and!; [done|done| |intros Hwt; by destruct (Hwait Hwt)].
      destruct (chat_ok_prefix _ _ _ _ _ (ri_chat _ _ _ Hr i c Hc)) as (_ & _ & Hex). destruct (Hex Hpc) as [Hp Hrep].
      rewrite Hnil, app_nil_r, ours in Hp. by intros _.
    + destruct (sy_main s); [by destruct Hmain; congruence|by destruct Hmain|done].
  - rewrite Hc in Hd. injection Hd as <-. split; cbn; [by apply room_ended| |done|done|done].
    eexists. split; [by apply ended_lookup|]. cbn. split_and!; [done|done| |done].
    intros He. destruct (Heof He) as (Hend & _). destruct Hpc as [Hpc|(? & ? & Hpc)]; congruence.
  - rewrite Hm in Hmain. split; cbn [sy_server sy_sent sy_closed sy_eof sy_main sy_waitc sy_got]; [done| |lia|done|done].
    exists d. split_and!; [done|lia|done..].
  - rewrite Hm in Hmain. split; cbn; [done| |done|done|]; [by exists d|]. by destruct Hmain as [_ ->].
  - rewrite Hc in Hd. injection Hd as <-. split; cbn; [done| |done| |done].
    + exists c. split_and!; [done|done| |done|done]. cbn. destruct Hgot as [k Hk]. rewrite Hk in Hn |- *.
      rewrite lookup_app_r, Nat.sub_diag in Hn by lia. destruct k as [|n k]; [done|]. injection Hn as ->.
      exists k. by rewrite <-app_assoc.
    + destruct (sy_main s); [done|done|]. congruence.
  - rewrite Hc in Hd. injection Hd as <-. rewrite He in *. split; cbn; [done| |done| |done].
    + exists c. split_and!; [done|done|done|done|]. intros _. split; [done|]. destruct Hgot as [k Hk]. rewrite Hk in Hlen |- *.
      rewrite length_app in Hlen. destruct k; [by rewrite app_nil_r|cbn in Hlen; lia].
    + destruct (sy_main s); [by destruct Hmain|done|done].
  - split; cbn; [done| |done|done|done]. exists d. by rewrite Hw in Hwait.
Qed.

Lemma sys_reach s : rtc (sys_running i) (newSystem streams) s → ∃ h, sys_inv h s.
Proof.
  assert (∀ s' h, sys_inv h s' → rtc (sys_running i) s' s → ∃ h', sys_inv h' s) as Hall.
  { intros s' h Hinv Hrtc. revert h Hinv.
    induction Hrtc as [|s1 s2 s3 Hs _ IH]; intros h Hinv; [by eexists|].
    destruct (sys_inv_step _ _ _ Hinv Hs) as [h' Hinv']. eauto. }
  apply (Hall _ []), sys_inv_init.
Qed.

(** What the stream delivers has a location. *)
Lemma sys_located h s c note k : sys_inv h s → chats (sy_server s) !! i = Some c → ch_sent c !! k = Some note →
  is_Some (rn_Location note).
Proof.
  intros Hinv Hc Hk. destruct (chat_ok_prefix _ _ _ _ _ (ri_chat _ _ _ (si_room _ _ Hinv) i c Hc)) as (Hp & Hs & _).
  assert (note ∈ replies i [] h) as Hn by (eapply elem_of_prefix; [by eapply list_elem_of_lookup_2|done]).
  apply replies_points in Hn as (n' & Hn' & ->). rewrite ours in Hp. cbn [default] in Hp.
  eapply elem_of_prefix in Hn'; [|exact Hp]. revert n' Hn'. apply Forall_forall. repeat constructor; by eexists.
Qed.

(** When all notes are sent a step of goroutine [j] is one of the system, unless it is
    the return of [i]. *)
Lemma within_update sent x j d notes m : sent = length chat_notes → (j = i → ch_pc d ≠ CEnd) →
  within i sent x (mkServer notes m (<[j := d]> (chats x))).
Proof.
  intros -> Hd c c' Hc Hc'. split; [lia|]. cbn in Hc'. destruct (decide (j = i)) as [->|Hne].
  - rewrite list_lookup_insert_eq in Hc' by (by eapply lookup_lt_Some). injection Hc' as <-. intros E. by apply Hd in E.
  - rewrite list_lookup_insert_ne in Hc' by done. congruence.
Qed.

(** The server goes on with our stream: a goroutine in the critical section, or ours. *)
Lemma serve_progress h s c : sys_inv h s → sy_main s = MWait → chats (sy_server s) !! i = Some c →
  ch_pc c ≠ CEnd → ∃ s', sys_running i s s'.
Proof.
  intros [Hr (d & Hd & _) _ Hm _] Hw Hc Hne. rewrite Hw in Hm. destruct Hm as [Hclosed Hsent].
  assert (∀ j x d notes m, x = mkServer notes m (<[j := d]> (chats (sy_server s))) → (j = i → ch_pc d ≠ CEnd) →
    chat_step (sy_server s) (Running x) → ∃ s', sys_running i s s') as Hgo.
  { intros j x e notes m -> He Hstep. eexists. apply sy_serve; [exact Hstep|]. by apply within_update. }
  assert (∀ j e, chats (sy_server s) !! j = Some e → critical (ch_pc e) = true → ∃ s', sys_running i s s') as Hcrit.
  { intros j e He Hcr. destruct (ch_pc e) as [|? ?|note key|note key|rn|rn|] eqn:Hpc; try discriminate Hcr;
      (eapply (Hgo j); [reflexivity| |]; [|first [by eapply ch_append|by eapply ch_copy|by eapply ch_unlock]]; done). }
  destruct (ch_pc c) as [|note key|note key|note key|rn|[|note rn]|] eqn:Hpc; try (by apply (Hcrit i c); [done|rewrite Hpc]).
  - destruct (ch_in c) as [|note notes] eqn:Hin; [by eexists; eapply sy_return|].
    destruct (chat_ok_prefix _ _ _ _ _ (ri_chat _ _ _ Hr i c Hc)) as (_ & _ & Hex). destruct (Hex Hpc) as [Hp _].
    rewrite ours, Hin in Hp. cbn [default] in Hp.
    assert (is_Some (rn_Location note)) as [loc Hloc].
    { assert (note ∈ chat_notes) as Hn by (change (id chat_notes) with chat_notes in Hp; rewrite <-Hp; apply elem_of_app; right; by left).
      clear Hp Hin. revert note Hn. apply Forall_forall. repeat constructor; by eexists. }
    eapply (Hgo i); [reflexivity| |eapply ch_recv; [done..|by rewrite Hloc]]. done.
  - destruct (mu (sy_server s)) as [j|] eqn:Hmu.
    + destruct (ri_holder _ _ _ Hr j Hmu) as [e He]. apply (Hcrit j e); [done|].
      rewrite (ri_lock _ _ _ Hr j e He). by apply bool_decide_eq_true.
    + eapply (Hgo i); [reflexivity| |by eapply ch_lock]. done.
  - eapply (Hgo i); [reflexivity| |by eapply ch_sent_all]. done.
  - eapply (Hgo i); [reflexivity| |by eapply ch_send]. done.
Qed.

(** The system is not stuck: the client has returned, or there is a step that is no
    failure, unless the server has ended the stream with an error. *)
Lemma sys_progress h s : sys_inv h s →
  sy_main s = MDone ∨ (∃ s', sys_running i s s') ∨
  (sy_eof s = false ∧ ∃ c, chats (sy_server s) !! i = Some c ∧ ch_pc c = CEnd).
Proof.
  intros Hinv. destruct (sy_main s) eqn:Hm; [right; left|right|by left].
  - pose proof (si_sent _ _ Hinv). destruct (decide (sy_sent s = length chat_notes)).
    + eexists. by apply sy_close.
    + eexists. apply sy_send; [done|lia].
  - destruct (si_chat _ _ Hinv) as (c & Hc & _ & Hgot & Heof & _).
    destruct (sy_waitc s) eqn:Hw; [left; eexists; by apply sy_wait|].
    destruct (ch_sent c !! length (sy_got s)) as [note|] eqn:Hn.
    { left. eexists. eapply sy_recv; [done..|]. by eapply sys_located. }
    destruct (sy_eof s) eqn:He.
    + left. eexists. eapply sy_recv_eof; [done..|]. apply lookup_ge_None in Hn. apply prefix_length in Hgot. lia.
    + destruct (decide (ch_pc c = CEnd)) as [Hend|Hend]; [right; split; [done|by exists c]|].
      left. by eapply serve_progress.
Qed.
End chatting.

(** C28: [runRouteChat] against the chat server, whatever the interleaving of their
    goroutines and whoever else is in the room: when it returns, the notes it has
    logged are what the room answers to its six, each with all notes at that point so
    far, which are nine notes if nobody else is there; it never panics, and as long as
    the server does not end the stream with an error there is a step to go on with. *)
Theorem runRouteChat_gets_room streams i s :
  streams !! i = Some chat_notes → rtc (sys_running i) (newSystem streams) s →
  (sy_main s = MDone → ∃ h, posted i h = chat_notes ∧ sy_got s = replies i [] h ∧
     (streams = [chat_notes] →
      omap (λ n, chat_notes !! n) [0; 1; 2; 0; 3; 1; 4; 2; 5]%nat = sy_got s)) ∧
  ¬ sys_step i s ClientPanic ∧
  (sy_main s = MDone ∨ (∃ s', sys_running i s s') ∨
   (sy_eof s = false ∧ ∃ c, chats (sy_server s) !! i = Some c ∧ ch_pc c = CEnd)).
Proof.
  intros Hours [h Hinv]%sys_reach; [|done]. split_and!.
  - intros Hm. destruct (si_chat _ _ _ _ Hinv) as (c & Hc & _ & _ & Heof & Hw).
    pose proof (si_main _ _ _ _ Hinv) as Hmain. rewrite Hm in Hmain. destruct (Hw Hmain) as [He Hgot].
    destruct (Heof He) as (_ & Hp & Hrep). rewrite Hrep in Hgot. exists h. split_and!; [done|done|].
    intros ->. destruct i as [|i]; [|done]. rewrite Hgot. symmetry. eapply alone_replies; [by eapply si_room|done].
  - intros Hpanic. inversion Hpanic as [| | | | | |? c note Hw Hc Hn Hloc| | |].
    destruct (sys_located _ _ Hours _ _ _ _ _ Hinv Hc Hn) as [? ?]. congruence.
  - by eapply sys_progress.
Qed.

(** A schedule in which the client sends everything first, for witnesses. *)
Definition serve_next (i : nat) (x : server) (c : chat) : option server :=
  let upd notes m d := Some (mkServer notes m (<[i := d]> (chats x))) in
  match ch_pc c with
  | CRecv =>
      match ch_in c with
      | note :: notes =>
          match serialize (rn_Location note) with
          | Ret key => upd (routeNotes x) (mu x) (mkChat notes (CLock note key) (ch_sent c))
          | _ => None
          end
      | [] => None
      end
  | CLock note key =>
      match mu x with None => upd (routeNotes x) (Some i) (mkChat (ch_in c) (CAppend note key) (ch_sent c)) | Some _ => None end
  | CAppend note key =>
      upd (<[key := default [] (routeNotes x !! key) ++ [note]]> (routeNotes x)) (mu x) (mkChat (ch_in c) (CCopy note key) (ch_sent c))
  | CCopy note key => upd (routeNotes x) (mu x) (mkChat (ch_in c) (CUnlock (default [] (routeNotes x !! key))) (ch_sent c))
  | CUnlock rn => upd (routeNotes x) None (mkChat (ch_in c) (CSend rn) (ch_sent c))
  | CSend (note :: rn) => upd (routeNotes x) (mu x) (mkChat (ch_in c) (CSend rn) (ch_sent c ++ [note]))
  | CSend [] => upd (routeNotes x) (mu x) (mkChat (ch_in c) CRecv (ch_sent c))
  | CEnd => None
  end.

Definition sys_next (i : nat) (s : system) : option system :=
  c ← chats (sy_server s) !! i;
  match sy_main s with
  | MSend =>
      if decide (sy_sent s < length chat_notes)%nat
      then Some (mkSystem (sy_server s) (S (sy_sent s)) (sy_closed s) (sy_eof s) MSend (sy_waitc s) (sy_got s))
      else if decide (sy_sent s = length chat_notes)
      then Some (mkSystem (sy_server s) (sy_sent s) true (sy_eof s) MWait (sy_waitc s) (sy_got s)) else None
  | MWait =>
      if sy_waitc s then Some (mkSystem (sy_server s) (sy_sent s) (sy_closed s) (sy_eof s) MDone true (sy_got s)) else
      match ch_sent c !! length (sy_got s) with
      | Some (mkNote (Some p) m) =>
          Some (mkSystem (sy_server s) (sy_sent s) (sy_closed s) (sy_eof s) MWait false (sy_got s ++ [mkNote (Some p) m]))
      | Some _ => None
      | None =>
          if decide (sy_eof s = true ∧ length (sy_got s) = length (ch_sent c))
          then Some (mkSystem (sy_server s) (sy_sent s) (sy_closed s) true MWait true (sy_got s))
          else match ch_pc c, ch_in c, sy_closed s with
               | CRecv, [], true =>
                   Some (mkSystem (ended i c (sy_server s)) (sy_sent s) true true MWait (sy_waitc s) (sy_got s))
               | _, _, _ =>
                   if decide (sy_sent s = length chat_notes)
                   then (λ x, set_server x s) <$> serve_next i (sy_server s) c else None
               end
      end
  | MDone => None
  end.

Lemma serve_next_sound i x c y : chats x !! i = Some c → serve_next i x c = Some y →
  chat_step x (Running y) ∧ within i (length chat_notes) x y.
Proof.
  intros Hc Hs. unfold serve_next in Hs.
  destruct (ch_pc c) as [|note key|note key|note key|rn|[|note rn]|] eqn:Hpc.
  1: destruct (ch_in c) as [|note notes] eqn:Hin; [done|]; destruct (serialize _) as [key| |] eqn:Hser; [|done..].
  2: destruct (mu x) eqn:Hmu; [done|].
  all: try done; injection Hs as <-; (split; [|by apply within_update]);
    first [by eapply ch_recv|by eapply ch_lock|by eapply ch_append|by eapply ch_copy|by eapply ch_unlock|
      by eapply ch_send|by eapply ch_sent_all].
Qed.

Lemma sys_next_sound i s s' : sys_next i s = Some s' → sys_running i s s'.
Proof.
  unfold sys_next. intros (c & Hc & Hs)%bind_Some. destruct (sy_main s) eqn:Hm; [| |done].
  - case_decide as Hlt; [injection Hs as <-; by apply sy_send|]. case_decide; [|done]. injection Hs as <-. by apply sy_close.
  - destruct (sy_waitc s) eqn:Hw; [injection Hs as <-; by apply sy_wait|].
    destruct (ch_sent c !! length (sy_got s)) as [[[p|] m]|] eqn:Hn; [|done|].
    + injection Hs as <-. rewrite <-Hm. eapply sy_recv; [done..|]. by eexists.
    + case_decide as He; [destruct He; injection Hs as <-; rewrite <-Hm; by eapply sy_recv_eof|].
      assert ((if decide (sy_sent s = length chat_notes)
               then (λ x, set_server x s) <$> serve_next i (sy_server s) c else None) = Some s' → sys_running i s s') as Hserve.
      { case_decide as Hsent; [|done]. intros (x & Hx & ->)%fmap_Some.
        destruct (serve_next_sound _ _ _ _ Hc Hx) as [Hstep Hwi]. apply sy_serve; [done|by rewrite Hsent]. }
      destruct (ch_pc c) eqn:Hpc; try (by apply Hserve). destruct (ch_in c) eqn:Hin; [|by apply Hserve].
      destruct (sy_closed s) eqn:Hcl; [|by apply Hserve]. injection Hs as <-. rewrite <-Hm, <-Hw. by eapply sy_return.
Qed.

Fixpoint sys_run (i n : nat) (s : system) : system :=
  match n with
  | O => s
  | S n => match sys_next i s with Some s' => sys_run i n s' | None => s end
  end.
Lemma sys_run_reach i n s : rtc (sys_running i) s (sys_run i n s).
Proof.
  revert s. induction n as [|n IH]; intros s; [apply rtc_refl|]. cbn. destruct (sys_next i s) as [s'|] eqn:E; [|apply rtc_refl].
  eapply rtc_l; [by apply sys_next_sound|apply IH].
Qed.

Lemma runRouteChat_gets_room_witness :
  let s := sys_run 0 100 (newSystem [chat_notes]) in
  sy_main s = MDone ∧ omap (λ n, chat_notes !! n) [0; 1; 2; 0; 3; 1; 4; 2; 5]%nat = sy_got s.
Proof.
  destruct (runRouteChat_gets_room [chat_notes] 0 _ eq_refl (sys_run_reach 0 100 (newSystem [chat_notes]))) as (H & _ & _).
  destruct (H ltac:(vm_compute; reflexivity)) as (h & _ & _ & Halone). split; [vm_compute; reflexivity|by apply Halone].
Defined.
