(* ===== verification/FileUtil.v ===== *)
(** * Files (fileutil/fileutil.go)

    Each function over the file system of [GoFs], whose working directory exists, so
    that [filepath.Abs] does not fail; the digests are arguments.  That file system puts
    no limit on the length of a path, so the recursion of [CopyDir] into a destination
    below its source, which a real one ends with an error, goes on
    ([CopyDir_into_itself]). *)

From stdpp Require Import sorting.
From S2P Require Import Prelude GoText GoPath GoFs.

Definition HomeDir (w : world) : string :=
  let home := Getenv w "HOME" in
  if decide (home ≠ "") then home else default "" (w_user w).

Definition ExpandPath (w : world) (p : string) : string :=
  let home := HomeDir w in
  let p := if (HasPrefix p "~/" || HasPrefix p "~\") && negb (bool_decide (home = ""))
           then home +:+ str_drop 1 p else p in
  Abs (Getwd w) (Clean (ExpandEnv (Getenv w) p)).

Definition HasDir (w : world) (dirPath : string) : result err bool :=
  match Stat w (ExpandPath w dirPath) with
  | Ok info => Ok (IsDir info)
  | Err e => if IsNotExist e then Ok false else Err e
  end.

Definition MkdirAll (w : world) (dirPath : string) : result err world :=
  let expanded := ExpandPath w dirPath in
  exists_ ← HasDir w expanded;
  if exists_ : bool then
    info ← Stat w expanded;
    if decide (Perm (Mode info) ≠ 448%Z) then Err (EText "dir already exists without proper 0700 permissions")
    else GoFs.MkdirAll w expanded 448
  else GoFs.MkdirAll w expanded 448.

Definition FileExists (w : world) (filename : string) : bool :=
  match Stat w (ExpandPath w filename) with Ok info => negb (IsDir info) | Err _ => false end.

Definition WriteFile (w : world) (file data : string) : result err world :=
  let expanded := ExpandPath w file in
  if FileExists w expanded then
    info ← Stat w expanded;
    if decide (Mode info ≠ 384%Z) then Err (EText "file already exists without proper 0600 permissions")
    else GoFs.WriteFile w expanded data 384
  else GoFs.WriteFile w expanded data 384.

Definition ReadFileAsBytes (w : world) (filename : string) : result err string :=
  ReadFile w (ExpandPath w filename).

Definition CopyFile (w : world) (src dst : string) : result err world :=
  input ← ReadFile w src;
  match GoFs.WriteFile w dst input 384 with
  | Ok w => Ok w
  | Err e => Err (EWrap ("error creating file " +:+ dst) e)
  end.

(** The loop of [CopyDir] over the entries read: the world it leaves and the error
    returned.  [None] when a call has used up its fuel. *)
Fixpoint copy_loop (CopyDir : world → string → string → option (world * option err)) (src dst : string)
    (fds : list (string * entry)) (w : world) : option (world * option err) :=
  match fds with
  | [] => Some (w, None)
  | (name, info) :: fds =>
      let srcPath := JoinPath [src; name] in
      let dstPath := JoinPath [dst; name] in
      if IsDir info then
        match CopyDir w srcPath dstPath with
        | None => None
        | Some (w, Some e) =>
            Some (w, Some (EWrap ("error copying directory " +:+ srcPath +:+ " -> " +:+ dstPath) e))
        | Some (w, None) => copy_loop CopyDir src dst fds w
        end
      else
        match CopyFile w srcPath dstPath with
        | Err e => Some (w, Some (EWrap ("error copying file " +:+ srcPath +:+ " -> " +:+ dstPath) e))
        | Ok w => copy_loop CopyDir src dst fds w
        end
  end.

(** The fuel bounds the depth of the calls. *)
Fixpoint CopyDir (fuel : nat) (w : world) (src dst : string) : option (world * option err) :=
  match fuel with
  | O => None
  | S fuel =>
      match HasDir w dst with
      | Err e => Some (w, Some e)
      | Ok true => Some (w, Some (EText "destination directory already exists"))
      | Ok false =>
          match ReadDir w src with
          | Err e => Some (w, Some e)
          | Ok fds =>
              match MkdirAll w dst with
              | Err e => Some (w, Some (EWrap ("error creating directory: " +:+ dst) e))
              | Ok w => copy_loop (CopyDir fuel) src dst fds w
              end
          end
      end
  end.

(** [filepath.Walk] for the callback of [DirFiles]: the files found. *)
Fixpoint walk_loop (walk_files : string → option (result err (list string))) (file : string) (ns : list string) :
    option (result err (list string)) :=
  match ns with
  | [] => Some (Ok [])
  | n :: ns =>
      match walk_files (JoinPath [file; n]) with
      | Some (Ok l) => match walk_loop walk_files file ns with Some (Ok l') => Some (Ok (l ++ l')) | r => r end
      | r => r
      end
  end.
Fixpoint walk_files (fuel : nat) (w : world) (file : string) : option (result err (list string)) :=
  match fuel with
  | O => None
  | S fuel =>
      match find_entry "lstat" w file with
      | Err e => Some (Err e)
      | Ok (_, EFile _ _) => Some (Ok [file])
      | Ok (k, EDir _) => walk_loop (walk_files fuel w) file (names (w_fs w) k)
      end
  end.

(** [file[len(dir)+1:]]. *)
Definition relFile (dir file : string) : outcome string :=
  if decide (dir = ".") then Ret file
  else if (slen dir + 1 <=? slen file)%nat then Ret (str_drop (slen dir + 1) file)
  else Panic "slice bounds out of range".

Fixpoint all_ret {A} (l : list (outcome A)) : outcome (list A) :=
  match l with [] => Ret [] | x :: l => a ← x; r ← all_ret l; Ret (a :: r) end.

Definition DirFiles (fuel : nat) (w : world) (dir : string) : option (outcome (result err (list string))) :=
  let dir := Clean dir in
  match walk_files fuel w dir with
  | None => None
  | Some (Err e) => Some (Ret (Err e))
  | Some (Ok files) => Some (l ← all_ret (map (relFile dir) files); Ret (Ok l))
  end.

Section digests.
(** The sum of a text, in hexadecimal and in base64. *)
Variables (hex_sum b64_sum : string → string).

Definition newline : ascii := "010"%char.

(** The loop over the files: what is written to the outer digest. *)
Fixpoint hash_files (w : world) (dir : string) (files : list string) : result err string :=
  match files with
  | [] => Ok ""
  | file :: files =>
      d ← ReadFile w (JoinPath [dir; file]);
      rest ← hash_files w dir files;
      Ok (hex_sum d +:+ "  " +:+ file +:+ String newline rest)
  end.

Definition HashDir (fuel : nat) (w : world) (dir : string) : option (outcome (result err string)) :=
  match DirFiles fuel w dir with
  | None => None
  | Some o =>
      Some (r ← o;
            Ret (files ← r;
                 h ← hash_files w dir (merge_sort String.le files);
                 Ok ("hashdir:" +:+ b64_sum h)))
  end.

Definition DirsEqual (fuel : nat) (w : world) (src dst : string) : option (outcome bool) :=
  match HashDir fuel w src with
  | None => None
  | Some (Ret (Ok hash1)) =>
      match HashDir fuel w dst with
      | None => None
      | Some (Ret (Ok hash2)) => Some (Ret (bool_decide (hash1 = hash2)))
      | Some (Ret (Err _)) => Some (Ret false)
      | Some (Panic msg) => Some (Panic msg)
      | Some (Blocks msg) => Some (Blocks msg)
      end
  | Some (Ret (Err _)) => Some (Ret false)
  | Some (Panic msg) => Some (Panic msg)
  | Some (Blocks msg) => Some (Blocks msg)
  end.
End digests.

(** ** Paths *)

(** A key whose path none of the functions expands. *)
Definition key_plain (k : key) : Prop := key_ok k ∧ Forall (λ n, plain n = true) k.

Lemma key_plain_cons n k : key_plain (n :: k) → key_plain k ∧ name_ok n.
Proof. intros [[? ?]%Forall_cons [? ?]%Forall_cons]. done. Qed.

Lemma ExpandPath_abs w p : ∃ k, key_ok k ∧ ExpandPath w p = abs_path k.
Proof. apply Abs_abs_path. Qed.

Lemma ExpandPath_key w k : key_plain k → ExpandPath w (abs_path k) = abs_path k.
Proof.
  intros [Hk Hp]. unfold ExpandPath.
  assert (HasPrefix (abs_path k) "~/" || HasPrefix (abs_path k) "~\" = false) as ->.
  { unfold abs_path, HasPrefix. by rewrite str_app_cons. }
  cbn [andb]. rewrite ExpandEnv_plain by (by apply plain_abs_path). by rewrite Clean_abs_path, Abs_key.
Qed.

(** A key whose path expands to itself: without [$] it does, but [/a/x$] does too, and
    [/$HOME] does when the variable has this very text. *)
Definition unexpanded (w : world) (k : key) : Prop := key_ok k ∧ ExpandPath w (abs_path k) = abs_path k.

Lemma plain_unexpanded w k : key_plain k → unexpanded w k.
Proof. intros Hk. split; [apply Hk|by apply ExpandPath_key]. Qed.

Lemma HasDir_at w k : fs_ok (w_fs w) → unexpanded w k → no_file (w_fs w) (tail k) →
  HasDir w (abs_path k) = Ok (dir_at (w_fs w) k).
Proof.
  intros Hf [Hk E] Hno. unfold HasDir, Stat. rewrite E, find_entry_key by done.
  unfold dir_at. by destruct (w_fs w !! k) as [[|]|].
Qed.

Lemma HasDir_key w k : fs_ok (w_fs w) → key_plain k → no_file (w_fs w) (tail k) →
  HasDir w (abs_path k) = Ok (dir_at (w_fs w) k).
Proof. intros Hf Hk. apply HasDir_at; [done|by apply plain_unexpanded]. Qed.

Lemma MkdirAll_at w k : fs_ok (w_fs w) → unexpanded w k → no_file (w_fs w) k → dir_at (w_fs w) k = false →
  ∃ f, MkdirAll w (abs_path k) = Ok (set_fs f w) ∧ fs_ok f ∧ ∀ j, f !! j = with_dirs (w_fs w) k (Z.ldiff 448 (w_umask w)) j.
Proof.
  intros Hf Hk Hno Hd. unfold MkdirAll. rewrite (proj2 Hk), HasDir_at, Hd by (done || by destruct k; [|eapply no_file_tail]).
  cbn. unfold GoFs.MkdirAll. rewrite key_of_abs_path by apply Hk.
  destruct (mkdir_all_ok (w_fs w) k (Z.ldiff 448 (w_umask w))) as (f & -> & Hf' & Hl); [done|apply Hk|done|].
  by exists f.
Qed.

Lemma MkdirAll_new w k : fs_ok (w_fs w) → key_plain k → no_file (w_fs w) k → dir_at (w_fs w) k = false →
  ∃ f, MkdirAll w (abs_path k) = Ok (set_fs f w) ∧ fs_ok f ∧ ∀ j, f !! j = with_dirs (w_fs w) k (Z.ldiff 448 (w_umask w)) j.
Proof. intros Hf Hk. apply MkdirAll_at; [done|by apply plain_unexpanded]. Qed.

(** ** Copying a directory *)

(** What [CopyDir] makes of an entry. *)
Definition copied (umask : Z) (e : entry) : entry :=
  match e with
  | EFile _ d => EFile (Z.ldiff 384 umask) d
  | EDir _ => EDir (Z.ldiff 448 umask)
  end.

(** [f'] is [f] with a copy of the tree at [s] at the new directory [d]. *)
Record copy_of (u : Z) (f f' : fs) (s d : key) : Prop := {
  co_ok : fs_ok f';
  co_new q : f' !! (q ++ d) = copied u <$> f !! (q ++ s);
  co_old j : ¬ d `suffix_of` j → f' !! j = with_dirs f d (Z.ldiff 448 u) j }.

Section copying.
(** The process: [CopyDir] leaves its environment and working directory alone. *)
Context (w : world).

(** When the directory [s] can be copied to [d]: [d] is new, no file is above it and
    it is not below [s]; and [CopyDir], which expands the path of every directory it
    makes, expands each to itself. *)
Record can_copy (f : fs) (s d : key) : Prop := {
  cc_ok : fs_ok f;
  cc_src : dir_at f s = true;
  cc_paths q : dir_at f (q ++ s) = true → unexpanded w (q ++ d);
  cc_new : f !! d = None;
  cc_free : no_file f d;
  cc_apart : ¬ s `suffix_of` d }.

Lemma cc_dst f s d : can_copy f s d → unexpanded w d.
Proof. intros H. apply (cc_paths _ _ _ H []), H. Qed.

Lemma cc_key f s d q : can_copy f s d → is_Some (f !! (q ++ s)) → key_ok (q ++ s).
Proof. intros H. by apply fs_ok_key, H. Qed.

Lemma cc_not_under f s d : can_copy f s d → ∀ q, ¬ d `suffix_of` q ++ s.
Proof.
  intros H q Hd. assert (s `suffix_of` q ++ s) as Hs by (by exists q).
  destruct (suffix_weak_total _ _ _ Hd Hs) as [[q0 ->]|Hsd]; [|by apply (cc_apart _ _ _ H)].
  pose proof (cc_src _ _ _ H) as Hdir. pose proof (cc_new _ _ _ H) as Hn. destruct q0 as [|x q0].
  - unfold dir_at in Hdir. cbn in Hdir. by rewrite Hn in Hdir.
  - apply dir_at_Some in Hdir as [m Hm].
    assert (dir_at f d = true) as Hdd by (eapply (dir_above f (x :: q0)); [apply H|by eexists|done]).
    unfold dir_at in Hdd. by rewrite Hn in Hdd.
Qed.

(** The loop after the entries [done] were copied. *)
Record copying (u : Z) (f g : fs) (s d : key) (done : list string) : Prop := {
  cp_ok : fs_ok g;
  cp_dir : g !! d = Some (EDir (Z.ldiff 448 u));
  cp_old j : ¬ d `suffix_of` j → g !! j = with_dirs f d (Z.ldiff 448 u) j;
  cp_new q n : g !! (q ++ n :: d) = if bool_decide (n ∈ done) then copied u <$> f !! (q ++ n :: s) else None }.

Lemma copying_src u f g s d done q : can_copy f s d → copying u f g s d done → g !! (q ++ s) = f !! (q ++ s).
Proof.
  intros Hc Hg. rewrite (cp_old _ _ _ _ _ _ Hg) by (by eapply cc_not_under). unfold with_dirs.
  destruct (f !! (q ++ s)) eqn:E; [done|]. rewrite bool_decide_eq_false_2; [done|].
  intros Hd. apply (cc_apart _ _ _ Hc). etrans; [by exists q|done].
Qed.

Lemma copying_start u f g s d : can_copy f s d → fs_ok g → (∀ j, g !! j = with_dirs f d (Z.ldiff 448 u) j) →
  copying u f g s d [].
Proof.
  intros Hc Hg Hl. split; [done| |done|].
  - rewrite Hl. unfold with_dirs. by rewrite (cc_new _ _ _ Hc), bool_decide_eq_true_2.
  - intros q n. cbn. rewrite Hl. unfold with_dirs. destruct (f !! (q ++ n :: d)) eqn:E.
    + exfalso. assert (is_Some (f !! d)) as [? Hd]; [|by rewrite (cc_new _ _ _ Hc) in Hd].
      assert (dir_at f d = true) as Hd; [|apply dir_at_Some in Hd as [? ->]; by eexists].
      eapply (dir_above f (q ++ [n])); [apply Hc| |by destruct q]. rewrite <-app_assoc. by eexists.
    + rewrite bool_decide_eq_false_2; [done|]. intros [q' H]. apply (f_equal length) in H.
      rewrite !length_app in H. cbn in H. lia.
Qed.

(** Entries [n] of the source are copied one after the other. *)
Lemma copying_step u f g g' s d done n :
  can_copy f s d → copying u f g s d done → n ∉ done → fs_ok g' →
  (∀ q, g' !! (q ++ n :: d) = copied u <$> f !! (q ++ n :: s)) →
  (∀ j, ¬ n :: d `suffix_of` j → g' !! j = g !! j) →
  copying u f g' s d (n :: done).
Proof.
  intros Hc Hg Hn Hg' Hnew Hold. split; [done|..].
  - rewrite Hold by apply suffix_cons_not. apply Hg.
  - intros j Hj. rewrite Hold; [by apply Hg|]. intros H. apply Hj. by eapply suffix_cons_l.
  - intros q m. destruct (decide (m = n)) as [->|Hne].
    + rewrite bool_decide_eq_true_2 by (by left). apply Hnew.
    + rewrite Hold.
      * rewrite (cp_new _ _ _ _ _ _ Hg). erewrite bool_decide_ext; [done|]. rewrite elem_of_cons. naive_solver.
      * intros [q' H]. assert (q ++ [m] = q' ++ [n]) as E.
        { apply (inj (λ l, l ++ d)). by rewrite <-!app_assoc. }
        by apply app_inj_tail in E as [_ [= ->]].
Qed.

(** In the loop, an entry that is a directory can be copied. *)
Lemma copying_sub u f g s d done n m :
  can_copy f s d → copying u f g s d done → n ∉ done → f !! (n :: s) = Some (EDir m) → can_copy g (n :: s) (n :: d).
Proof.
  intros Hc Hg Hn Hs.
  assert (∀ q, g !! (q ++ n :: s) = f !! (q ++ n :: s)) as Hsrc.
  { intros q. pose proof (copying_src _ _ _ _ _ _ (q ++ [n]) Hc Hg) as H. by rewrite <-!app_assoc in H. }
  split.
  - apply Hg.
  - pose proof (Hsrc []) as H. cbn in H. unfold dir_at. by rewrite H, Hs.
  - intros q Hq. pose proof (cc_paths _ _ _ Hc (q ++ [n])) as H. rewrite <-!app_assoc in H. apply H.
    unfold dir_at in *. cbn in *. by rewrite <-Hsrc.
  - pose proof (cp_new _ _ _ _ _ _ Hg [] n) as H. cbn in H. by rewrite bool_decide_eq_false_2 in H.
  - assert (dir_at g d = true) as Hd by (unfold dir_at; by rewrite (cp_dir _ _ _ _ _ _ Hg)).
    intros j m' dd Hj Hf. pose proof (cp_new _ _ _ _ _ _ Hg [] n) as H. cbn in H.
    rewrite bool_decide_eq_false_2 in H by done.
    destruct (decide (j = n :: d)) as [->|Hne]; [congruence|].
    apply (dir_no_file g d (cp_ok _ _ _ _ _ _ Hg) Hd j m' dd); [|done].
    destruct Hj as [[|x q] Hq]; [by rewrite Hq in Hne|]. injection Hq as _ ->. by eexists.
  - intros [[|x q] Hq]; [|injection Hq as _ Hq].
    + injection Hq as Hq. apply (cc_apart _ _ _ Hc). by rewrite Hq.
    + apply (cc_apart _ _ _ Hc). exists (q ++ [n]). by rewrite Hq, <-app_assoc.
Qed.

Lemma copying_file u f g s d done n m data :
  w_umask w = u → can_copy f s d → copying u f g s d done → n ∉ done → f !! (n :: s) = Some (EFile m data) →
  ∃ g', CopyFile (set_fs g w) (abs_path (n :: s)) (abs_path (n :: d)) = Ok (set_fs g' w) ∧
    copying u f g' s d (n :: done).
Proof.
  intros Hu Hc Hg Hn Hs.
  assert (key_ok (n :: s)) as Hks by (apply (cc_key _ _ _ [n] Hc); by eexists).
  assert (key_ok (n :: d)) as Hkd.
  { constructor; [by apply Forall_cons in Hks as [? _]|apply (cc_dst _ _ _ Hc)]. }
  assert (dir_at g d = true) as Hd by (unfold dir_at; by rewrite (cp_dir _ _ _ _ _ _ Hg)).
  pose proof (copying_src _ _ _ _ _ _ [n] Hc Hg) as Hsrc. pose proof (copying_src _ _ _ _ _ _ [] Hc Hg) as Hsd.
  cbn in Hsrc, Hsd. pose proof (cp_new _ _ _ _ _ _ Hg [] n) as Hnew. cbn in Hnew.
  rewrite bool_decide_eq_false_2 in Hnew by done.
  exists (<[n :: d := EFile (Z.ldiff 384 u) data]> g). split.
  - unfold CopyFile. rewrite ReadFile_key; [|apply Hg|done|].
    2: { apply dir_no_file; [apply Hg|]. pose proof (cc_src _ _ _ Hc) as H. cbn. unfold dir_at in *. by rewrite Hsd. }
    cbn [w_fs set_fs]. rewrite Hsrc, Hs. cbn. rewrite WriteFile_new; [by cbn; rewrite Hu|apply Hg|done..].
  - eapply copying_step; [done..| | |].
    + apply fs_ok_file; [apply Hg|by apply Forall_cons in Hkd as [? _]|done|]. unfold dir_at. by rewrite Hnew.
    + intros [|x q]; cbn.
      * by rewrite lookup_insert_eq, Hs.
      * rewrite lookup_insert_ne by (intros H; apply (f_equal length) in H; cbn in H; rewrite length_app in H; cbn in H; lia).
        change (x :: q ++ ?l) with ((x :: q) ++ l). rewrite (cp_new _ _ _ _ _ _ Hg), bool_decide_eq_false_2 by done.
        assert (f !! ((x :: q) ++ n :: s) = None) as ->; [|done]. apply eq_None_not_Some. intros H.
        eapply (dir_above f (x :: q)) in H; [|apply Hc|done]. unfold dir_at in H. by rewrite Hs in H.
    + intros j Hj. apply lookup_insert_ne. intros <-. by apply Hj.
Qed.

Definition deep (f : fs) (s : key) (fuel : nat) : Prop := ∀ q, is_Some (f !! (q ++ s)) → (length q < fuel)%nat.

Lemma copy_loop_spec fuel u f s d :
  w_umask w = u → can_copy f s d → deep f s (S fuel) →
  (∀ g s' d', can_copy g s' d' → deep g s' fuel →
     ∃ g', CopyDir fuel (set_fs g w) (abs_path s') (abs_path d') = Some (set_fs g' w, None) ∧ copy_of u g g' s' d') →
  ∀ fds done g, copying u f g s d done → NoDup fds.*1 →
    (∀ n e, (n, e) ∈ fds → f !! (n :: s) = Some e ∧ n ∉ done) →
    ∃ g', copy_loop (CopyDir fuel) (abs_path s) (abs_path d) fds (set_fs g w) = Some (set_fs g' w, None) ∧
      copying u f g' s d (reverse fds.*1 ++ done).
Proof.
  intros Hu Hc Hdeep IH. induction fds as [|[n e] fds IHl]; intros done g Hg Hnd Hfds; [by exists g|].
  destruct (Hfds n e) as [Hs Hn]; [by left|]. cbn [fmap list_fmap] in Hnd. apply NoDup_cons in Hnd as [Hnf Hnd].
  assert (∃ g', copying u f g' s d (n :: done) ∧
    copy_loop (CopyDir fuel) (abs_path s) (abs_path d) ((n, e) :: fds) (set_fs g w) =
    copy_loop (CopyDir fuel) (abs_path s) (abs_path d) fds (set_fs g' w)) as (g' & Hg' & ->).
  - assert (key_ok (n :: s)) as Hks by (apply (cc_key _ _ _ [n] Hc); by eexists).
    assert (key_ok (n :: d)) as Hkd.
    { constructor; [by apply Forall_cons in Hks as [? _]|apply (cc_dst _ _ _ Hc)]. }
    cbn [copy_loop]. rewrite !JoinPath_name by done. destruct e as [m data|m]; cbn [IsDir].
    + destruct (copying_file u f g s d done n m data) as (g' & -> & Hg'); [done..|]. by exists g'.
    + destruct (IH g (n :: s) (n :: d)) as (g' & -> & Hcopy).
      * by eapply copying_sub.
      * intros q Hq. pose proof (copying_src _ _ _ _ _ _ (q ++ [n]) Hc Hg) as H. rewrite <-!app_assoc in H. cbn in H.
        rewrite H in Hq. specialize (Hdeep (q ++ [n])). rewrite <-app_assoc, length_app in Hdeep.
        specialize (Hdeep Hq). cbn in Hdeep. lia.
      * exists g'. split; [|done]. eapply copying_step; [done..|apply Hcopy| |].
        -- intros q. rewrite (co_new _ _ _ _ _ Hcopy).
           pose proof (copying_src _ _ _ _ _ _ (q ++ [n]) Hc Hg) as H. rewrite <-!app_assoc in H. cbn in H. by rewrite H.
        -- intros j Hj. rewrite (co_old _ _ _ _ _ Hcopy) by done. unfold with_dirs.
           destruct (g !! j) eqn:E; [done|]. rewrite bool_decide_eq_false_2; [done|].
           intros [[|x q] H]; [by rewrite H in Hj; apply Hj|]. injection H as _ H.
           assert (dir_at g d = true) as Hd by (unfold dir_at; by rewrite (cp_dir _ _ _ _ _ _ Hg)).
           destruct q as [|y q]; [unfold dir_at in Hd; subst; cbn in Hd; by rewrite E in Hd|].
           apply dir_at_Some in Hd as [m' Hd].
           assert (dir_at g j = true) as Hj'; [|unfold dir_at in Hj'; by rewrite E in Hj'].
           eapply (dir_above g (y :: q)); [apply Hg|rewrite <-H; by eexists|done].
  - destruct (IHl (n :: done) g' Hg' Hnd) as (g'' & -> & Hg'').
    + intros m e' Hm. destruct (Hfds m e') as [Hm1 Hm2]; [by right|]. split; [done|].
      intros [->|?]%elem_of_cons; [|done]. apply Hnf. apply list_elem_of_fmap. by exists (n, e').
    + exists g''. split; [done|]. cbn [fmap list_fmap fst]. by rewrite reverse_cons, <-app_assoc.
Qed.

Lemma NoDup_entries f k : NoDup (entries f k).*1.
Proof.
  assert ((entries f k).*1 = names f k) as ->; [|apply NoDup_names]. unfold entries.
  assert (Forall (λ n, is_Some (f !! (n :: k))) (names f k)) as H
    by (apply Forall_forall; intros n; apply elem_of_names).
  induction H as [|n l [e He] Hl IH]; [done|]. cbn. rewrite He. cbn. by rewrite IH.
Qed.

Lemma CopyDir_copies fuel u f s d : w_umask w = u → can_copy f s d → deep f s fuel →
  ∃ f', CopyDir fuel (set_fs f w) (abs_path s) (abs_path d) = Some (set_fs f' w, None) ∧ copy_of u f f' s d.
Proof.
  intros Hu. revert f s d. induction fuel as [|fuel IH]; intros f s d Hc Hdeep.
  { pose proof (cc_src _ _ _ Hc) as Hs. apply dir_at_Some in Hs as [m Hs]. specialize (Hdeep [] ltac:(by eexists)). cbn in Hdeep. lia. }
  assert (key_ok s) as Hks.
  { apply (cc_key _ _ _ [] Hc). pose proof (cc_src _ _ _ Hc) as [m Hs]%dir_at_Some. by eexists. }
  assert (dir_at f d = false) as Hd by (unfold dir_at; by rewrite (cc_new _ _ _ Hc)).
  cbn [CopyDir]. rewrite HasDir_at; [|apply Hc|by apply (cc_dst f s)|].
  2: { destruct d; [apply Hc|]. eapply no_file_tail, Hc. }
  cbn [w_fs set_fs]. rewrite Hd, ReadDir_key by (done || apply Hc). cbn [w_fs set_fs].
  destruct (MkdirAll_at (set_fs f w) d) as (g & -> & Hg & Hl); [apply Hc|by apply (cc_dst f s)|apply Hc|done|]. cbn [w_fs set_fs w_umask] in Hl.
  rewrite Hu in Hl. destruct (copy_loop_spec fuel u f s d Hu Hc Hdeep IH (entries f s) [] g) as (f' & H & Hf').
  - by apply copying_start.
  - apply NoDup_entries.
  - intros n e Hn. split; [by apply elem_of_entries|apply not_elem_of_nil].
  - exists f'. split; [exact H|]. rewrite app_nil_r in Hf'. split; [apply Hf'| |apply Hf'].
    intros q. destruct q as [|n q _] using rev_ind.
    + cbn. rewrite (cp_dir _ _ _ _ _ _ Hf'). pose proof (cc_src _ _ _ Hc) as [m Hs]%dir_at_Some. by rewrite Hs.
    + rewrite <-!app_assoc. cbn. rewrite (cp_new _ _ _ _ _ _ Hf'). case_bool_decide as Hn; [done|].
      destruct (f !! (q ++ n :: s)) eqn:E; [|done]. exfalso. apply Hn. rewrite elem_of_reverse.
      assert (is_Some (f !! (n :: s))) as [e' He].
      { destruct q as [|x q]; [by eexists|].
        assert (dir_at f (n :: s) = true) as [m Hm]%dir_at_Some; [|by eexists].
        eapply (dir_above f (x :: q)); [apply Hc|by eexists|done]. }
      apply list_elem_of_fmap. exists (n, e'). split; [done|]. by apply elem_of_entries.
Qed.
End copying.

(** ** The files of a directory *)

(** The files below [k], as what is before [k] in their keys. *)
Fixpoint tree_files (fuel : nat) (f : fs) (k : key) : list key :=
  match fuel with
  | O => []
  | S fuel =>
      match f !! k with
      | None => []
      | Some (EFile _ _) => [[]]
      | Some (EDir _) => concat (map (λ n, map (λ q, q ++ [n]) (tree_files fuel f (n :: k))) (names f k))
      end
  end.

Lemma deep_sub f k n fuel : deep f k (S fuel) → deep f (n :: k) fuel.
Proof.
  intros H q Hq. specialize (H (q ++ [n])). rewrite <-app_assoc, length_app in H. specialize (H Hq). cbn in H. lia.
Qed.

Lemma walk_files_spec fuel w k : fs_ok (w_fs w) → is_Some (w_fs w !! k) → deep (w_fs w) k fuel →
  walk_files fuel w (abs_path k) = Some (Ok (map (λ q, abs_path (q ++ k)) (tree_files fuel (w_fs w) k))).
Proof.
  intros Hf. revert k. induction fuel as [|fuel IH]; intros k Hk Hdeep; [specialize (Hdeep [] Hk); lia|].
  cbn [walk_files tree_files]. pose proof (fs_ok_key _ _ Hf Hk) as Hkok. rewrite find_entry_key; [|done|done|].
  2: { apply dir_no_file; [done|]. destruct k as [|n k]; [apply (fo_root _ Hf)|]. by eapply dir_at_up. }
  destruct Hk as [e Hk]. rewrite Hk. destruct e as [m d|m]; [done|].
  assert (Forall (λ n, is_Some (w_fs w !! (n :: k))) (names (w_fs w) k)) as Hns
    by (apply Forall_forall; intros n; apply elem_of_names).
  induction Hns as [|n ns Hn Hns IHns]; [done|]. cbn [walk_loop map concat].
  rewrite JoinPath_name by (by apply (fs_ok_key (w_fs w))). rewrite IH by (done || by apply deep_sub).
  rewrite IHns, map_app, map_map. do 3 f_equal. apply map_ext. intros q. by rewrite <-app_assoc.
Qed.

Lemma sorted_perm_eq l l' : StronglySorted String.le l → StronglySorted String.le l' → l ≡ₚ l' → l = l'.
Proof. apply (StronglySorted_unique String.le). Qed.

Lemma names_eq f f' k k' : (∀ n, is_Some (f !! (n :: k)) ↔ is_Some (f' !! (n :: k'))) → names f k = names f' k'.
Proof.
  intros H. apply sorted_perm_eq; [apply names_sorted..|]. apply NoDup_Permutation; [apply NoDup_names..|].
  intros n. by rewrite !elem_of_names.
Qed.

(** Trees with the same names and kinds have the same files. *)
Lemma tree_files_ext f f' s d fuel : (∀ q, IsDir <$> f' !! (q ++ d) = IsDir <$> f !! (q ++ s)) →
  ∀ q, tree_files fuel f' (q ++ d) = tree_files fuel f (q ++ s).
Proof.
  intros Hkind. induction fuel as [|fuel IH]; intros q; [done|]. cbn [tree_files]. pose proof (Hkind q) as Hq.
  destruct (f !! (q ++ s)) as [[m data|m]|], (f' !! (q ++ d)) as [[m' data'|m']|]; try discriminate Hq; try done.
  rewrite (names_eq f' f (q ++ d) (q ++ s)).
  - f_equal. apply map_ext. intros n. f_equal. apply (IH (n :: q)).
  - intros n. pose proof (Hkind (n :: q)) as Hn. cbn [app] in Hn.
    destruct (f' !! (n :: q ++ d)), (f !! (n :: q ++ s)); try discriminate Hn; split; intros [? ?]; done.
Qed.

Lemma elem_of_tree_files fuel f k q : q ∈ tree_files fuel f k → ∃ m d, f !! (q ++ k) = Some (EFile m d).
Proof.
  revert k q. induction fuel as [|fuel IH]; intros k q; cbn; [by intros ?%elem_of_nil|].
  destruct (f !! k) as [[m d|m]|] eqn:E; [|..|by intros ?%elem_of_nil].
  - intros ->%list_elem_of_singleton. by exists m, d.
  - intros (l & Hq & Hl)%list_elem_of_In%in_concat. apply in_map_iff in Hq as (n & <- & _).
    apply in_map_iff in Hl as (q' & <- & Hq'). apply list_elem_of_In, IH in Hq' as (m' & d & H).
    exists m', d. by rewrite <-app_assoc.
Qed.

Lemma relFile_abs q k : q ≠ [] → k ≠ [] → relFile (abs_path k) (abs_path (q ++ k)) = Ret (Join "/" (reverse q)).
Proof.
  intros Hq Hk. unfold relFile. rewrite decide_False.
  2: { unfold abs_path. rewrite str_app_cons. by intros [=]. }
  rewrite abs_path_app by done. rewrite <-str_app_assoc.
  assert (slen (abs_path k) + 1 = slen (abs_path k +:+ "/"))%nat as -> by (by rewrite slen_app).
  rewrite (slen_app _ (Join _ _)), (proj2 (Nat.leb_le _ _)) by lia. by rewrite str_drop_app.
Qed.

Lemma all_ret_map {A B} (g : A → outcome B) (h : A → B) l :
  Forall (λ x, g x = Ret (h x)) l → all_ret (map g l) = Ret (map h l).
Proof. induction 1 as [|x l Hx Hl IH]; [done|]. cbn. by rewrite Hx, IH. Qed.

Lemma DirFiles_spec fuel w k : fs_ok (w_fs w) → dir_at (w_fs w) k = true → k ≠ [] → deep (w_fs w) k fuel →
  DirFiles fuel w (abs_path k) = Some (Ret (Ok (map (λ q, Join "/" (reverse q)) (tree_files fuel (w_fs w) k)))).
Proof.
  intros Hf Hd Hk Hdeep. apply dir_at_Some in Hd as [m Hd].
  assert (is_Some (w_fs w !! k)) as Hsome by (by eexists). unfold DirFiles.
  rewrite Clean_abs_path by (by eapply fs_ok_key). rewrite walk_files_spec by done. rewrite map_map.
  rewrite (all_ret_map _ (λ q, Join "/" (reverse q))); [done|]. apply Forall_forall. intros q Hq.
  apply relFile_abs; [|done]. intros ->. apply elem_of_tree_files in Hq as (m' & d & H). cbn in H. congruence.
Qed.

(** The listing of something that is not a directory panics. *)
Lemma DirFiles_of_file fuel w k m d : fs_ok (w_fs w) → w_fs w !! k = Some (EFile m d) → deep (w_fs w) k fuel →
  DirFiles fuel w (abs_path k) = Some (Panic "slice bounds out of range").
Proof.
  intros Hf Hk Hdeep. assert (is_Some (w_fs w !! k)) as Hs by (by eexists). unfold DirFiles.
  rewrite Clean_abs_path by (by eapply fs_ok_key). rewrite walk_files_spec by done.
  destruct fuel as [|fuel]; [specialize (Hdeep [] Hs); lia|]. cbn [tree_files]. rewrite Hk. cbn [map app all_ret].
  unfold relFile. rewrite decide_False by (unfold abs_path; rewrite str_app_cons; by intros [=]).
  by rewrite (proj2 (Nat.leb_gt _ _)) by lia.
Qed.

Section hash.
Context (hex_sum b64_sum : string → string).

Definition file_at (f : fs) (k : key) : option string := match f !! k with Some (EFile _ d) => Some d | _ => None end.

(** The text hashed depends on the names and contents alone. *)
Lemma hash_files_ext w s d files :
  fs_ok (w_fs w) → s ≠ [] → d ≠ [] →
  (∀ q, q ∈ files → q ≠ [] ∧ is_Some (file_at (w_fs w) (q ++ s)) ∧ file_at (w_fs w) (q ++ d) = file_at (w_fs w) (q ++ s)) →
  ∃ h, hash_files hex_sum w (abs_path s) (map (λ q, Join "/" (reverse q)) files) = Ok h ∧
    hash_files hex_sum w (abs_path d) (map (λ q, Join "/" (reverse q)) files) = Ok h.
Proof.
  intros Hf Hs Hd. assert (∀ k c, file_at (w_fs w) k = Some c → ReadFile w (abs_path k) = Ok c) as Hread.
  { intros k c Hc. unfold file_at in Hc. destruct (w_fs w !! k) as [[m x|]|] eqn:E; try done. injection Hc as <-.
    rewrite ReadFile_key, E; [done|done|by eapply fs_ok_key|]. apply dir_no_file; [done|].
    destruct k as [|n k]; [apply (fo_root _ Hf)|]. by eapply dir_at_up. }
  assert (∀ k c, file_at (w_fs w) k = Some c → key_ok k) as Hok.
  { intros k c Hc. eapply fs_ok_key; [done|]. unfold file_at in Hc. by destruct (w_fs w !! k). }
  induction files as [|q files IH]; intros H; [by eexists|]. cbn [map hash_files].
  destruct (H q) as (Hq & [c Hc] & E); [by left|]. rewrite Hc in E.
  rewrite !JoinPath_rel by eauto. rewrite (Hread _ _ Hc), (Hread _ _ E). cbn.
  destruct IH as (h & -> & ->); [intros q' Hq'; apply H; by right|]. by eexists.
Qed.
End hash.

(** ** The properties *)

Section claims.
Context (hex_sum b64_sum : string → string).

(** C31: a directory is copied whole to a new path that is outside of it and has no file
    above it, when [ExpandPath] changes neither the destination nor the paths of the
    directories made below it (a [$] in the name of a directory is expanded, see
    [CopyDir_dollar]; names of files are free): with fuel for its depth [CopyDir] returns
    without error, every file and directory below the source is at the destination with
    its content and the mode 0600 or 0700 (less the umask), the missing directories above
    the destination are made, everything else is as before, and [DirsEqual] holds of the
    two.  The file system is that of [GoFs], without a limit on the length of paths. *)
Theorem CopyDir_spec fuel w s d :
  can_copy w (w_fs w) s d → deep (w_fs w) s fuel →
  ∃ f, CopyDir fuel w (abs_path s) (abs_path d) = Some (set_fs f w, None) ∧ fs_ok f ∧
    (∀ q, f !! (q ++ d) = copied (w_umask w) <$> w_fs w !! (q ++ s)) ∧
    (∀ j, ¬ d `suffix_of` j → f !! j = with_dirs (w_fs w) d (Z.ldiff 448 (w_umask w)) j) ∧
    DirsEqual hex_sum b64_sum fuel (set_fs f w) (abs_path s) (abs_path d) = Some (Ret true).
Proof.
  intros Hc Hdeep. destruct (CopyDir_copies w fuel (w_umask w) (w_fs w) s d eq_refl Hc Hdeep) as (f & E & Hf).
  exists f. replace (set_fs (w_fs w) w) with w in E by (by destruct w). split; [done|]. split; [apply Hf|].
  split; [apply Hf|]. split; [apply Hf|].
  assert (∀ q, f !! (q ++ s) = w_fs w !! (q ++ s)) as Hsrc.
  { intros q. rewrite (co_old _ _ _ _ _ Hf) by (by eapply cc_not_under). unfold with_dirs.
    destruct (w_fs w !! (q ++ s)); [done|]. rewrite bool_decide_eq_false_2; [done|].
    intros Hd. apply (cc_apart _ _ _ _ Hc). etrans; [by exists q|done]. }
  pose proof (cc_src _ _ _ _ Hc) as [m Hm]%dir_at_Some.
  assert (dir_at f s = true ∧ dir_at f d = true) as [Hds Hdd].
  { unfold dir_at. pose proof (Hsrc []) as H1. pose proof (co_new _ _ _ _ _ Hf []) as H2. cbn in H1, H2.
    by rewrite H1, H2, Hm. }
  assert (s ≠ []) as Hs by (intros ->; by apply (cc_apart _ _ _ _ Hc), suffix_nil).
  assert (d ≠ []) as Hd.
  { intros ->. pose proof (fo_root _ (cc_ok _ _ _ _ Hc)) as H. unfold dir_at in H. by rewrite (cc_new _ _ _ _ Hc) in H. }
  assert (tree_files fuel f d = tree_files fuel f s) as Htree.
  { apply (tree_files_ext f f s d fuel) with (q := []). intros q.
    rewrite (co_new _ _ _ _ _ Hf), Hsrc. by destruct (w_fs w !! (q ++ s)) as [[]|]. }
  unfold DirsEqual, HashDir. rewrite !DirFiles_spec; [|cbn; try done; try apply Hf..].
  2: { intros q Hq. rewrite (co_new _ _ _ _ _ Hf), fmap_is_Some in Hq. by apply Hdeep. }
  2: { intros q Hq. rewrite Hsrc in Hq. by apply Hdeep. }
  cbn. rewrite Htree. set (files := tree_files fuel f s).
  assert (∃ files', map (λ q, Join "/" (reverse q)) files' = merge_sort String.le (map (λ q, Join "/" (reverse q)) files) ∧ files' ≡ₚ files)
    as (files' & <- & Hperm).
  { destruct (Permutation_map_inv (λ q, Join "/" (reverse q)) files (merge_sort_Permutation String.le _)) as (l & El & Hl).
    exists l. split; [by rewrite El|]. by symmetry. }
  destruct (hash_files_ext hex_sum (set_fs f w) s d files') as (h & -> & ->); [apply Hf|done|done| |].
  - intros q Hq. rewrite Hperm in Hq. apply elem_of_tree_files in Hq as (m' & x & Hx). unfold file_at. cbn [w_fs set_fs].
    rewrite Hx. pose proof (co_new _ _ _ _ _ Hf q) as H. rewrite <-Hsrc, Hx in H. cbn in H. rewrite H.
    split_and!; [|by eexists|done]. intros ->. cbn in Hx. unfold dir_at in Hds. by rewrite Hx in Hds.
  - cbn. by rewrite bool_decide_eq_true_2.
Qed.

(** [MkdirAll] of a path that expands to the key [k]: a directory that exists is
    left alone when its permissions are 0700 and refused otherwise; one that does not
    exist is made with those above it and nothing else changes; a file in the way is
    an error. *)
Theorem MkdirAll_spec w p k :
  fs_ok (w_fs w) → key_plain k → ExpandPath w p = abs_path k →
  (∀ m, w_fs w !! k = Some (EDir m) →
    MkdirAll w p = if decide (Perm m = 448%Z) then Ok w
                   else Err (EText "dir already exists without proper 0700 permissions")) ∧
  (dir_at (w_fs w) k = false → no_file (w_fs w) k →
    ∃ f, MkdirAll w p = Ok (set_fs f w) ∧ fs_ok f ∧ dir_at f k = true ∧
      ∀ j, f !! j = with_dirs (w_fs w) k (Z.ldiff 448 (w_umask w)) j) ∧
  (∀ j m d, j `suffix_of` k → w_fs w !! j = Some (EFile m d) → ∃ e, MkdirAll w p = Err e).
Proof.
  intros Hf Hk Hp. assert (MkdirAll w p = MkdirAll w (abs_path k)) as ->.
  { unfold MkdirAll. by rewrite Hp, ExpandPath_key. }
  split_and!.
  - intros m Hm. unfold MkdirAll. rewrite ExpandPath_key by done.
    assert (no_file (w_fs w) k) as Hno by (apply dir_no_file; [done|]; unfold dir_at; by rewrite Hm).
    assert (no_file (w_fs w) (tail k)) as Hno' by (destruct k; [done|]; by eapply no_file_tail).
    rewrite HasDir_key by done. unfold dir_at at 1, Stat. rewrite Hm, find_entry_key by (done || apply Hk). rewrite Hm.
    cbn. destruct (decide (Perm m ≠ 448%Z)) as [Hne|Hne]; [by rewrite decide_False|].
    apply dec_stable in Hne. rewrite decide_True by done. unfold GoFs.MkdirAll. rewrite key_of_abs_path by apply Hk.
    destruct k; cbn; rewrite Hm; cbn; by destruct w.
  - intros Hd Hno. destruct (MkdirAll_new w k) as (f & E & Hf' & Hl); [done..|]. exists f. split_and!; [done..| |done].
    unfold dir_at in *. rewrite Hl. unfold with_dirs. rewrite bool_decide_eq_true_2 by done.
    destruct (w_fs w !! k) as [[m d|]|] eqn:E'; [by apply (Hno k) in E'|done|done].
  - intros j m d Hj Hfile.
    assert (dir_at (w_fs w) k = false) as Hd.
    { destruct (dir_at (w_fs w) k) eqn:Hd; [|done]. exfalso. by apply (dir_no_file _ k Hf Hd j m d). }
    unfold MkdirAll. rewrite ExpandPath_key by done.
    assert (∃ e, GoFs.MkdirAll w (abs_path k) 448 = Err e) as [e He].
    { unfold GoFs.MkdirAll. rewrite key_of_abs_path by apply Hk.
      destruct (mkdir_all_file (w_fs w) k (Z.ldiff 448 (w_umask w)) j m d) as [e ->]; [done..|by eexists]. }
    rewrite He. unfold HasDir, Stat, find_entry. rewrite ExpandPath_key by done.
    destruct (resolve w (abs_path k)) as [j'|e'] eqn:E; [|destruct e'; cbn; by eexists].
    apply resolve_key_inv in E as ->; [|apply Hk]. unfold dir_at in Hd.
    destruct (w_fs w !! k) as [[|]|]; [cbn; by eexists|done|cbn; by eexists].
Qed.

(** *** Names that are expanded *)

(** [HasDir] and [MkdirAll] expand the path they are given, [ReadDir] and [CopyFile] do
    not: when the path of a directory to be made expands to that of its parent, the
    directory is taken for one that exists. *)
Theorem CopyDir_dollar fuel w s d n m :
  fs_ok (w_fs w) → unexpanded w d → no_file (w_fs w) d → w_fs w !! d = None → dir_at (w_fs w) s = true →
  entries (w_fs w) s = [(n, EDir m)] → name_ok n → ExpandPath w (abs_path (n :: d)) = abs_path d →
  ∃ f, CopyDir (S (S fuel)) w (abs_path s) (abs_path d) =
    Some (set_fs f w, Some (EWrap ("error copying directory " +:+ abs_path (n :: s) +:+ " -> " +:+ abs_path (n :: d))
                              (EText "destination directory already exists"))) ∧
    f !! d = Some (EDir (Z.ldiff 448 (w_umask w))).
Proof.
  intros Hf Hd Hno Hnew Hs Hn Hok Hx.
  assert (dir_at (w_fs w) d = false) as Hdir by (unfold dir_at; by rewrite Hnew).
  assert (key_ok s) as Hks by (apply dir_at_Some in Hs as [? ?]; eapply fs_ok_key; [done|by eexists]).
  destruct (MkdirAll_at w d) as (f & E & Hf' & Hl); [done..|]. exists f. cbn [CopyDir].
  rewrite HasDir_at by (done || by destruct d; [|eapply no_file_tail]). rewrite Hdir, ReadDir_key by done.
  rewrite E, Hn. cbn [copy_loop IsDir CopyDir].
  rewrite !JoinPath_name by (by constructor; [|apply Hd || apply Hks]).
  assert (f !! d = Some (EDir (Z.ldiff 448 (w_umask w)))) as Hfd.
  { rewrite Hl. unfold with_dirs. by rewrite Hnew, bool_decide_eq_true_2. }
  assert (HasDir (set_fs f w) (abs_path (n :: d)) = Ok true) as ->; [|by split].
  unfold HasDir. change (ExpandPath (set_fs f w)) with (ExpandPath w). rewrite Hx. unfold Stat.
  rewrite find_entry_key; [cbn; by rewrite Hfd|done|apply Hd|].
  apply dir_no_file; [done|]. cbn. destruct d as [|x d]; [apply (fo_root _ Hf')|]. cbn.
  apply (dir_at_up _ x); [done|]. by eexists.
Qed.

(** *** Into a directory below the source *)

(** The names on the way down are [a], then [c] and [d] in turns; [chain n] is the
    path of the first [n]. *)
Definition level (n : nat) : string := match n with O => "a" | _ => if Nat.even n then "d" else "c" end.
Fixpoint chain (n : nat) : key := match n with O => [] | S n => level n :: chain n end.

Lemma chain_plain n : key_plain (chain n).
Proof.
  assert (∀ i, name_ok (level i) ∧ plain (level i) = true) as Hl.
  { intros [|i]; [by repeat split|]. unfold level. by destruct (Nat.even (S i)). }
  induction n as [|n [IH1 IH2]]; [by repeat constructor|]. split; constructor; try done; apply Hl.
Qed.

Lemma chain_length n : length (chain n) = n.
Proof. induction n; cbn; congruence. Qed.

Lemma suffix_chain j n : j `suffix_of` chain n → ∃ i, (i ≤ n)%nat ∧ j = chain i.
Proof.
  induction n as [|n IH]; intros Hj; [apply suffix_nil_inv in Hj as ->; by exists 0%nat|].
  destruct Hj as [[|x q] Hq]; [exists (S n); split; [lia|exact (eq_sym Hq)]|].
  injection Hq as _ Hq. destruct IH as (i & Hi & ->); [by exists q|]. exists i. split; [lia|done].
Qed.

(** The directories are the first [n] of the chain. *)
Definition chain_fs (n : nat) (f : fs) : Prop :=
  fs_ok f ∧ (∀ j, dir_at f j = true ↔ ∃ i, (i ≤ n)%nat ∧ j = chain i) ∧ ∀ j m d, f !! j ≠ Some (EFile m d).

Lemma chain_new n f : chain_fs n f → f !! chain (S n) = None ∧ names f (chain n) = [] ∧
  ∀ i, (i < n)%nat → names f (chain i) = [level i].
Proof.
  intros (Hf & Hd & Hnf).
  assert (∀ j, is_Some (f !! j) ↔ ∃ i, (i ≤ n)%nat ∧ j = chain i) as Hs.
  { intros j. rewrite <-Hd. unfold dir_at. specialize (Hnf j). destruct (f !! j) as [[m d|]|].
    - by destruct (Hnf m d).
    - split; [done|by eexists].
    - split; [by intros [? ?]|done]. }
  assert (∀ i x, is_Some (f !! (x :: chain i)) ↔ (i < n)%nat ∧ x = level i) as Hx.
  { intros i x. rewrite Hs. split.
    - intros (i' & Hi & E). pose proof (f_equal length E) as El. cbn in El. rewrite !chain_length in El. subst i'.
      injection E as ->. split; [lia|done].
    - intros [Hi ->]. exists (S i). split; [lia|done]. }
  split_and!.
  - apply eq_None_not_Some. intros (i & Hi & E)%Hs. apply (f_equal length) in E. rewrite !chain_length in E. lia.
  - destruct (names f (chain n)) as [|x l] eqn:E; [done|].
    assert (x ∈ names f (chain n)) as H by (rewrite E; by left). apply elem_of_names, Hx in H. lia.
  - intros i Hi. apply Permutation_singleton_r, NoDup_Permutation; [apply NoDup_names|apply NoDup_singleton|].
    intros x. rewrite elem_of_names, Hx, list_elem_of_singleton. naive_solver.
Qed.

Lemma CopyDir_chain fuel w n f : chain_fs (S (S n)) f →
  CopyDir fuel (set_fs f w) (abs_path (chain (S n))) (abs_path (chain (S (S (S n))))) = None.
Proof.
  revert n f. induction fuel as [|fuel IH]; intros n f Hc; [done|]. pose proof Hc as (Hf & Hd & Hnf).
  destruct (chain_new _ _ Hc) as (Hnew & _ & Hnames). cbn [CopyDir].
  assert (dir_at f (chain (S (S (S n)))) = false) as Hnd by (unfold dir_at; by rewrite Hnew).
  rewrite HasDir_key; [|done|apply chain_plain|intros j m d _; apply Hnf]. cbn [w_fs set_fs]. rewrite Hnd.
  assert (dir_at f (chain (S n)) = true ∧ dir_at f (chain (S (S n))) = true) as [Hdn HdSn].
  { split; apply Hd; eexists; (split; [|done]); lia. }
  rewrite ReadDir_key by (done || apply chain_plain).
  destruct (MkdirAll_new (set_fs f w) (chain (S (S (S n))))) as (g & -> & Hg & Hl);
    [done|apply chain_plain|intros j m d _; apply Hnf|done|].
  unfold entries. cbn [w_fs set_fs] in *. rewrite (Hnames (S n)) by lia. apply dir_at_Some in HdSn as [m HdSn].
  assert (omap (λ x, e ← f !! (x :: chain (S n)); Some (x, e)) [level (S n)] = [(level (S n), EDir m)]) as ->.
  { change (level (S n) :: chain (S n)) with (chain (S (S n))). cbn [omap list_omap].
    change (level (S n) :: chain (S n)) with (chain (S (S n))). by rewrite HdSn. }
  assert (level (S n) = level (S (S (S n)))) as Hlev by done.
  cbn [copy_loop IsDir]. rewrite JoinPath_name by apply (chain_plain (S (S n))). rewrite Hlev at 2.
  rewrite JoinPath_name by apply (chain_plain (S (S (S (S n))))).
  change (level (S n) :: chain (S n)) with (chain (S (S n))).
  change (level (S (S (S n))) :: chain (S (S (S n)))) with (chain (S (S (S (S n))))).
  change (set_fs g (set_fs f w)) with (set_fs g w). rewrite IH; [done|]. split; [done|]. split.
  - intros j. unfold dir_at. rewrite Hl. unfold with_dirs. specialize (Hnf j). split.
    + intros H. destruct (f !! j) as [[|]|] eqn:E; [done| |].
      * destruct (proj1 (Hd j)) as (i & Hi & ->); [unfold dir_at; by rewrite E|]. exists i. split; [lia|done].
      * case_bool_decide as Hj; [|done]. by apply suffix_chain in Hj.
    + intros (i & Hi & ->). destruct (decide (i = S (S (S n)))) as [->|Hne].
      * rewrite Hnew. by rewrite bool_decide_eq_true_2.
      * assert (dir_at f (chain i) = true) as [m' ->]%dir_at_Some; [|done]. apply Hd. exists i. split; [lia|done].
  - intros j m' d. rewrite Hl. unfold with_dirs. destruct (f !! j) eqn:E; [rewrite <-E; apply Hnf|].
    by case_bool_decide.
Qed.

(** The directories [/], [/a] and [/a/c]. *)
Definition nested : world :=
  mkWorld {[ [] := EDir 493; ["a"] := EDir 448; ["c"; "a"] := EDir 448 ]} [] ∅ None 18.

(** [CopyDir] has no guard against a destination below the source: in this file system,
    which has no limit on the length of paths, the copy of [/a] to [/a/c/d] does not return
    with whatever fuel, since every level it makes is one more level to copy.  Where paths
    are limited the program ends with an error, after it has made the levels that fit. *)
Theorem CopyDir_into_itself fuel : CopyDir fuel nested "/a" "/a/c/d" = None.
Proof.
  assert (chain_fs 2 (w_fs nested)) as H; [|exact (CopyDir_chain fuel nested 0 (w_fs nested) H)].
  split; [by apply fs_okb_ok|]. split.
  - intros j. split.
    + unfold dir_at, nested. cbn [w_fs].
      destruct (decide (j = [])) as [->|H0]; [by exists 0%nat; split; [lia|]|rewrite lookup_insert_ne by done].
      destruct (decide (j = ["a"])) as [->|H1]; [by exists 1%nat; split; [lia|]|rewrite lookup_insert_ne by done].
      destruct (decide (j = ["c"; "a"])) as [->|H2]; [by exists 2%nat; split; [lia|]|].
      by rewrite lookup_singleton_ne.
    + intros ([|[|[|i]]] & Hi & ->); [done..|lia].
  - intros j m d. unfold nested. cbn [w_fs]. rewrite !lookup_insert, lookup_singleton. by repeat case_decide.
Qed.

End claims.

(** ** At concrete trees *)

Definition demo_world : world :=
  mkWorld {[ [] := EDir 493; ["a"] := EDir 493; ["b"; "a"] := EDir 448; ["f"; "b"; "a"] := EFile 420 "x";
             ["home"] := EDir 493 ]} ["home"] {[ "HOME" := "/home" ]} None 18.

Lemma demo_ok : fs_ok (w_fs demo_world).
Proof. by apply fs_okb_ok. Qed.

Definition key_plainb (k : key) : bool := forallb (λ n, bool_decide (name_ok n) && plain n) k.
Lemma key_plainb_ok k : key_plainb k = true → key_plain k.
Proof.
  unfold key_plainb. rewrite forallb_forall. intros H. split; apply Forall_forall; intros n Hn%list_elem_of_In%H;
    by apply andb_true_iff in Hn as [?%bool_decide_eq_true ?].
Qed.

(** All keys of a file system are plain and shorter than a bound. *)
Definition keys_within (f : fs) (n : nat) : bool :=
  forallb (λ ke, key_plainb ke.1 && (length ke.1 <? n)%nat) (map_to_list f).
Lemma keys_within_ok f n k : keys_within f n = true → is_Some (f !! k) → key_plain k ∧ (length k < n)%nat.
Proof.
  unfold keys_within. rewrite forallb_forall. intros H [e He]. specialize (H (k, e)).
  rewrite <-list_elem_of_In, elem_of_map_to_list in H. specialize (H He). cbn in H.
  apply andb_true_iff in H as [H1 H2%Nat.ltb_lt]. split; [by apply key_plainb_ok|done].
Qed.

Lemma CopyDir_spec_witness :
  let '(f, r) := match CopyDir 5 demo_world "/a" "/new/c" with Some (w, e) => (w_fs w, e) | None => (∅, None) end in
  r = None ∧ f !! ["b"; "c"; "new"] = Some (EDir 448) ∧ f !! ["f"; "b"; "c"; "new"] = Some (EFile 384 "x").
Proof.
  destruct (CopyDir_spec (λ s, s) (λ s, s) 5 demo_world ["a"] ["c"; "new"]) as (f & E & _ & Hnew & _).
  - split; [apply demo_ok|done| |done| |].
    + intros q H. apply plain_unexpanded.
      apply dir_at_Some in H as [m H].
      destruct (keys_within_ok (w_fs demo_world) 5 (q ++ ["a"]) eq_refl) as [[Hq1 Hq2] _]; [by eexists|].
      apply Forall_app in Hq1 as [Hq1 _], Hq2 as [Hq2 _].
      by split; apply Forall_app; (split; [done|]); apply key_plainb_ok.
    + intros j m d [[|x [|y [|]]] Hq] H; cbn in Hq; simplify_eq; discriminate H.
    + intros [[|x [|y q]] H]; try discriminate H. injection H as _ _ H. by destruct q.
  - intros q H. pose proof (proj2 (keys_within_ok (w_fs demo_world) 5 _ eq_refl H)) as Hlen. rewrite length_app in Hlen. lia.
  - change (abs_path ["a"]) with "/a" in E. change (abs_path ["c"; "new"]) with "/new/c" in E. rewrite E.
    split_and!; [done|exact (Hnew ["b"])|exact (Hnew ["f"; "b"])].
Defined.

(** A directory named [$x], the variable not being set: nothing of it is copied. *)
Definition dollar_world : world :=
  mkWorld {[ [] := EDir 493; ["a"] := EDir 493; ["$x"; "a"] := EDir 448; ["f"; "$x"; "a"] := EFile 420 "x" ]}
    [] ∅ None 18.

Example dollar_not_copied :
  match CopyDir 5 dollar_world "/a" "/b" with
  | Some (w, Some e) =>
      (Error e, names (w_fs w) ["b"]) =
      ("error copying directory /a/$x -> /b/$x: destination directory already exists", [])
  | _ => False
  end.
Proof. by vm_compute. Qed.

(** A file of such a name is copied, [CopyFile] does not expand. *)
Example dollar_file_copied :
  match CopyDir 5 (set_fs (<[["$x"; "a"] := EFile 420 "y"]> (w_fs demo_world)) demo_world) "/a" "/new/c" with
  | Some (w, None) => w_fs w !! ["$x"; "c"; "new"] = Some (EFile 384 "y")
  | _ => False
  end.
Proof. by vm_compute. Qed.

Lemma MkdirAll_spec_witness :
  (∃ f, MkdirAll demo_world "~/new/$HOME" = Ok (set_fs f demo_world) ∧ f !! ["home"; "new"; "home"] = Some (EDir 448)) ∧
  MkdirAll demo_world "/a/b/f/x" ≠ Ok demo_world.
Proof.
  split.
  - destruct (MkdirAll_spec demo_world "~/new/$HOME" ["home"; "new"; "home"]) as (_ & H & _);
      [apply demo_ok|by apply key_plainb_ok|done|].
    destruct H as (f & E & _ & _ & Hf); [done| |].
    + intros j m d [[|x [|y [|z [|]]]] Hq] H; cbn in Hq; simplify_eq; discriminate H.
    + exists f. split; [done|]. by rewrite Hf.
  - destruct (MkdirAll_spec demo_world "/a/b/f/x" ["x"; "f"; "b"; "a"]) as (_ & _ & H);
      [apply demo_ok|by apply key_plainb_ok|done|].
    destruct (H ["f"; "b"; "a"] 420%Z "x") as [e ->]; [by exists ["x"]|done|done].
Defined.
