(* ===== verification/Bls.v ===== *)
(** * BLS keys and signatures (bls, bls/herumi, rand)

    The package around the third-party library: its curve operations and the two byte
    formats are arguments, and so are its start-up and the seeds of generators.  Public keys are pointers, which callers share and
    [Aggregate] writes through, so their values are in a heap; the cache of decoded
    keys, third-party too, may or may not keep an entry and drops entries at will. *)

From S2P Require Import Prelude GoText GoMem BytesUtil GoPath GoFs.

(** [[32]byte] messages and byte slices are lists of bytes. *)
Abbreviation bytes := (list Z).

Definition ErrZeroKey : err := EText "received secret key is zero".
Definition ErrSecretUnmarshal : err := EText "could not unmarshal bytes into secret key".
Definition ErrInfinitePubKey : err := EText "received an infinite public key".

(** What the package uses of the library: [Deserialize] fails with a text. *)
Class Bls12 (Sk Pk Sg Fr : Type) := {
  sk_Deserialize : bytes → result string Sk;
  sk_Serialize : Sk → bytes;
  sk_IsZero : Sk → bool;
  GetPublicKey : Sk → Pk;
  SignByte : Sk → bytes → Sg;
  pk_Deserialize : bytes → result string Pk;
  pk_Serialize : Pk → bytes;
  pk_IsZero : Pk → bool;
  pk_Add : Pk → Pk → Pk;
  sg_Deserialize : bytes → result string Sg;
  sg_Serialize : Sg → bytes;
  sg_SerializeToHexStr : Sg → string;
  sg_Add : Sg → Sg → Sg;
  HashAndMapToSignature : bytes → Sg;
  VerifyByte : Sg → Pk → bytes → bool;
  AggregateVerifyNoCheck : Sg → list Pk → bytes → bool;
  lib_FastAggregateVerify : Sg → list Pk → bytes → bool;
  SetLittleEndian : bytes → result string Fr;
  G2MulVec : list Sg → list Fr → Sg;
  G1Mul : Pk → Fr → Pk }.

(** ** rand *)

(** [source.Uint64]: eight bytes of the reader, big-endian; the panic when it cannot
    return them.  [Int63] clears the top bit. *)
Definition source_Uint64 (reader : bytes) : outcome (Z * bytes) :=
  if (8 <=? length reader)%nat then Ret (be_val (take 8 reader), drop 8 reader) else Panic "unexpected EOF".
Definition source_Int63 (reader : bytes) : outcome (Z * bytes) :=
  '(v, reader) ← source_Uint64 reader; Ret (Z.land v (2 ^ 63 - 1)%Z, reader).

(** [source.Seed] does nothing.  A generator of [math/rand] over the source passes its
    [Int63] on; [NewDeterministicGenerator] only takes its seed from it, [NewSource]
    being that of [math/rand]. *)
Definition source_Seed (seed : Z) (reader : bytes) : bytes := reader.
Definition NewGenerator : bytes → outcome (Z * bytes) := source_Int63.
Definition NewDeterministicGenerator {G} (NewSource : Z → G) (reader : bytes) : outcome (G * bytes) :=
  '(seed, reader) ← NewGenerator reader; Ret (NewSource seed, reader).

(** The seed has 63 bits, and everything else follows from eight bytes of the reader. *)
Lemma NewDeterministicGenerator_seed {G} (NewSource : Z → G) reader rest :
  length reader = 8%nat →
  ∃ seed, NewDeterministicGenerator NewSource (reader ++ rest) = Ret (NewSource seed, rest) ∧ (0 ≤ seed < 2 ^ 63)%Z.
Proof.
  intros Hr. unfold NewDeterministicGenerator, NewGenerator, source_Int63, source_Uint64.
  rewrite (proj2 (Nat.leb_le _ _)) by (rewrite length_app; lia). cbn [mbind outcome_bind].
  rewrite take_app_length', drop_app_length' by done. eexists. split; [reflexivity|].
  change (2 ^ 63 - 1)%Z with (Z.ones 63). rewrite Z.land_ones by lia. by apply Z.mod_pos_bound.
Qed.

(** ** init.go *)

(** The calls of the package's start, from the errors of the first two. *)
Inductive lib_call := LInit | LSetETHmode | LVerifyPublicKeyOrder (b : bool) | LVerifySignatureOrder (b : bool).
Definition herumi_init (Init SetETHmode : option string) : outcome (list lib_call) :=
  match Init with
  | Some err => Panic err
  | None =>
      match SetETHmode with
      | Some err => Panic err
      | None => Ret [LInit; LSetETHmode; LVerifyPublicKeyOrder true; LVerifySignatureOrder true]
      end
  end.

Section herumi.
Context `{B : Bls12 Sk Pk Sg Fr}.

(** ** Secret keys *)

Definition RandKey (secKey : Sk) : result err Sk :=
  if sk_IsZero secKey then Err (EText "generated a zero secret key") else Ok secKey.
Definition SecretKeyFromBytes (privKey : bytes) : result err Sk :=
  if decide (length privKey ≠ 32%nat) then Err (EText "secret key must be 32 bytes")
  else match sk_Deserialize privKey with
       | Err _ => Err ErrSecretUnmarshal
       | Ok secKey => if sk_IsZero secKey then Err ErrZeroKey else Ok secKey
       end.
Definition sk_Sign (s : Sk) (msg : bytes) : Sg := SignByte s msg.
Definition sk_Marshal (s : Sk) : bytes :=
  let keyBytes := sk_Serialize s in
  if (length keyBytes <? 32)%nat then replicate (32 - length keyBytes) 0%Z ++ keyBytes else keyBytes.

Definition IsZero (s : Sk) : bool := sk_IsZero s.

(** ** Public keys *)

(** A value of the interface: nil, or a [*PublicKey] with its pointer. *)
Inductive pubkey := NilKey | Key (p : option nat).

Record keys := mkKeys { heap : list Pk; pubkeyCache : gmap bytes nat }.

Definition nil_deref {S A} : go S A := go_panic "invalid memory address or nil pointer dereference".

(** The point of a key that is a [PublicKey]. *)
Definition deref (k : pubkey) : go keys Pk := λ st,
  match k with
  | Key (Some l) => match heap st !! l with Some x => Ret (x, st) | None => nil_deref st end
  | Key None => nil_deref st
  | NilKey => Panic "interface conversion: interface is nil"
  end.
Definition alloc (x : Pk) : go keys pubkey := λ st,
  Ret (Key (Some (length (heap st))), mkKeys (heap st ++ [x]) (pubkeyCache st)).
Definition pk_Copy (k : pubkey) : go keys pubkey := x ← deref k; alloc x.
Definition IsInfinite (k : pubkey) : go keys bool := x ← deref k; mret (pk_IsZero x).
Definition pk_Marshal (k : pubkey) : go keys bytes := x ← deref k; mret (pk_Serialize x).
Definition sk_PublicKey (s : Sk) : go keys pubkey := alloc (GetPublicKey s).

Definition Aggregate (p p2 : pubkey) : go keys pubkey :=
  y ← deref p2; x ← deref p;
  match p with
  | Key (Some l) =>
      go_modify (λ st, mkKeys (<[l := pk_Add x y]> (heap st)) (pubkeyCache st)) ;; mret p
  | _ => nil_deref
  end.

(** [pubkeyCache.Set] of a key object, when the cache takes it. *)
Definition cache_set (keeps : bool) (pubKey : bytes) (k : pubkey) : go keys unit := λ st,
  match k with
  | Key (Some l) => Ret ((), if keeps then mkKeys (heap st) (<[pubKey := l]> (pubkeyCache st)) else st)
  | _ => Ret ((), st)
  end.

Definition PublicKeyFromBytes (keeps : bytes → bool) (pubKey : bytes) : go keys (result err pubkey) :=
  if decide (length pubKey ≠ 48%nat) then mret (Err (EText "public key must be 48 bytes"))
  else
    st ← go_get;
    match pubkeyCache st !! pubKey with
    | Some l => k ← pk_Copy (Key (Some l)); mret (Ok k)
    | None =>
        match pk_Deserialize pubKey with
        | Err e => mret (Err (EWrap "could not unmarshal bytes into public key" (EText e)))
        | Ok x =>
            pubKeyObj ← alloc x;
            infinite ← IsInfinite pubKeyObj;
            if infinite : bool then mret (Err ErrInfinitePubKey)
            else
              c ← pk_Copy pubKeyObj;
              cache_set (keeps pubKey) pubKey c ;;
              mret (Ok pubKeyObj)
        end
    end.

Fixpoint aggregate_loop (keeps : bytes → bool) (p : pubkey) (pubs : list bytes) : go keys (result err pubkey) :=
  match pubs with
  | [] => mret (Ok p)
  | k :: pubs =>
      r ← PublicKeyFromBytes keeps k;
      match r with
      | Err e => mret (Err e)
      | Ok pubkey => Aggregate p pubkey ;; aggregate_loop keeps p pubs
      end
  end.
Definition AggregatePublicKeys (keeps : bytes → bool) (pubs : list bytes) : go keys (result err pubkey) :=
  match pubs with
  | [] => mret (Ok (Key None))
  | pub :: rest =>
      r ← PublicKeyFromBytes keeps pub;
      match r with
      | Err e => mret (Err e)
      | Ok p => aggregate_loop keeps p rest
      end
  end.

(** ** Signatures *)

(** A value of the interface, nil or a signature, whose point is never written to. *)
Abbreviation signature := (option Sg).

Definition SignatureFromBytes (sig : bytes) : result err signature :=
  if decide (length sig ≠ 96%nat) then Err (EText "signature must be 96 bytes")
  else match sg_Deserialize sig with
       | Err e => Err (EWrap "could not unmarshal bytes into signature" (EText e))
       | Ok s => Ok (Some s)
       end.

Definition Verify (s : Sg) (pubKey : pubkey) (msg : bytes) : go keys bool :=
  x ← deref pubKey;
  if pk_IsZero x then mret false else mret (VerifyByte s x msg).

Fixpoint deref_all (pubKeys : list pubkey) : go keys (list Pk) :=
  match pubKeys with
  | [] => mret []
  | k :: pubKeys => x ← deref k; l ← deref_all pubKeys; mret (x :: l)
  end.

Definition AggregateVerify (s : Sg) (pubKeys : list pubkey) (msgs : list bytes) : go keys bool :=
  let size := length pubKeys in
  if decide (size = 0%nat) then mret false
  else if decide (size ≠ length msgs) then mret false
  else rawKeys ← deref_all pubKeys; mret (AggregateVerifyNoCheck s rawKeys (concat msgs)).

Definition FastAggregateVerify (s : Sg) (pubKeys : list pubkey) (msg : bytes) : go keys bool :=
  if decide (length pubKeys = 0%nat) then mret false
  else rawKeys ← deref_all pubKeys; mret (lib_FastAggregateVerify s rawKeys msg).

Definition NewAggregateSignature : signature := Some (HashAndMapToSignature [109; 111; 99; 107]%Z).

Definition sig_deref (s : signature) : outcome Sg :=
  match s with Some x => Ret x | None => Panic "invalid memory address or nil pointer dereference" end.
Fixpoint add_loop (acc : Sg) (sigs : list signature) : outcome Sg :=
  match sigs with
  | [] => Ret acc
  | s :: sigs => x ← sig_deref s; add_loop (sg_Add acc x) sigs
  end.
Definition AggregateSignatures (sigs : list signature) : outcome signature :=
  match sigs with
  | [] => Ret None
  | s :: sigs => x ← sig_deref s; y ← add_loop x sigs; Ret (Some y)
  end.

Definition sig_Aggregate (sigs : list signature) : outcome signature := AggregateSignatures sigs.

(** [Marshal], [HexString] and [Copy] of a signature, which is not nil. *)
Definition sig_Marshal (s : Sg) : bytes := sg_Serialize s.
Definition HexString (s : Sg) : string := sg_SerializeToHexStr s.
Definition sig_Copy (s : Sg) : signature := Some s.

(** The two loops of [VerifyMultipleSignatures]: the random numbers drawn, and the
    multiplied keys. *)
Fixpoint draw_loop (reader : bytes) (sigs : list signature) : outcome (result err (list Fr * list Sg)) :=
  match sigs with
  | [] => Ret (Ok ([], []))
  | s :: sigs =>
      '(rNum, reader) ← source_Uint64 reader;
      match SetLittleEndian (le_bytes 8 rNum) with
      | Err e => Ret (Err (EText e))
      | Ok r =>
          x ← sig_deref s;
          res ← draw_loop reader sigs;
          Ret ('(rs, xs) ← res; Ok (r :: rs, x :: xs))
      end
  end.
Fixpoint multi_loop (pubKeys : list pubkey) (randNums : list Fr) : go keys (result err (list Pk)) :=
  match pubKeys, randNums with
  | NilKey :: _, _ => mret (Err (EText "nil public key"))
  | k :: pubKeys, r :: randNums =>
      x ← deref k;
      res ← multi_loop pubKeys randNums;
      mret (l ← res; Ok (G1Mul x r :: l))
  | _, _ => mret (Ok [])
  end.

Definition differing_lengths (sigs : list signature) (msgs : list bytes) (pubKeys : list pubkey) : err :=
  EText ("provided signatures, pubkeys and messages have differing lengths. S: " +:+ FormatInt (Z.of_nat (length sigs)) +:+
         ", P: " +:+ FormatInt (Z.of_nat (length pubKeys)) +:+ ",M " +:+ FormatInt (Z.of_nat (length msgs))).

Definition VerifyMultipleSignatures (reader : bytes) (sigs : list signature) (msgs : list bytes) (pubKeys : list pubkey) :
    go keys (result err bool) :=
  if decide (length sigs = 0%nat ∨ length pubKeys = 0%nat) then mret (Ok false)
  else if decide (length sigs ≠ length pubKeys ∨ length sigs ≠ length msgs) then
    mret (Err (differing_lengths sigs msgs pubKeys))
  else λ st,
    match draw_loop reader sigs with
    | Panic e => Panic e
    | Blocks e => Blocks e
    | Ret (Err e) => Ret (Err e, st)
    | Ret (Ok (randNums, signatures)) =>
        (multiKeys ← multi_loop pubKeys randNums;
         mret (l ← multiKeys; Ok (AggregateVerifyNoCheck (G2MulVec signatures randNums) l (concat msgs)))) st
    end.

(** ** Signature sets *)

Record SignatureSet := mkSet { Signatures : list bytes; PublicKeys : list pubkey; Messages : list bytes }.
Definition NewSet : SignatureSet := mkSet [] [] [].
Definition Join (s set : SignatureSet) : SignatureSet :=
  mkSet (Signatures s ++ Signatures set) (PublicKeys s ++ PublicKeys set) (Messages s ++ Messages set).
End herumi.

(** ** The cache of decoded keys *)

Section cache.
Context `{B : Bls12 Sk Pk Sg Fr}.
Implicit Types (st : keys (Pk := Pk)) (outs : list pubkey).

(** [PublicKeyFromBytes] without the cache. *)
Definition decode_key (pubKey : bytes) : result err Pk :=
  if decide (length pubKey ≠ 48%nat) then Err (EText "public key must be 48 bytes")
  else match pk_Deserialize pubKey with
       | Err e => Err (EWrap "could not unmarshal bytes into public key" (EText e))
       | Ok x => if pk_IsZero x then Err ErrInfinitePubKey else Ok x
       end.

(** What callers do with keys: decode, add a key to one of theirs, copy, aggregate;
    and the cache drops an entry.  A caller only has keys that it was given. *)
Inductive key_op :=
| OFromBytes (keeps : bytes → bool) (pubKey : bytes)
| OAggregate (i j : nat)
| OCopy (i : nat)
| OAggregateKeys (keeps : bytes → bool) (pubs : list bytes)
| OSecret (s : Sk)
| OEvict (pubKey : bytes).

Definition keep (m : go (keys (Pk := Pk)) (result err pubkey)) (s : keys * list pubkey) : outcome (keys * list pubkey) :=
  match m (fst s) with
  | Ret (Ok k, st) => Ret (st, snd s ++ [k])
  | Ret (Err _, st) => Ret (st, snd s)
  | Panic e => Panic e
  | Blocks e => Blocks e
  end.
Definition nth_key outs (i : nat) : pubkey := default NilKey (outs !! i).
Definition key_exec (o : key_op) (s : keys * list pubkey) : outcome (keys * list pubkey) :=
  match o with
  | OFromBytes keeps pub => keep (PublicKeyFromBytes keeps pub) s
  | OAggregate i j => keep (k ← Aggregate (nth_key (snd s) i) (nth_key (snd s) j); mret (Ok k)) s
  | OCopy i => keep (k ← pk_Copy (nth_key (snd s) i); mret (Ok k)) s
  | OAggregateKeys keeps pubs => keep (AggregatePublicKeys keeps pubs) s
  | OSecret sk => keep (k ← sk_PublicKey sk; mret (Ok k)) s
  | OEvict pub => Ret (mkKeys (heap (fst s)) (delete pub (pubkeyCache (fst s))), snd s)
  end.
Fixpoint key_run (l : list key_op) (s : keys * list pubkey) : outcome (keys * list pubkey) :=
  match l with [] => Ret s | o :: l => s' ← key_exec o s; key_run l s' end.

(** A cached key has the value of its bytes, and no caller has its pointer. *)
Record cache_inv st outs : Prop := {
  ci_cache pub l : pubkeyCache st !! pub = Some l → ∃ x, heap st !! l = Some x ∧ decode_key pub = Ok x;
  ci_out l : Key (Some l) ∈ outs → (l < length (heap st))%nat ∧ ∀ pub, pubkeyCache st !! pub ≠ Some l }.

(** [st'] extends [st]: values stay, and what is new is after them. *)
Definition extends st st' : Prop := heap st `prefix_of` heap st'.

#[local] Instance extends_pre : PreOrder extends.
Proof. unfold extends. split; [intros ?; done|intros ???; apply transitivity]. Qed.

Lemma extends_lookup st st' l x : extends st st' → heap st !! l = Some x → heap st' !! l = Some x.
Proof. intros [k E] H. rewrite E. by apply lookup_app_l_Some. Qed.

Lemma alloc_run x st outs : cache_inv st outs →
  ∃ st', alloc x st = Ret (Key (Some (length (heap st))), st') ∧ extends st st' ∧
    heap st' !! length (heap st) = Some x ∧ cache_inv st' (Key (Some (length (heap st))) :: outs) ∧
    pubkeyCache st' = pubkeyCache st ∧ length (heap st') = S (length (heap st)).
Proof.
  intros [Hc Ho]. eexists. split; [reflexivity|]. split; [by eexists|]. split; [by cbn; rewrite list_lookup_middle|].
  split; [|split; [done|cbn; rewrite length_app; cbn; lia]]. split; cbn.
  - intros pub l Hl. destruct (Hc pub l Hl) as (y & Hy & Hd). exists y. split; [by apply lookup_app_l_Some|done].
  - intros l Hl. rewrite length_app. cbn. apply elem_of_cons in Hl as [[= ->]|Hl].
    + split; [lia|]. intros pub Hp. destruct (Hc pub _ Hp) as (y & Hy & _). apply lookup_lt_Some in Hy. lia.
    + destruct (Ho l Hl) as [Hlt Hn]. split; [lia|done].
Qed.

Lemma PublicKeyFromBytes_run keeps pub st outs : cache_inv st outs →
  ∃ st', extends st st' ∧
  match decode_key pub with
  | Err e => PublicKeyFromBytes keeps pub st = Ret (Err e, st') ∧ cache_inv st' outs
  | Ok x => ∃ l, PublicKeyFromBytes keeps pub st = Ret (Ok (Key (Some l)), st') ∧ (length (heap st) ≤ l)%nat ∧
      heap st' !! l = Some x ∧ cache_inv st' (Key (Some l) :: outs)
  end.
Proof.
  intros Hinv. unfold PublicKeyFromBytes, decode_key. case_decide as Hlen; [by exists st; split|].
  rewrite go_bind_run. cbn [go_get]. destruct (pubkeyCache st !! pub) as [l|] eqn:Hl.
  - destruct (ci_cache _ _ Hinv pub l Hl) as (x & Hx & Hd). unfold decode_key in Hd. rewrite decide_False in Hd by (intros Hne; by apply Hne).
    rewrite Hd. destruct (alloc_run x st outs Hinv) as (st' & Ha & He & Hh & Hi & _).
    exists st'. split; [done|]. exists (length (heap st)). unfold pk_Copy. rewrite !go_bind_run. cbn [deref]. rewrite Hx, Ha.
    by split_and!.
  - destruct (pk_Deserialize pub) as [x|e] eqn:Hd; [|by exists st; split].
    destruct (alloc_run x st outs Hinv) as (st1 & Ha & He & Hh & Hi & Hcs & Hlen1).
    rewrite go_bind_run, Ha, go_bind_run. unfold IsInfinite. rewrite go_bind_run. cbn [deref]. rewrite Hh. cbn [mret go_ret].
    destruct (pk_IsZero x) eqn:Hz.
    + exists st1. split; [done|]. split; [done|]. split; [apply Hi|]. intros l' Hl'. apply Hi. by right.
    + destruct (alloc_run x st1 _ Hi) as (st2 & Ha2 & He2 & Hh2 & Hi2 & Hcs2 & Hlen2).
      unfold pk_Copy. rewrite !go_bind_run. cbn [deref]. rewrite Hh, Ha2. rewrite go_bind_run. cbn [cache_set].
      eexists. split; [|exists (length (heap st)); split; [reflexivity|]].
      * etrans; [exact He|]. destruct (keeps pub); exact He2.
      * split; [done|]. destruct (keeps pub); cbn [heap pubkeyCache].
        -- split; [by eapply extends_lookup|]. split; cbn [heap pubkeyCache].
           ++ intros pub' l'. rewrite lookup_insert. case_decide as Hp.
              ** intros [= <-]. exists x. split; [done|]. unfold decode_key. subst pub'.
                 rewrite decide_False by (intros Hne; by apply Hne). by rewrite Hd, Hz.
              ** apply Hi2.
           ++ intros l' Hl'. destruct (ci_out _ _ Hi2 l') as [Hlt Hn]; [by right|]. split; [done|]. intros pub'.
              rewrite lookup_insert. case_decide; [|done]. intros [= <-].
              destruct (ci_out _ _ Hi (length (heap st1))) as [? _]; [done|lia].
        -- split; [by eapply extends_lookup|]. split; [apply Hi2|]. intros l' Hl'. apply Hi2. by right.
Qed.

Lemma cache_inv_mono st outs outs' :
  cache_inv st outs → (∀ l, Key (Some l) ∈ outs' → Key (Some l) ∈ outs) → cache_inv st outs'.
Proof. intros [Hc Ho] H. split; [done|]. intros l Hl. by apply Ho, H. Qed.

(** A key that a caller has can be written to. *)
Lemma Aggregate_run st outs l l2 x y :
  cache_inv st outs → Key (Some l) ∈ outs → heap st !! l = Some x → heap st !! l2 = Some y →
  let st' := mkKeys (<[l := pk_Add x y]> (heap st)) (pubkeyCache st) in
  Aggregate (Key (Some l)) (Key (Some l2)) st = Ret (Key (Some l), st') ∧ cache_inv st' outs.
Proof.
  intros Hinv Hl Hx Hy. split.
  - unfold Aggregate. rewrite go_bind_run. cbn [deref]. rewrite Hy, go_bind_run. cbn [deref]. by rewrite Hx.
  - destruct (ci_out _ _ Hinv l Hl) as [Hlt Hn]. split; cbn.
    + intros pub l' Hp. destruct (ci_cache _ _ Hinv pub l' Hp) as (z & Hz & Hd). exists z. split; [|done].
      rewrite list_lookup_insert_ne; [done|]. intros ->. by apply Hn in Hp.
    + intros l' Hl'. rewrite length_insert. by apply Hinv.
Qed.

Lemma aggregate_loop_run keeps l pubs acc st outs n :
  cache_inv st outs → Key (Some l) ∈ outs → heap st !! l = Some acc → (n ≤ l)%nat →
  ∃ st', take n (heap st') = take n (heap st) ∧ cache_inv st' outs ∧
  match mapM decode_key pubs with
  | Ok xs => aggregate_loop keeps (Key (Some l)) pubs st = Ret (Ok (Key (Some l)), st') ∧
      heap st' !! l = Some (foldl pk_Add acc xs)
  | Err e => aggregate_loop keeps (Key (Some l)) pubs st = Ret (Err e, st')
  end.
Proof.
  revert acc st. induction pubs as [|pub pubs IH]; intros acc st Hinv Hl Hacc Hn; [by exists st|].
  destruct (PublicKeyFromBytes_run keeps pub st outs Hinv) as (st1 & He & H).
  assert (take n (heap st1) = take n (heap st)) as Ht.
  { destruct He as [k ->]. apply take_app_le. apply lookup_lt_Some in Hacc. lia. }
  cbn [mapM aggregate_loop]. rewrite go_bind_run.
  destruct (decode_key pub) as [x|e].
  - destruct H as (l1 & -> & Hl1 & Hx & Hinv1). pose proof (extends_lookup _ _ _ _ He Hacc) as Hacc1.
    destruct (Aggregate_run st1 _ l l1 acc x Hinv1 ltac:(by right) Hacc1 Hx) as [Hagg Hinv2].
    rewrite go_bind_run, Hagg. eapply cache_inv_mono in Hinv2; [|intros l' Hl'; right; exact Hl'].
    edestruct IH as (st' & Ht' & Hinv' & H'); [exact Hinv2|done| |done|].
    { cbn. rewrite list_lookup_insert_eq; [done|]. by eapply lookup_lt_Some. }
    exists st'. split; [|split; [done|]].
    { rewrite Ht'. cbn. by rewrite take_insert_ge. }
    cbn [mbind result_bind]. destruct (mapM decode_key pubs); cbn; done.
  - destruct H as [-> Hinv1]. exists st1. by split_and!.
Qed.

(** The value of an aggregate, and its first error. *)
Lemma AggregatePublicKeys_run keeps pubs st outs :
  cache_inv st outs →
  ∃ st', extends st st' ∧
  match mapM decode_key pubs with
  | Ok [] => AggregatePublicKeys keeps pubs st = Ret (Ok (Key None), st') ∧ cache_inv st' outs
  | Ok (x :: xs) => ∃ l, AggregatePublicKeys keeps pubs st = Ret (Ok (Key (Some l)), st') ∧
      (length (heap st) ≤ l)%nat ∧ heap st' !! l = Some (foldl pk_Add x xs) ∧ cache_inv st' (Key (Some l) :: outs)
  | Err e => AggregatePublicKeys keeps pubs st = Ret (Err e, st') ∧ cache_inv st' outs
  end.
Proof.
  intros Hinv. destruct pubs as [|pub pubs]; [by exists st; split|].
  destruct (PublicKeyFromBytes_run keeps pub st outs Hinv) as (st1 & He & H).
  cbn [mapM AggregatePublicKeys]. rewrite go_bind_run. destruct (decode_key pub) as [x|e].
  - destruct H as (l & -> & Hl & Hx & Hinv1).
    destruct (aggregate_loop_run keeps l pubs x st1 _ (length (heap st)) Hinv1 ltac:(by left) Hx Hl) as (st' & Ht & Hinv' & H').
    exists st'. split.
    { destruct He as [k E]. rewrite E, take_app_length in Ht. exists (drop (length (heap st)) (heap st')).
      rewrite <-Ht at 1. by rewrite take_drop. }
    cbn [mbind result_bind]. destruct (mapM decode_key pubs) as [xs|e]; cbn.
    + exists l. destruct H' as [-> H']. by split_and!.
    + split; [done|]. eapply cache_inv_mono; [done|]. intros l' Hl'. by right.
  - destruct H as [-> Hinv1]. by exists st1.
Qed.

Lemma nth_key_out outs i l : nth_key outs i = Key (Some l) → Key (Some l) ∈ outs.
Proof. unfold nth_key. destruct (outs !! i) eqn:E; [|done]. cbn. intros ->. by eapply list_elem_of_lookup_2. Qed.

Lemma deref_inv k st x st' : deref k st = Ret (x, st') → ∃ l, k = Key (Some l) ∧ heap st !! l = Some x ∧ st' = st.
Proof.
  destruct k as [|[l|]]; [done| |done]. cbn. destruct (heap st !! l) eqn:E; [|done]. intros [= <- <-]. by exists l.
Qed.

Lemma keep_fresh k l outs : ∀ l', Key (Some l') ∈ outs ++ [k] → k = Key (Some l) → Key (Some l') ∈ Key (Some l) :: outs.
Proof. intros l' [H|H%list_elem_of_singleton]%elem_of_app ->; [by right|rewrite H; by left]. Qed.

Lemma keep_inv m st outs st' outs' : keep m (st, outs) = Ret (st', outs') →
  (∃ k, m st = Ret (Ok k, st') ∧ outs' = outs ++ [k]) ∨ ∃ e, m st = Ret (Err e, st') ∧ outs' = outs.
Proof.
  unfold keep. cbn [fst snd]. destruct (m st) as [[[k|e] st1]| |]; try done; intros [= <- <-]; [left|right]; by eexists.
Qed.

Lemma ok_inv (m : go keys pubkey) st r st' : (k ← m; mret (Ok k)) st = Ret (r : result err pubkey, st') → ∃ k, r = Ok k ∧ m st = Ret (k, st').
Proof. intros (k & st1 & E & [= <- <-])%go_bind_inv. by exists k. Qed.

(** No operation of a caller breaks the cache. *)
Lemma key_exec_inv o st outs st' outs' :
  cache_inv st outs → key_exec o (st, outs) = Ret (st', outs') → cache_inv st' outs'.
Proof.
  intros Hinv.
  assert (∀ k l, cache_inv st' (Key (Some l) :: outs) → k = Key (Some l) → cache_inv st' (outs ++ [k])) as Hkeep.
  { intros k l Hi Hk. eapply cache_inv_mono; [exact Hi|]. intros l' Hl'. by eapply keep_fresh. }
  destruct o as [keeps pub|i j|i|keeps pubs|sk|pub]; cbn [key_exec fst snd];
    [intros [(k & E & ->)|(e & E & ->)]%keep_inv..|].
  - destruct (PublicKeyFromBytes_run keeps pub st outs Hinv) as (st1 & _ & H). rewrite E in H.
    destruct (decode_key pub); [|by destruct H]. destruct H as (l & [= -> ->] & _ & _ & Hi). by eapply Hkeep.
  - destruct (PublicKeyFromBytes_run keeps pub st outs Hinv) as (st1 & _ & H). rewrite E in H.
    destruct (decode_key pub); [by destruct H as (? & ? & _)|]. by destruct H as [[= -> ->] Hi].
  - apply ok_inv in E as (k' & [= <-] & E). unfold Aggregate in E.
    apply go_bind_inv in E as (y & st3 & (l2 & Ek2 & Hy & ->)%deref_inv & E).
    apply go_bind_inv in E as (x & st4 & (l & Ek & Hx & ->)%deref_inv & E).
    rewrite Ek in E. injection E as <- <-.
    destruct (Aggregate_run st outs l l2 x y Hinv (nth_key_out _ _ _ Ek) Hx Hy) as [_ Hi].
    eapply cache_inv_mono; [exact Hi|]. intros l' [H|H%list_elem_of_singleton]%elem_of_app; [done|].
    rewrite H. by eapply nth_key_out.
  - by apply ok_inv in E as (? & ? & _).
  - apply ok_inv in E as (k' & [= <-] & E). unfold pk_Copy in E.
    apply go_bind_inv in E as (x & st3 & (l & Ek & Hx & ->)%deref_inv & E).
    destruct (alloc_run x st outs Hinv) as (st4 & Ha & _ & _ & Hi & _). rewrite E in Ha. injection Ha as -> ->. by eapply Hkeep.
  - by apply ok_inv in E as (? & ? & _).
  - destruct (AggregatePublicKeys_run keeps pubs st outs Hinv) as (st1 & _ & H). rewrite E in H.
    destruct (mapM decode_key pubs) as [[|x xs]|e].
    + destruct H as [[= -> ->] Hi]. eapply cache_inv_mono; [exact Hi|].
      by intros l' [H|H%list_elem_of_singleton]%elem_of_app.
    + destruct H as (l & [= -> ->] & _ & _ & Hi). by eapply Hkeep.
    + by destruct H.
  - destruct (AggregatePublicKeys_run keeps pubs st outs Hinv) as (st1 & _ & H). rewrite E in H.
    destruct (mapM decode_key pubs) as [[|x xs]|e']; [by destruct H|by destruct H as (? & ? & _)|]. by destruct H as [[= -> ->] Hi].
  - apply ok_inv in E as (k' & [= <-] & E). unfold sk_PublicKey in E.
    destruct (alloc_run (GetPublicKey sk) st outs Hinv) as (st1 & Ha & _ & _ & Hi & _). rewrite E in Ha. injection Ha as -> ->.
    by eapply Hkeep.
  - by apply ok_inv in E as (? & ? & _).
  - intros [= <- <-]. split; cbn.
    + intros pub' l [_ Hl]%lookup_delete_Some. by apply Hinv.
    + intros l Hl. split; [by apply Hinv|]. intros pub' [_ H]%lookup_delete_Some. by apply (ci_out _ _ Hinv l Hl) in H.
Qed.

Lemma key_run_inv l st outs st' outs' :
  cache_inv st outs → key_run l (st, outs) = Ret (st', outs') → cache_inv st' outs'.
Proof.
  revert st outs. induction l as [|o l IH]; intros st outs Hinv; cbn [key_run]; [by intros [= <- <-]|].
  destruct (key_exec o (st, outs)) as [[st1 outs1]| |] eqn:E; cbn; try done. apply IH. by eapply key_exec_inv.
Qed.

Definition fresh_keys : keys (Pk := Pk) := mkKeys [] ∅.

(** C33: whatever callers have done with the keys they were given - adding others to
    them in place included - and whatever the cache keeps or drops, decoding a key
    gives a new pointer with the value of its bytes, or the error that decoding it
    without a cache gives; aggregating gives a new pointer with the sum, or the first
    error; and neither changes the value of any key there is. *)
Theorem PublicKeyFromBytes_isolated l st outs keeps pubs :
  key_run l (fresh_keys, []) = Ret (st, outs) →
  (∀ pub, ∃ st', extends st st' ∧
    match decode_key pub with
    | Err e => PublicKeyFromBytes keeps pub st = Ret (Err e, st')
    | Ok x => ∃ p, PublicKeyFromBytes keeps pub st = Ret (Ok (Key (Some p)), st') ∧ heap st' !! p = Some x ∧
        (Key (Some p) ∉ outs)
    end) ∧
  ∃ st', extends st st' ∧
    match mapM decode_key pubs with
    | Err e => AggregatePublicKeys keeps pubs st = Ret (Err e, st')
    | Ok [] => AggregatePublicKeys keeps pubs st = Ret (Ok (Key None), st')
    | Ok (x :: xs) => ∃ p, AggregatePublicKeys keeps pubs st = Ret (Ok (Key (Some p)), st') ∧
        heap st' !! p = Some (foldl pk_Add x xs) ∧ (Key (Some p) ∉ outs)
    end.
Proof.
  intros Hrun. assert (cache_inv st outs) as Hinv.
  { eapply key_run_inv; [|exact Hrun]. split; cbn; [intros ? ? H; by rewrite lookup_empty in H|intros l' H; inversion H]. }
  assert (∀ p, (length (heap st) ≤ p)%nat → Key (Some p) ∉ outs) as Hfresh.
  { intros p Hp Hin. apply (ci_out _ _ Hinv) in Hin as [? _]. lia. }
  split.
  - intros pub. destruct (PublicKeyFromBytes_run keeps pub st outs Hinv) as (st' & He & H). exists st'. split; [done|].
    destruct (decode_key pub); [|by destruct H]. destruct H as (p & H1 & Hp & H2 & _). exists p. auto.
  - destruct (AggregatePublicKeys_run keeps pubs st outs Hinv) as (st' & He & H). exists st'. split; [done|].
    destruct (mapM decode_key pubs) as [[|x xs]|e]; [by destruct H| |by destruct H].
    destruct H as (p & H1 & Hp & H2 & _). exists p. auto.
Qed.
End cache.

(** ** Signatures under the pairing equations *)

(** What the library computes: signatures are compared in a group of prime order, in
    which [pair_sig s] is the pairing of a signature with the generator and
    [pair_key pk m] that of a key with the hash of a message.  The verdicts are those on
    keys that are not infinite. *)
Class Pairing {Sk Pk Sg Fr} (B : Bls12 Sk Pk Sg Fr) (GT : Type) := {
  gt_add : GT → GT → GT;
  gt_zero : GT;
  gt_mul : Fr → GT → GT;
  fr_zero : Fr → bool;
  pair_sig : Sg → GT;
  pair_key : Pk → bytes → GT;
  gt_assoc a b c : gt_add a (gt_add b c) = gt_add (gt_add a b) c;
  gt_comm a b : gt_add a b = gt_add b a;
  gt_cancel a b c : gt_add a b = gt_add a c → b = c;
  gt_mul_inj r a b : fr_zero r = false → gt_mul r a = gt_mul r b → a = b;
  gt_mul_zero r a : fr_zero r = true → gt_mul r a = gt_zero;
  verify_law s pk m : pk_IsZero pk = false → VerifyByte s pk m = true ↔ pair_sig s = pair_key pk m;
  sign_law sk m : pair_sig (SignByte sk m) = pair_key (GetPublicKey sk) m;
  add_law a b : pair_sig (sg_Add a b) = gt_add (pair_sig a) (pair_sig b);
  aggregate_law s pks msgs : Forall (λ pk, pk_IsZero pk = false) pks →
    Forall (λ m, length m = 32%nat) msgs → length pks = length msgs →
    AggregateVerifyNoCheck s pks (concat msgs) = true ↔
    pair_sig s = foldr gt_add gt_zero (zip_with pair_key pks msgs);
  fast_law s pks m : Forall (λ pk, pk_IsZero pk = false) pks →
    lib_FastAggregateVerify s pks m = true ↔ pair_sig s = foldr gt_add gt_zero (map (λ pk, pair_key pk m) pks);
  mulvec_law ss rs : length ss = length rs →
    pair_sig (G2MulVec ss rs) = foldr gt_add gt_zero (zip_with gt_mul rs (map pair_sig ss));
  mul_law pk r m : pair_key (G1Mul pk r) m = gt_mul r (pair_key pk m);
  zero_law a : gt_add a gt_zero = a;
  scalar_law v : (0 ≤ v < 2 ^ 64)%Z → ∃ r, SetLittleEndian (le_bytes 8 v) = Ok r ∧ fr_zero r = bool_decide (v = 0%Z) }.

(** The same verdicts on infinite keys, such as a key multiplied by zero: the equation
    that the comment of [VerifyMultipleSignatures] gives, taken to hold of them too.  A
    library that refuses infinite keys does not have these laws; only
    [VerifyMultipleSignatures_spec] assumes them. *)
Class InfiniteKeys {Sk Pk Sg Fr GT} {B : Bls12 Sk Pk Sg Fr} (P : Pairing B GT) := {
  verify_infinite s pk m : pk_IsZero pk = true → VerifyByte s pk m = true ↔ pair_sig s = pair_key pk m;
  aggregate_infinite s pks msgs : Exists (λ pk, pk_IsZero pk = true) pks →
    Forall (λ m, length m = 32%nat) msgs → length pks = length msgs →
    AggregateVerifyNoCheck s pks (concat msgs) = true ↔
    pair_sig s = foldr gt_add gt_zero (zip_with pair_key pks msgs) }.

Section signatures.
Context {Sk Pk Sg Fr GT} {B : Bls12 Sk Pk Sg Fr} {P : Pairing B GT}.
Implicit Types (st : keys (Pk := Pk)).

Abbreviation gt_sum := (foldr gt_add gt_zero).

(** Sums that differ in at most one place. *)
Lemma gt_sum_ext (xs ys : list GT) j :
  length xs = length ys → (∀ i, i ≠ j → xs !! i = ys !! i) → gt_sum xs = gt_sum ys ↔ xs !! j = ys !! j.
Proof.
  revert j ys. induction xs as [|x xs IH]; intros j [|y ys] Hlen Hext; cbn; try done.
  injection Hlen as Hlen. destruct j as [|j].
  - assert (xs = ys) as ->.
    { apply list_eq. intros i. by apply (Hext (S i)). }
    cbn. split; [|by intros [= ->]]. rewrite (gt_comm x), (gt_comm y). by intros ->%gt_cancel.
  - specialize (Hext 0%nat ltac:(done)) as H0. injection H0 as ->. cbn. rewrite <-(IH j ys).
    + split; [apply gt_cancel|by intros ->].
    + done.
    + intros i Hi. apply (Hext (S i)). congruence.
Qed.

Definition keys_at st (ks : list pubkey) (pks : list Pk) : Prop :=
  Forall2 (λ k x, ∃ l, k = Key (Some l) ∧ heap st !! l = Some x) ks pks.

Lemma deref_run st k x : (∃ l, k = Key (Some l) ∧ heap st !! l = Some x) → deref k st = Ret (x, st).
Proof. intros (l & -> & Hl). cbn. by rewrite Hl. Qed.

Lemma deref_all_run st ks pks : keys_at st ks pks → deref_all ks st = Ret (pks, st).
Proof.
  induction 1 as [|k x ks pks Hk Hks IH]; [done|]. cbn [deref_all].
  by rewrite go_bind_run, (deref_run st k x Hk), go_bind_run, IH.
Qed.

Lemma add_loop_sum acc ss : ∃ s, add_loop acc (map Some ss) = Ret s ∧
  pair_sig s = gt_add (pair_sig acc) (gt_sum (map pair_sig ss)).
Proof.
  revert acc. induction ss as [|x ss IH]; intros acc; [exists acc; split; [done|by cbn; rewrite zero_law]|].
  cbn. destruct (IH (sg_Add acc x)) as (s & -> & E). exists s. split; [done|]. by rewrite E, add_law, gt_assoc.
Qed.

Lemma AggregateSignatures_sum ss : ss ≠ [] → ∃ s, AggregateSignatures (map Some ss) = Ret (Some s) ∧
  pair_sig s = gt_sum (map pair_sig ss).
Proof.
  destruct ss as [|x ss]; [done|]. intros _. destruct (add_loop_sum x ss) as (s & Hs & E). exists s. split; [|done].
  cbn. by rewrite Hs.
Qed.

(** Signature by signature. *)
Definition all_valid (ss : list Sg) (pks : list Pk) (msgs : list bytes) : Prop :=
  ∀ i s pk m, ss !! i = Some s → pks !! i = Some pk → msgs !! i = Some m → VerifyByte s pk m = true.

(** One signature, [j], is not valid and the others are. *)
Definition one_invalid (ss : list Sg) (pks : list Pk) (msgs : list bytes) (j : nat) : Prop :=
  (∃ s pk m, ss !! j = Some s ∧ pks !! j = Some pk ∧ msgs !! j = Some m ∧ VerifyByte s pk m = false) ∧
  ∀ i s pk m, i ≠ j → ss !! i = Some s → pks !! i = Some pk → msgs !! i = Some m → VerifyByte s pk m = true.

Abbreviation finite := (Forall (λ pk, pk_IsZero pk = false)).

(** The verdict on [s], [pk] and [m] is that of the equation. *)
Definition lawful (pks : list Pk) : Prop :=
  ∀ s pk m, pk ∈ pks → VerifyByte s pk m = true ↔ pair_sig s = pair_key pk m.

Lemma finite_lawful pks : finite pks → lawful pks.
Proof. intros H s pk m Hpk. apply verify_law. rewrite Forall_forall in H. by apply H. Qed.

Lemma lookup_equation ss pks msgs i s pk m : lawful pks → ss !! i = Some s → pks !! i = Some pk → msgs !! i = Some m →
  map pair_sig ss !! i = zip_with pair_key pks msgs !! i ↔ VerifyByte s pk m = true.
Proof.
  intros Hl Hs Hp Hm. rewrite (Hl s pk m (list_elem_of_lookup_2 _ _ _ Hp)).
  rewrite lookup_zip_with, list_lookup_fmap, Hs, Hp, Hm. cbn. split; [by intros [= ->]|by intros ->].
Qed.

Lemma valid_zip ss pks msgs : lawful pks → length ss = length pks → length pks = length msgs → all_valid ss pks msgs →
  map pair_sig ss = zip_with pair_key pks msgs.
Proof.
  intros Hl H1 H2 Hv. apply list_eq. intros i. destruct (ss !! i) as [s|] eqn:Hs.
  - destruct (lookup_lt_is_Some_2 pks i) as [pk Hp]; [apply lookup_lt_Some in Hs; lia|].
    destruct (lookup_lt_is_Some_2 msgs i) as [m Hm]; [apply lookup_lt_Some in Hs; lia|].
    apply (lookup_equation ss pks msgs i s pk m); [done..|]. by eapply Hv.
  - rewrite list_lookup_fmap, Hs, lookup_zip_with. apply lookup_ge_None in Hs.
    by rewrite (lookup_ge_None_2 pks) by lia.
Qed.

(** One signature that is not valid spoils the sum. *)
Lemma invalid_sum ss pks msgs j : lawful pks → length ss = length pks → length pks = length msgs →
  one_invalid ss pks msgs j → gt_sum (map pair_sig ss) ≠ gt_sum (zip_with pair_key pks msgs).
Proof.
  intros Hl H1 H2 [(s & pk & m & Hs & Hp & Hm & Hbad) Hv] E.
  apply (gt_sum_ext _ _ j) in E.
  - apply (lookup_equation ss pks msgs j s pk m Hl) in E; [congruence|done..].
  - rewrite length_zip_with, length_map. lia.
  - intros i Hi. destruct (ss !! i) as [s'|] eqn:Hs'.
    + destruct (lookup_lt_is_Some_2 pks i) as [pk' Hp']; [apply lookup_lt_Some in Hs'; lia|].
      destruct (lookup_lt_is_Some_2 msgs i) as [m' Hm']; [apply lookup_lt_Some in Hs'; lia|].
      apply (lookup_equation ss pks msgs i s' pk' m' Hl); [done..|]. by eapply Hv.
    + rewrite list_lookup_fmap, Hs', lookup_zip_with. apply lookup_ge_None in Hs'.
      by rewrite (lookup_ge_None_2 pks) by lia.
Qed.

(** The two ways to verify an aggregate [s]: each compares it with the sum over the keys. *)
Lemma AggregateVerify_equation st ks pks s msgs :
  keys_at st ks pks → finite pks → pks ≠ [] → length pks = length msgs → Forall (λ m, length m = 32%nat) msgs →
  ∃ b, AggregateVerify s ks msgs st = Ret (b, st) ∧ (b = true ↔ pair_sig s = gt_sum (zip_with pair_key pks msgs)).
Proof.
  intros Hks Hfin Hne Hl Hm. pose proof (Forall2_length _ _ _ Hks) as Hlen. unfold AggregateVerify.
  rewrite decide_False by (intros H; apply Hne, nil_length_inv; congruence).
  rewrite decide_False by (intros H; apply H; congruence).
  rewrite go_bind_run, (deref_all_run st ks pks Hks). eexists. split; [reflexivity|]. by apply aggregate_law.
Qed.

Lemma FastAggregateVerify_equation st ks pks s m :
  keys_at st ks pks → finite pks → pks ≠ [] →
  ∃ b, FastAggregateVerify s ks m st = Ret (b, st) ∧
    (b = true ↔ pair_sig s = gt_sum (zip_with pair_key pks (replicate (length pks) m))).
Proof.
  intros Hks Hfin Hne. pose proof (Forall2_length _ _ _ Hks) as Hlen. unfold FastAggregateVerify.
  rewrite decide_False by (intros H; apply Hne, nil_length_inv; congruence).
  rewrite go_bind_run, (deref_all_run st ks pks Hks). eexists. split; [reflexivity|].
  rewrite (fast_law s pks m Hfin). assert (zip_with pair_key pks (replicate (length pks) m) = map (λ pk, pair_key pk m) pks) as ->; [|done].
  clear. induction pks as [|pk pks IH]; [done|]. cbn. by rewrite IH.
Qed.

(** C34: signatures by keys that are not infinite, of as many messages of 32 bytes, are
    aggregated into one that [AggregateVerify] accepts when all of them are valid and
    refuses when exactly one is not, and so does [FastAggregateVerify] when the messages
    are the same (two that are not valid may cancel out).  What [Sign] makes is valid
    under the public key of the secret key. *)
Theorem AggregateSignatures_verifies st ks pks ss msgs :
  keys_at st ks pks → Forall (λ pk, pk_IsZero pk = false) pks → ss ≠ [] →
  length ss = length pks → length pks = length msgs → Forall (λ m, length m = 32%nat) msgs →
  ∃ s, AggregateSignatures (map Some ss) = Ret (Some s) ∧
    (all_valid ss pks msgs →
      AggregateVerify s ks msgs st = Ret (true, st) ∧
      ∀ m, msgs = replicate (length pks) m → FastAggregateVerify s ks m st = Ret (true, st)) ∧
    (∀ j, one_invalid ss pks msgs j →
      AggregateVerify s ks msgs st = Ret (false, st) ∧
      ∀ m, msgs = replicate (length pks) m → FastAggregateVerify s ks m st = Ret (false, st)) ∧
    (∀ sk m k, pk_IsZero (GetPublicKey sk) = false → keys_at st [k] [GetPublicKey sk] →
      Verify (sk_Sign sk m) k m st = Ret (true, st)).
Proof.
  intros Hks Hfin Hne H1 H2 Hm. destruct (AggregateSignatures_sum ss Hne) as (s & Hs & E). exists s. split; [done|].
  assert (pks ≠ []) as Hpks by (intros ->; by apply Hne, nil_length_inv).
  destruct (AggregateVerify_equation st ks pks s msgs) as (b & -> & Hb); [done..|].
  pose proof (finite_lawful pks Hfin) as Hl. rewrite E in Hb.
  assert (∀ m, msgs = replicate (length pks) m → FastAggregateVerify s ks m st = Ret (b, st)) as Hfast.
  { intros m Hrep. destruct (FastAggregateVerify_equation st ks pks s m Hks Hfin Hpks) as (b' & -> & Hb').
    rewrite <-Hrep, E in Hb'. do 2 f_equal. apply eq_true_iff_eq. by rewrite Hb, Hb'. }
  split_and!.
  - intros Hv. rewrite (proj2 Hb) in * by (by rewrite (valid_zip ss pks msgs)). by split.
  - intros j Hj. assert (b = false) as ->; [|by split].
    destruct b; [|done]. exfalso. by apply (invalid_sum ss pks msgs j Hl H1 H2 Hj), Hb.
  - intros sk m k Hz Hk. unfold Verify, sk_Sign. inversion Hk as [|? ? ? ? Hk0' _]. subst.
    rewrite go_bind_run, (deref_run st k _ Hk0'), Hz. rewrite (proj2 (verify_law (SignByte sk m) _ m Hz)); [done|]. apply sign_law.
Qed.

(** The numbers that are drawn for [n] signatures. *)
Fixpoint drawn (n : nat) (reader : bytes) : list Z :=
  match n with O => [] | S n => be_val (take 8 reader) :: drawn n (drop 8 reader) end.

Lemma draw_loop_run ss reader :
  Forall byte_ok reader → (8 * length ss ≤ length reader)%nat →
  ∃ rs, draw_loop reader (map Some ss) = Ret (Ok (rs, ss)) ∧ length rs = length ss ∧
    ∀ i v r, drawn (length ss) reader !! i = Some v → rs !! i = Some r → fr_zero r = bool_decide (v = 0%Z).
Proof.
  revert reader. induction ss as [|s ss IH]; intros reader Hb Hlen; [exists []; by split_and!|].
  cbn [length] in Hlen. cbn [map draw_loop]. unfold source_Uint64. rewrite (proj2 (Nat.leb_le _ _)) by lia. cbn [mbind outcome_bind].
  assert (0 ≤ be_val (take 8 reader) < 2 ^ 64)%Z as Hv.
  { unfold be_val. pose proof (le_val_range (reverse (take 8 reader))) as H. rewrite length_reverse, length_take_le in H by lia.
    apply H. by apply Forall_reverse, Forall_take. }
  destruct (scalar_law _ Hv) as (r & -> & Hr). cbn.
  destruct (IH (drop 8 reader)) as (rs & -> & Hl & Hrs); [by apply Forall_drop|rewrite length_drop; lia|].
  exists (r :: rs). cbn. split_and!; [done|by rewrite Hl|]. intros [|i] v r'; cbn; [by intros [= <-] [= <-]|]. apply Hrs.
Qed.

Lemma multi_loop_run st ks pks rs : keys_at st ks pks → length rs = length pks →
  multi_loop ks rs st = Ret (Ok (zip_with G1Mul pks rs), st).
Proof.
  intros Hks. revert rs. induction Hks as [|k x ks pks Hk Hks IH]; intros [|r rs] Hlen; try done.
  pose proof Hk as (l & -> & _). cbn [multi_loop].
  rewrite go_bind_run, (deref_run st _ x Hk), go_bind_run, IH by (by injection Hlen). done.
Qed.

Lemma multiplied_keys pks rs msgs : length rs = length pks →
  zip_with pair_key (zip_with G1Mul pks rs) msgs = zip_with gt_mul rs (zip_with pair_key pks msgs).
Proof.
  revert rs msgs. induction pks as [|pk pks IH]; intros [|r rs] [|m msgs] Hlen; try done.
  cbn. rewrite mul_law, IH by (by injection Hlen). done.
Qed.

(** With infinite keys too. *)
Context {Q : InfiniteKeys P}.

Lemma verify_any s pk m : VerifyByte s pk m = true ↔ pair_sig s = pair_key pk m.
Proof. destruct (pk_IsZero pk) eqn:E; [by apply verify_infinite|by apply verify_law]. Qed.

Lemma aggregate_any s pks msgs : Forall (λ m, length m = 32%nat) msgs → length pks = length msgs →
  AggregateVerifyNoCheck s pks (concat msgs) = true ↔ pair_sig s = gt_sum (zip_with pair_key pks msgs).
Proof.
  intros Hm Hl. destruct (decide (Exists (λ pk, pk_IsZero pk = true) pks)) as [He|He]; [by apply aggregate_infinite|].
  apply aggregate_law; [|done..]. apply not_Exists_Forall in He; [|apply _].
  eapply Forall_impl; [exact He|]. intros pk H. by apply not_true_is_false in H.
Qed.

(** C35: [VerifyMultipleSignatures] accepts when every signature is valid for its key
    and message; when one is not, it is refused unless the number drawn for it is
    zero, which the generator does not exclude. *)
Theorem VerifyMultipleSignatures_spec st ks pks ss msgs reader :
  keys_at st ks pks → ss ≠ [] → length ss = length pks → length pks = length msgs →
  Forall (λ m, length m = 32%nat) msgs → Forall byte_ok reader → (8 * length ss ≤ length reader)%nat →
  ∃ b, VerifyMultipleSignatures reader (map Some ss) msgs ks st = Ret (Ok b, st) ∧
    (all_valid ss pks msgs → b = true) ∧
    ∀ j s pk m v, ss !! j = Some s → pks !! j = Some pk → msgs !! j = Some m →
      drawn (length ss) reader !! j = Some v → VerifyByte s pk m = false →
      (∀ i s' pk' m', i ≠ j → ss !! i = Some s' → pks !! i = Some pk' → msgs !! i = Some m' → VerifyByte s' pk' m' = true) →
      b = bool_decide (v = 0%Z).
Proof.
  intros Hks Hne H1 H2 Hm Hb Hrd. pose proof (Forall2_length _ _ _ Hks) as Hlen.
  destruct (draw_loop_run ss reader Hb Hrd) as (rs & Hdraw & Hrs & Hz).
  assert (length ss ≠ 0%nat) as Hs0 by (by intros ?%nil_length_inv).
  exists (AggregateVerifyNoCheck (G2MulVec ss rs) (zip_with G1Mul pks rs) (concat msgs)). split_and!.
  - unfold VerifyMultipleSignatures. rewrite length_map.
    rewrite decide_False by (intros [?|?]; congruence). rewrite decide_False by (intros [Hn|Hn]; apply Hn; congruence).
    rewrite Hdraw, go_bind_run, (multi_loop_run st ks pks rs Hks) by congruence. done.
  - intros Hv. apply aggregate_any; [done|rewrite length_zip_with; lia|].
    rewrite mulvec_law, multiplied_keys by congruence.
    rewrite (valid_zip ss pks msgs); [done|intros s pk m _; apply verify_any|done..].
  - intros j s pk m v Hs Hp Hmj Hv Hbad Hothers.
    assert (is_Some (rs !! j)) as [r Hr] by (apply lookup_lt_is_Some; apply lookup_lt_Some in Hs; lia).
    specialize (Hz j v r Hv Hr). apply eq_true_iff_eq.
    rewrite aggregate_any by (done || rewrite length_zip_with; lia).
    rewrite mulvec_law, multiplied_keys by congruence. rewrite (gt_sum_ext _ _ j).
    + rewrite !lookup_zip_with, list_lookup_fmap, Hr, Hs, Hp, Hmj. cbn. rewrite <-Hz. split.
      * intros [= E]. destruct (fr_zero r) eqn:Hzr; [done|]. apply gt_mul_inj in E; [|done].
        apply verify_any in E. congruence.
      * intros Hzr. by rewrite !gt_mul_zero.
    + rewrite !length_zip_with, length_map. lia.
    + intros i Hi. rewrite !lookup_zip_with, list_lookup_fmap. destruct (rs !! i) as [r'|] eqn:Hri; [|done].
      destruct (ss !! i) as [s'|] eqn:Hsi; cbn.
      * destruct (lookup_lt_is_Some_2 pks i) as [pk' Hpk']; [apply lookup_lt_Some in Hsi; lia|].
        destruct (lookup_lt_is_Some_2 msgs i) as [m' Hm']; [apply lookup_lt_Some in Hsi; lia|].
        rewrite Hpk', Hm'. cbn. do 2 f_equal. apply verify_any. by eapply Hothers.
      * apply lookup_ge_None in Hsi. rewrite (lookup_ge_None_2 pks) by lia. done.
Qed.
End signatures.

(** ** A toy library

    Keys, signatures and scalars are integers, and a message hashes to one more than
    the sum of its bytes: the equations hold, so what is proved from them is not
    vacuous. *)

Section toy.
Local Open Scope Z_scope.

Definition toy_hash (m : bytes) : Z := 1 + foldr Z.add 0 m.
Definition toy_sum (pks : list Z) (msgs : list bytes) : Z := foldr Z.add 0 (zip_with (λ pk m, pk * toy_hash m) pks msgs).
Fixpoint chunks (n : nat) (b : bytes) : list bytes :=
  match n with O => [] | S n => take 32 b :: chunks n (drop 32 b) end.

Definition toy : Bls12 Z Z Z Z := {|
  sk_Deserialize b := Ok (le_val b);
  sk_Serialize s := le_bytes 32 s;
  sk_IsZero s := s =? 0;
  GetPublicKey s := s;
  SignByte s m := s * toy_hash m;
  pk_Deserialize b := Ok (le_val b);
  pk_Serialize p := le_bytes 48 p;
  pk_IsZero p := p =? 0;
  pk_Add := Z.add;
  sg_Deserialize b := Ok (le_val b);
  sg_Serialize s := le_bytes 96 s;
  sg_SerializeToHexStr s := HexEncode (le_bytes 96 s);
  sg_Add := Z.add;
  HashAndMapToSignature := toy_hash;
  VerifyByte s pk m := s =? pk * toy_hash m;
  AggregateVerifyNoCheck s pks b := s =? toy_sum pks (chunks (length pks) b);
  lib_FastAggregateVerify s pks m := s =? toy_sum pks (replicate (length pks) m);
  SetLittleEndian b := Ok (le_val b);
  G2MulVec ss rs := foldr Z.add 0 (zip_with Z.mul rs ss);
  G1Mul pk r := r * pk |}.

Lemma chunks_concat msgs : Forall (λ m, length m = 32%nat) msgs → chunks (length msgs) (concat msgs) = msgs.
Proof.
  induction 1 as [|m msgs Hm Hms IH]; [done|]. cbn [length chunks concat].
  by rewrite take_app_length', drop_app_length', IH.
Qed.

Definition toy_laws : Pairing toy Z.
Proof.
  refine {| gt_add := Z.add; gt_zero := 0; gt_mul := Z.mul; fr_zero r := r =? 0; pair_sig s := s;
            pair_key pk m := pk * toy_hash m |}.
  - intros; lia.
  - intros; lia.
  - intros; lia.
  - intros r a b Hr%Z.eqb_neq. by apply Z.mul_reg_l.
  - by intros r a ->%Z.eqb_eq.
  - intros s pk m _. apply Z.eqb_eq.
  - done.
  - done.
  - intros s pks msgs _ Hm Hl. cbn. rewrite Z.eqb_eq, Hl, chunks_concat by done. done.
  - intros s pks m _. cbn. rewrite Z.eqb_eq. unfold toy_sum.
    assert (zip_with (λ pk m, pk * toy_hash m) pks (replicate (length pks) m) = map (λ pk, pk * toy_hash m) pks) as ->; [|done].
    induction pks as [|pk pks IH]; [done|]. cbn. by rewrite IH.
  - intros ss rs _. cbn. by rewrite map_id.
  - intros pk r m. cbn. lia.
  - intros a. lia.
  - intros v Hv. exists v. change (SetLittleEndian (le_bytes 8 v)) with (Ok (E := string) (le_val (le_bytes 8 v))).
    rewrite le_val_le_bytes, Z.mod_small by exact Hv. split; [done|].
    apply eq_true_iff_eq. by rewrite Z.eqb_eq, bool_decide_eq_true.
Defined.

Definition toy_infinite : InfiniteKeys toy_laws.
Proof.
  split.
  - intros s pk m _. apply Z.eqb_eq.
  - intros s pks msgs _ Hm Hl. cbn. rewrite Z.eqb_eq, Hl, chunks_concat by done. done.
Defined.
End toy.

Lemma PublicKeyFromBytes_isolated_witness :
  let k (x : Z) := x :: replicate 47 0%Z in
  let keeps (_ : bytes) := true in
  let ops := [OFromBytes keeps (k 5%Z); OFromBytes keeps (k 7%Z); OAggregate 0 1; OFromBytes keeps (k 5%Z)] in
  match key_run (B := toy) ops (fresh_keys, []) with
  | Ret (st, outs) =>
      map (λ o, match o with Key (Some l) => heap st !! l | _ => None end) outs = [Some 12; Some 7; Some 12; Some 5]%Z ∧
      ∃ st', match decode_key (B := toy) (k 5%Z) with
             | Ok x => ∃ p, PublicKeyFromBytes (B := toy) keeps (k 5%Z) st = Ret (Ok (Key (Some p)), st') ∧ heap st' !! p = Some x
             | Err _ => False
             end
  | _ => False
  end.
Proof.
  cbn zeta. set (k := λ x : Z, x :: replicate 47 0%Z).
  assert (∃ st outs, key_run (B := toy) [OFromBytes (λ _, true) (k 5%Z); OFromBytes (λ _, true) (k 7%Z); OAggregate 0 1;
    OFromBytes (λ _, true) (k 5%Z)] (fresh_keys, []) = Ret (st, outs) ∧
    map (λ o, match o with Key (Some l) => heap st !! l | _ => None end) outs = [Some 12; Some 7; Some 12; Some 5]%Z)
    as (st & outs & E & Hv) by (do 2 eexists; split; vm_compute; reflexivity).
  rewrite E. split; [done|].
  destruct (PublicKeyFromBytes_isolated _ st outs (λ _, true) [] E) as [H _]. destruct (H (k 5%Z)) as (st' & _ & H').
  exists st'. change (decode_key (k 5%Z)) with (Ok (E := err) 5%Z) in *. destruct H' as (p & H1 & H2 & _). by exists p.
Defined.

(** Two good signatures, and one that is not with a good one. *)
Lemma AggregateSignatures_verifies_witness :
  let st : keys (Pk := Z) := mkKeys [3; 4]%Z ∅ in
  let ks := [Key (Some 0%nat); Key (Some 1%nat)] in
  let m : bytes := replicate 32 1%Z in
  let good := sk_Sign (B := toy) 3%Z m in
  (∃ s, AggregateSignatures (B := toy) (map Some [good; sk_Sign (B := toy) 4%Z m]) = Ret (Some s) ∧
    AggregateVerify (B := toy) s ks [m; m] st = Ret (true, st)) ∧
  (∃ s, AggregateSignatures (B := toy) (map Some [good; 1000%Z]) = Ret (Some s) ∧
    AggregateVerify (B := toy) s ks [m; m] st = Ret (false, st)).
Proof.
  cbn zeta. set (m := replicate 32 1%Z).
  assert (∀ b, ∃ s, AggregateSignatures (B := toy) (map Some [99; b]%Z) = Ret (Some s) ∧
    (b = 132%Z → AggregateVerify (B := toy) s [Key (Some 0%nat); Key (Some 1%nat)] [m; m] (mkKeys [3; 4]%Z ∅) = Ret (true, mkKeys [3; 4]%Z ∅)) ∧
    (b = 1000%Z → AggregateVerify (B := toy) s [Key (Some 0%nat); Key (Some 1%nat)] [m; m] (mkKeys [3; 4]%Z ∅) = Ret (false, mkKeys [3; 4]%Z ∅)))
    as H.
  { intros b. destruct (AggregateSignatures_verifies (P := toy_laws) (mkKeys [3; 4]%Z ∅) [Key (Some 0%nat); Key (Some 1%nat)]
      [3; 4]%Z [99; b]%Z [m; m]) as (s & H1 & H2 & H3 & _); [repeat constructor; by eexists|by repeat constructor|done..|by repeat constructor|].
    exists s. split; [done|]. split.
    - intros ->. refine (proj1 (H2 _)). intros [|[|i]] s' pk' m'; cbn; intros [= <-] [= <-] [= <-]; done.
    - intros ->. refine (proj1 (H3 1%nat _)). split; [by exists 1000%Z, 4%Z, m|].
      intros [|[|i]] s' pk' m' Hi; cbn; try done. by intros [= <-] [= <-] [= <-]. }
  split.
  - destruct (H 132%Z) as (s & H1 & H2 & _). exists s. split; [exact H1|by apply H2].
  - destruct (H 1000%Z) as (s & H1 & _ & H2). exists s. split; [exact H1|by apply H2].
Defined.

Lemma VerifyMultipleSignatures_spec_witness :
  let st : keys (Pk := Z) := mkKeys [3; 4]%Z ∅ in
  let m : bytes := replicate 32 1%Z in
  VerifyMultipleSignatures (B := toy) (replicate 16 0%Z) (map Some [99; 1000]%Z) [m; m]
    [Key (Some 0%nat); Key (Some 1%nat)] st = Ret (Ok true, st).
Proof.
  destruct (VerifyMultipleSignatures_spec (Q := toy_infinite) (mkKeys [3; 4]%Z ∅) [Key (Some 0%nat); Key (Some 1%nat)] [3; 4]%Z
    [99; 1000]%Z [replicate 32 1%Z; replicate 32 1%Z] (replicate 16 0%Z)) as (b & H1 & _ & H2).
  - repeat constructor; by eexists.
  - done.
  - done.
  - done.
  - repeat constructor.
  - repeat constructor; lia.
  - cbn. lia.
  - cbn zeta. rewrite H1. do 3 f_equal. change true with (bool_decide (0 = 0)%Z). eapply (H2 1%nat); [done..|].
    intros [|[|i]] s pk m Hi; cbn; try done. by intros [= <-] [= <-] [= <-].
Defined.
