(* ===== verification/Wallet.v ===== *)
(** * Wallets (wallet/wallet.go)

    A wallet is a directory with one subdirectory named after its kind.  The order in
    which the system lists the names of a directory is an argument, and so is
    [filepath.Glob] of a path with meta characters. *)

From stdpp Require Import sorting.
From S2P Require Import Prelude GoText GoPath GoFs FileUtil.

(** [Kind] is an [int]. *)
Abbreviation Kind := Z.
Definition Imported : Kind := 0%Z.
Definition Derived : Kind := 1%Z.
Definition Remote : Kind := 2%Z.

Definition Kind_String (k : Kind) : string :=
  if decide (k = Derived) then "derived"
  else if decide (k = Imported) then "direct"
  else if decide (k = Remote) then "remote"
  else FormatInt k.

Definition ParseKind (k : string) : result err Kind :=
  if decide (k = "derived") then Ok Derived
  else if decide (k = "direct") then Ok Imported
  else if decide (k = "remote") then Ok Remote
  else Err (EText (k +:+ " is not an allowed keymanager")).

Record Config := mkConfig { WalletDir : string; KeymanagerKind : Kind; WalletPassword : string }.
(** Without [configFilePath], which nothing sets or reads. *)
Record Wallet := mkWallet {
  walletDir : string;
  accountsPath : string;
  keymanagerKind : Kind;
  walletPassword : string }.

Definition NewWallet (cfg : Config) : Wallet :=
  mkWallet (WalletDir cfg) (JoinPath [WalletDir cfg; Kind_String (KeymanagerKind cfg)]) (KeymanagerKind cfg)
    (WalletPassword cfg).

Definition ErrNoWalletFound : err :=
  EText ("no wallet found. You can create a new wallet with `validator wallet create`. " +:+
         "If you already did, perhaps you created a wallet in a custom directory, which you can specify using " +:+
         "`--wallet-dir=/path/to/my/wallet`").
Definition CheckExistsErrMsg : string := "could not check if wallet exists".
Definition CheckValidityErrMsg : string := "could not check if wallet is valid".
Definition InvalidWalletErrMsg : string := "directory does not contain valid wallet".

#[export] Instance errno_eq_dec : EqDecision errno.
Proof. solve_decision. Defined.
#[export] Instance err_eq_dec : EqDecision err.
Proof. solve_decision. Defined.

(** [errors.Is(err, ErrNoWalletFound)]. *)
Fixpoint is_no_wallet (e : err) : bool :=
  bool_decide (e = ErrNoWalletFound) || match e with EWrap _ e => is_no_wallet e | _ => false end.

Section wallet.
Variable order : list string → list string.
Variable glob : world → string → result err (list string).

(** [os.Open] and [Readdirnames]. *)
Definition Open (w : world) (p : string) : result err (key * entry) := find_entry "open" w p.
Definition Readdirnames (w : world) (p : string) (f : key * entry) : result err (list string) :=
  match f with
  | (k, EDir _) => Ok (order (names (w_fs w) k))
  | (_, EFile _ _) => Err (EPath "readdirent" p ENOTDIR)
  end.

(** The parsed kinds among names. *)
Definition kinds (l : list string) : list Kind := omap (λ n, match ParseKind n with Ok k => Some k | Err _ => None end) l.

Definition IsValid (w : world) (walletDir : string) : result err bool :=
  let expanded := ExpandPath w walletDir in
  match Open w expanded with
  | Err e =>
      if Contains (Error e) "no such file" || Contains (Error e) "cannot find the file" ||
         Contains (Error e) "cannot find the path"
      then Ok false else Err e
  | Ok f =>
      l ← Readdirnames w expanded f;
      if decide (length l = 0%nat) then Err ErrNoWalletFound
      else Ok (bool_decide (length (kinds l) = 1%nat))
  end.

Definition Exists (w : world) (walletDir : string) : result err bool :=
  match HasDir w walletDir with
  | Err e => Err (EWrap "could not parse wallet directory" e)
  | Ok dirExists =>
      match IsValid w walletDir with
      | Err e => if is_no_wallet e then Ok false else Err (EWrap "could not check if dir is valid" e)
      | Ok isValid => Ok (dirExists && isValid)
      end
  end.

(** The first name of a kind. *)
Fixpoint first_kind (l : list string) : result err Kind :=
  match l with
  | [] => Err (EText "no keymanager folder (imported, remote, derived) found in wallet path")
  | n :: l => match ParseKind n with Ok k => Ok k | Err _ => first_kind l end
  end.
Definition readKeymanagerKindFromWalletPath (w : world) (walletPath : string) : result err Kind :=
  walletItem ← Open w walletPath;
  match Readdirnames w walletPath walletItem with
  | Err _ => Err (EText ("could not read files in directory: " +:+ walletPath))
  | Ok l => first_kind l
  end.

Definition OpenWallet (w : world) (cfg : Config) : result err Wallet :=
  match Exists w (WalletDir cfg) with
  | Err e => Err (EWrap CheckExistsErrMsg e)
  | Ok false => Err ErrNoWalletFound
  | Ok true =>
      match IsValid w (WalletDir cfg) with
      | Err e => if is_no_wallet e then Err ErrNoWalletFound else Err (EWrap CheckValidityErrMsg e)
      | Ok false => Err (EText InvalidWalletErrMsg)
      | Ok true =>
          match readKeymanagerKindFromWalletPath w (WalletDir cfg) with
          | Err e => Err (EWrap "could not read keymanager kind for wallet" e)
          | Ok keymanagerKind =>
              Ok (mkWallet (WalletDir cfg) (JoinPath [WalletDir cfg; Kind_String keymanagerKind]) keymanagerKind
                    (WalletPassword cfg))
          end
      end
  end.

Definition hasMeta (p : string) : bool :=
  negb (str_forall (λ c, negb (bool_decide (c ∈ ["*"; "?"; "["; "\"]%char))) p).
Definition Glob (w : world) (p : string) : result err (list string) :=
  if hasMeta p then glob w p
  else match find_entry "lstat" w p with Ok _ => Ok [p] | Err _ => Ok [] end.

(** The file read, and the world with the directory made for it. *)
Definition ReadFileAtPath (w : world) (wl : Wallet) (filePath fileName : string) : world * result err string :=
  let accountPath := JoinPath [accountsPath wl; filePath] in
  match HasDir w accountPath with
  | Err e => (w, Err e)
  | Ok hasDir =>
      match (if hasDir : bool then Ok w else MkdirAll w accountPath) with
      | Err e => (w, Err (EWrap ("could not create path: " +:+ accountPath) e))
      | Ok w =>
          let fullPath := JoinPath [accountPath; fileName] in
          (w, match Glob w fullPath with
              | Err e => Err (EWrap "could not find file" e)
              | Ok [] => Err (EText ("no files found in path: " +:+ fullPath))
              | Ok (m :: _) =>
                  match ReadFile w m with
                  | Err e => Err (EWrap ("could not read path: " +:+ filePath) e)
                  | Ok rawData => Ok rawData
                  end
              end)
      end
  end.
End wallet.

(** ** Opening a wallet *)

Lemma Contains_here s sub : Contains (sub +:+ s) sub = true.
Proof.
  assert (HasPrefix (sub +:+ s) sub = true) as H.
  { induction sub as [|c sub IH]; [by destruct s|]. rewrite str_app_cons. unfold HasPrefix in *. cbn.
    by destruct (ascii_dec c c). }
  destruct sub as [|c sub]; [by destruct s|]. rewrite str_app_cons in *. cbn [Contains]. by rewrite H.
Qed.

Lemma Contains_app a s sub : Contains s sub = true → Contains (a +:+ s) sub = true.
Proof.
  intros H. induction a as [|c a IH]; [by rewrite str_app_nil|]. rewrite str_app_cons. cbn [Contains]. by rewrite IH, orb_true_r.
Qed.

Lemma kinds_perm l l' : l ≡ₚ l' → kinds l ≡ₚ kinds l'.
Proof. intros H. unfold kinds. by rewrite H. Qed.

Lemma first_kind_kinds l kd : kinds l = [kd] → first_kind l = Ok kd.
Proof.
  induction l as [|n l IH]; [done|]. unfold kinds. cbn. destruct (ParseKind n) as [k|e]; [|apply IH].
  by intros [= -> _].
Qed.

(** The names of kinds are those that parse to them. *)
Lemma ParseKind_iff n k : ParseKind n = Ok k ↔ (0 ≤ k ≤ 2)%Z ∧ Kind_String k = n.
Proof.
  unfold ParseKind, Kind_String, Imported, Derived, Remote. split.
  - repeat case_decide; intros [= <-]; subst; (split; [lia|done]).
  - intros [Hk <-]. assert (k = 0 ∨ k = 1 ∨ k = 2)%Z as [->|[->| ->]] by lia; done.
Qed.

Lemma Kind_String_ok k : (0 ≤ k ≤ 2)%Z → name_ok (Kind_String k).
Proof. intros Hk. assert (k = 0 ∨ k = 1 ∨ k = 2)%Z as [->|[->| ->]] by lia; by repeat split. Qed.

Section opening.
Context (order : list string → list string) (order_perm : ∀ l, order l ≡ₚ l).

Lemma IsValid_key w p k :
  fs_ok (w_fs w) → key_ok k → no_file (w_fs w) (tail k) → ExpandPath w p = abs_path k →
  IsValid order w p =
  match w_fs w !! k with
  | None => Ok false
  | Some (EFile _ _) => Err (EPath "readdirent" (abs_path k) ENOTDIR)
  | Some (EDir _) =>
      if decide (names (w_fs w) k = []) then Err ErrNoWalletFound
      else Ok (bool_decide (length (kinds (names (w_fs w) k)) = 1%nat))
  end.
Proof.
  intros Hf Hk Hno Hp. unfold IsValid, Open. rewrite Hp, find_entry_key by done.
  destruct (w_fs w !! k) as [[m d|m]|]; [done| |].
  - cbn. rewrite (Permutation_length (order_perm _)), (Permutation_length (kinds_perm _ _ (order_perm _))).
    by destruct (names (w_fs w) k).
  - change (Error (EPath "open" (abs_path k) ENOENT)) with
      ("open" +:+ " " +:+ abs_path k +:+ ": " +:+ "no such file or directory").
    assert (Contains ("open" +:+ " " +:+ abs_path k +:+ ": " +:+ "no such file or directory") "no such file" = true) as ->;
      [|done]. do 4 apply Contains_app. done.
Qed.

Lemma Exists_true w p : Exists order w p = Ok true → IsValid order w p = Ok true.
Proof.
  unfold Exists. destruct (HasDir w p) as [d|e]; [|done]. destruct (IsValid order w p) as [v|e].
  - intros [= H]. apply andb_true_iff in H as [_ ->]. done.
  - by destruct (is_no_wallet e).
Qed.

Lemma Exists_key w p k :
  fs_ok (w_fs w) → key_ok k → no_file (w_fs w) (tail k) → ExpandPath w p = abs_path k →
  HasDir w p = Ok (dir_at (w_fs w) k).
Proof.
  intros Hf Hk Hno Hp. unfold HasDir, Stat. rewrite Hp, find_entry_key by done.
  unfold dir_at. by destruct (w_fs w !! k) as [[|]|].
Qed.

(** The wallets found, by the directory. *)
Lemma OpenWallet_dir w cfg k :
  fs_ok (w_fs w) → key_ok k → no_file (w_fs w) (tail k) → ExpandPath w (WalletDir cfg) = abs_path k →
  OpenWallet order w cfg =
  match w_fs w !! k with
  | None => Err ErrNoWalletFound
  | Some (EFile _ _) =>
      Err (EWrap CheckExistsErrMsg (EWrap "could not check if dir is valid" (EPath "readdirent" (abs_path k) ENOTDIR)))
  | Some (EDir _) =>
      if decide (length (kinds (names (w_fs w) k)) = 1%nat) then
        match readKeymanagerKindFromWalletPath order w (WalletDir cfg) with
        | Err e => Err (EWrap "could not read keymanager kind for wallet" e)
        | Ok kd => Ok (mkWallet (WalletDir cfg) (JoinPath [WalletDir cfg; Kind_String kd]) kd (WalletPassword cfg))
        end
      else Err ErrNoWalletFound
  end.
Proof.
  intros Hf Hk Hno Hp. unfold OpenWallet, Exists. rewrite (Exists_key _ _ k) by done.
  rewrite (IsValid_key _ _ k) by done. unfold dir_at. destruct (w_fs w !! k) as [[m d|m]|]; [done| |done].
  destruct (names (w_fs w) k) as [|n l] eqn:E; [done|]. rewrite decide_False by done.
  case_bool_decide; [by rewrite decide_True|by rewrite decide_False].
Qed.

Lemma kinds_single w k kd : fs_ok (w_fs w) → kinds (names (w_fs w) k) = [kd] →
  (0 ≤ kd ≤ 2)%Z ∧ is_Some (w_fs w !! (Kind_String kd :: k)).
Proof.
  intros Hf Hkd. assert (kd ∈ kinds (names (w_fs w) k)) as H by (rewrite Hkd; by left).
  apply list_elem_of_omap in H as (n & Hn & Hp). destruct (ParseKind n) as [k'|] eqn:E; [|done]. injection Hp as ->.
  apply ParseKind_iff in E as [Hr <-]. split; [done|]. by apply elem_of_names.
Qed.

Lemma readKeymanagerKind_key w p k kd :
  resolve w p = Ok k → dir_at (w_fs w) k = true → kinds (names (w_fs w) k) = [kd] →
  readKeymanagerKindFromWalletPath order w p = Ok kd.
Proof.
  intros Hp [m Hm]%dir_at_Some Hkd. unfold readKeymanagerKindFromWalletPath, Open, find_entry. rewrite Hp, Hm.
  cbn. apply first_kind_kinds. pose proof (kinds_perm _ _ (order_perm (names (w_fs w) k))) as H.
  rewrite Hkd in H. by apply Permutation_singleton_r in H.
Qed.

(** An absolute path without [$] is what it expands to. *)
Lemma absolute_dir w k : fs_ok (w_fs w) → key_plain k → is_Some (w_fs w !! k) →
  ExpandPath w (abs_path k) = abs_path k ∧ resolve w (abs_path k) = Ok k ∧
  ∀ n, name_ok n → JoinPath [abs_path k; n] = abs_path (n :: k).
Proof.
  intros Hf Hk Hs. split_and!; [by apply ExpandPath_key| |].
  - apply resolve_key; [done|apply Hk|]. destruct k as [|n k]; [apply (fo_root _ Hf)|]. by eapply dir_at_up.
  - intros n Hn. apply JoinPath_name. constructor; [done|apply Hk].
Qed.

(** C36: opening the wallet whose directory expands to the path of the key [k], in
    whatever order the system lists it: no wallet when there is nothing at [k], or a
    directory in which no entry or several are named after a kind; the error of the
    check when a file is there.  With a single such entry it depends on the path as
    given, which the second reading of the directory does not expand: when the system
    finds the directory under it too (an absolute path without [$], a relative one such
    as [./wallet]), the wallet is opened with its kind, the directory of the kind and
    the password given; when it finds nothing (as with [~/]), the error of that reading.
    The error for an invalid directory is never returned, wherever the wallet is. *)
Theorem OpenWallet_spec w cfg k :
  fs_ok (w_fs w) → key_ok k → no_file (w_fs w) (tail k) → ExpandPath w (WalletDir cfg) = abs_path k →
  match w_fs w !! k with
  | None => OpenWallet order w cfg = Err ErrNoWalletFound
  | Some (EFile _ _) => ∃ e, OpenWallet order w cfg = Err (EWrap CheckExistsErrMsg e)
  | Some (EDir _) =>
      match kinds (names (w_fs w) k) with
      | [kd] =>
          is_Some (w_fs w !! (Kind_String kd :: k)) ∧
          (resolve w (WalletDir cfg) = Ok k →
            OpenWallet order w cfg =
              Ok (mkWallet (WalletDir cfg) (JoinPath [WalletDir cfg; Kind_String kd]) kd (WalletPassword cfg))) ∧
          ∀ e, find_entry "open" w (WalletDir cfg) = Err e →
            OpenWallet order w cfg = Err (EWrap "could not read keymanager kind for wallet" e)
      | _ => OpenWallet order w cfg = Err ErrNoWalletFound
      end
  end ∧
  ∀ w' cfg', OpenWallet order w' cfg' ≠ Err (EText InvalidWalletErrMsg).
Proof.
  intros Hf Hk Hno Hp. split.
  - rewrite (OpenWallet_dir w cfg k) by done.
    destruct (w_fs w !! k) as [[m d|m]|] eqn:Hm; [by eexists| |done].
    assert (dir_at (w_fs w) k = true) as Hd by (unfold dir_at; by rewrite Hm).
    destruct (kinds (names (w_fs w) k)) as [|kd [|kd' l]] eqn:Hkd; [done| |done].
    destruct (kinds_single w k kd Hf Hkd) as [Hr Hs]. cbn [length]. rewrite decide_True by done. split; [done|]. split.
    + intros Hres. by rewrite (readKeymanagerKind_key w _ k kd).
    + intros e He. unfold readKeymanagerKindFromWalletPath, Open. by rewrite He.
  - intros w' cfg'. unfold OpenWallet. destruct (Exists order w' (WalletDir cfg')) as [[]|e] eqn:E; [|done|done].
    apply Exists_true in E. rewrite E. by destruct (readKeymanagerKindFromWalletPath _ _ _).
Qed.

(** A valid wallet in the home directory, given with a tilde, is found but not
    opened: the check expands the path and the reading of the kind does not. *)
Theorem OpenWallet_tilde w cfg k kd p :
  fs_ok (w_fs w) → key_plain k → dir_at (w_fs w) k = true → kinds (names (w_fs w) k) = [kd] →
  WalletDir cfg = "~/" +:+ p → ExpandPath w (WalletDir cfg) = abs_path k →
  dir_at (w_fs w) (w_wd w) = true → w_fs w !! ("~" :: w_wd w) = None →
  Exists order w (WalletDir cfg) = Ok true ∧
  OpenWallet order w cfg = Err (EWrap "could not read keymanager kind for wallet" (EPath "open" (WalletDir cfg) ENOENT)).
Proof.
  intros Hf Hk Hd Hkd Hp Hexp [m Hm]%dir_at_Some Hn.
  assert (no_file (w_fs w) (tail k)) as Hno.
  { apply dir_no_file in Hd; [|done]. destruct k; [done|]. by eapply no_file_tail. }
  pose proof Hd as [m' Hm']%dir_at_Some. split.
  - unfold Exists. rewrite (Exists_key _ _ k), (IsValid_key _ _ k), Hd, Hm', Hkd by (done || apply Hk).
    rewrite decide_False; [by rewrite bool_decide_eq_true_2|]. intros E. by rewrite E in Hkd.
  - rewrite (OpenWallet_dir w cfg k), Hm', Hkd by (done || apply Hk). rewrite decide_True by done.
    unfold readKeymanagerKindFromWalletPath, Open, find_entry, resolve. rewrite Hp.
    rewrite decide_False by (rewrite str_app_cons; by intros [=]).
    assert (rooted ("~/" +:+ p) = false) as -> by (by rewrite str_app_cons).
    rewrite !str_app_cons, str_app_nil. change (String "~" (String "/" p)) with ("~" +:+ String slash p).
    rewrite split_on_app by done. cbn [walk]. rewrite Hm, !decide_False by naive_solver.
    destruct (split_on_cons slash p) as (e & l & ->). cbn [walk]. by rewrite Hn.
Qed.
End opening.

(** ** Reading a file of the accounts *)

Section reading.
Context (glob : world → string → result err (list string)).

(** The file in a directory of the accounts, whose names have no meta characters:
    its content when it is there; the error for a missing file, with the directory
    made when it was missing and nothing else changed. *)
Theorem ReadFileAtPath_spec w wl a filePath fileName :
  let dir := filePath :: a in
  let full := fileName :: dir in
  fs_ok (w_fs w) → key_plain full → accountsPath wl = abs_path a → hasMeta (abs_path full) = false →
  no_file (w_fs w) dir →
  match w_fs w !! full with
  | Some (EFile _ d) => ReadFileAtPath glob w wl filePath fileName = (w, Ok d)
  | Some (EDir _) => ∃ e, ReadFileAtPath glob w wl filePath fileName = (w, Err e)
  | None =>
      ∃ f, ReadFileAtPath glob w wl filePath fileName =
        (set_fs f w, Err (EText ("no files found in path: " +:+ abs_path full))) ∧
        ∀ j, f !! j = with_dirs (w_fs w) dir (Z.ldiff 448 (w_umask w)) j
  end.
Proof.
  cbn zeta. intros Hf Hk Ha Hmeta Hno. pose proof (key_plain_cons _ _ Hk) as [Hkd Hn].
  assert (no_file (w_fs w) a) as Hnoa by (by eapply no_file_tail).
  unfold ReadFileAtPath. rewrite Ha, JoinPath_name by apply Hkd. rewrite HasDir_key by done.
  rewrite JoinPath_name by apply Hk. destruct (dir_at (w_fs w) (filePath :: a)) eqn:Hd.
  - unfold Glob. rewrite Hmeta, find_entry_key by (done || apply Hk).
    destruct (w_fs w !! (fileName :: filePath :: a)) as [[m d|m]|] eqn:E.
    + rewrite ReadFile_key, E by (done || apply Hk). done.
    + rewrite ReadFile_key, E by (done || apply Hk). by eexists.
    + exists (w_fs w). split; [by destruct w|]. intros j. unfold with_dirs. destruct (w_fs w !! j) eqn:Ej; [done|].
      rewrite bool_decide_eq_false_2; [done|]. intros [q Hq]. apply dir_at_Some in Hd as [m Hd].
      destruct q as [|x q]; [cbn in Hq; congruence|]. rewrite Hq in Hd.
      assert (dir_at (w_fs w) j = true) as [? Hj]%dir_at_Some; [|congruence].
      eapply (dir_above _ (x :: q)); [done|by eexists|done].
  - assert (w_fs w !! (fileName :: filePath :: a) = None) as E.
    { apply eq_None_not_Some. intros H. apply dir_at_up in H; [|done]. congruence. }
    rewrite E. destruct (MkdirAll_new w (filePath :: a)) as (f & -> & Hf' & Hl); [done..|]. exists f. split; [|done].
    unfold Glob. rewrite Hmeta, find_entry_key; [|done|apply Hk|].
    + cbn [w_fs set_fs]. rewrite Hl. unfold with_dirs. rewrite E, bool_decide_eq_false_2; [done|].
      intros H. apply suffix_length in H. cbn in H. lia.
    + intros j m d Hj. cbn [w_fs set_fs]. rewrite Hl. unfold with_dirs. destruct (w_fs w !! j) eqn:Ej; [|by case_bool_decide].
      rewrite <-Ej. by apply Hno.
Qed.
End reading.

(** ** A wallet in a home directory *)

Definition wallet_world : world :=
  mkWorld {[ [] := EDir 493; ["home"] := EDir 493; ["w"; "home"] := EDir 448; ["direct"; "w"; "home"] := EDir 448;
             ["notes"; "w"; "home"] := EFile 384 "x" ]} ["home"] {[ "HOME" := "/home" ]} None 18.

Lemma wallet_ok : fs_ok (w_fs wallet_world).
Proof. by apply fs_okb_ok. Qed.

Lemma wallet_no_file k : dir_at (w_fs wallet_world) k = true → no_file (w_fs wallet_world) k.
Proof. apply dir_no_file, wallet_ok. Qed.

(** By its absolute path, by a relative one, and by one with a tilde. *)
Lemma OpenWallet_spec_witness :
  OpenWallet (λ l, l) wallet_world (mkConfig "/home/w" 0 "pw") = Ok (mkWallet "/home/w" "/home/w/direct" Imported "pw") ∧
  OpenWallet (λ l, l) wallet_world (mkConfig "./w" 0 "pw") = Ok (mkWallet "./w" "w/direct" Imported "pw") ∧
  ∃ e, OpenWallet (λ l, l) wallet_world (mkConfig "~/w" 0 "pw") =
    Err (EWrap "could not read keymanager kind for wallet" e).
Proof.
  assert (∀ p, ExpandPath wallet_world p = "/home/w" →
    (resolve wallet_world p = Ok ["w"; "home"] →
      OpenWallet (λ l, l) wallet_world (mkConfig p 0 "pw") = Ok (mkWallet p (JoinPath [p; "direct"]) Imported "pw")) ∧
    ∀ e, find_entry "open" wallet_world p = Err e →
      OpenWallet (λ l, l) wallet_world (mkConfig p 0 "pw") = Err (EWrap "could not read keymanager kind for wallet" e)) as Hspec.
  { intros p Hp.
    destruct (OpenWallet_spec (λ l, l) (λ l, reflexivity l) wallet_world (mkConfig p 0 "pw") ["w"; "home"]) as [H _].
    - apply wallet_ok.
    - by apply key_plainb_ok.
    - by apply wallet_no_file.
    - exact Hp.
    - assert (kinds (names (w_fs wallet_world) ["w"; "home"]) = [0%Z]) as E by (vm_compute; reflexivity).
      cbn [w_fs wallet_world] in *. assert (w_fs wallet_world !! ["w"; "home"] = Some (EDir 448)) as E2 by done.
      cbn [w_fs wallet_world] in E2. rewrite E2, E in H. apply H. }
  split_and!.
  - apply (Hspec "/home/w"); vm_compute; reflexivity.
  - apply (Hspec "./w"); vm_compute; reflexivity.
  - eexists. apply (Hspec "~/w"); vm_compute; reflexivity.
Defined.

Lemma OpenWallet_tilde_witness :
  Exists (λ l, l) wallet_world "~/w" = Ok true ∧
  OpenWallet (λ l, l) wallet_world (mkConfig "~/w" 0 "pw") =
    Err (EWrap "could not read keymanager kind for wallet" (EPath "open" "~/w" ENOENT)).
Proof.
  apply (OpenWallet_tilde (λ l, l) (λ l, reflexivity l) wallet_world (mkConfig "~/w" 0 "pw") ["w"; "home"] 0 "w").
  - apply wallet_ok.
  - by apply key_plainb_ok.
  - done.
  - vm_compute. reflexivity.
  - done.
  - done.
  - done.
  - done.
Defined.

Lemma ReadFileAtPath_spec_witness :
  let wl := mkWallet "/home" "/home" 0 "pw" in
  ReadFileAtPath (λ _ _, Ok []) wallet_world wl "w" "notes" = (wallet_world, Ok "x").
Proof.
  refine (ReadFileAtPath_spec (λ _ _, Ok []) wallet_world (mkWallet "/home" "/home" 0 "pw") ["home"] "w" "notes" _ _ _ _ _).
  - apply wallet_ok.
  - by apply key_plainb_ok.
  - done.
  - done.
  - by apply wallet_no_file.
Defined.
