(* ===== verification/Keymanager.v ===== *)
(** * Keymanagers (wallet/keymanager.go, wallet/types.go)

    The keys of a wallet, and the caches of keys, which belong to the package and are
    shared by all keymanagers.  The key store's decryption, its JSON, the BLS library,
    RLP and Keccak-256 are arguments. *)

From stdpp Require Import sorting.
From S2P Require Import Prelude GoText GoMem BytesUtil GoPath GoFs FileUtil Wallet Bls.

(** [bytesutil.ToBytes48] of the bytes of a slice. *)
Definition to48 (b : bytes) : bytes := splice 0 (take 48 b) (zeros 48).

Lemma ToBytes48_to48 s m : ToBytes48 s m = Ret (to48 (content m s), m).
Proof. reflexivity. Qed.

(** ** types.go *)

Record SlotInfo := NewSlotInfo { Epoch : Z; Slot : Z; ProposerIndex : Z }.

(** What is given to [rlp.Encode]: a pointer to a slot info, or a value. *)
Inductive rlp_value := RPtr (s : SlotInfo) | RVal (s : SlotInfo).

Section hashing.
(** [rlp.Encode] and [Stream.Decode] for a type with the given [EncodeRLP] and
    [DecodeRLP]; nothing is written when there is an error.  [None] when a method
    has used up its fuel. *)
Variable rlp_Encode : (SlotInfo → option (result err bytes)) → rlp_value → option (result err bytes).
Variable rlp_Decode : (bytes → option (result err SlotInfo)) → bytes → option (result err SlotInfo).
Variable keccak256 : bytes → bytes.

Fixpoint EncodeRLP (fuel : nat) (s : SlotInfo) : option (result err bytes) :=
  match fuel with O => None | S fuel => rlp_Encode (EncodeRLP fuel) (RVal s) end.
Fixpoint DecodeRLP (fuel : nat) (rlpData : bytes) : option (result err SlotInfo) :=
  match fuel with
  | O => None
  | S fuel =>
      match rlp_Decode (DecodeRLP fuel) rlpData with
      | Some (Ok eb) => Some (Ok (NewSlotInfo (Epoch eb) (Slot eb) (ProposerIndex eb)))
      | r => r
      end
  end.

(** The error of [rlp.Encode] is dropped. *)
Definition rlpHash (fuel : nat) (x : rlp_value) : option bytes :=
  match rlp_Encode (EncodeRLP fuel) x with
  | None => None
  | Some (Ok b) => Some (keccak256 b)
  | Some (Err _) => Some (keccak256 [])
  end.
Definition Hash (fuel : nat) (s : SlotInfo) : option bytes := rlpHash fuel (RPtr s).
End hashing.

(** ** keymanager.go *)

Definition AccountsPath : string := "accounts".
Definition AccountsKeystoreFileName : string := "all-accounts.keystore.json".

(** Keys are slices of bytes, nil for a null of the JSON text. *)
Record accountStore := mkStore { PrivateKeys : list (option bytes); PublicKeys : list (option bytes) }.
Definition slice_bytes (b : option bytes) : bytes := default [] b.

Record AccountsKeystoreRepresentation (C : Type) := mkKeystore {
  Crypto : C;
  ID : string;
  Version : Z;
  Name : string;
  DisabledPublicKeys : list string }.
Arguments mkKeystore {C}.
Arguments Crypto {C}.
Arguments DisabledPublicKeys {C}.

Record Keymanager := mkKeymanager {
  km_wallet : Wallet;
  accountsStore : accountStore;
  disabledPublicKeys : gmap.gset bytes }.

Section keymanager.
Context `{B : Bls12 Sk Pk Sg Fr} {C : Type}.
Variable glob : world → string → result err (list string).
Variable unmarshal_keystore : string → result err (AccountsKeystoreRepresentation C).
Variable unmarshal_store : string → result err accountStore.
Variable Decrypt : C → string → result err string.
Variable hash : SlotInfo → bytes.

(** The variables of the package. *)
Record caches := mkCaches { orderedPublicKeys : list bytes; secretKeysCache : gmap bytes Sk }.

(** The loop of [initializeKeysCachesFromKeystore], from index [i]. *)
Fixpoint cache_loop (i : nat) (pubs privs : list (option bytes)) (g : caches) : caches * option err :=
  match pubs, privs with
  | publicKey :: pubs, privateKey :: privs =>
      let publicKey48 := to48 (slice_bytes publicKey) in
      let ordered := <[i := publicKey48]> (orderedPublicKeys g) in
      match SecretKeyFromBytes (slice_bytes privateKey) with
      | Err e => (mkCaches ordered (secretKeysCache g),
                  Some (EWrap "failed to initialize keys caches from account keystore" e))
      | Ok secretKey => cache_loop (S i) pubs privs (mkCaches ordered (<[publicKey48 := secretKey]> (secretKeysCache g)))
      end
  | _, _ => (g, None)
  end.
Definition initializeKeysCachesFromKeystore (km : Keymanager) : caches * option err :=
  let store := accountsStore km in
  cache_loop 0 (PublicKeys store) (PrivateKeys store)
    (mkCaches (replicate (length (PrivateKeys store)) (replicate 48 0%Z)) ∅).

Fixpoint disabled_loop (l : list string) (s : gmap.gset bytes) : result err (gmap.gset bytes) :=
  match l with
  | [] => Ok s
  | pubKey :: l =>
      match HexDecode pubKey with
      | None => Err (EText "encoding/hex: invalid byte")
      | Some pubKeyBytes => disabled_loop l ({[ to48 pubKeyBytes ]} ∪ s)
      end
  end.

(** The world, the caches and the keymanager it leaves, and the error. *)
Definition initializeAccountKeystore (w : world) (g : caches) (km : Keymanager) : world * caches * result err Keymanager :=
  match ReadFileAtPath glob w (km_wallet km) AccountsPath AccountsKeystoreFileName with
  | (w, Err e) =>
      if Contains (Error e) "no files found" then (w, g, Ok km)
      else (w, g, Err (EWrap ("could not read keystore file for accounts " +:+ AccountsKeystoreFileName) e))
  | (w, Ok encoded) =>
      match unmarshal_keystore encoded with
      | Err e => (w, g, Err (EWrap ("could not decode keystore file for accounts " +:+ AccountsKeystoreFileName) e))
      | Ok keystoreFile =>
          match Decrypt (Crypto keystoreFile) (walletPassword (km_wallet km)) with
          | Err e =>
              if Contains (Error e) "invalid checksum" then (w, g, Err (EWrap "wrong password for wallet entered" e))
              else (w, g, Err (EWrap "could not decrypt keystore" e))
          | Ok enc =>
              match unmarshal_store enc with
              | Err e => (w, g, Err e)
              | Ok store =>
                  if decide (length (PublicKeys store) ≠ length (PrivateKeys store)) then
                    (w, g, Err (EText "unequal number of public keys and private keys"))
                  else if decide (length (PublicKeys store) = 0%nat) then (w, g, Ok km)
                  else
                    match disabled_loop (DisabledPublicKeys keystoreFile) (disabledPublicKeys km) with
                    | Err e => (w, g, Err e)
                    | Ok disabled =>
                        let km := mkKeymanager (km_wallet km) store disabled in
                        match initializeKeysCachesFromKeystore km with
                        | (g, Some e) => (w, g, Err (EWrap "failed to initialize keys caches" e))
                        | (g, None) => (w, g, Ok km)
                        end
                    end
              end
          end
      end
  end.

Definition NewKeymanager (w : world) (g : caches) (wallet : Wallet) : world * caches * result err Keymanager :=
  match initializeAccountKeystore w g (mkKeymanager wallet (mkStore [] []) ∅) with
  | (w, g, Err e) => (w, g, Err (EWrap "failed to initialize account store" e))
  | r => r
  end.

Definition index_panic {A} : outcome A := Panic "index out of range".

(** The index is a [uint64]. *)
Definition Sign (g : caches) (km : Keymanager) (slotInfo : SlotInfo) (pubKeyIndex : Z) : outcome (result err Sg) :=
  let slotInfoHash := hash slotInfo in
  match PublicKeys (accountsStore km) !! Z.to_nat pubKeyIndex with
  | None => index_panic
  | Some None => Ret (Err (EText "nil public key in request"))
  | Some (Some publicKey) =>
      match secretKeysCache g !! to48 publicKey with
      | None => Ret (Err (EText "no signing key found in keys cache"))
      | Some secretKey => Ret (Ok (sk_Sign secretKey slotInfoHash))
      end
  end.

Definition ErrSigFailedToVerify : err := EText "signature did not verify".

Definition VerifySignature (keeps : bytes → bool) (km : Keymanager) (slotInfo : SlotInfo) (pubKeyIndex : Z) (signature : Sg) :
    go (keys (Pk := Pk)) (option err) :=
  let slotInfoHash := hash slotInfo in
  match PublicKeys (accountsStore km) !! Z.to_nat pubKeyIndex with
  | None => go_panic "index out of range"
  | Some pub =>
      r ← PublicKeyFromBytes keeps (slice_bytes pub);
      match r with
      | Err e => mret (Some (EWrap "could not convert bytes to public key" e))
      | Ok publicKey =>
          b ← Verify signature publicKey slotInfoHash;
          if b : bool then mret None else mret (Some ErrSigFailedToVerify)
      end
  end.
End keymanager.

(** ** The caches *)

Section cached.
Context {Sk Pk Sg Fr GT} {B : Bls12 Sk Pk Sg Fr} {P : Pairing B GT} {C : Type}.
Context (glob : world → string → result err (list string)).
Context (unmarshal_keystore : string → result err (AccountsKeystoreRepresentation C)).
Context (unmarshal_store : string → result err accountStore).
Context (Decrypt : C → string → result err string) (hash : SlotInfo → bytes).
Implicit Types (g : caches (Sk := Sk)).

Lemma to48_id b : length b = 48%nat → to48 b = b.
Proof. intros H. unfold to48, splice. rewrite (take_ge b) by lia. rewrite H. cbn. by rewrite app_nil_r. Qed.

(** When every private key is good, every public key is cached with a secret key that
    came with it, and no other key is. *)
Lemma cache_loop_ok i pubs privs sks g :
  length pubs = length privs → Forall2 (λ q sk, SecretKeyFromBytes (slice_bytes q) = Ok sk) privs sks →
  ∃ g', cache_loop i pubs privs g = (g', None) ∧
    ∀ p, (∃ j pub sk, pubs !! j = Some pub ∧ sks !! j = Some sk ∧ to48 (slice_bytes pub) = p ∧ secretKeysCache g' !! p = Some sk) ∨
         ((∀ pub, pub ∈ pubs → to48 (slice_bytes pub) ≠ p) ∧ secretKeysCache g' !! p = secretKeysCache g !! p).
Proof.
  intros Hlen Hs. revert i pubs g Hlen. induction Hs as [|q sk privs sks Hq Hs IH]; intros i [|pub pubs] g Hlen; try done.
  { exists g. split; [done|]. intros p. right. split; [by intros pub ?%elem_of_nil|done]. }
  cbn [cache_loop]. rewrite Hq. injection Hlen as Hlen.
  edestruct (IH (S i) pubs) as (g' & -> & Hg); [done|]. exists g'. split; [done|]. intros p.
  destruct (Hg p) as [(j & pub' & sk' & H1 & H2 & H3 & H4)|[H1 H2]].
  - left. by exists (S j), pub', sk'.
  - cbn [secretKeysCache] in H2. destruct (decide (to48 (slice_bytes pub) = p)) as [<-|Hne].
    + left. exists 0%nat, pub, sk. rewrite H2. by rewrite lookup_insert_eq.
    + right. rewrite lookup_insert_ne in H2 by done. split; [|done]. intros pub' [->|Hin]%elem_of_cons; [done|by apply H1].
Qed.

(** A cache that is filled, wholly or up to a bad key, has keys of its store alone. *)
Lemma cache_loop_dom i pubs privs g g' e p :
  cache_loop i pubs privs g = (g', e) → (∀ pub, pub ∈ pubs → to48 (slice_bytes pub) ≠ p) →
  secretKeysCache g' !! p = secretKeysCache g !! p.
Proof.
  revert i privs g. induction pubs as [|pub pubs IH]; intros i [|q privs] g; cbn [cache_loop]; try by intros [= <- _].
  destruct (SecretKeyFromBytes (slice_bytes q)) as [sk|]; [|by intros [= <- _]]. intros H Hp.
  rewrite (IH _ _ _ H); [|by intros pub' Hin; apply Hp; right]. cbn. rewrite lookup_insert_ne; [done|]. apply Hp. by left.
Qed.

(** The public keys of the store with the secret keys that came with them. *)
Definition store_match (store : accountStore) : Prop :=
  Forall2 (λ pub priv, ∃ p q sk, pub = Some p ∧ priv = Some q ∧ SecretKeyFromBytes q = Ok sk ∧
             decode_key p = Ok (GetPublicKey sk)) (PublicKeys store) (PrivateKeys store).

Lemma decode_key_ok p x : decode_key p = Ok x → length p = 48%nat ∧ pk_IsZero x = false.
Proof.
  unfold decode_key. destruct (decide (length p ≠ 48%nat)) as [|Hl]; [done|].
  apply dec_stable in Hl. destruct (pk_Deserialize p) as [y|]; [|done]. destruct (pk_IsZero y) eqn:E; [done|].
  by intros [= <-].
Qed.

(** A keymanager over such a store has a secret key in the cache for each public key. *)
Lemma NewKeymanager_keys w w' g wallet encoded keystore enc store disabled :
  ReadFileAtPath glob w wallet AccountsPath AccountsKeystoreFileName = (w', Ok encoded) →
  unmarshal_keystore encoded = Ok keystore → Decrypt (Crypto keystore) (walletPassword wallet) = Ok enc →
  unmarshal_store enc = Ok store → store ≠ mkStore [] [] → disabled_loop (DisabledPublicKeys keystore) ∅ = Ok disabled →
  store_match store →
  ∃ g', NewKeymanager glob unmarshal_keystore unmarshal_store Decrypt w g wallet =
      (w', g', Ok (mkKeymanager wallet store disabled)) ∧
    ∀ j, (j < length (PublicKeys store))%nat →
      ∃ p sk, PublicKeys store !! j = Some (Some p) ∧ decode_key p = Ok (GetPublicKey sk) ∧ secretKeysCache g' !! to48 p = Some sk.
Proof.
  intros Hread Hks Hdec Hst Hne Hdis Hmatch. pose proof (Forall2_length _ _ _ Hmatch) as Hlen.
  assert (∃ sks, Forall2 (λ q sk, SecretKeyFromBytes (slice_bytes q) = Ok sk) (PrivateKeys store) sks ∧
    Forall2 (λ pub sk, ∃ p, pub = Some p ∧ decode_key p = Ok (GetPublicKey sk)) (PublicKeys store) sks) as (sks & Hsk & Hpk).
  { clear -Hmatch. unfold store_match in Hmatch.
    induction Hmatch as [|pub priv pubs privs (p & q & sk & -> & -> & H1 & H2) _ (sks & IH1 & IH2)];
      [by exists []|]. exists (sk :: sks). split; constructor; eauto. }
  assert (length (PublicKeys store) ≠ 0%nat) as Hn.
  { intros H0. apply Hne. destruct store as [privs pubs]; cbn in *. apply nil_length_inv in H0 as ->.
    by destruct privs. }
  destruct (cache_loop_ok 0 (PublicKeys store) (PrivateKeys store) sks
    (mkCaches (replicate (length (PrivateKeys store)) (replicate 48 0%Z)) ∅) Hlen Hsk) as (g' & Hloop & Hcache).
  exists g'. split.
  - unfold NewKeymanager, initializeAccountKeystore. cbn [km_wallet disabledPublicKeys].
    rewrite Hread, Hks, Hdec, Hst. rewrite decide_False by (intros H; by apply H). rewrite decide_False by done. rewrite Hdis.
    unfold initializeKeysCachesFromKeystore. cbn [accountsStore]. by rewrite Hloop.
  - intros i Hi. destruct (lookup_lt_is_Some_2 (PublicKeys store) i Hi) as [pub Hpub].
    destruct (Forall2_lookup_l _ _ _ _ _ Hpk Hpub) as (sk & Hski & p & -> & Hdk).
    destruct (Hcache (to48 p)) as [(j & pub' & sk' & H1 & H2 & H3 & H4)|[H1 _]].
    2: { exfalso. apply (H1 (Some p)); [by eapply list_elem_of_lookup_2|done]. }
    destruct (Forall2_lookup_lr _ _ _ _ _ _ Hpk H1 H2) as (p' & -> & Hdk').
    change (slice_bytes (Some p')) with p' in H3. rewrite !to48_id in H3 by (by eapply decode_key_ok). subst p'.
    by exists p, sk'.
Qed.

(** Verifying is the library's with the key of the bytes, whatever the cache of keys
    has been used for. *)
Lemma VerifySignature_run km slotInfo i p x sig keeps st outs :
  PublicKeys (accountsStore km) !! Z.to_nat i = Some (Some p) → decode_key p = Ok x → cache_inv st outs →
  ∃ st', VerifySignature hash keeps km slotInfo i sig st =
    Ret (if VerifyByte sig x (hash slotInfo) then None else Some ErrSigFailedToVerify, st').
Proof.
  intros Hpub Hdk Hinv. unfold VerifySignature. rewrite Hpub. cbn [slice_bytes default].
  destruct (PublicKeyFromBytes_run keeps p st outs Hinv) as (st' & _ & H). rewrite Hdk in H.
  destruct H as (l & E & _ & Hl & _). exists st'. rewrite go_bind_run. unfold slice_bytes. cbn [from_option id default].
  rewrite E, go_bind_run. unfold Verify. rewrite go_bind_run, (deref_run st' _ x) by (by eexists).
  rewrite (proj2 (decode_key_ok _ _ Hdk)). by destruct (VerifyByte _ _ _).
Qed.

(** C37: a keymanager whose key store is read, decrypted and decoded, and whose private
    keys match its public keys, signs for each of them - disabled or not - and
    [VerifySignature] accepts the signature for the same slot, whatever was done with
    public keys before. *)
Theorem NewKeymanager_signs w w' g wallet encoded keystore enc store disabled :
  ReadFileAtPath glob w wallet AccountsPath AccountsKeystoreFileName = (w', Ok encoded) →
  unmarshal_keystore encoded = Ok keystore → Decrypt (Crypto keystore) (walletPassword wallet) = Ok enc →
  unmarshal_store enc = Ok store → store ≠ mkStore [] [] → disabled_loop (DisabledPublicKeys keystore) ∅ = Ok disabled →
  store_match store →
  ∃ g' km, NewKeymanager glob unmarshal_keystore unmarshal_store Decrypt w g wallet = (w', g', Ok km) ∧
    ∀ i slotInfo, (0 ≤ i < Z.of_nat (length (PublicKeys store)))%Z →
      ∃ sig, Sign hash g' km slotInfo i = Ret (Ok sig) ∧
        ∀ keeps st outs, cache_inv st outs → ∃ st', VerifySignature hash keeps km slotInfo i sig st = Ret (None, st').
Proof.
  intros Hread Hks Hdec Hst Hne Hdis Hmatch.
  destruct (NewKeymanager_keys w w' g wallet encoded keystore enc store disabled) as (g' & E & Hkeys); [done..|].
  exists g', (mkKeymanager wallet store disabled). split; [exact E|]. intros i slotInfo Hi.
  destruct (Hkeys (Z.to_nat i)) as (p & sk & Hpub & Hdk & Hc); [lia|].
  exists (sk_Sign sk (hash slotInfo)). split.
  - unfold Sign. cbn [accountsStore]. by rewrite Hpub, Hc.
  - intros keeps st outs Hinv. destruct (VerifySignature_run (mkKeymanager wallet store disabled) slotInfo i p
      (GetPublicKey sk) (sk_Sign sk (hash slotInfo)) keeps st outs Hpub Hdk Hinv) as (st' & ->). exists st'.
    by rewrite (proj2 (verify_law (sk_Sign sk (hash slotInfo)) _ (hash slotInfo) (proj2 (decode_key_ok _ _ Hdk))) (sign_law sk (hash slotInfo))).
Qed.

(** the caches are the package's: a keymanager that is opened replaces the keys of
    those opened before, which can no longer sign for keys it does not have. *)
Theorem Sign_after_another w g wallet w' g' km km' slotInfo i p :
  NewKeymanager glob unmarshal_keystore unmarshal_store Decrypt w g wallet = (w', g', Ok km') →
  accountsStore km' ≠ mkStore [] [] →
  PublicKeys (accountsStore km) !! Z.to_nat i = Some (Some p) →
  (∀ pub, pub ∈ PublicKeys (accountsStore km') → to48 (slice_bytes pub) ≠ to48 p) →
  Sign hash g' km slotInfo i = Ret (Err (EText "no signing key found in keys cache")).
Proof.
  intros Hnew Hne Hp Hother. unfold Sign. rewrite Hp. assert (secretKeysCache g' !! to48 p = None) as ->; [|done].
  revert Hnew. unfold NewKeymanager, initializeAccountKeystore. cbn [km_wallet disabledPublicKeys].
  destruct (ReadFileAtPath _ _ _ _ _) as [w1 [encoded|e]].
  2: { destruct (Contains _ _); [|done]. intros [= _ _ <-]. done. }
  destruct (unmarshal_keystore encoded) as [ks|]; [|done].
  destruct (Decrypt _ _) as [enc|]; [|by destruct (Contains _ _)].
  destruct (unmarshal_store enc) as [store|]; [|done]. case_decide; [done|]. case_decide; [by intros [= _ _ <-]|].
  destruct (disabled_loop _ _) as [disabled|]; [|done]. unfold initializeKeysCachesFromKeystore. cbn [accountsStore].
  destruct (cache_loop _ _ _ _) as [g1 [e|]] eqn:E; [done|]. intros [= _ -> <-]. cbn [accountsStore] in Hother.
  rewrite (cache_loop_dom _ _ _ _ _ _ _ E Hother). apply lookup_empty.
Qed.
End cached.

(** ** No accounts *)

Section empty.
Context `{B : Bls12 Sk Pk Sg Fr} {C : Type}.
Context (glob : world → string → result err (list string)).
Context (unmarshal_keystore : string → result err (AccountsKeystoreRepresentation C)).
Context (unmarshal_store : string → result err accountStore).
Context (Decrypt : C → string → result err string) (hash : SlotInfo → bytes).

Lemma Contains_no_files path : Contains (Error (EText ("no files found in path: " +:+ path))) "no files found" = true.
Proof.
  cbn [Error]. change "no files found in path: " with ("no files found" +:+ " in path: ").
  rewrite str_app_assoc. apply Contains_here.
Qed.

(** for a wallet without a key store [NewKeymanager] succeeds, makes the directory
    of the accounts when it is missing and leaves the caches alone; the keymanager
    has no keys, and [Sign] and [VerifySignature] panic for every index. *)
Theorem NewKeymanager_no_accounts w (g : caches (Sk := Sk)) wallet a :
  let dir := AccountsPath :: a in
  let full := AccountsKeystoreFileName :: dir in
  fs_ok (w_fs w) → key_plain full → accountsPath wallet = abs_path a → hasMeta (abs_path full) = false →
  no_file (w_fs w) dir → w_fs w !! full = None →
  ∃ f km, NewKeymanager glob unmarshal_keystore unmarshal_store Decrypt w g wallet = (set_fs f w, g, Ok km) ∧
    (∀ j, f !! j = with_dirs (w_fs w) dir (Z.ldiff 448 (w_umask w)) j) ∧
    ∀ slotInfo i keeps sig (st : keys (Pk := Pk)),
      (∃ msg, Sign hash g km slotInfo i = Panic msg) ∧ ∃ msg, VerifySignature hash keeps km slotInfo i sig st = Panic msg.
Proof.
  intros dir full Hf Hk Ha Hmeta Hno Hnone.
  pose proof (ReadFileAtPath_spec glob w wallet a AccountsPath AccountsKeystoreFileName Hf Hk Ha Hmeta Hno) as H.
  change (AccountsKeystoreFileName :: AccountsPath :: a) with full in H. rewrite Hnone in H. destruct H as (f & E & Hl).
  exists f, (mkKeymanager wallet (mkStore [] []) ∅). split_and!; [|done|].
  - unfold NewKeymanager, initializeAccountKeystore. cbn [km_wallet]. rewrite E. by rewrite Contains_no_files.
  - intros slotInfo i keeps sig st. split; by eexists.
Qed.
End empty.

(** ** The hash of a slot *)

Section hashes.
Context (rlp_Encode : (SlotInfo → option (result err bytes)) → rlp_value → option (result err bytes)).
Context (rlp_Decode : (bytes → option (result err SlotInfo)) → bytes → option (result err SlotInfo)).
Context (keccak256 : bytes → bytes).

(** a type whose pointer has [EncodeRLP] is encoded by that method when a pointer
    is given and refused when a value is; [EncodeRLP] gives a value of its own type.
    So nothing is ever hashed: all slots have the hash of no bytes, and a signature
    for one slot is accepted for every other.  [DecodeRLP], which decodes its own type
    too, never returns. *)
Theorem Hash_constant `{B : Bls12 Sk Pk Sg Fr} fuel :
  (∀ method s, rlp_Encode method (RPtr s) = method s) →
  (∀ method s, ∃ e, rlp_Encode method (RVal s) = Some (Err e)) →
  (∀ method b, rlp_Decode method b = method b) →
  (∀ s, Hash rlp_Encode keccak256 (S fuel) s = Some (keccak256 [])) ∧
  (∀ h, (∀ s, Hash rlp_Encode keccak256 (S fuel) s = Some (h s)) → ∀ s s' keeps km i sig (st : keys (Pk := Pk)),
     VerifySignature h keeps km s i sig st = VerifySignature h keeps km s' i sig st) ∧
  ∀ n b, DecodeRLP rlp_Decode n b = None.
Proof.
  intros Hptr Hval Hdec.
  assert (∀ s, Hash rlp_Encode keccak256 (S fuel) s = Some (keccak256 [])) as Hh.
  { intros s. unfold Hash, rlpHash. rewrite Hptr. cbn [EncodeRLP]. by destruct (Hval (EncodeRLP rlp_Encode fuel) s) as [e ->]. }
  split_and!; [done| |].
  - intros h Hhash s s' keeps km i sig st. unfold VerifySignature.
    pose proof (Hhash s) as E. pose proof (Hhash s') as E'. rewrite Hh in E, E'. injection E as <-. by injection E' as <-.
  - induction n as [|n IH]; intros b; [done|]. cbn [DecodeRLP]. by rewrite Hdec, IH.
Qed.
End hashes.

(** ** At concrete wallets *)

Definition lib_Encode (method : SlotInfo → option (result err bytes)) (v : rlp_value) : option (result err bytes) :=
  match v with
  | RPtr s => method s
  | RVal s => Some (Err (EText "rlp: unadressable value of type wallet.SlotInfo, EncodeRLP is pointer method"))
  end.

Lemma Hash_constant_witness :
  Hash lib_Encode (λ b, b ++ [1]%Z) 2 (NewSlotInfo 1 2 3) = Some [1]%Z ∧ DecodeRLP (λ m b, m b) 1000 [] = None.
Proof.
  destruct (Hash_constant lib_Encode (λ m b, m b) (λ b, b ++ [1]%Z) (B := toy) 1) as (H1 & _ & H2); [done| |done|].
  - intros m s. by eexists.
  - split; [apply H1|apply H2].
Defined.

Definition demo_wallet : Wallet := mkWallet "/home/w" "/home/w/direct" 0 "pw".

Lemma NewKeymanager_no_accounts_witness :
  ∃ f km, NewKeymanager (B := toy) (C := unit) (λ _ _, Ok []) (λ _, Err (EText "")) (λ _, Err (EText "")) (λ _ _, Err (EText ""))
    wallet_world (mkCaches [] ∅) demo_wallet = (set_fs f wallet_world, mkCaches [] ∅, Ok km) ∧
    f !! ["accounts"; "direct"; "w"; "home"] = Some (EDir 448).
Proof.
  edestruct (NewKeymanager_no_accounts (B := toy) (C := unit) (λ _ _, Ok []) (λ _, Err (EText "")) (λ _, Err (EText ""))
    (λ _ _, Err (EText "")) (λ _, []) wallet_world (mkCaches [] ∅) demo_wallet ["direct"; "w"; "home"]) as (f & km & E & Hl & _).
  - apply wallet_ok.
  - by apply key_plainb_ok.
  - done.
  - done.
  - intros j m d [[|x q] Hq] H; [cbn in Hq; rewrite <-Hq in H; discriminate H|]. injection Hq as _ Hq.
    refine (wallet_no_file ["direct"; "w"; "home"] eq_refl j m d _ H). by exists q.
  - done.
  - exists f, km. split; [exact E|]. by rewrite Hl.
Defined.

(** A key store with one key, whose file is that of the notes. *)
Definition key_bytes (n : nat) (x : Z) : bytes := x :: replicate (n - 1) 0%Z.
Definition one_store (x : Z) : accountStore := mkStore [Some (key_bytes 32 x)] [Some (key_bytes 48 x)].
Definition store_world (path : key) : world :=
  mkWorld (<[AccountsKeystoreFileName :: AccountsPath :: path := EFile 384 "{}"]>
             (<[AccountsPath :: path := EDir 448]> (w_fs wallet_world))) ["home"] {[ "HOME" := "/home" ]} None 18.
Definition new_demo (x : Z) (g : caches) :=
  NewKeymanager (B := toy) (λ _ _, Ok []) (λ _, Ok (mkKeystore tt "" 4 "" ["ff"])) (λ _, Ok (one_store x)) (λ _ _, Ok "")
    (store_world ["direct"; "w"; "home"]) g demo_wallet.

Lemma NewKeymanager_signs_witness :
  ∃ g km, new_demo 5 (mkCaches [] ∅) = (store_world ["direct"; "w"; "home"], g, Ok km) ∧
    ∃ sig, Sign (B := toy) (λ s, [Slot s]) g km (NewSlotInfo 1 2 3) 0 = Ret (Ok sig) ∧
      ∃ st, VerifySignature (B := toy) (λ s, [Slot s]) (λ _, true) km (NewSlotInfo 1 2 3) 0 sig fresh_keys = Ret (None, st).
Proof.
  destruct (NewKeymanager_signs (P := toy_laws) (λ _ _, Ok []) (λ _, Ok (mkKeystore tt "" 4 "" ["ff"])) (λ _, Ok (one_store 5))
    (λ _ _, Ok "") (λ s, [Slot s]) (store_world ["direct"; "w"; "home"]) (store_world ["direct"; "w"; "home"]) (mkCaches [] ∅)
    demo_wallet "{}" (mkKeystore tt "" 4 "" ["ff"]) "" (one_store 5) ({[ to48 [255%Z] ]} ∪ ∅)) as (g & km & E & H).
  - reflexivity.
  - done.
  - done.
  - done.
  - done.
  - reflexivity.
  - repeat constructor. exists (key_bytes 48 5), (key_bytes 32 5), 5%Z. by split_and!.
  - exists g, km. split; [exact E|]. destruct (H 0%Z (NewSlotInfo 1 2 3)) as (sig & Hs & Hv); [cbn; lia|].
    exists sig. split; [exact Hs|]. apply (Hv _ _ []).
    split; cbn; [intros ? ? Hc; by rewrite lookup_empty in Hc|intros l Hl; inversion Hl].
Defined.

Lemma Sign_after_another_witness :
  ∃ g km g' km', snd (fst (new_demo 5 (mkCaches [] ∅))) = g ∧ snd (new_demo 5 (mkCaches [] ∅)) = Ok km ∧
    new_demo 6 g = (store_world ["direct"; "w"; "home"], g', Ok km') ∧
    Sign (B := toy) (λ s, [Slot s]) g' km (NewSlotInfo 1 2 3) 0 = Ret (Err (EText "no signing key found in keys cache")).
Proof.
  assert (∃ g km, new_demo 5 (mkCaches [] ∅) = (store_world ["direct"; "w"; "home"], g, Ok km) ∧
    accountsStore km = one_store 5) as (g & km & E & Hk) by (do 2 eexists; split; reflexivity).
  assert (∃ g' km', new_demo 6 g = (store_world ["direct"; "w"; "home"], g', Ok km') ∧ accountsStore km' = one_store 6)
    as (g' & km' & E' & Hk') by (do 2 eexists; split; reflexivity).
  exists g, km, g', km'. rewrite E. split_and!; [done|done|done|].
  apply (Sign_after_another (B := toy) (C := unit) (λ _ _, Ok []) (λ _, Ok (mkKeystore tt "" 4 "" ["ff"])) (λ _, Ok (one_store 6))
    (λ _ _, Ok "") (λ s, [Slot s]) (store_world ["direct"; "w"; "home"]) g demo_wallet (store_world ["direct"; "w"; "home"])
    g' km km' (NewSlotInfo 1 2 3) 0 (key_bytes 48 5)); [exact E'| | |].
  - rewrite Hk'. done.
  - rewrite Hk. done.
  - rewrite Hk'. intros pub ->%list_elem_of_singleton. done.
Defined.
