(* ===== verification/RootMain.v ===== *)
(** * The program of the repository (main.go)

    It opens a wallet, makes a keymanager of it, signs a slot with the key of index 1
    and verifies the signature with the key of index 0: {!Wallet}, {!Keymanager} and
    {!Bls} composed. *)

From S2P Require Import Prelude GoText GoMem BytesUtil GoPath GoFs FileUtil Wallet Bls Keymanager.

(** How [main] returns, each with a message of its own in the log. *)
Inductive main_end (Sg : Type) :=
| OpenFailed (e : err)
| KeymanagerFailed (e : err)
| SignFailed (e : err)
| VerifyFailed (sig : Sg) (e : err)
| Verified (sig : Sg).
Arguments OpenFailed {Sg}.
Arguments KeymanagerFailed {Sg}.
Arguments SignFailed {Sg}.
Arguments VerifyFailed {Sg}.
Arguments Verified {Sg}.

Definition main_config : Config := mkConfig "./wallet/prysm-wallet-v2" 0 "Konasl@123".
Definition main_slot : SlotInfo := NewSlotInfo 2 64 5454.

Section main.
Context `{B : Bls12 Sk Pk Sg Fr} {C : Type}.
Context (order : list string → list string) (glob : world → string → result err (list string)).
Context (unmarshal_keystore : string → result err (AccountsKeystoreRepresentation C)).
Context (unmarshal_store : string → result err accountStore).
Context (Decrypt : C → string → result err string) (hash : SlotInfo → bytes) (keeps : bytes → bool).

(** [main] in a process that has no keys in its caches. *)
Definition main (w : world) : outcome (main_end Sg) :=
  match OpenWallet order w main_config with
  | Err e => Ret (OpenFailed e)
  | Ok wallet =>
      match NewKeymanager glob unmarshal_keystore unmarshal_store Decrypt w (mkCaches [] ∅) wallet with
      | (_, _, Err e) => Ret (KeymanagerFailed e)
      | (_, g, Ok keyManager) =>
          r ← Sign hash g keyManager main_slot 1;
          match r with
          | Err e => Ret (SignFailed e)
          | Ok signature =>
              '(r, _) ← VerifySignature hash keeps keyManager main_slot 0 signature fresh_keys;
              match r with
              | Some e => Ret (VerifyFailed signature e)
              | None => Ret (Verified signature)
              end
          end
      end
  end.
End main.

Section main_props.
Context {Sk Pk Sg Fr GT} {B : Bls12 Sk Pk Sg Fr} {P : Pairing B GT} {C : Type}.
Context (order : list string → list string) (glob : world → string → result err (list string)).
Context (unmarshal_keystore : string → result err (AccountsKeystoreRepresentation C)).
Context (unmarshal_store : string → result err accountStore).
Context (Decrypt : C → string → result err string) (hash : SlotInfo → bytes) (keeps : bytes → bool).

Lemma fresh_inv : cache_inv (fresh_keys (Pk := Pk)) [].
Proof. split; cbn; [intros ? ? Hc; by rewrite lookup_empty in Hc|intros l Hl; inversion Hl]. Qed.

(** C38: the program against a wallet that opens and whose key store is read, decrypted
    and decoded, the private keys matching the public ones: with one key it panics for
    the index 1, and with more the signature of the second key is verified against the
    first one, so that it reports success only when the two keys pair alike with the
    hash of the slot, which different keys do not, and a failed signature otherwise. *)
Theorem main_outcome w w' wallet encoded keystore enc store disabled :
  OpenWallet order w main_config = Ok wallet →
  ReadFileAtPath glob w wallet AccountsPath AccountsKeystoreFileName = (w', Ok encoded) →
  unmarshal_keystore encoded = Ok keystore → Decrypt (Crypto keystore) (walletPassword wallet) = Ok enc →
  unmarshal_store enc = Ok store → store ≠ mkStore [] [] → disabled_loop (DisabledPublicKeys keystore) ∅ = Ok disabled →
  store_match store →
  let run := main order glob unmarshal_keystore unmarshal_store Decrypt hash keeps w in
  match PublicKeys store with
  | Some p0 :: Some p1 :: _ =>
      ∃ pk0 sk1, decode_key p0 = Ok pk0 ∧ decode_key p1 = Ok (GetPublicKey sk1) ∧
        let sig := sk_Sign sk1 (hash main_slot) in
        (pair_key pk0 (hash main_slot) = pair_key (GetPublicKey sk1) (hash main_slot) → run = Ret (Verified sig)) ∧
        (pair_key pk0 (hash main_slot) ≠ pair_key (GetPublicKey sk1) (hash main_slot) →
           run = Ret (VerifyFailed sig ErrSigFailedToVerify))
  | [_] => run = Panic "index out of range"
  | _ => False
  end.
Proof.
  intros Hopen Hread Hks Hdec Hst Hne Hdis Hmatch run. subst run. unfold main. rewrite Hopen.
  destruct (NewKeymanager_keys glob unmarshal_keystore unmarshal_store Decrypt w w' (mkCaches [] ∅) wallet
    encoded keystore enc store disabled) as (g & -> & Hkeys); [done..|].
  unfold Sign. cbn [accountsStore]. change (Z.to_nat 1) with 1%nat.
  destruct (PublicKeys store) as [|pub0 [|pub1 pubs]] eqn:E.
  - apply Hne. apply Forall2_length in Hmatch. rewrite E in Hmatch. destruct store as [privs pubs]. cbn in *. subst.
    by destruct privs.
  - by destruct pub0.
  - destruct (Hkeys 0%nat) as (p0 & sk0 & E0 & D0 & C0); [cbn; lia|]. injection E0 as ->.
    destruct (Hkeys 1%nat) as (p1 & sk1 & E1 & D1 & C1); [cbn; lia|]. injection E1 as ->.
    exists (GetPublicKey sk0), sk1. split; [done|]. split; [done|]. cbn [lookup list_lookup]. rewrite C1.
    cbn [mbind outcome_bind]. cbv zeta. set (sig := sk_Sign sk1 (hash main_slot)).
    destruct (VerifySignature_run hash (mkKeymanager wallet store disabled) main_slot 0 p0 (GetPublicKey sk0) sig keeps
      fresh_keys []) as (st' & Hv); [cbn [accountsStore]; by rewrite E|done|apply fresh_inv|]. fold sig. rewrite Hv. cbn [mbind outcome_bind].
    pose proof (verify_law sig (GetPublicKey sk0) (hash main_slot) (proj2 (decode_key_ok _ _ D0))) as Hlaw. unfold sig, sk_Sign in Hlaw.
    rewrite sign_law in Hlaw. fold (sk_Sign sk1 (hash main_slot)) in Hlaw. fold sig in Hlaw.
    destruct (VerifyByte sig (GetPublicKey sk0) (hash main_slot)).
    + split; [done|]. intros Hn. exfalso. apply Hn. symmetry. by apply Hlaw.
    + split; [|done]. intros Heq. symmetry in Heq. apply Hlaw in Heq. done.
Qed.
End main_props.

(** ** A wallet with two keys in the working directory *)

Definition main_world : world :=
  let k := ["direct"; "prysm-wallet-v2"; "wallet"] in
  mkWorld {[ [] := EDir 493; tail (tail k) := EDir 493; tail k := EDir 448; k := EDir 448; AccountsPath :: k := EDir 448;
             AccountsKeystoreFileName :: AccountsPath :: k := EFile 384 "{}" ]} [] ∅ None 18.
Definition two_store : accountStore :=
  mkStore [Some (key_bytes 32 5); Some (key_bytes 32 6)] [Some (key_bytes 48 5); Some (key_bytes 48 6)].
Definition demo_main (store : accountStore) : outcome (main_end Z) :=
  main (B := toy) (λ l, l) (λ _ _, Ok []) (λ _, Ok (mkKeystore tt "" 4 "" ["ff"])) (λ _, Ok store) (λ _ _, Ok "")
    (λ s, [Slot s]) (λ _, true) main_world.

Definition main_wallet : Wallet := mkWallet "./wallet/prysm-wallet-v2" "wallet/prysm-wallet-v2/direct" 0 "Konasl@123".

Lemma main_outcome_witness :
  demo_main two_store = Ret (VerifyFailed 390%Z ErrSigFailedToVerify) ∧ demo_main (one_store 5) = Panic "index out of range".
Proof.
  assert (OpenWallet (λ l, l) main_world main_config = Ok main_wallet) as Hopen by reflexivity.
  assert (ReadFileAtPath (λ _ _, Ok []) main_world main_wallet AccountsPath AccountsKeystoreFileName = (main_world, Ok "{}"))
    as Hread by reflexivity.
  pose proof (λ store Hne Hmatch, main_outcome (P := toy_laws) (λ l, l) (λ _ _, Ok []) (λ _, Ok (mkKeystore tt "" 4 "" ["ff"]))
    (λ _, Ok store) (λ _ _, Ok "") (λ s, [Slot s]) (λ _, true) main_world main_world main_wallet "{}" (mkKeystore tt "" 4 "" ["ff"])
    "" store ({[ to48 [255%Z] ]} ∪ ∅) Hopen Hread eq_refl eq_refl eq_refl Hne eq_refl Hmatch) as Hmain.
  assert (∀ x, SecretKeyFromBytes (B := toy) (key_bytes 32 x) = Ok x → decode_key (B := toy) (key_bytes 48 x) = Ok x →
    ∃ p q sk, Some (key_bytes 48 x) = Some p ∧ Some (key_bytes 32 x) = Some q ∧ SecretKeyFromBytes (B := toy) q = Ok sk ∧
      decode_key (B := toy) p = Ok (GetPublicKey (Bls12 := toy) sk)) as Hkey.
  { intros x H1 H2. exists (key_bytes 48 x), (key_bytes 32 x), x. by split_and!. }
  split.
  - destruct (Hmain two_store) as (pk0 & sk1 & D0 & D1 & _ & Hf);
      [discriminate|constructor; [by apply Hkey|constructor; [by apply Hkey|constructor]]|].
    assert (pk0 = 5%Z) as -> by (change (Ok (E := err) 5%Z = Ok pk0) in D0; congruence).
    assert (sk1 = 6%Z) as -> by (change (Ok (E := err) 6%Z = Ok sk1) in D1; congruence).
    apply Hf. discriminate.
  - apply (Hmain (one_store 5)); [discriminate|constructor; [by apply Hkey|constructor]].
Defined.
