(* ===== verification/Assertions.v ===== *)
(** * Assertions for tests (testutil)

    The assertions report through a function of the test, which is an argument; what
    they report are the format and the values, as they are passed.  Values of type
    [interface{}] carry their dynamic type, and comparing them can panic.  The text of
    [fmt.Sprintf], [reflect.DeepEqual] and the third-party diff are arguments. *)

From S2P Require Import Prelude GoText.

(** ** Values in interfaces *)

(** Types are identified by name. *)
Inductive kind := KBasic | KChan | KFunc | KMap | KPtr | KSlice | KUnsafePointer | KStruct.
Record gotype := mkType { t_name : string; t_kind : kind; t_comparable : bool }.
#[export] Instance kind_eq_dec : EqDecision kind.
Proof. solve_decision. Defined.
#[export] Instance gotype_eq_dec : EqDecision gotype.
Proof. solve_decision. Defined.

(** A basic value by its text (floating-point numbers aside), a reference or nil, the
    fields of a struct or elements of an array, and a value in an interface. *)
#[warnings="-register-all"]
Inductive value :=
| VBasic (text : string)
| VRef (addr : option nat)
| VStruct (fields : list value)
| VIface (i : option (gotype * value)).
Abbreviation iface := (option (gotype * value)).

Definition stringT : gotype := mkType "string" KBasic true.
Definition of_string (s : string) : iface := Some (stringT, VBasic s).
(** [v.( string)]. *)
Definition as_string (i : iface) : option string :=
  match i with
  | Some (t, VBasic s) => if decide (t = stringT) then Some s else None
  | _ => None
  end.

(** [==]: fields in order up to the first that differs. *)
Fixpoint eq_value (a b : value) : outcome bool :=
  match a, b with
  | VBasic x, VBasic y => Ret (bool_decide (x = y))
  | VRef x, VRef y => Ret (bool_decide (x = y))
  | VStruct l, VStruct l' =>
      (fix eq_fields (l l' : list value) : outcome bool :=
         match l, l' with
         | [], [] => Ret true
         | x :: l, y :: l' => b ← eq_value x y; if b : bool then eq_fields l l' else Ret false
         | _, _ => Ret false
         end) l l'
  | VIface None, VIface None => Ret true
  | VIface (Some (t, x)), VIface (Some (u, y)) =>
      if decide (t = u) then
        if t_comparable t then eq_value x y
        else Panic ("runtime error: comparing uncomparable type " +:+ t_name t)
      else Ret false
  | _, _ => Ret false
  end.
Definition eq_iface (a b : iface) : outcome bool := eq_value (VIface a) (VIface b).

(** [isNil]. *)
Definition isNil (obj : iface) : bool :=
  match obj with
  | None => true
  | Some (t, v) =>
      match t_kind t with
      | KChan | KFunc | KMap | KPtr | KSlice | KUnsafePointer => match v with VRef None => true | _ => false end
      | _ => false
      end
  end.

Definition lift {S A} (m : outcome A) : go S A := λ s, a ← m; Ret (a, s).

Section assertions.
Variable Sprintf : string → list iface → string.
Variable DeepEqual_ : iface → iface → bool.
Variable PrettyDiff : iface → iface → string.
(** The caller's file, its base name, and line. *)
Variable file : string.
Variable line : Z.
Definition here : list iface := [of_string file; Some (mkType "int" KBasic true, VBasic (FormatInt line))].

Definition parseMsg (defaultMsg : string) (msg : list iface) : string :=
  match msg with
  | [] => defaultMsg
  | m :: rest => match as_string m with Some msgFormat => Sprintf msgFormat rest | None => defaultMsg end
  end.

Section with_logger.
Context {S : Type} (loggerFn : string → list iface → go S unit).

Definition Equal (expected actual : iface) (msg : list iface) : go S unit :=
  b ← lift (eq_iface expected actual);
  if negb b then
    loggerFn "%s:%d %s, want: %[4]v (%[4]T), got: %[5]v (%[5]T)"
      (here ++ [of_string (parseMsg "Values are not equal" msg); expected; actual])
  else mret ().

Definition NotEqual (expected actual : iface) (msg : list iface) : go S unit :=
  b ← lift (eq_iface expected actual);
  if b : bool then
    loggerFn "%s:%d %s, both values are equal: %[4]v (%[4]T)"
      (here ++ [of_string (parseMsg "Values are equal" msg); expected])
  else mret ().

Definition DeepEqual (expected actual : iface) (msg : list iface) : go S unit :=
  if negb (DeepEqual_ expected actual) then
    loggerFn "%s:%d %s, want: %#v, got: %#v, diff: %s"
      (here ++ [of_string (parseMsg "Values are not equal" msg); expected; actual; of_string (PrettyDiff expected actual)])
  else mret ().

Definition DeepNotEqual (expected actual : iface) (msg : list iface) : go S unit :=
  if DeepEqual_ expected actual then
    loggerFn "%s:%d %s, want: %#v, got: %#v"
      (here ++ [of_string (parseMsg "Values are equal" msg); expected; actual])
  else mret ().

(** An error as a value, and its text. *)
Record error_value := mkError { err_iface : iface; err_text : string }.

Definition NoError (err : option error_value) (msg : list iface) : go S unit :=
  match err with
  | Some e => loggerFn "%s:%d %s: %v" (here ++ [of_string (parseMsg "Unexpected error" msg); err_iface e])
  | None => mret ()
  end.

Definition ErrorContains (want : string) (err : option error_value) (msg : list iface) : go S unit :=
  if match err with None => true | Some e => negb (Contains (err_text e) want) end then
    loggerFn "%s:%d %s, got: %v, want: %s"
      (here ++ [of_string (parseMsg "Expected error not returned" msg); err ≫= err_iface; of_string want])
  else mret ().

Definition NotNil (obj : iface) (msg : list iface) : go S unit :=
  if isNil obj then loggerFn "%s:%d %s" (here ++ [of_string (parseMsg "Unexpected nil value" msg)]) else mret ().

(** A log entry: its text or the error of formatting it, and its fields. *)
Record log_entry := mkEntry { e_String : result error_value string; e_Data : list iface }.

Definition field_contains (want : string) (field : iface) : bool :=
  match as_string field with Some s => Contains s want | None => false end.

(** The loop over the entries: an error, or whether one matches, and their texts. *)
Fixpoint logs_loop (want : string) (entries : list log_entry) (found : bool) (logs : list string) :
    result error_value (bool * list string) :=
  match entries with
  | [] => Ok (found, logs)
  | e :: entries =>
      match e_String e with
      | Err err => Err err
      | Ok msg =>
          logs_loop want entries (found || Contains msg want || existsb (field_contains want) (e_Data e)) (logs ++ [msg])
      end
  end.

Definition slice_of (logs : list string) : iface :=
  Some (mkType "[]string" KSlice false, VStruct (map VBasic logs)).

Definition LogsContain (entries : list log_entry) (want : string) (flag : bool) (msg : list iface) : go S unit :=
  match logs_loop want entries false [] with
  | Err err => loggerFn "%s:%d Failed to format log entry to string: %v" (here ++ [err_iface err])
  | Ok (found, logs) =>
      let errMsg := if flag && negb found then parseMsg "Expected log not found" msg
                    else if negb flag && found then parseMsg "Unexpected log found" msg
                    else "" in
      if decide (errMsg ≠ "") then
        loggerFn ("%s:%d %s: %v" +:+ String "010" ("Searched logs:" +:+ String "010" "%v"))
          (here ++ [of_string errMsg; of_string want; slice_of logs])
      else mret ()
  end.
End with_logger.

(** ** The tests of packages assert and require *)

(** [AssertionTestingTB]. *)
Record TB (S : Type) := mkTB { Errorf : string → list iface → go S unit; Fatalf : string → list iface → go S unit }.
Arguments Errorf {S}.
Arguments Fatalf {S}.

Section tests.
Context {S : Type} (tb : TB S).

Definition assert_Equal := Equal (Errorf tb).
Definition assert_NotEqual := NotEqual (Errorf tb).
Definition assert_DeepEqual := DeepEqual (Errorf tb).
Definition assert_DeepNotEqual := DeepNotEqual (Errorf tb).
Definition assert_NoError := NoError (Errorf tb).
Definition assert_ErrorContains := ErrorContains (Errorf tb).
Definition assert_NotNil := NotNil (Errorf tb).
Definition assert_LogsContain entries want msg := LogsContain (Errorf tb) entries want true msg.
Definition assert_LogsDoNotContain entries want msg := LogsContain (Errorf tb) entries want false msg.

Definition require_Equal := Equal (Fatalf tb).
Definition require_NotEqual := NotEqual (Fatalf tb).
Definition require_DeepEqual := DeepEqual (Fatalf tb).
Definition require_DeepNotEqual := DeepNotEqual (Fatalf tb).
Definition require_NoError := NoError (Fatalf tb).
Definition require_ErrorContains := ErrorContains (Fatalf tb).
Definition require_NotNil := NotNil (Fatalf tb).
Definition require_LogsContain entries want msg := LogsContain (Fatalf tb) entries want true msg.
Definition require_LogsDoNotContain entries want msg := LogsContain (Fatalf tb) entries want false msg.
End tests.

(** The mock keeps the last message of each kind. *)
Record TBMock := mkTBMock { ErrorfMsg : string; FatalfMsg : string }.
Definition TBMock_Errorf (format : string) (args : list iface) : go TBMock unit :=
  go_modify (λ tb, mkTBMock (Sprintf format args) (FatalfMsg tb)).
Definition TBMock_Fatalf (format : string) (args : list iface) : go TBMock unit :=
  go_modify (λ tb, mkTBMock (ErrorfMsg tb) (Sprintf format args)).
Definition mock : TB TBMock := mkTB _ TBMock_Errorf TBMock_Fatalf.
End assertions.

(** ** Comparing *)

(** No value in an interface has a type that cannot be compared. *)
Fixpoint comparable (v : value) : bool :=
  match v with
  | VBasic _ | VRef _ | VIface None => true
  | VStruct l => (fix all (l : list value) : bool := match l with [] => true | v :: l => comparable v && all l end) l
  | VIface (Some (t, v)) => t_comparable t && comparable v
  end.

Lemma eq_value_refl : ∀ v, comparable v = true → eq_value v v = Ret true.
Proof.
  fix IH 1. intros [x|x|l|[[t v]|]] Hc; cbn [eq_value]; [by rewrite bool_decide_eq_true_2..| | |done].
  - induction l as [|v l IHl]; [done|]. cbn in Hc. apply andb_true_iff in Hc as [Hv Hl]. rewrite (IH v Hv). cbn [mbind outcome_bind].
    by apply IHl.
  - cbn in Hc. apply andb_true_iff in Hc as [Ht Hv]. rewrite decide_True, Ht by done. by apply IH.
Qed.

Lemma eq_value_true : ∀ a b, eq_value a b = Ret true → a = b.
Proof.
  fix IH 1. intros [x|x|l|[[t v]|]] [y|y|l'|[[u w]|]] H; try discriminate H; cbn [eq_value] in H; [..|done].
  - injection H as H%bool_decide_eq_true. by subst.
  - injection H as H%bool_decide_eq_true. by subst.
  - f_equal. revert l' H. induction l as [|v l IHl]; intros [|w l'] H; [done|discriminate H..|].
    destruct (eq_value v w) as [[]| |] eqn:E; try discriminate H. apply IH in E as ->. f_equal. by apply IHl.
  - case_decide as Ht; [|discriminate H]. destruct (t_comparable t); [|discriminate H]. apply IH in H as ->. by subst.
Qed.

Lemma eq_value_comparable : ∀ a b, comparable a = true → ∃ r, eq_value a b = Ret r.
Proof.
  fix IH 1. intros [x|x|l|[[t v]|]] [y|y|l'|[[u w]|]] Hc; cbn [eq_value]; try (by eexists).
  - revert l' Hc. induction l as [|v l IHl]; intros [|w l'] Hc; try (by eexists). cbn in Hc. apply andb_true_iff in Hc as [Hv Hl].
    destruct (IH v w Hv) as [[] ->]; cbn [mbind outcome_bind]; [by apply IHl|by eexists].
  - cbn in Hc. apply andb_true_iff in Hc as [Ht Hv]. rewrite Ht. case_decide; [by apply IH|by eexists].
Qed.

(** ** What is reported *)

Section reports.
Context (Sprintf : string → list iface → string) (file : string) (line : Z).
Context {S : Type} (loggerFn : string → list iface → go S unit).

(** [Equal] reports values that differ, [NotEqual] those that are the same; neither
    panics for a value that can be compared. *)
Theorem Equal_reports expected actual msg s : comparable (VIface expected) = true →
  (expected = actual → Equal Sprintf file line loggerFn expected actual msg s = Ret ((), s) ∧
     ∃ f args, NotEqual Sprintf file line loggerFn expected actual msg s = loggerFn f args s) ∧
  (expected ≠ actual → NotEqual Sprintf file line loggerFn expected actual msg s = Ret ((), s) ∧
     ∃ f args, Equal Sprintf file line loggerFn expected actual msg s = loggerFn f args s).
Proof.
  intros Hc. unfold Equal, NotEqual. rewrite !go_bind_run. unfold lift, eq_iface.
  destruct (eq_value_comparable (VIface expected) (VIface actual) Hc) as [r E]. rewrite E. cbn [mbind outcome_bind]. split.
  - intros <-. rewrite (eq_value_refl _ Hc) in E. injection E as <-. split; [done|]. by do 2 eexists.
  - intros Hne. destruct r; [apply eq_value_true in E; congruence|]. split; [done|]. by do 2 eexists.
Qed.

(** An entry has a text, in which or in a field of which [want] occurs. *)
Definition entry_contains (want : string) (e : log_entry) : Prop :=
  ∃ text, e_String e = Ok text ∧ (Contains text want = true ∨ ∃ f, f ∈ e_Data e ∧ field_contains want f = true).

Lemma logs_loop_spec want entries found logs : Forall (λ e, ∃ text, e_String e = Ok text) entries →
  ∃ found' logs', logs_loop want entries found logs = Ok (found', logs') ∧
    (found' = true ↔ found = true ∨ Exists (entry_contains want) entries).
Proof.
  intros Hall. revert found logs. induction Hall as [|e entries [text He] _ IH]; intros found logs.
  { exists found, logs. split; [done|]. rewrite Exists_nil. naive_solver. }
  cbn [logs_loop]. rewrite He. destruct (IH (found || Contains text want || existsb (field_contains want) (e_Data e)) (logs ++ [text]))
    as (found' & logs' & E & Hf). exists found', logs'. split; [done|]. rewrite Hf, !orb_true_iff, Exists_cons.
  assert (entry_contains want e ↔ Contains text want = true ∨ existsb (field_contains want) (e_Data e) = true) as Hiff; [|naive_solver].
  unfold entry_contains. rewrite existsb_exists. setoid_rewrite <-list_elem_of_In. rewrite He. naive_solver.
Qed.

(** over log entries that have texts, [LogsContain] asks whether [want] occurs in the
    text or a string field of an entry.  It reports nothing when the answer is [flag];
    otherwise it reports the custom message or the default one, except that a custom
    message that formats to the empty string makes the failing assertion pass. *)
Theorem LogsContain_spec entries want flag msg s : Forall (λ e, ∃ text, e_String e = Ok text) entries →
  let fails := if flag : bool then ¬ Exists (entry_contains want) entries else Exists (entry_contains want) entries in
  let errMsg := parseMsg Sprintf (if flag then "Expected log not found" else "Unexpected log found") msg in
  let run := LogsContain Sprintf file line loggerFn entries want flag msg s in
  (¬ fails → run = Ret ((), s)) ∧
  (fails → errMsg ≠ "" → ∃ format logs, run = loggerFn format (here file line ++ [of_string errMsg; of_string want; slice_of logs]) s) ∧
  (fails → errMsg = "" → run = Ret ((), s)) ∧
  (msg = [] → errMsg ≠ "").
Proof.
  intros Hall fails errMsg run. subst run errMsg. unfold LogsContain.
  destruct (logs_loop_spec want entries false [] Hall) as (found & logs & -> & Hf).
  assert (found = true ↔ Exists (entry_contains want) entries) as Hf' by naive_solver. clear Hf.
  assert ((fails ↔ flag && negb found || negb flag && found = true)) as Hfails.
  { subst fails. destruct flag, found; cbn; naive_solver. }
  clearbody fails. clear Hf' Hall.
  destruct flag, found; cbn [andb negb orb] in *; (split_and!;
    [intros Hn; first [done|exfalso; clear -Hn Hfails; intuition discriminate]
    |intros Hy Hne; first [rewrite decide_True by done; by do 2 eexists|exfalso; clear -Hy Hfails; intuition discriminate]
    |intros Hy He; first [rewrite He; done|exfalso; clear -Hy Hfails; intuition discriminate]|by intros ->]).
Qed.
End reports.

(** The mock of a test with a message that formats to nothing. *)
Lemma LogsContain_spec_witness :
  let Sprintf (f : string) (_ : list iface) := f in
  let entries := [mkEntry (Ok "level=info msg=started") [of_string "rpc"]] in
  assert_LogsContain Sprintf "a_test.go" 7 (mock Sprintf) entries "rpc" [] (mkTBMock "" "") = Ret ((), mkTBMock "" "") ∧
  require_LogsContain Sprintf "a_test.go" 7 (mock Sprintf) entries "stopped" [of_string ""] (mkTBMock "" "") = Ret ((), mkTBMock "" "").
Proof.
  intros Sprintf entries. assert (Forall (λ e, ∃ text, e_String e = Ok text) entries) as Hall
    by (apply Forall_singleton; by eexists).
  destruct (LogsContain_spec Sprintf "a_test.go" 7 (TBMock_Errorf Sprintf) entries "rpc" true [] (mkTBMock "" "") Hall) as (H1 & _).
  destruct (LogsContain_spec Sprintf "a_test.go" 7 (TBMock_Fatalf Sprintf) entries "stopped" true [of_string ""] (mkTBMock "" "") Hall)
    as (_ & _ & H2 & _).
  split.
  - apply H1. intros Hn. apply Hn. apply Exists_cons_hd. eexists. split; [reflexivity|]. right. exists (of_string "rpc").
    split; [by left|reflexivity].
  - apply H2; [|reflexivity]. intros [(text & E & Hx)|Hx]%Exists_cons; [|by apply Exists_nil in Hx].
    injection E as <-. destruct Hx as [Hx|(f & Hf & Hx)]; [discriminate Hx|].
    apply list_elem_of_singleton in Hf as ->. discriminate Hx.
Defined.
