(* ===== verification/Orchestrator.v ===== *)
(** * The orchestrator (simple_rpc/main.go, api, ipc-client)

    The service of the server and the call its client makes, composed of the service
    registry, the handler and the client's message, and the endpoint they meet at.  The
    types of go-ethereum and their JSON texts are arguments. *)

From S2P Require Import Prelude GoText GoPath GoFs Json RpcMessage RpcArgs RpcService GoChan.
From S2P Require Import RpcSubscription RpcClientSub RpcHandler RpcHandlerProps RpcServer RpcServerProps RpcClient RpcWire.

(** ** api/types.go *)

Record ValidationInfo := mkInfo { Typ : string; Message : string }.
Definition WARN : string := "WARNING".
Definition CRIT : string := "CRITICAL".
Definition INFO : string := "Info".

Definition Crit (vs : list ValidationInfo) (msg : string) : list ValidationInfo := vs ++ [mkInfo CRIT msg].
Definition Warn (vs : list ValidationInfo) (msg : string) : list ValidationInfo := vs ++ [mkInfo WARN msg].
Definition Info (vs : list ValidationInfo) (msg : string) : list ValidationInfo := vs ++ [mkInfo INFO msg].

Fixpoint warnings_loop (vs : list ValidationInfo) (messages : list string) : list string :=
  match vs with
  | [] => messages
  | msg :: vs =>
      warnings_loop vs (if bool_decide (Typ msg = WARN) || bool_decide (Typ msg = CRIT) then messages ++ [Message msg] else messages)
  end.
Definition getWarnings (vs : list ValidationInfo) : option string :=
  let messages := warnings_loop vs [] in
  if (0 <? length messages)%nat then Some ("validation failed: " +:+ Join "," messages) else None.

Record ExtraData := mkExtra { Slot : Z; Epoch : Z }.
Record ShardInfo (H A : Type) := mkShard {
  ParentHash : H; Coinbase : A; Root : H; TxHash : H; ReceiptHash : H; Number : Z }.
Arguments mkShard {H A}.
Arguments ParentHash {H A}.
Arguments Coinbase {H A}.
Arguments Root {H A}.
Arguments TxHash {H A}.
Arguments ReceiptHash {H A}.
Arguments Number {H A}.

(** [json.Marshal] and [json.Unmarshal] of [ExtraData]: numbers of a [uint64], null
    leaves a field alone, another value is an error that is returned at the end. *)
Definition ExtraData_Marshal (d : ExtraData) : string :=
  print_object [("slot", FormatUint (Z.to_N (Slot d))); ("epoch", FormatUint (Z.to_N (Epoch d)))].

Definition decode_uint64 (raw : string) (old : Z) : result string Z :=
  match shape_of raw with
  | Some JNull => Ok old
  | Some (JNum lit) =>
      match parse_digits 0 lit with
      | Some z => if bool_decide (z < 2 ^ 64)%Z then Ok z else Err ("json: cannot unmarshal number " +:+ lit)
      | None => Err ("json: cannot unmarshal number " +:+ lit)
      end
  | _ => Err ("json: cannot unmarshal " +:+ raw)
  end.
Definition extra_field (st : ExtraData * option string) (kv : string * string) : ExtraData * option string :=
  let '(d, e) := st in
  let key := fold_key (unquote kv.1) in
  if decide (key = "slot") then
    match decode_uint64 kv.2 (Slot d) with
    | Ok z => (mkExtra z (Epoch d), e)
    | Err e' => (d, Some (default e' e))
    end
  else if decide (key = "epoch") then
    match decode_uint64 kv.2 (Epoch d) with
    | Ok z => (mkExtra (Slot d) z, e)
    | Err e' => (d, Some (default e' e))
    end
  else (d, e).
Definition ExtraData_Unmarshal (raw : string) : result string ExtraData :=
  match shape_of raw with
  | Some JNull => Ok (mkExtra 0 0)
  | Some (JObj l) =>
      match foldl extra_field (mkExtra 0 0, None) l with
      | (d, None) => Ok d
      | (_, Some e) => Err e
      end
  | _ => Err ("json: cannot unmarshal " +:+ raw)
  end.

(** ** The hashes and addresses of go-ethereum *)

Class EthTypes (H A : Type) := {
  zero_hash : H;
  zero_address : A;
  hash_json : H → string;
  address_json : A → string;
  hash_unjson : string → result string H;
  address_unjson : string → result string A }.

Class EthLaws {H A} (E : EthTypes H A) := {
  hash_text h : ∃ k, bare k = true ∧ hash_json h = String dquote (k +:+ String dquote "");
  address_text a : ∃ k, bare k = true ∧ address_json a = String dquote (k +:+ String dquote "");
  hash_roundtrip h : hash_unjson (hash_json h) = Ok h;
  address_roundtrip a : address_unjson (address_json a) = Ok a }.

Section shard.
Context `{E : EthTypes H A}.

Definition ShardInfo_Marshal (s : ShardInfo H A) : string :=
  print_object
    [("parentHash", hash_json (ParentHash s)); ("miner", address_json (Coinbase s)); ("stateRoot", hash_json (Root s));
     ("transactionsRoot", hash_json (TxHash s)); ("receiptsRoot", hash_json (ReceiptHash s)); ("number", FormatInt (Number s))].

(** [big.Int] reads an integer literal of any size. *)
Definition parse_big (lit : string) : option Z :=
  match lit with
  | String c rest => if in_range 45 45 c then Z.opp <$> parse_digits 0 rest else parse_digits 0 lit
  | EmptyString => None
  end.

(** A field whose type decodes itself: the first error ends the decoding. *)
Definition decode_number (raw : string) (old : Z) : result string Z :=
  match shape_of raw with
  | Some JNull => Ok old
  | Some (JNum lit) => match parse_big lit with Some z => Ok z | None => Err "math/big: cannot unmarshal" end
  | _ => Err "math/big: cannot unmarshal"
  end.
Definition shard_field (st : result string (ShardInfo H A)) (kv : string * string) : result string (ShardInfo H A) :=
  s ← st;
  let key := fold_key (unquote kv.1) in
  if decide (key = "parenthash") then
    h ← hash_unjson kv.2; Ok (mkShard h (Coinbase s) (Root s) (TxHash s) (ReceiptHash s) (Number s))
  else if decide (key = "miner") then
    a ← address_unjson kv.2; Ok (mkShard (ParentHash s) a (Root s) (TxHash s) (ReceiptHash s) (Number s))
  else if decide (key = "stateroot") then
    h ← hash_unjson kv.2; Ok (mkShard (ParentHash s) (Coinbase s) h (TxHash s) (ReceiptHash s) (Number s))
  else if decide (key = "transactionsroot") then
    h ← hash_unjson kv.2; Ok (mkShard (ParentHash s) (Coinbase s) (Root s) h (ReceiptHash s) (Number s))
  else if decide (key = "receiptsroot") then
    h ← hash_unjson kv.2; Ok (mkShard (ParentHash s) (Coinbase s) (Root s) (TxHash s) h (Number s))
  else if decide (key = "number") then
    z ← decode_number kv.2 (Number s); Ok (mkShard (ParentHash s) (Coinbase s) (Root s) (TxHash s) (ReceiptHash s) z)
  else Ok s.
Definition ShardInfo_Unmarshal (raw : string) : result string (ShardInfo H A) :=
  let zero := mkShard zero_hash zero_address zero_hash zero_hash zero_hash 0%Z in
  match shape_of raw with
  | Some JNull => Ok zero
  | Some (JObj l) => foldl shard_field (Ok zero) l
  | _ => Err ("json: cannot unmarshal " +:+ raw)
  end.

(** ** api/api.go *)

Definition ProduceCatalystBlock (data : ExtraData) : ShardInfo H A :=
  mkShard zero_hash zero_address zero_hash zero_hash zero_hash 45.
Definition GetShardInfo : ShardInfo H A :=
  mkShard zero_hash zero_address zero_hash zero_hash zero_hash 45.

Definition extraDataType : gotype := TNamed "api.ExtraData" false.
(** [OrchestratorApi] and its constructor. *)
Record OrchestratorApi_ := mkOrchestratorApi { api_version : Z; api_name : string }.
Definition NewOrchestratorApi (version : Z) (name : string) : OrchestratorApi_ := mkOrchestratorApi version name.

Definition apiType : gotype := TPtr (TNamed "api.OrchestratorApi" false).
Definition shardInfoType : gotype := TPtr (TNamed "api.ShardInfo" false).

(** The methods as the registry sees them; arguments are values of [ExtraData]. *)
Definition shard_results (s : ShardInfo H A) : list goresult := [RVal (Ok (ShardInfo_Marshal s)); RErr None].
Definition OrchestratorApi : receiver (list ExtraData → script) :=
  mkReceiver "*api.OrchestratorApi"
    [mkMethod "GetShardInfo" "" (mkFunc [apiType; contextType] [shardInfoType; errorType]
       (λ _, RpcHandler.SReturn (shard_results GetShardInfo)));
     mkMethod "ProduceCatalystBlock" "" (mkFunc [apiType; contextType; extraDataType] [shardInfoType; errorType]
       (λ args, match args with data :: _ => RpcHandler.SReturn (shard_results (ProduceCatalystBlock data)) | [] => SPanic end))].
Definition decode_extra (t : gotype) (raw : string) : result string ExtraData :=
  if decide (t = extraDataType) then ExtraData_Unmarshal raw else Err "json: cannot unmarshal".

(** ** main.go *)

(** The registrations of [startServer]. *)
Definition rpcAPI : list (API (list ExtraData → script)) := [mkAPI "orchestrator" "1.0" OrchestratorApi true].

Definition ipcEndpoint (GOOS tempDir ipcPath datadir : string) : string :=
  if decide (GOOS = "windows") then
    if HasPrefix ipcPath "\\.\pipe\" then ipcPath else "\\.\pipe\" +:+ ipcPath
  else if decide (Base ipcPath = ipcPath) then
    if decide (datadir = "") then JoinPath [tempDir; ipcPath] else JoinPath [datadir; ipcPath]
  else ipcPath.
Definition endpoint (GOOS tempDir givenPath configDir : string) : string :=
  ipcEndpoint GOOS tempDir (JoinPath [givenPath; "orchestrator.ipc"]) configDir.

(** The flag that is described as the name of the socket is taken for its directory. *)
Lemma ipcpath_is_a_directory tempDir datadir :
  endpoint "linux" tempDir "geth.ipc" datadir = "geth.ipc/orchestrator.ipc".
Proof. reflexivity. Qed.

Definition startServer {L S} `{CodecSet S} (ToLower : string → string) (modules_body : list ExtraData → script)
    (ipcListen : string → result gerror L) (GOOS tempDir givenPath configDir : string) : result gerror (L * Server S (list ExtraData → script)) :=
  StartIPCEndpoint ToLower modules_body ipcListen (endpoint GOOS tempDir givenPath configDir) rpcAPI.

(** ** ipc-client *)

(** The message of [ProduceCatalystBlock]. *)
Definition produce_message (idCounter : Z) (data : ExtraData) : result gerror jsonrpcMessage * Z :=
  CallContext_message (Some (true, "")) idCounter "orchestrator_produceCatalystBlock"
    (Some (Ok (print_array [ExtraData_Marshal data]))).
(** What it returns for the end of the wait for the answer. *)
Definition produce_result (send_err : option gerror) (w : waited) : outcome (result gerror (ShardInfo H A)) :=
  e ← CallContext_result (λ t, match ShardInfo_Unmarshal t with Ok _ => None | Err e => Some (ENew e) end) send_err w;
  match e with
  | Some err => Ret (Err err)
  | None =>
      match w with
      | WaitResp (Some resp) _ =>
          match ShardInfo_Unmarshal (default "" (Result resp)) with Ok s => Ret (Ok s) | Err e => Ret (Err (ENew e)) end
      | _ => Panic "unreachable"
      end
  end.
End shard.

(** ** Transactions *)

(** [SendTxArgs.String] and [toTransaction]: addresses with mixed case, bytes and the
    two constructors of a transaction are third-party; quantities of 64 bits and [big.Int]s
    are numbers. *)
Section transactions.
Context {Mixed Address Bytes Tx : Type}.
Record SendTxArgs := mkSendTxArgs {
  tx_From : Mixed; tx_To : option Mixed; tx_Gas : Z; tx_GasPrice : Z; tx_Value : Z; tx_Nonce : Z;
  tx_Data : option Bytes; tx_Input : option Bytes }.

(** The texts of the fields, or the error of the first one that has none. *)
Variable mixed_json : Mixed → gval.
Variable bytes_json : Bytes → gval.
Variable uint64_json big_json : Z → gval.

Definition pointer_json {A} (json : A → gval) (o : option A) : gval := match o with Some a => json a | None => Ok "null" end.
Fixpoint fields_json (l : list (string * gval)) : result string (list (string * string)) :=
  match l with
  | [] => Ok []
  | (k, v) :: l => t ← v; ts ← fields_json l; Ok ((k, t) :: ts)
  end.
Definition SendTxArgs_String (args : SendTxArgs) : string :=
  match fields_json
    ([("from", mixed_json (tx_From args)); ("to", pointer_json mixed_json (tx_To args));
      ("gas", uint64_json (tx_Gas args)); ("gasPrice", big_json (tx_GasPrice args));
      ("value", big_json (tx_Value args)); ("nonce", uint64_json (tx_Nonce args));
      ("data", pointer_json bytes_json (tx_Data args))] ++
     match tx_Input args with Some b => [("input", bytes_json b)] | None => [] end) with
  | Ok members => print_object members
  | Err e => e
  end.

Variable mixed_Address : Mixed → Address.
(** Nonce, value, gas, gas price and input; [None] is a nil input. *)
Variable NewContractCreation : Z → Z → Z → Z → option Bytes → Tx.
Variable NewTransaction : Z → Address → Z → Z → Z → option Bytes → Tx.

Definition toTransaction (args : SendTxArgs) : Tx :=
  let input := match tx_Data args with
               | Some d => Some d
               | None => match tx_Input args with Some i => Some i | None => None end
               end in
  match tx_To args with
  | None => NewContractCreation (tx_Nonce args) (tx_Value args) (tx_Gas args) (tx_GasPrice args) input
  | Some to => NewTransaction (tx_Nonce args) (mixed_Address to) (tx_Value args) (tx_Gas args) (tx_GasPrice args) input
  end.

(** When both are given, the input is dropped in favour of the data. *)
Lemma toTransaction_data_first from to gas price value nonce d i i' :
  toTransaction (mkSendTxArgs from to gas price value nonce (Some d) i) =
  toTransaction (mkSendTxArgs from to gas price value nonce (Some d) i').
Proof. done. Qed.
End transactions.

(** ** From the client's call to its result *)

Lemma uint64_text z : (0 ≤ z < 2 ^ 64)%Z → is_value (FormatUint (Z.to_N z)) ∧
  ∀ old, decode_uint64 (FormatUint (Z.to_N z)) old = Ok z.
Proof.
  intros Hz. destruct (FormatUint_num (Z.to_N z)) as [[Hv Hs] Hp]. split; [done|]. intros old.
  unfold decode_uint64. rewrite Hs, Hp, Z2N.id by lia. by rewrite bool_decide_eq_true_2 by lia.
Qed.

Lemma ExtraData_roundtrip d : (0 ≤ Slot d < 2 ^ 64)%Z → (0 ≤ Epoch d < 2 ^ 64)%Z →
  is_value (ExtraData_Marshal d) ∧ ExtraData_Unmarshal (ExtraData_Marshal d) = Ok d.
Proof.
  intros Hs He. destruct (uint64_text _ Hs) as [Hsv Hsd], (uint64_text _ He) as [Hev Hed].
  assert (Forall member_ok [("slot", FormatUint (Z.to_N (Slot d))); ("epoch", FormatUint (Z.to_N (Epoch d)))]) as Hm
    by (repeat constructor; done).
  split; [by apply is_value_print_object|]. unfold ExtraData_Unmarshal, ExtraData_Marshal.
  rewrite shape_of_print_object by done. cbn [foldl]. unfold extra_field. cbn [fst snd].
  change (fold_key (unquote "slot")) with "slot". change (fold_key (unquote "epoch")) with "epoch".
  rewrite decide_True, Hsd by done. cbv beta iota. rewrite decide_False, decide_True, Hed by done. by destruct d.
Qed.

Lemma canonical_tight s : is_value s → tight s → canonical s.
Proof. intros Hv Ht. split; [done|by apply tight_compact]. Qed.

Lemma ExtraData_tight d : tight (ExtraData_Marshal d).
Proof. apply tight_print_object. repeat constructor; apply tight_FormatUint. Qed.

(** A literal that [compact] leaves alone. *)
Lemma canonical_literal s k : bare k = true → s = String dquote (k +:+ String dquote "") → is_value s ∧ tight s.
Proof.
  intros Hk ->. split; [|by apply tight_literal]. apply is_value_literal. unfold bare, plain in *.
  eapply str_forall_impl; [|exact Hk]. by intros c [H _]%andb_true_iff.
Qed.

Section shard_roundtrip.
Context {H A} {E : EthTypes H A} {EL : EthLaws E}.

Lemma hash_canonical h : is_value (hash_json h) ∧ tight (hash_json h).
Proof. destruct (hash_text h) as (k & Hk & Hh). by apply (canonical_literal _ k). Qed.
Lemma address_canonical a : is_value (address_json a) ∧ tight (address_json a).
Proof. destruct (address_text a) as (k & Hk & Ha). by apply (canonical_literal _ k). Qed.

Lemma ShardInfo_canonical (s : ShardInfo H A) : Number s = 45%Z → canonical (ShardInfo_Marshal s).
Proof.
  intros Hn. pose proof (FormatUint_num 45) as [[Hv _] _]. unfold ShardInfo_Marshal. rewrite Hn. apply canonical_tight.
  - apply is_value_print_object.
    repeat (apply Forall_cons; split; [split; [done|]|]); try apply hash_canonical; try apply address_canonical; done.
  - apply tight_print_object.
    repeat (apply Forall_cons; split; [split; [done|]|]); try apply hash_canonical; try apply address_canonical; [|done].
    by apply tight_outer.
Qed.

(** A member decoded into its field, whatever the others are. *)
Lemma shard_field_step s kv h : shard_field (Ok s) kv = Ok h → ∀ l, foldl shard_field (Ok s) (kv :: l) = foldl shard_field (Ok h) l.
Proof. intros E1 l. cbn [foldl]. by rewrite E1. Qed.

Lemma ShardInfo_roundtrip (s : ShardInfo H A) : Number s = 45%Z → ShardInfo_Unmarshal (ShardInfo_Marshal s) = Ok s.
Proof.
  intros Hn. pose proof (FormatUint_num 45) as [[Hv _] _]. unfold ShardInfo_Unmarshal, ShardInfo_Marshal.
  rewrite shape_of_print_object.
  2: { rewrite Hn. repeat (apply Forall_cons; split; [split; [done|]|]); try apply hash_canonical; try apply address_canonical; done. }
  rewrite Hn.
  erewrite shard_field_step; [|unfold shard_field; cbn [mbind result_bind fst snd];
    change (fold_key (unquote "parentHash")) with "parenthash"; rewrite hash_roundtrip; reflexivity].
  erewrite shard_field_step; [|unfold shard_field; cbn [mbind result_bind fst snd];
    change (fold_key (unquote "miner")) with "miner"; rewrite address_roundtrip; reflexivity].
  erewrite shard_field_step; [|unfold shard_field; cbn [mbind result_bind fst snd];
    change (fold_key (unquote "stateRoot")) with "stateroot"; rewrite hash_roundtrip; reflexivity].
  erewrite shard_field_step; [|unfold shard_field; cbn [mbind result_bind fst snd];
    change (fold_key (unquote "transactionsRoot")) with "transactionsroot"; rewrite hash_roundtrip; reflexivity].
  erewrite shard_field_step; [|unfold shard_field; cbn [mbind result_bind fst snd];
    change (fold_key (unquote "receiptsRoot")) with "receiptsroot"; rewrite hash_roundtrip; reflexivity].
  erewrite shard_field_step; [|reflexivity]. destruct s. cbn in Hn. subst. reflexivity.
Qed.
End shard_roundtrip.

Section end_to_end.
Context {V S : Type} `{CodecSet S} {Ha Ad : Type} {E : EthTypes Ha Ad} {EL : EthLaws E}.
Context (ToLower : string → string) (modules_body : list ExtraData → script).
Context (reencode syntax_text : string → string) (remote : option string) (now : Z).
Context (Zero : gotype → ExtraData) (text : decError → string) (as_ID : ExtraData → string) (idgen : nat → string).
Abbreviation codec := (jsonCodec (C := streamConn)).

(** [IpcClient.ProduceCatalystBlock] over a connection to a server. *)
Definition produce_call (idCounter : Z) (data : ExtraData) (loc : nat) (hc : handler codec V) (hs : handler codec ExtraData) :
    outcome (result gerror (ShardInfo Ha Ad)) :=
  match (produce_message idCounter data).1 with
  | Err e => Ret (Err e)
  | Ok msg =>
      '(send_err, w, _, _) ← exchange reencode syntax_text remote now decode_extra Zero text as_ID idgen msg loc hc hs;
      produce_result send_err w
  end.

Definition produce_results (args : list ExtraData) : list goresult :=
  match args with data :: _ => shard_results (ProduceCatalystBlock data) | [] => [] end.

Definition produce_callback : callback (list ExtraData → script) :=
  mkCallback (mkFunc [apiType; contextType; extraDataType] [shardInfoType; errorType]
    (λ args, match args with data :: _ => RpcHandler.SReturn (shard_results (ProduceCatalystBlock data)) | [] => SPanic end))
    true [extraDataType] true 1 false.

Lemma OrchestratorApi_callback : suitableCallbacks ToLower OrchestratorApi !! "produceCatalystBlock" = Some produce_callback.
Proof. reflexivity. Qed.

Lemma startServer_registered {L} (ipcListen : string → result gerror L) GOOS tempDir path dir l s :
  startServer ToLower modules_body ipcListen GOOS tempDir path dir = Ok (l, s) →
  ipcListen (endpoint GOOS tempDir path dir) = Ok l ∧
  reg_callback (sv_services s) "orchestrator_produceCatalystBlock" = Some produce_callback.
Proof.
  unfold startServer, StartIPCEndpoint, rpcAPI. cbn [register_all]. unfold RegisterName. cbn [api_Namespace api_Service].
  destruct (registerName ToLower "orchestrator" OrchestratorApi _) as [r|] eqn:Er; [|done].
  destruct (ipcListen _) as [l'|]; [|done]. intros [= <- <-]. split; [done|]. cbn [sv_services].
  exact (registerName_callback ToLower "orchestrator" OrchestratorApi _ r "produceCatalystBlock" produce_callback Er eq_refl
    OrchestratorApi_callback eq_refl).
Qed.

Lemma startServer_starts {L} (ipcListen : string → result gerror L) GOOS tempDir path dir l :
  ipcListen (endpoint GOOS tempDir path dir) = Ok l →
  ∃ s, startServer (S:=S) ToLower modules_body ipcListen GOOS tempDir path dir = Ok (l, s).
Proof.
  intros Hl. unfold startServer, StartIPCEndpoint, rpcAPI. cbn [register_all]. unfold RegisterName. cbn [api_Namespace api_Service].
  unfold registerName at 1. rewrite decide_False by done. rewrite decide_False; [rewrite Hl; by eexists|].
  intros Hc. pose proof OrchestratorApi_callback as Ho. by rewrite Hc, lookup_empty in Ho.
Qed.

(** The text of the parameters, which arrive as they are. *)
Lemma produce_raw data : (0 ≤ Slot data < 2 ^ 64)%Z → (0 ≤ Epoch data < 2 ^ 64)%Z →
  canonical (print_array [ExtraData_Marshal data]) ∧
  shape_of (print_array [ExtraData_Marshal data]) = Some (JArr [ExtraData_Marshal data]) ∧
  args_of decode_extra Zero produce_callback [ExtraData_Marshal data] = Ok [data].
Proof.
  intros Hs He. destruct (ExtraData_roundtrip data Hs He) as [Hv Hdec].
  assert (Forall is_value [ExtraData_Marshal data]) as Hf by (by repeat constructor). split_and!.
  - apply canonical_tight; [by apply is_value_print_array|]. apply tight_print_array.
    apply Forall_singleton, ExtraData_tight.
  - by apply shape_of_print_array.
  - unfold args_of. change (argTypes produce_callback) with [extraDataType]. cbn [positional_spec].
    unfold decode_extra at 1. by rewrite decide_True, Hdec by done.
Qed.

(** The call of [client] against the server that [startServer] has started: the
    endpoint listened on is the one that the client computes from the same flags; and
    on a connection with nothing unread, whatever went over it before, the message for
    any slot and epoch is written, read and dispatched to the API's method, and from
    the answer it reads the client returns the shard info of the API, with number 45. *)
Theorem produce_end_to_end {L} (ipcListen : string → result gerror L) GOOS tempDir path dir l s idCounter data loc
    (hc : handler codec V) (hs : handler codec ExtraData) :
  startServer ToLower modules_body ipcListen GOOS tempDir path dir = Ok (l, s) → h_reg hs = sv_services s →
  inv hc → h_ops hc !! loc = None → idle (h_conn hc) → idle (h_conn hs) →
  (0 ≤ Slot data < 2 ^ 64)%Z → (0 ≤ Epoch data < 2 ^ 64)%Z →
  ipcListen (endpoint GOOS tempDir path dir) = Ok l ∧
  produce_call idCounter data loc hc hs = Ret (Ok (mkShard zero_hash zero_address zero_hash zero_hash zero_hash 45%Z)).
Proof.
  intros Hstart Hreg Hinv Hloc Hic His Hs He.
  destruct (startServer_registered _ _ _ _ _ _ _ Hstart) as [Hl Hcb]. split; [done|].
  destruct (produce_raw data Hs He) as (Hraw & Hsh & Hargs).
  unfold produce_call, produce_message, CallContext_message.
  destruct (newMessage_ok idCounter "orchestrator_produceCatalystBlock" (Some (print_array [ExtraData_Marshal data])))
    as (msg & c & Em0). change (Some (Ok ?t)) with (params_text (Some t)). rewrite Em0.
  destruct (newMessage_call reencode _ _ (Some _) _ _ Em0) as (Hcall & Hok & Hmeth & Hp & Hrecv & id & Hid & Hvid & Hidc);
    [done|done|exact Hraw|].
  set (shard := mkShard zero_hash zero_address zero_hash zero_hash zero_hash 45%Z).
  assert (answer_of decode_extra Zero produce_callback produce_results msg [ExtraData_Marshal data] =
            mkMsg vsn (Some id) "" None None (Some (ShardInfo_Marshal shard))) as Hans.
  { unfold answer_of. by rewrite Hargs, <-Hid. }
  pose proof (ShardInfo_canonical shard eq_refl) as Hcan.
  destruct (exchange_answers reencode syntax_text remote now decode_extra Zero text as_ID idgen msg id [ExtraData_Marshal data] produce_callback produce_results loc hc hs)
    as (hc' & hs' & E' & _);
    [exact Hinv|exact Hloc|exact Hic|exact His|exact Hcall|exact Hid|exact Hvid|exact Hok|exact Hrecv| | | | | | | ].
  - unfold RpcMessage.isSubscribe. by rewrite Hmeth.
  - unfold isUnsubscribe. by rewrite Hmeth.
  - rewrite Hp. exact (proj2 (params_ok_are (Some _) _ (conj Hraw Hsh))).
  - by rewrite Hmeth, Hreg.
  - rewrite Hargs. by intros args [= <-].
  - rewrite Hans. by split_and!.
  - cbn [fst]. rewrite E', Hans. cbn [mbind outcome_bind]. unfold produce_result, CallContext_result. cbn [Error Result received fmap option_fmap option_map].
    assert (ShardInfo_Marshal shard ≠ "") as Hne by (unfold ShardInfo_Marshal; by rewrite print_object_cons).
    destruct (ShardInfo_Marshal shard) as [|ch rest] eqn:Em; [done|]. rewrite <-Em.
    cbn [mbind outcome_bind default from_option Datatypes.id]. by rewrite ShardInfo_roundtrip.
Qed.
End end_to_end.

(** ** A concrete call *)

Definition demo_text (b : bool) : string := String dquote ((if b then "0x1" else "0x0") +:+ String dquote "").
#[local] Instance demo_eth : EthTypes bool bool := {|
  zero_hash := false; zero_address := true; hash_json := demo_text; address_json := demo_text;
  hash_unjson s := Ok (bool_decide (s = demo_text true)); address_unjson s := Ok (bool_decide (s = demo_text true)) |}.
#[local] Instance demo_eth_laws : EthLaws demo_eth.
Proof.
  split; intros b; [exists (if b then "0x1" else "0x0")|exists (if b then "0x1" else "0x0")|..]; by destruct b.
Defined.

Lemma produce_end_to_end_witness :
  match startServer (L := unit) (S := list nat) (λ s, s) (λ _, SPanic) (λ _, Ok tt) "linux" "/tmp" "" "/data" with
  | Ok (_, s) =>
      produce_call id id None 0 (λ _, mkExtra 0 0) (λ _, "") (λ _, "") (λ _, "") 6 (mkExtra 4998 454) 0
        (demo_end (U := unit) (mkRegistry ∅)) (demo_end (sv_services s)) = Ret (Ok (mkShard false true false false false 45%Z))
  | Err _ => False
  end.
Proof.
  destruct (startServer _ _ _ _ _ _ _) as [[l s]|e] eqn:E; [|by vm_compute in E].
  refine (proj2 (produce_end_to_end (λ s, s) (λ _, SPanic) id id None 0 (λ _, mkExtra 0 0) (λ _, "") (λ _, "") (λ _, "")
    (λ _, Ok tt) "linux" "/tmp" "" "/data" l s 6 (mkExtra 4998 454) 0 (demo_end (U := unit) (mkRegistry ∅))
    (demo_end (sv_services s)) E eq_refl _ eq_refl _ _ _ _)).
  - apply inv_newHandler.
  - split; reflexivity.
  - split; reflexivity.
  - split; [discriminate|reflexivity].
  - split; [discriminate|reflexivity].
Defined.
