(* ===== verification/Cli.v ===== *)
(** * The command line (simple_rpc/utils, simple_rpc/main.go)

    Paths and flags.  A [cli.Flag] is its name, and a flag set the names that are
    registered in it, in which the [flag] package refuses a second registration.  The
    application made of them is in {!OrchestratorMain}. *)

From stdpp Require Import sorting.
From S2P Require Import Prelude GoText GoPath GoFs FileUtil.

(** ** customflags.go *)

Definition utils_HomeDir (w : world) : string :=
  let home := Getenv w "HOME" in
  if decide (home ≠ "") then home else default "" (w_user w).

Definition expandPath (w : world) (p : string) : string :=
  let home := utils_HomeDir w in
  let p := if (HasPrefix p "~/" || HasPrefix p "~\") && negb (bool_decide (home = ""))
           then home +:+ str_drop 1 p else p in
  Clean (ExpandEnv (Getenv w) p).

Record DirectoryFlag := mkDirectoryFlag { df_Name : string; df_Value : string; df_Usage : string; df_EnvVar : string }.

(** [DirectoryFlag.Set] through [DirectoryString.Set]. *)
Definition Set_ (w : world) (f : DirectoryFlag) (value : string) : DirectoryFlag :=
  mkDirectoryFlag (df_Name f) (expandPath w value) (df_Usage f) (df_EnvVar f).

(** [strings.Trim(name, " ")]. *)
Fixpoint TrimRight (s : string) (c : ascii) : string :=
  match s with
  | EmptyString => ""
  | String d s' => match TrimRight s' c with
                   | EmptyString => if decide (d = c) then "" else String d ""
                   | t => String d t
                   end
  end.
Definition Trim (s : string) (c : ascii) : string := TrimRight (TrimLeft s c) c.

(** [eachName] with a function over a state. *)
Definition eachName {S} (longName : string) (fn : string → go S unit) : go S unit :=
  go_for (split_on ","%char longName) (λ name, fn (Trim name " "%char)).

(** [set.Var]. *)
Definition Var (name : string) : go (list string) unit := λ set,
  if decide (name ∈ set) then Panic ("flag redefined: " +:+ name) else Ret ((), name :: set).
Definition Apply (f : DirectoryFlag) : go (list string) unit := eachName (df_Name f) (λ name, Var (df_Name f)).

(** ** defaults.go *)

Definition DefaultConfigDir (GOOS home appdata : string) : string :=
  if decide (home ≠ "") then
    if decide (GOOS = "darwin") then JoinPath [home; "Library"; "Orchestrator"]
    else if decide (GOOS = "windows") then
      if decide (appdata ≠ "") then JoinPath [appdata; "Orchestrator"]
      else JoinPath [home; "AppData"; "Roaming"; "Orchestrator"]
    else JoinPath [home; ".Orchestrator"]
  else "".

(** ** helpers.go *)

Abbreviation Flag := string.
Record FlagGroup := mkGroup { fg_Name : string; Flags : list Flag }.

(** The two loops of [Less] for one name: the last index of a group of the name. *)
Fixpoint index_loop (cat : string) (a : list FlagGroup) (i idx : nat) : nat :=
  match a with
  | [] => idx
  | group :: a => index_loop cat a (S i) (if decide (cat = fg_Name group) then i else idx)
  end.
Definition Len (a : list FlagGroup) : nat := length a.
Definition Swap (a : list FlagGroup) (i j : nat) : outcome (list FlagGroup) :=
  match a !! i, a !! j with
  | Some x, Some y => Ret (<[j := x]> (<[i := y]> a))
  | _, _ => Panic "index out of range"
  end.
Definition Less (a : list FlagGroup) (i j : nat) : outcome bool :=
  match a !! i, a !! j with
  | Some gi, Some gj =>
      Ret (index_loop (fg_Name gi) a 0 (length a) <? index_loop (fg_Name gj) a 0 (length a))%nat
  | _, _ => Panic "index out of range"
  end.

Definition has_flag (flag : Flag) (category : FlagGroup) : bool := existsb (λ flg, bool_decide (flg = flag)) (Flags category).
Fixpoint FlagCategory (flag : Flag) (flagGroups : list FlagGroup) : string :=
  match flagGroups with
  | [] => "MISC"
  | category :: groups => if has_flag flag category then fg_Name category else FlagCategory flag groups
  end.

(** ** main.go *)

Definition AppHelpFlagGroups : list FlagGroup :=
  [mkGroup "IPC-FLAGS" ["ipcpath"; "cfgdir"]; mkGroup "COMMON-FLAGS" ["loglevel"; "cfgdir"]].

(** The grouping of the help printer: [string_of] is the text of a flag, which is
    looked up among the categories. *)
Definition categorize (string_of : Flag → string) (flags : list Flag) : gmap string (list Flag) :=
  foldl (λ categorized flag,
    match categorized !! string_of flag with
    | Some _ => categorized
    | None =>
        let cat := FlagCategory flag AppHelpFlagGroups in
        <[cat := default [] (categorized !! cat) ++ [flag]]> categorized
    end) ∅ flags.

(** ** Lemmas *)

Lemma index_loop_other cat a i idx : (∀ g, g ∈ a → fg_Name g ≠ cat) → index_loop cat a i idx = idx.
Proof.
  revert i idx. induction a as [|g a IH]; intros i idx H; [done|]. cbn. rewrite decide_False by (intros E; apply (H g); [by left|done]).
  apply IH. intros g' Hg'. apply H. by right.
Qed.

Lemma index_loop_at a j g i idx : NoDup (map fg_Name a) → a !! j = Some g → index_loop (fg_Name g) a i idx = (i + j)%nat.
Proof.
  revert j i idx. induction a as [|g' a IH]; intros j i idx Hnd Hj; [done|]. cbn [map] in Hnd.
  apply NoDup_cons in Hnd as [Hn Hnd]. cbn [index_loop]. destruct j as [|j].
  - injection Hj as ->. rewrite decide_True by done. rewrite index_loop_other; [lia|].
    intros g' Hg' E. apply Hn. rewrite <-E. by apply list_elem_of_fmap_2.
  - cbn in Hj. rewrite (IH j) by done. lia.
Qed.

(** the order in which the help groups are to be sorted looks every name up in the
    groups that are being sorted instead of the groups of the application: when the
    names differ, as the keys of a map do, [Less(i, j)] is [i < j] whatever the order
    of the groups, so every order counts as sorted. *)
Theorem ByCategory_sorts_nothing a i j :
  NoDup (map fg_Name a) → (i < Len a)%nat → (j < Len a)%nat → Less a i j = Ret (i <? j)%nat.
Proof.
  unfold Len, Less. intros Hnd [gi Hi]%lookup_lt_is_Some_2 [gj Hj]%lookup_lt_is_Some_2. rewrite Hi, Hj.
  by rewrite !(index_loop_at a _ _ _ _ Hnd Hi), (index_loop_at a _ _ _ _ Hnd Hj).
Qed.

Lemma ByCategory_sorts_nothing_witness :
  Less (reverse AppHelpFlagGroups) 0 1 = Ret true ∧ Less AppHelpFlagGroups 0 1 = Ret true.
Proof.
  split; refine (ByCategory_sorts_nothing _ 0 1 _ _ _); try (vm_compute; lia); vm_compute; repeat constructor; set_solver.
Defined.

(** A flag with two names is registered twice under its long name. *)
Lemma Apply_alias : Apply (mkDirectoryFlag "ipcpath, i" "" "" "") [] = Panic "flag redefined: ipcpath, i".
Proof. reflexivity. Qed.

(** The two packages expand a path in the same way. *)
Lemma ExpandPath_expandPath w p : ExpandPath w p = Abs (Getwd w) (expandPath w p).
Proof. reflexivity. Qed.
