(* ===== verification/OrchestratorMain.v ===== *)
(** * The orchestrator program (simple_rpc/main.go, ipc-client, utils/flags.go)

    The two commands from their flags to what they log, over the components they are
    made of: the file system's sockets of {!Ipc}, the server of {!RpcServer}, the
    client of {!RpcClientApi} and the API of {!Orchestrator}.  [cli.Context] is
    third-party: an interface with its laws. *)

From stdpp Require Import sorting.
From S2P Require Import Prelude GoText GoPath GoFs Json RpcMessage RpcArgs RpcService GoChan.
From S2P Require Import RpcSubscription RpcHandler RpcHandlerProps RpcClient RpcWire RpcServer RpcServerProps RpcClientApi.
From S2P Require Import Ipc FileUtil Orchestrator Cli.

(** ** Flags *)

(** A command's context: the names of its flags, those that were given to it and
    their texts, and the flags of the application, of which [GlobalSet] sets one. *)
Class CliContext (C : Type) := {
  FlagNames : C → list string;
  IsSet : C → string → bool;
  String_ : C → string → string;
  GlobalString : C → string → string;
  GlobalSet : string → string → C → C }.
(** [accept] is what a flag's [Set] makes of a text. *)
Class CliLaws {C} (K : CliContext C) (accept : string → string → string) : Prop := {
  GlobalSet_local n v c : FlagNames (GlobalSet n v c) = FlagNames c ∧ IsSet (GlobalSet n v c) = IsSet c ∧
    String_ (GlobalSet n v c) = String_ c;
  GlobalSet_same n v c : GlobalString (GlobalSet n v c) n = accept n v;
  GlobalSet_other n m v c : n ≠ m → GlobalString (GlobalSet n v c) m = GlobalString c m }.

Section flags.
Context {C : Type} {K : CliContext C} {accept : string → string → string} {KL : CliLaws K accept}.

(** [MigrateFlags], whose loop runs over the names of the context it is called with. *)
Definition MigrateFlags {A} (action : C → A) (ctx : C) : A :=
  action (foldl (λ ctx name, if IsSet ctx name then GlobalSet name (String_ ctx name) ctx else ctx) ctx (FlagNames ctx)).

Lemma migrate_loop names ctx m :
  GlobalString (foldl (λ ctx name, if IsSet ctx name then GlobalSet name (String_ ctx name) ctx else ctx) ctx names) m =
    if decide (m ∈ names ∧ IsSet ctx m = true) then accept m (String_ ctx m) else GlobalString ctx m.
Proof.
  revert ctx. induction names as [|n names IH]; intros ctx; cbn [foldl].
  { rewrite decide_False; [done|]. by intros [?%elem_of_nil _]. }
  rewrite IH. destruct (IsSet ctx n) eqn:En.
  - destruct (GlobalSet_local n (String_ ctx n) ctx) as (_ & -> & ->).
    destruct (decide (m = n)) as [->|Hne].
    + rewrite (decide_True (P := n ∈ n :: names ∧ _)) by (split; [by left|done]). rewrite GlobalSet_same. by destruct (decide _).
    + rewrite GlobalSet_other by done. apply decide_ext. rewrite elem_of_cons. naive_solver.
  - apply decide_ext. rewrite elem_of_cons. naive_solver congruence.
Qed.

(** The action sees a flag given to the command as the application's. *)
Lemma MigrateFlags_sees m ctx :
  MigrateFlags (λ c, GlobalString c m) ctx =
    if decide (m ∈ FlagNames ctx ∧ IsSet ctx m = true) then accept m (String_ ctx m) else GlobalString ctx m.
Proof. apply migrate_loop. Qed.
End flags.

(** ** Help *)

(** [sort.Sort] of at most twelve elements: insertion. *)
Fixpoint insert_loop (j : nat) (a : list FlagGroup) : outcome (list FlagGroup) :=
  match j with
  | O => Ret a
  | S j' =>
      less ← Less a j j';
      if less : bool then a ← Swap a j j'; insert_loop j' a else Ret a
  end.
Fixpoint sort_loop (n i : nat) (a : list FlagGroup) : outcome (list FlagGroup) :=
  match n with O => Ret a | S n => a ← insert_loop i a; sort_loop n (S i) a end.
Definition sort_Sort (a : list FlagGroup) : outcome (list FlagGroup) := sort_loop (Len a - 1) 1 a.

(** What the help printer passes on to the original one. *)
Inductive helpData (D : Type) :=
| HelpData (App : D) (FlagGroups : list FlagGroup)
| HelpCommand (cmd : D) (categorizedFlags : list FlagGroup)
| HelpOther (data : D).
Arguments HelpData {D}. Arguments HelpCommand {D}. Arguments HelpOther {D}.

(** [range] gives the entries of a map in the order of its iteration; [as_Command]
    the flags of a command. *)
Definition HelpPrinter {D} (AppHelpTemplate CommandHelpTemplate : string) (string_of : Flag → string)
    (as_Command : D → option (list Flag)) (range : gmap string (list Flag) → list (string * list Flag))
    (tmpl : string) (data : D) : outcome (helpData D) :=
  if decide (tmpl = AppHelpTemplate) then Ret (HelpData data AppHelpFlagGroups)
  else if decide (tmpl = CommandHelpTemplate) then
    match as_Command data with
    | None => Panic "interface conversion"
    | Some flags =>
        sorted ← sort_Sort (map (λ '(cat, flgs), mkGroup cat flgs) (range (categorize string_of flags)));
        Ret (HelpCommand data sorted)
    end
  else Ret (HelpOther data).

Lemma Less_index a i j : NoDup (map fg_Name a) → (i < length a)%nat → (j < length a)%nat → Less a i j = Ret (i <? j)%nat.
Proof.
  unfold Less. intros Hnd [gi Hi]%lookup_lt_is_Some_2 [gj Hj]%lookup_lt_is_Some_2. rewrite Hi, Hj.
  by rewrite !(index_loop_at a _ _ _ _ Hnd Hi), (index_loop_at a _ _ _ _ Hnd Hj).
Qed.

Lemma sort_loop_id n i a : NoDup (map fg_Name a) → (i + n ≤ length a)%nat → (1 ≤ i)%nat → sort_loop n i a = Ret a.
Proof.
  revert i. induction n as [|n IH]; intros i Hnd Hi H1; [done|]. cbn [sort_loop].
  destruct i as [|j]; [lia|]. cbn [insert_loop]. rewrite Less_index by (done || lia).
  rewrite (proj2 (Nat.ltb_ge _ _)) by lia. cbn [mbind outcome_bind]. apply IH; [done|lia|lia].
Qed.

(** The groups of a command's help come in the order of the iteration over the map,
    which Go leaves open: sorting them changes nothing. *)
Theorem HelpPrinter_unsorted {D} string_of (as_Command : D → option (list Flag)) range app cmd data flags :
  app ≠ cmd → as_Command data = Some flags → range (categorize string_of flags) ≡ₚ map_to_list (categorize string_of flags) →
  HelpPrinter app cmd string_of as_Command range cmd data =
    Ret (HelpCommand data (map (λ '(cat, flgs), mkGroup cat flgs) (range (categorize string_of flags)))).
Proof.
  intros Hne Hc Hr. unfold HelpPrinter. rewrite decide_False, decide_True, Hc by done. unfold sort_Sort, Len.
  assert (NoDup (map fg_Name (map (λ '(cat, flgs), mkGroup cat flgs) (range (categorize string_of flags))))) as Hnd.
  { rewrite map_map. replace (map _ _) with (range (categorize string_of flags)).*1; [|by apply map_ext; intros [? ?]].
    rewrite Hr. apply NoDup_fst_map_to_list. }
  set (a := map _ (range _)) in *. destruct (decide (a = [])) as [->|Hna]; [done|].
  assert (1 ≤ length a)%nat by (destruct a; [done|cbn; lia]). by rewrite sort_loop_id by (done || lia).
Qed.

(** ** The commands *)

(** What a command that logs comes to: it returns, or the process exits. *)
Inductive command := Returns (logs : list string) (err : option gerror) | Exits (logs : list string).

Section commands.
Context {V S : Type} `{CodecSet S} {Ha Ad : Type} {E : EthTypes Ha Ad} {EL : EthLaws E}.
Context (ToLower : string → string) (modules_body : list ExtraData → script).
Context (reencode syntax_text : string → string) (remote : option string) (now : Z).
Context (Zero : gotype → ExtraData) (text : decError → string) (as_ID : ExtraData → string) (idgen : nat → string).
Context (hash_text : Ha → string).
Abbreviation codec := (jsonCodec (C := streamConn)).
Abbreviation registry := (serviceRegistry (list ExtraData → script)).

(** [startServer] after the endpoint is opened: it waits for an interrupt, if one
    comes, and closes the listener when it returns. *)
Definition startServer_run {L} (listen : string → Prelude.result gerror L) (sig : option string)
    (GOOS tempDir givenPath configDir : string) : outcome command :=
  let ipcapiURL := endpoint GOOS tempDir givenPath configDir in
  match startServer (S:=S) ToLower modules_body listen GOOS tempDir givenPath configDir with
  | Err err => Ret (Exits ["Could not start IPC api: " +:+ error_text err])
  | Ok _ =>
      match sig with
      | None => Blocks "chan receive"
      | Some sig =>
          Ret (Returns ["IPC endpoint opened url: " +:+ ipcapiURL; "Exiting... signal: " +:+ sig;
                        "IPC endpoint closed url: " +:+ ipcapiURL] None)
      end
  end.

(** The listener of the file system. *)
Definition os_listen (w : world) (ep : string) : Prelude.result gerror world :=
  match ipcListen w ep with (w, None) => Ok w | (_, Some e) => Err (ENew (GoFs.Error e)) end.

(** [IpcClient] over a client of type [C]. *)
Record IpcClient (C : Type) := mkIpcClient { isConnected : bool; isRunning : bool; ic_endpoint : string; ic_client : C }.
Definition NewIpcClilent {C} (Dial : string → Prelude.result gerror C) (ep : string) : Prelude.result gerror (IpcClient C) :=
  match Dial ep with Err err => Err err | Ok client => Ok (mkIpcClient C true true ep client) end.

(** [client]; [call] is the call of [ProduceCatalystBlock] with a client. *)
Definition client_data : ExtraData := mkExtra 4998 454.
Definition client_run {C} (Dial : string → Prelude.result gerror C)
    (call : C → ExtraData → outcome (Prelude.result gerror (ShardInfo Ha Ad)))
    (GOOS tempDir givenPath configDir : string) : outcome command :=
  let ipcapiURL := endpoint GOOS tempDir givenPath configDir in
  match NewIpcClilent Dial ipcapiURL with
  | Err err => Ret (Returns ["Could not connect with server. error: " +:+ error_text err] (Some err))
  | Ok ipcClient =>
      r ← call (ic_client C ipcClient) client_data;
      match r with
      | Err err => Ret (Returns ["Could not get sharding info. error: " +:+ error_text err] (Some err))
      | Ok shardInfo =>
          Ret (Returns ["Sharding info. parentHash: " +:+ hash_text (ParentHash shardInfo);
                        "Sharding info. blockNumber: " +:+ FormatInt (Number shardInfo)] None)
      end
  end.

Lemma endpoint_linux tempDir k : key_ok k → key_ok ("orchestrator.ipc" :: k) →
  endpoint "linux" tempDir "" (abs_path k) = abs_path ("orchestrator.ipc" :: k).
Proof.
  intros Hk Hk'. unfold endpoint. change (JoinPath [""; "orchestrator.ipc"]) with "orchestrator.ipc". unfold ipcEndpoint.
  rewrite decide_False, decide_True, decide_False by (done || apply abs_path_ne). by apply JoinPath_name.
Qed.

(** C30: the two commands together, on Linux with a configuration directory whose
    socket's path fits an address, where no file and no non-empty directory is in the
    way: the server listens on a socket that only its owner can use, in the directory,
    which it makes when it is missing, takes a socket left there before it away, and
    runs until it is interrupted; the client with the same flags dials that socket,
    and over the connection, whatever went over it before, its call is answered by
    the API, and it logs the parent hash and the number 45. *)
Theorem orchestrator_end_to_end (w : world) (k : key) tempDir C (Dial : string → Prelude.result gerror C) c
    idCounter loc (hc : handler codec V) (hs : handler codec ExtraData) :
  let socket := "orchestrator.ipc" :: k in let ep := abs_path socket in
  fs_ok (w_fs w) → key_ok k → no_file (w_fs w) k → (slen ep < sun_path)%nat → ¬ in_the_way (w_fs w) socket →
  Dial ep = Ok c → inv hc → h_ops hc !! loc = None → idle (h_conn hc) → idle (h_conn hs) →
  ∃ w' s,
    startServer (S:=S) ToLower modules_body (os_listen w) "linux" tempDir "" (abs_path k) = Ok (w', s) ∧
    w_fs w' !! socket = Some (EFile 384 "") ∧ dir_at (w_fs w') k = true ∧
    startServer_run (os_listen w) None "linux" tempDir "" (abs_path k) = Blocks "chan receive" ∧
    (h_reg hs = sv_services s →
     client_run Dial (λ _ data, produce_call reencode syntax_text remote now Zero text as_ID idgen idCounter data loc hc hs)
       "linux" tempDir "" (abs_path k) =
       Ret (Returns ["Sharding info. parentHash: " +:+ hash_text zero_hash; "Sharding info. blockNumber: 45"] None)).
Proof.
  intros socket ep Hf Hk Hno Hlen Hway Hdial Hinv Hloc Hic His.
  assert (key_ok socket) as Hks by (constructor; [repeat split; discriminate|done]).
  pose proof (endpoint_linux tempDir k Hk Hks) as Hep.
  destruct (ipcListen_spec w "orchestrator.ipc" k Hf Hks Hno Hlen) as [_ H2]. destruct (H2 Hway) as [Herr Hfs].
  destruct (ipcListen w ep) as [w' e] eqn:El. fold socket ep in El, Herr, Hfs. rewrite El in Herr, Hfs. cbn [fst snd] in Herr, Hfs. subst e.
  assert (os_listen w ep = Ok w') as Hl by (unfold os_listen; by rewrite El).
  destruct (startServer_starts (S:=S) ToLower modules_body (os_listen w) "linux" tempDir "" (abs_path k) w') as [s Hs];
    [by rewrite Hep|].
  exists w', s. split_and!; [done| | | |].
  - by rewrite Hfs, decide_True.
  - unfold dir_at. rewrite Hfs, decide_False by (intros Ek%(f_equal length)%Nat.neq_succ_diag_r; done).
    unfold with_dirs. rewrite bool_decide_eq_true_2 by done. destruct (w_fs w !! k) as [[m d|]|] eqn:Ek; [|done..]. destruct (Hno k m d (reflexivity (R:=suffix) k) Ek).
  - unfold startServer_run. by rewrite Hs.
  - intros Hreg. unfold client_run, NewIpcClilent. rewrite Hep. fold socket ep. rewrite Hdial. cbn [ic_client].
    destruct (produce_end_to_end (V := V) ToLower modules_body reencode syntax_text remote now Zero text as_ID idgen (os_listen w)
      "linux" tempDir "" (abs_path k) w' s idCounter client_data loc hc hs) as [_ ->];
      [exact Hs|exact Hreg|exact Hinv|exact Hloc|exact Hic|exact His|vm_compute; intuition discriminate..|reflexivity].
Qed.
End commands.

(** ** The application *)

(** The flags of [utils/flags.go]; the default directory is that of the process's start. *)
Inductive cliFlag :=
| FDirectory (f : DirectoryFlag)
| FInt (name : string) (value : Z) (usage : string)
| FString (name value usage : string).
Definition flag_Name (f : cliFlag) : string :=
  match f with FDirectory f => df_Name f | FInt name _ _ | FString name _ _ => name end.
Definition IPCPathFlag : cliFlag :=
  FDirectory (mkDirectoryFlag "ipcpath" "" "Filename for IPC socket/pipe within the datadir (explicit paths escape it)" "").
Definition LogLevelFlag : cliFlag := FInt "loglevel" 4 "log level to emit to the screen".
Definition ConfigDirFlag (GOOS home appdata : string) : cliFlag :=
  FString "cfgdir" (DefaultConfigDir GOOS home appdata) "Directory for Orchestrator configuration".

Record Command (A : Type) := mkCommand {
  cm_Name : string; cm_Usage : string; cm_Flags : list cliFlag; cm_Description : string; cm_Action : A }.
Record App (A : Type) := mkApp {
  ap_Name : string; ap_Usage : string; ap_Flags : list cliFlag; ap_Action : A; ap_Commands : list (Command A) }.
Arguments mkCommand {A}. Arguments cm_Action {A}. Arguments cm_Flags {A}. Arguments cm_Name {A}.
Arguments mkApp {A}. Arguments ap_Action {A}. Arguments ap_Flags {A}. Arguments ap_Commands {A}.

Section application.
Context {C : Type} {K : CliContext C} {accept : string → string → string} {KL : CliLaws K accept}.
(** The two commands as functions of the paths that they read from the flags of the
    application. *)
Context (server_of client_of : string → string → outcome command).
Context (GOOS home appdata : string).

Definition app_flags : list cliFlag := [IPCPathFlag; LogLevelFlag; ConfigDirFlag GOOS home appdata].
Definition startServer_cmd (c : C) : outcome command := server_of (GlobalString c "ipcpath") (GlobalString c "cfgdir").
Definition client_cmd (c : C) : outcome command := client_of (GlobalString c "ipcpath") (GlobalString c "cfgdir").
Definition newline : string := String (Ascii.ascii_of_nat 10) "".
Definition serverStartCommand : Command (C → outcome command) :=
  mkCommand "start-server" "Start server" app_flags
    (newline +:+ "The start-server command starts the rpc server using http or ipc.") (MigrateFlags startServer_cmd).
Definition clientStartCommand : Command (C → outcome command) :=
  mkCommand "client" "Run client" app_flags
    (newline +:+ "The client command starts the client to communicate with rpc server via http or ipc") (MigrateFlags client_cmd).

(** [init]. *)
Definition app : App (C → outcome command) :=
  mkApp "Orchestrator" "Orchestrator client is the main consensus client for beaconchain and catalyst chain"
    app_flags startServer_cmd [serverStartCommand; clientStartCommand].

(** [main]: what goes to the standard error and the exit code; [Run] is the package's. *)
Definition main (Run : App (C → outcome command) → list string → option gerror) (Args : list string) : list string * Z :=
  match Run app Args with Some err => ([error_text err], 1%Z) | None => ([], 0%Z) end.

(** A path given to a command counts for it and one given to the application otherwise,
    for the server and the client alike. *)
Definition effective (c : C) (name : string) : string :=
  if decide (name ∈ FlagNames c ∧ IsSet c name = true) then accept name (String_ c name) else GlobalString c name.
Lemma commands_see_flags c :
  cm_Action serverStartCommand c = server_of (effective c "ipcpath") (effective c "cfgdir") ∧
  cm_Action clientStartCommand c = client_of (effective c "ipcpath") (effective c "cfgdir").
Proof.
  cbn [serverStartCommand clientStartCommand cm_Action]. unfold effective.
  rewrite <-!(MigrateFlags_sees (accept := accept)). split; reflexivity.
Qed.

(** Every flag of a command has a place in the help that is not the rest. *)
Lemma flags_categorised : Forall (λ f, FlagCategory (flag_Name f) AppHelpFlagGroups ≠ "MISC") app_flags.
Proof. repeat constructor; discriminate. Qed.
End application.

(** ** A directory that is not there yet *)

#[local] Existing Instances demo_eth demo_eth_laws.
Definition ex_root : world := mkWorld {[ [] := EDir 493 ]} [] ∅ None 18.
Definition ex_listen : string → Prelude.result gerror world := os_listen ex_root.

Lemma orchestrator_end_to_end_witness :
  match startServer (S := list nat) (λ s, s) (λ _, SPanic) ex_listen "linux" "/tmp" "" "/cfg" with
  | Ok (w', s) =>
      w_fs w' !! ["orchestrator.ipc"; "cfg"] = Some (EFile 384 "") ∧
      client_run (λ b : bool, if b then "0x1" else "0x0") (λ _, Ok tt)
        (λ _ data, produce_call id id None 0 (λ _, mkExtra 0 0) (λ _, "") (λ _, "") (λ _, "") 6 data 0
           (demo_end (U := unit) (mkRegistry ∅)) (demo_end (sv_services s)))
        "linux" "/tmp" "" "/cfg" =
        Ret (Returns ["Sharding info. parentHash: 0x0"; "Sharding info. blockNumber: 45"] None)
  | Err _ => False
  end.
Proof.
  destruct (startServer _ _ _ _ _ _ _) as [[l s]|e] eqn:Es; [|by vm_compute in Es].
  destruct (orchestrator_end_to_end (V := unit) (S := list nat) (λ s, s) (λ _, SPanic) id id None 0 (λ _, mkExtra 0 0) (λ _, "")
    (λ _, "") (λ _, "") (λ b : bool, if b then "0x1" else "0x0") ex_root ["cfg"] "/tmp" unit (λ _, Ok tt) tt 6 0
    (demo_end (mkRegistry ∅)) (demo_end (sv_services s))) as (w' & s' & E1 & E2 & _ & _ & E3).
  - apply fs_okb_ok. reflexivity.
  - repeat constructor; discriminate.
  - intros j m d Hj E. cbn [ex_root w_fs] in E. apply lookup_singleton_Some in E as [_ ?]. discriminate.
  - apply Nat.ltb_lt. reflexivity.
  - intros (m & x & E & _). discriminate.
  - reflexivity.
  - apply inv_newHandler.
  - reflexivity.
  - split; reflexivity.
  - split; reflexivity.
  - unfold ex_listen in Es. change (abs_path ["cfg"]) with "/cfg" in E1. rewrite Es in E1. injection E1 as -> <-. split; [exact E2|]. exact (E3 eq_refl).
Defined.
