(* ===== verification/Experiments.v ===== *)
(** * The language experiments (golang_test)

    Small programs that try one feature of Go each: a scanner of bytes
    ([bufio-test/scan.go]), deferred calls and a recovered panic
    ([control-flow/DeferPanicRecover.go]), a generator that a context stops
    ([context-test/simple_context.go]), a wait group ([syncing-test/wait-group]) and a
    service that starts in the background ([real-world/test-example]).  The concurrent
    ones are step relations. *)

From S2P Require Import Prelude GoText.

(** ** bufio-test/scan.go *)

Module Scan.

(** [bufio.Scanner] over a [strings.Reader], split by [bufio.ScanBytes]: what is left,
    and the token. *)
Record Scanner := { s_rest : string; s_token : string }.
Definition NewScanner (s : string) : Scanner := {| s_rest := s; s_token := "" |}.
Definition Scan (s : Scanner) : Scanner * bool :=
  match s_rest s with
  | "" => ({| s_rest := ""; s_token := "" |}, false)
  | String c r => ({| s_rest := r; s_token := String c "" |}, true)
  end.

Definition byte_char (b : Z) : string := String (char_of_Z b) "".
Definition scanTests : list string :=
  [""; "a"; "¼"; "☹"; byte_char 129; replacement_char; "abcdefgh";
   "abc def" +:+ byte_char 10 +:+ byte_char 9 +:+ byte_char 9 +:+ "gh    ";
   "abc¼☹" +:+ byte_char 129 +:+ replacement_char +:+ "日本語" +:+ byte_char 130 +:+ "abc"].

Section ScanByte.
(** The verb [%q] of fmt. *)
Context (quote : string → string).

Definition expected_line (n i : nat) (test b : string) : string :=
  "#" +:+ FormatUint (N.of_nat n) +:+ ": " +:+ FormatUint (N.of_nat i) +:+ ": expected " +:+ quote test +:+ " got " +:+ quote b.
Definition termination_line (n want got : nat) : string :=
  "#" +:+ FormatUint (N.of_nat n) +:+ ": termination expected at " +:+ FormatUint (N.of_nat want) +:+ "; got " +:+ FormatUint (N.of_nat got).

(** [for i = 0; s.Scan(); i++]: the lines printed and the last [i].  The index [test[i]]
    is out of range only when the scanner gives more bytes than there are. *)
Fixpoint scan_loop (fuel n i : nat) (test : string) (s : Scanner) : outcome (list string * nat) :=
  match fuel with
  | O => Blocks "fuel"
  | S fuel =>
      let (s, more) := Scan s in
      if negb more then Ret ([], i) else
      let b := s_token s in
      wrong ← (if negb (slen b =? 1)%nat then Ret true
               else match String.get 0 b, String.get i test with
                    | Some b0, Some t => Ret (negb (bool_decide (b0 = t)))
                    | _, _ => Panic "index out of range"
                    end);
      '(out, last) ← scan_loop fuel n (S i) test s;
      Ret ((if wrong : bool then [expected_line n i test b] else []) ++ out, last)
  end.

Definition scan_test (n : nat) (test : string) : outcome (list string) :=
  '(out, i) ← scan_loop (S (slen test)) n 0 test (NewScanner test);
  Ret (out ++ if negb (i =? slen test)%nat then [termination_line n (slen test) i] else []).

Fixpoint scan_all (n : nat) (tests : list string) : outcome (list string) :=
  match tests with
  | [] => Ret []
  | test :: tests => out ← scan_test n test; out' ← scan_all (S n) tests; Ret (out ++ out')
  end.
Definition ScanByte : outcome (list string) := scan_all 0 scanTests.

(** The scanner of bytes gives every byte once and in order. *)
Lemma scan_loop_rest fuel n pre rest tok : (slen rest < fuel)%nat →
  scan_loop fuel n (slen pre) (pre +:+ rest) {| s_rest := rest; s_token := tok |} = Ret ([], slen (pre +:+ rest)).
Proof.
  revert pre rest tok; induction fuel as [|fuel IH]; intros pre rest tok Hf; [lia|].
  destruct rest as [|c rest]; cbn [scan_loop Scan s_rest s_token negb].
  - by rewrite str_app_nil_r.
  - assert (String.get (slen pre) (pre +:+ String c rest) = Some c) as ->
      by (clear; induction pre as [|d pre IHp]; [by rewrite str_app_nil|by rewrite str_app_cons]).
    cbn [slen String.get Nat.eqb negb]. rewrite bool_decide_true by done.
    replace (pre +:+ String c rest) with ((pre +:+ String c "") +:+ rest)
      by (rewrite str_app_assoc; by rewrite str_app_cons, str_app_nil).
    replace (S (slen pre)) with (slen (pre +:+ String c "")) by (rewrite slen_app; cbn; lia).
    cbn [mbind outcome_bind negb]. cbn in Hf. by rewrite IH by lia.
Qed.

(** Whatever the texts, nothing is wrong with them. *)
Theorem ScanByte_silent tests n : scan_all n tests = Ret [].
Proof.
  revert n; induction tests as [|test tests IH]; intros n; [done|]. cbn [scan_all]. unfold scan_test.
  pose proof (scan_loop_rest (S (slen test)) n "" test "" ltac:(lia)) as H. rewrite str_app_nil in H. cbn [slen] in H.
  unfold NewScanner. rewrite H. cbn. rewrite Nat.eqb_refl. cbn. by rewrite IH.
Qed.
End ScanByte.
End Scan.

(** ** control-flow/DeferPanicRecover.go *)

Module Defer.

(** A run that prints: the lines, and the panic that is under way at its end. *)
Definition run : Type := list string * option string.
(** [fmt.Println]: one line. *)
Definition line (s : string) : run := ([s], None).
Definition seq (a b : run) : run :=
  match a with
  | (out, None) => (out ++ b.1, b.2)
  | (out, Some p) => (out, Some p)
  end.
(** [defer]: the deferred call runs after the body, panicking or not. *)
Definition deferred (d body : run) : run :=
  match d with
  | (out, None) => (body.1 ++ out, body.2)
  | (out, Some p) => (body.1 ++ out, Some p)
  end.

(** [g], by the number of calls: [i + 1] does not overflow, being at most 4. *)
Fixpoint g (fuel : nat) (i : Z) : option run :=
  match fuel with
  | O => None
  | S fuel =>
      if (3 <? i)%Z then Some (seq (line "Panicking") ([], Some (FormatInt i)))
      else
        r ← g fuel (i + 1);
        Some (deferred (line ("Defer in g " +:+ FormatInt i))
                       (seq (line ("Printing in g " +:+ FormatInt i)) r))
  end.

(** [recover] in the deferred function ends the panic. *)
Definition recovered (name : string) (body : run) : run :=
  match body with
  | (out, Some r) => (out ++ [name +:+ r], None)
  | (out, None) => (out, None)
  end.
Definition f (fuel : nat) : option run :=
  r ← g fuel 0;
  Some (recovered "Recovered in f: " (seq (line "Calling g.") (seq r (line "Returned normally from g.")))).
Definition main (fuel : nat) : option run :=
  r ← f fuel; Some (seq r (line "Returned normally from f.")).

(** [g] prints on the way down, panics with 4 and runs its deferred calls in reverse. *)
Theorem g_spec (i : Z) fuel : (i ≤ 3)%Z → (Z.to_nat (5 - i) ≤ fuel)%nat →
  g fuel i = Some (((λ k, "Printing in g " +:+ FormatInt k) <$> seqZ i (4 - i)) ++ ["Panicking"] ++
                   ((λ k, "Defer in g " +:+ FormatInt k) <$> reverse (seqZ i (4 - i))), Some "4").
Proof.
  intros Hi. remember (Z.to_nat (3 - i)) as m eqn:Hm. revert i fuel Hi Hm.
  induction m as [|m IH]; intros i fuel Hi Hm Hf.
  - assert (i = 3%Z) as -> by lia. destruct fuel as [|[|fuel]]; [cbn in Hf; lia..|]. reflexivity.
  - destruct fuel as [|fuel]; [lia|]. cbn [g]. rewrite (proj2 (Z.ltb_ge _ _)) by lia.
    rewrite (IH (i + 1)%Z fuel) by lia. rewrite (seqZ_cons i) by lia.
    replace (Z.succ i) with (i + 1)%Z by lia. replace (Z.pred (4 - i)) with (4 - (i + 1))%Z by lia.
    rewrite !fmap_cons, reverse_cons, fmap_app. unfold deferred, seq, line. cbn [fst snd mbind option_bind].
    by rewrite <-!app_assoc, <-!app_comm_cons.
Qed.

(** The panic is recovered in [f], which does not go on after the call of [g]. *)
Theorem main_spec fuel : (5 ≤ fuel)%nat → main fuel = Some (
  ["Calling g."; "Printing in g 0"; "Printing in g 1"; "Printing in g 2"; "Printing in g 3"; "Panicking";
   "Defer in g 3"; "Defer in g 2"; "Defer in g 1"; "Defer in g 0"; "Recovered in f: 4"; "Returned normally from f."], None).
Proof. intros H. unfold main, f. rewrite g_spec; [reflexivity|lia|cbn; lia]. Qed.
End Defer.

(** ** context-test/simple_context.go *)

Module Context.

(** The goroutine of [gen] is at its [select] or about to print; the loop of
    [ContextWithCancel] receives, or has a number, or is over. *)
Inductive gen_pc := GSelect | GPrint | GExit.
Inductive main_pc := MRecv | MBody (n : Z) | MReturned.
#[export] Instance main_pc_eq_dec : EqDecision main_pc.
Proof. solve_decision. Defined.
Record state := { gen : gen_pc; n : Z; main : main_pc; cancelled : bool; out : list string }.
Definition start : state := {| gen := GSelect; n := 1; main := MRecv; cancelled := false; out := [] |}.

Definition incrementing (n : Z) : string := "incrementing:  " +:+ FormatInt n.

(** [dst] is not buffered: a send and a receive meet.  [break] returns, and the deferred
    [cancel] runs. *)
Inductive step : state → state → Prop :=
| step_meet s : gen s = GSelect → main s = MRecv →
    step s {| gen := GPrint; n := n s + 1; main := MBody (n s); cancelled := cancelled s; out := out s |}
| step_print s : gen s = GPrint →
    step s {| gen := GSelect; n := n s; main := main s; cancelled := cancelled s; out := out s ++ [incrementing (n s)] |}
| step_next s k : main s = MBody k → k ≠ 500%Z →
    step s {| gen := gen s; n := n s; main := MRecv; cancelled := cancelled s; out := out s |}
| step_break s : main s = MBody 500 →
    step s {| gen := gen s; n := n s; main := MReturned; cancelled := true; out := out s |}
| step_done s : gen s = GSelect → cancelled s = true →
    step s {| gen := GExit; n := n s; main := main s; cancelled := true; out := out s ++ ["done!"] |}.

(** What has been printed up to a number. *)
Definition printed (k : Z) : list string := incrementing <$> seqZ 2 (k - 1).
Lemma printed_snoc k : (1 ≤ k)%Z → printed (k + 1) = printed k ++ [incrementing (k + 1)].
Proof.
  intros Hk. unfold printed. replace (k + 1 - 1)%Z with ((k - 1) + 1)%Z by lia.
  rewrite seqZ_app by lia. rewrite fmap_app. do 2 f_equal. rewrite (seqZ_cons) by lia. cbn.
  replace (2 + (k - 1))%Z with (k + 1)%Z by lia. by replace (Z.pred 1) with 0%Z by lia.
Qed.

(** The numbers are received in order, the goroutine is at most one ahead and the
    context is cancelled when the loop is over. *)
Definition invariant (s : state) : Prop :=
  (1 ≤ n s ≤ 501)%Z ∧
  cancelled s = bool_decide (main s = MReturned) ∧
  match main s with
  | MRecv => (n s ≤ 500)%Z
  | MBody k => n s = (k + 1)%Z
  | MReturned => n s = 501%Z
  end ∧
  match gen s with
  | GSelect => out s = printed (n s)
  | GPrint => out s = printed (n s - 1) ∧ (2 ≤ n s)%Z
  | GExit => out s = printed 501 ++ ["done!"] ∧ main s = MReturned
  end.

Lemma gen_invariant_step s s' : invariant s → step s s' → invariant s'.
Proof.
  intros (Hn & Hc & Hm & Hg) H. unfold invariant. destruct H as [s G M|s G|s k M K|s M|s G C]; cbn.
  - rewrite M in *. rewrite G in Hg. split_and!; [lia|lia|done|done| |lia]. by replace (n s + 1 - 1)%Z with (n s) by lia.
  - rewrite G in Hg. destruct Hg as [Ho H2]. split_and!; [lia|lia|done|done|].
    rewrite Ho. replace (n s) with ((n s - 1) + 1)%Z at 2 3 by lia. symmetry. apply printed_snoc. lia.
  - rewrite M in *. split_and!; [lia|lia|done|lia|]. destruct (gen s); [done|done|by destruct Hg].
  - rewrite M in *. split_and!; [lia|lia|done|lia|]. destruct (gen s); [done|done|by destruct Hg].
  - rewrite G in Hg. rewrite C in Hc. symmetry in Hc. apply bool_decide_eq_true in Hc as Hr. rewrite Hr in *.
    split_and!; [lia|lia|done|done| |done]. by rewrite Hg, Hm.
Qed.

Lemma gen_reachable s : rtc step start s → invariant s.
Proof.
  assert (∀ a b, rtc step a b → invariant a → invariant b) as H.
  { induction 1; eauto using gen_invariant_step. }
  intros Hr. apply (H _ _ Hr). unfold invariant; cbn. split_and!; (done || lia).
Qed.

(** Every schedule ends: there are at most [measure start] steps, and one can be taken
    until both goroutines are over. *)
Definition measure (s : state) : Z :=
  (4 * (501 - n s) + match gen s with GSelect => 1 | GPrint => 2 | GExit => 0 end
   + match main s with MBody _ => 1 | _ => 0 end)%Z.

Theorem ContextWithCancel_terminates s : rtc step start s →
  (0 ≤ measure s)%Z ∧ (∀ s', step s s' → (measure s' < measure s)%Z) ∧
  ((∃ s', step s s') ∨ (main s = MReturned ∧ gen s = GExit)).
Proof.
  intros (Hn & Hc & Hm & Hg)%gen_reachable. split_and!.
  - unfold measure. destruct (gen s), (main s); lia.
  - intros s' H. unfold measure. destruct H as [s G M|s G|s k M K|s M|s G C]; cbn; rewrite ?G, ?M; try lia.
  - destruct (main s) as [|k|] eqn:M.
    + destruct (gen s) eqn:G; [left; eexists; by apply step_meet|left; eexists; by apply step_print|by destruct Hg].
    + left. destruct (decide (k = 500%Z)) as [->|]; eexists; [by apply step_break|by eapply step_next].
    + destruct (gen s) eqn:G; [left; eexists; apply step_done; [done|by rewrite Hc]|left; eexists; by apply step_print|by right].
Qed.

(** When the function returns the goroutine may still have to print its last number and
    to see that the context is cancelled; in the end it has printed 2 to 501 and is done. *)
Theorem ContextWithCancel_prints s : rtc step start s → main s = MReturned →
  out s = printed 500 ∧ gen s = GPrint ∨ out s = printed 501 ∧ gen s = GSelect ∨
  out s = printed 501 ++ ["done!"] ∧ gen s = GExit.
Proof.
  intros (Hn & Hc & Hm & Hg)%gen_reachable Hr. rewrite Hr in Hm. rewrite Hm in Hg.
  destruct (gen s); [right; left; done|left; by destruct Hg|right; right; by destruct Hg].
Qed.
End Context.

(** ** syncing-test/wait-group/waitgroup.go *)

Module WaitGroup.

(** [work], up to its deferred [wg.Done]. *)
Inductive worker_pc := WStarting | WSleeping | WFinishing | WDone | WExited.
Inductive main_pc := WSpawn (i : nat) | WWait | WReturned.
Inductive event := Starting (id : nat) | Finished (id : nat).
#[export] Instance event_eq_dec : EqDecision event.
Proof. solve_decision. Defined.
Definition event_id (e : event) : nat := match e with Starting id | Finished id => id end.
Definition event_line (e : event) : string :=
  match e with
  | Starting id => "Worker " +:+ FormatUint (N.of_nat id) +:+ " starting"
  | Finished id => "Worker " +:+ FormatUint (N.of_nat id) +:+ " done"
  end.

(** The worker at index [j] has the number [j + 1].  A counter below zero is a panic. *)
Record state := { main : main_pc; counter : Z; workers : list worker_pc; out : list event }.
Definition start : state := {| main := WSpawn 1; counter := 0; workers := []; out := [] |}.
Definition set_worker (j : nat) (p : worker_pc) (s : state) (c : Z) (es : list event) : state :=
  {| main := main s; counter := c; workers := <[j := p]> (workers s); out := out s ++ es |}.

Inductive step : state → state → Prop :=
| step_spawn s i : main s = WSpawn i → (i ≤ 5)%nat →
    step s {| main := WSpawn (S i); counter := counter s + 1; workers := workers s ++ [WStarting]; out := out s |}
| step_loop_end s i : main s = WSpawn i → (5 < i)%nat →
    step s {| main := WWait; counter := counter s; workers := workers s; out := out s |}
| step_wait s : main s = WWait → counter s = 0%Z →
    step s {| main := WReturned; counter := counter s; workers := workers s; out := out s |}
| step_starting s j : workers s !! j = Some WStarting → step s (set_worker j WSleeping s (counter s) [Starting (S j)])
| step_sleep s j : workers s !! j = Some WSleeping → step s (set_worker j WFinishing s (counter s) [])
| step_finish s j : workers s !! j = Some WFinishing → step s (set_worker j WDone s (counter s) [Finished (S j)])
| step_done s j : workers s !! j = Some WDone → (0 ≤ counter s - 1)%Z → step s (set_worker j WExited s (counter s - 1) []).

(** A worker that has not called [Done], and the steps it has left. *)
Definition alive (p : worker_pc) : nat := match p with WExited => 0 | _ => 1 end.
Definition rank (p : worker_pc) : nat :=
  match p with WStarting => 4 | WSleeping => 3 | WFinishing => 2 | WDone => 1 | WExited => 0 end.
Definition lines_of (id : nat) (p : worker_pc) : list event :=
  match p with
  | WStarting => []
  | WSleeping | WFinishing => [Starting id]
  | WDone | WExited => [Starting id; Finished id]
  end.
Definition events_of (id : nat) (es : list event) : list event := filter (λ e, event_id e = id) es.

Lemma sum_insert {A} (h : A → nat) l j p q : l !! j = Some p →
  (sum_list_with h (<[j := q]> l) + h p = sum_list_with h l + h q)%nat.
Proof.
  revert j; induction l as [|x l IH]; intros [|j]; [done..| |].
  - intros [= ->]. change (<[0%nat := q]> (p :: l)) with (q :: l). cbn. lia.
  - intros H. specialize (IH j H). change (<[S j := q]> (x :: l)) with (x :: <[j := q]> l). cbn. lia.
Qed.
Lemma sum_lookup {A} (h : A → nat) l j p : l !! j = Some p → (h p ≤ sum_list_with h l)%nat.
Proof. revert j; induction l as [|x l IH]; intros [|j]; cbn; [done..|intros [= ->]; lia|intros H; specialize (IH j H); lia]. Qed.

Record invariant (s : state) : Prop := {
  inv_main : match main s with
             | WSpawn i => i = S (length (workers s)) ∧ (i ≤ 6)%nat
             | WWait => length (workers s) = 5%nat
             | WReturned => length (workers s) = 5%nat ∧ counter s = 0%Z
             end;
  inv_counter : counter s = Z.of_nat (sum_list_with alive (workers s));
  inv_out : ∀ j, events_of (S j) (out s) = from_option (lines_of (S j)) [] (workers s !! j) }.

Lemma set_worker_out s j p q es c : invariant s → workers s !! j = Some p → lines_of (S j) p ++ es = lines_of (S j) q →
  Forall (λ e, event_id e = S j) es →
  ∀ k, events_of (S k) (out (set_worker j q s c es)) = from_option (lines_of (S k)) [] (workers (set_worker j q s c es) !! k).
Proof.
  intros Hs Hj Hl He k. cbn [set_worker out workers]. unfold events_of. rewrite filter_app.
  fold (events_of (S k) (out s)). rewrite (inv_out s Hs). destruct (decide (k = j)) as [->|Hk].
  - rewrite list_lookup_insert_eq by (by eapply lookup_lt_Some). rewrite Hj. cbn. rewrite <-Hl. f_equal.
    clear Hl. induction He as [|e es He _ IH]; [done|]. by rewrite filter_cons_True, IH.
  - rewrite list_lookup_insert_ne by done. rewrite <-(app_nil_r (from_option _ _ _)) at 2. f_equal.
    clear Hl. induction He as [|e es He _ IH]; [done|]. rewrite filter_cons_False; [done|]. rewrite He. lia.
Qed.

(** A step of a worker keeps the invariant, whatever the counter, if that is right. *)
Lemma set_worker_invariant s j p q es c : invariant s → workers s !! j = Some p → lines_of (S j) p ++ es = lines_of (S j) q →
  Forall (λ e, event_id e = S j) es → c = (counter s - Z.of_nat (alive p) + Z.of_nat (alive q))%Z → (0 < alive p)%nat →
  invariant (set_worker j q s c es).
Proof.
  intros Hs Hj Hl He Hc Hp. split; [| |by eapply set_worker_out].
  - cbn. rewrite length_insert. pose proof (inv_main s Hs) as Hm. destruct (main s); [done|done|]. destruct Hm as [? H0].
    rewrite (inv_counter s Hs) in H0. pose proof (sum_lookup alive _ _ _ Hj). lia.
  - cbn. rewrite (inv_counter s Hs) in Hc. pose proof (sum_insert alive _ _ _ q Hj). lia.
Qed.

Lemma group_invariant_step s s' : invariant s → step s s' → invariant s'.
Proof.
  intros Hs H. destruct H as [s i M Hi|s i M Hi|s M C|s j J|s j J|s j J|s j J C].
  - pose proof (inv_main s Hs) as Hm. rewrite M in Hm. split; cbn.
    + rewrite length_app. cbn. lia.
    + rewrite (inv_counter s Hs), sum_list_with_app. cbn. lia.
    + intros k. etransitivity; [apply (inv_out s Hs)|]. destruct (decide (k < length (workers s))%nat) as [Hk|Hk].
      * by rewrite lookup_app_l.
      * rewrite (lookup_ge_None_2 (workers s)) by lia. rewrite lookup_app_r by lia.
        destruct (k - length (workers s))%nat as [|n]; [done|by destruct n].
  - pose proof (inv_main s Hs) as Hm. rewrite M in Hm. split; cbn; [lia|apply Hs|apply Hs].
  - pose proof (inv_main s Hs) as Hm. rewrite M in Hm. split; cbn; [done|apply Hs|apply Hs].
  - eapply set_worker_invariant; eauto using Forall; cbn; lia.
  - eapply set_worker_invariant; eauto using Forall; cbn; lia.
  - eapply set_worker_invariant; eauto using Forall; cbn; lia.
  - eapply set_worker_invariant; eauto using Forall; cbn; lia.
Qed.

Lemma group_reachable s : rtc step start s → invariant s.
Proof.
  assert (∀ a b, rtc step a b → invariant a → invariant b) as H by (induction 1; eauto using group_invariant_step).
  intros Hr. apply (H _ _ Hr). split; cbn; [lia|done|done].
Qed.

(** When [WaitForWorker] returns, each of the five workers has started, finished and
    called [Done]. *)
Theorem WaitForWorker_waits s : rtc step start s → main s = WReturned →
  workers s = replicate 5 WExited ∧ ∀ id, (1 ≤ id ≤ 5)%nat → events_of id (out s) = [Starting id; Finished id].
Proof.
  intros Hs%group_reachable M. pose proof (inv_main s Hs) as Hm. rewrite M in Hm. destruct Hm as [Hl Hc].
  assert (workers s = replicate 5 WExited) as Hw.
  { symmetry. apply replicate_as_elem_of. split; [done|]. intros p (j & Hj)%list_elem_of_lookup.
    pose proof (sum_lookup alive _ _ _ Hj). rewrite (inv_counter s Hs) in Hc. destruct p; cbn in *; [lia..|done]. }
  split; [done|]. intros [|j] Hid; [lia|]. rewrite (inv_out s Hs), Hw. rewrite lookup_replicate_2 by lia. done.
Qed.

(** [Done] never takes the counter below zero and no schedule goes on for ever: the
    measure counts the steps left, and there is one until all goroutines are over. *)
Definition measure (s : state) : nat :=
  sum_list_with rank (workers s) + match main s with WSpawn i => 5 * (6 - i) + 2 | WWait => 1 | WReturned => 0 end.

Theorem WaitForWorker_terminates s : rtc step start s →
  (∀ s', step s s' → measure s' < measure s)%nat ∧
  ((∃ s', step s s') ∨ (main s = WReturned ∧ Forall (.= WExited) (workers s))).
Proof.
  intros Hs%group_reachable. split.
  - intros s' H. unfold measure.
    destruct H as [s i M Hi|s i M Hi|s M C|s j J|s j J|s j J|s j J C]; cbn; rewrite ?M, ?sum_list_with_app; cbn; try lia;
      match goal with |- context [sum_list_with rank (<[_ := ?q]> _)] => pose proof (sum_insert rank _ _ _ q J) as H end;
      cbn in H; lia.
  - destruct (decide (Forall (.= 0%nat) (alive <$> workers s))) as [Hall|Hex].
    + assert (Forall (.= WExited) (workers s)) as Hx.
      { apply Forall_fmap in Hall. eapply Forall_impl; [exact Hall|]. intros []; cbn; congruence. }
      assert (counter s = 0%Z) as C.
      { rewrite (inv_counter s Hs). clear -Hx. induction Hx as [|p l -> _ IH]; [done|]. cbn. lia. }
      destruct (main s) as [i| |] eqn:M; [|left; eexists; by apply step_wait|by right].
      left. destruct (decide (i ≤ 5)%nat); eexists; [by eapply step_spawn|eapply step_loop_end; [done|lia]].
    + left. apply not_Forall_Exists, Exists_exists in Hex as (a & (p & -> & (j & Hj)%list_elem_of_lookup)%list_elem_of_fmap & Ha); [|tc_solve].
      pose proof (sum_lookup alive _ _ _ Hj) as Hle. pose proof (inv_counter s Hs) as Hc.
      destruct p; [eexists; by eapply step_starting|eexists; by eapply step_sleep|eexists; by eapply step_finish| |by destruct Ha].
      eexists. eapply step_done; [exact Hj|]. cbn in Hle. lia.
Qed.
End WaitGroup.

(** ** real-world/test-example/goroutine.go *)

Module Service.

(** The caller of [Start] and the goroutine that it makes, whose result nobody takes. *)
Inductive caller_pc := CCall | CWaiting | CReturned (err : option string).
Inductive runner_pc := RNone | RStarted | RSleeping | RWoken | REnded (err : option string).
Record Service := { connected : bool; isRunning : bool; wg : Z }.
Definition NewService : Service := {| connected := false; isRunning := false; wg := 0 |}.
Record state := { service : Service; caller : caller_pc; runner : runner_pc }.
Definition start (s : Service) : state := {| service := s; caller := CCall; runner := RNone |}.
Definition wg_Add (d : Z) (s : Service) : Service :=
  {| connected := connected s; isRunning := isRunning s; wg := wg s + d |}.
Definition set_isRunning (s : Service) : Service :=
  {| connected := connected s; isRunning := true; wg := wg s |}.

(** [Start] and its goroutine; one that is connected returns without [Done]. *)
Inductive step : state → state → Prop :=
| step_start s : caller s = CCall →
    step s {| service := wg_Add 1 (service s); caller := CWaiting; runner := RStarted |}
| step_running s : runner s = RStarted →
    step s {| service := set_isRunning (service s); caller := caller s; runner := RSleeping |}
| step_woken s : runner s = RSleeping →
    step s {| service := service s; caller := caller s; runner := RWoken |}
| step_fail s : runner s = RWoken → connected (service s) = false →
    step s {| service := wg_Add (-1) (service s); caller := caller s; runner := REnded (Some "cannot start service!") |}
| step_connected s : runner s = RWoken → connected (service s) = true →
    step s {| service := service s; caller := caller s; runner := REnded None |}
| step_wait s : caller s = CWaiting → wg (service s) = 0%Z →
    step s {| service := service s; caller := CReturned None; runner := runner s |}.

(** The wait group counts the goroutine until it fails. *)
Definition invariant (c : bool) (s : state) : Prop :=
  connected (service s) = c ∧
  match runner s with
  | RNone => caller s = CCall ∧ wg (service s) = 0%Z
  | REnded e =>
      (caller s = CWaiting ∨ caller s = CReturned None ∧ c = false) ∧ isRunning (service s) = true ∧
      (e, wg (service s)) = if c then (None, 1%Z) else (Some "cannot start service!", 0%Z)
  | r => caller s = CWaiting ∧ wg (service s) = 1%Z ∧ (r ≠ RStarted → isRunning (service s) = true)
  end.

Lemma service_invariant_step c s s' : invariant c s → step s s' → invariant c s'.
Proof.
  unfold invariant. intros [Hc Hi] H. destruct H as [s C|s R|s R|s R F|s R F|s C W]; cbn.
  - rewrite C in Hi. destruct (runner s); try (by destruct Hi as [[=] ?]); [|by destruct Hi as [[|[]] ?]].
    destruct Hi as [_ ->]. done.
  - rewrite R in Hi. destruct Hi as (? & ? & _). done.
  - rewrite R in Hi. destruct Hi as (? & ? & Hr). split_and!; auto.
  - rewrite R in Hi. destruct Hi as (? & -> & Hr). rewrite <-Hc, F. split_and!; auto.
  - rewrite R in Hi. destruct Hi as (? & -> & Hr). rewrite <-Hc, F. split_and!; auto.
  - rewrite C in Hi. destruct (runner s); [by destruct Hi|destruct Hi as (_ & ? & _); lia..|].
    destruct Hi as (_ & ? & He). destruct c; [injection He; lia|]. split_and!; auto.
Qed.

Lemma service_reachable w s : wg w = 0%Z → rtc step (start w) s → invariant (connected w) s.
Proof.
  intros Hw. assert (∀ a b, rtc step a b → invariant (connected w) a → invariant (connected w) b) as H
    by (induction 1; eauto using service_invariant_step).
  intros Hr. apply (H _ _ Hr). done.
Qed.

Definition measure (s : state) : nat :=
  match runner s with RNone => 5 | RStarted => 4 | RSleeping => 3 | RWoken => 2 | REnded _ => 0 end +
  match caller s with CCall => 2 | CWaiting => 1 | CReturned _ => 0 end.

(** A service that is not connected: [Start] always returns, and returns no error; that
    of the goroutine is lost, and the service counts as running. *)
Theorem Start_loses_error s : rtc step (start NewService) s →
  (∀ s', step s s' → (measure s' < measure s)%nat) ∧
  ((∃ s', step s s') ∨
   caller s = CReturned None ∧ runner s = REnded (Some "cannot start service!") ∧ isRunning (service s) = true).
Proof.
  intros [Hc Hi]%service_reachable; [|done]. split.
  - intros s' H. unfold measure. destruct H as [s C|s R|s R|s R F|s R F|s C W]; cbn; rewrite ?R, ?C; try lia.
    rewrite C in Hi. destruct (runner s); [lia|by destruct Hi..|]. by destruct Hi as [[|[]] ?].
  - destruct (runner s) eqn:R.
    + left. eexists. by apply step_start, Hi.
    + left. eexists. by apply step_running.
    + left. eexists. by apply step_woken.
    + left. eexists. by apply step_fail.
    + destruct Hi as ([C|[C _]] & Hr & [= -> Hw]); [left; eexists; by apply step_wait|by right].
Qed.

(** A connected one: [Start] never returns, and comes to a state where nothing can run. *)
Theorem Start_connected_blocks w : connected w = true → wg w = 0%Z →
  (∀ s e, rtc step (start w) s → caller s ≠ CReturned e) ∧
  (∃ s, rtc step (start w) s ∧ caller s = CWaiting ∧ ∀ s', ¬ step s s').
Proof.
  intros Hc Hw. split.
  - intros s e [_ Hi]%service_reachable Hr; [|done]. rewrite Hc, Hr in Hi.
    destruct (runner s); [by destruct Hi..|]. by destruct Hi as [[|[]] ?].
  - exists {| service := set_isRunning (wg_Add 1 w); caller := CWaiting; runner := REnded None |}. split_and!; [|done|].
    + eapply rtc_l; [by apply step_start|]. eapply rtc_l; [by apply step_running|].
      eapply rtc_l; [by apply step_woken|]. eapply rtc_l; [by apply step_connected|]. reflexivity.
    + intros s' H. inversion H; subst; cbn in *; try discriminate. lia.
Qed.
End Service.
